(* ===== verification/_CoqProject ===== *)
-Q . S2P
Prelude.v
F64.v
F64Exact.v
PktQueue.v
QueueBase.v
DropTail.v
Prio.v
Sched.v
ListSched.v
QueueEquiv.v
HeapSched.v
SplaySched.v
CalendarTime.v
Calendar.v
CalendarFacts.v
CalendarRep.v
CalendarSearch.v
CalendarOps.v
CalendarProps.v
Timer.v
Rq.v
Ecn.v
TcpAgent.v
Tcp.v
TcpPrio.v
EcnReceive.v
TcpSack.v
TcpCong.v
FullTcp.v
FullTcpRecv.v
FullTcpSpec.v
FullTcpRefine.v
FullTcpRecvRefine.v
FullTcpProps.v
FullTcpSend.v
FullTcpDelivery.v
FullTcpNet.v
Rng.v
RngSpec.v
RngExact.v
RngProps.v
RanVar.v
Link.v
App.v
MapSched.v
Route.v
RouteSpec.v
RouteFacts.v
RouteProps.v
Classifier.v
ClassifierFacts.v
MultiPath.v
Forward.v
ForwardProps.v
