(* ===== verification/Prelude.v ===== *)
(** * Verification of the aFabric network simulator core

    The repository extends the ns-2 network simulator with data-centre
    transports and queues: pFabric-like drop-tail queues that drop and serve
    by priority, a strict priority queue with ECN marking, the full-duplex TCP
    agents with SACK, DCTCP, D2TCP and the aFabric way of assigning
    priorities.  A simulation is a set of objects that call each other and a
    clock: the scheduler dispatches events in time order; timers and links are
    handlers of such events; a TCP agent turns packets, time-outs and commands
    into packets for its node; a packet passes from a queue over a link to the
    next node.  This library models that core, function by function, and
    proves what each part promises to the others.

    ** Foundations

    - [Prelude]: record update, the result type [res] with its faults ([Throw]
      for exceptions, [Abort] for abort and exit, [UB] for undefined
      behaviour: null pointers, overflow of signed 32-bit arithmetic, access
      out of bounds; [Fuel] for loops), checked arithmetic, arrays of doubling
      capacity, counting loops and the rule for their invariants, list lemmas,
      tactics.
    - [F64]: the type double as IEEE binary64.  [F64Exact]: doubles as the
      numbers they stand for: which operations are exact, and that rounding is
      monotone.

    ** The event core (src/ns2/common)

    - [Sched]: [Event], [Scheduler] (scheduler.h, scheduler.cc): schedule,
      dispatch, run, reset, over the interface [EventQueue] with the laws
      [EventQueueLaws].
    - [ListSched], [HeapSched] (heap.h), [SplaySched] (splay-scheduler.cc):
      implementations of the interface.  [QueueEquiv]: a simulation runs the
      same with each of them, and, with the weaker laws [GuardedLaws], with a
      queue that is right only while a condition on its state holds.
    - [Calendar]: the calendar scheduler, the default of a simulation: the
      buckets, their width and the statistics it is chosen by, over doubles.
      [CalendarTime]: the day and bucket of a time.  [CalendarRep]: the
      invariant of the buckets, with the facts on one bucket of
      [CalendarFacts].  [CalendarSearch]: the search for the next event.
      [CalendarOps]: each operation keeps the invariant.  [CalendarProps]: it
      implements [GuardedLaws].
    - [MapSched] (scheduler-map.cc): keeps a sorted set, but its deque is
      undefined behaviour.
    - [Timer]: [TimerHandler] (timer-handler.h, timer-handler.cc).

    Theorems: events are dispatched in order of time and of scheduling, cancel
    and dispatch never abort on legal use, the heap and the tree keep their
    orders, a run does not depend on the event queue, a timer has at most one
    event queued, exactly while it is pending.  The calendar finds the first
    event and a run does not differ with it, while each width it chooses is
    a normal double and no queued time is beyond 2^48 days of that width
    (beyond, the index of a day is rounded): the tests [insert_fits] and
    [deque_fits] compute this from the state.

    ** The queues (src/ns2/queue)

    - [PktQueue]: [Packet] and [PacketQueue] (queue.h, queue.cc) with its
      pointers; the interface [PacketFifo].
    - [QueueBase]: [Queue] (queue.h, queue.cc): recv, resume, reset, over the
      interface [Discipline].
    - [DropTail]: drop-tail.h, drop-tail.cc with all policies, and
      [BadTracking], its packet queue that counts bad packets.
    - [Prio]: priority.h, priority.cc.

    Theorems: no policy loses, duplicates or reorders packets; which packet is
    dropped and which is served; limits and marks; the eight queues of
    [Prio] are one list sorted by class; the link is busy exactly while a
    packet is on it and packets wait only behind a busy link.

    ** The link (src/ns2/link)

    - [Link]: [LinkDelay] (delay.h, delay.cc): recv, send, reset and the
      handler; [Hop], the composition of a queue, its link and the scheduler,
      whose turns are arrivals of packets and events.

    Theorems: the hop is an implementation of the machine [QueueBase] assumes
    (the queue is asked for a packet exactly once for each packet it gave),
    the scheduler never finds an event queued twice or in the past, and every
    packet given to a link leaves it at its time.

    ** Routes and nodes (src/ns2/routing, src/ns2/classifier, src/ns2/common)

    - [Route]: [RouteLogic] with flat addresses (route.h, route.cc): the
      matrix of costs that insert and reset change, and compute_routes, which
      fills the table of next hops.  [RouteSpec]: walks over weighted links,
      and the invariant of Dijkstra's algorithm on functions.  [RouteFacts]:
      the loops over arrays of doubles do the steps of [RouteSpec].
      [RouteProps]: the consequences.
    - [Classifier]: [Classifier] (classifier.h, classifier.cc), the table of
      objects a packet is sent through, and its derived classes by address, by
      port, by hash table and over several paths (classifier-addr,
      classifier-port, classifier-hash, classifier-mpath.cc), over the
      interface [Classify]; [Connector] (connector.h, connector.cc) and
      [TTLChecker] (ttl.cc).  [ClassifierFacts]: the table as a function.
      [MultiPath]: properties of [MultiPathForwarder].
    - [Forward]: [Node] (node.cc) with its [RoutingModule]s (rtmodule.cc) and
      [Simulator] (simulator.cc), which puts the computed routes into the
      classifiers of the nodes.  [ForwardProps]: the composition.

    Theorems: for whole link costs from 1 to 16382, which lie below the code's
    INFINITY 0x3fff, and fewer than 32767 nodes, compute_routes succeeds and
    its table leads from each node to each other over a cheapest path, or
    nowhere if none is cheaper than INFINITY (a dearer link, or a table that
    has grown, can be misread: [expensive_link_misroutes],
    [growing_forgets_entries]); a destination classifier is a map from
    addresses to objects; a packet sent through the filled nodes goes over a
    cheapest path and arrives unless its time to live ends on the way; a
    multipath forwarder gives each used path one of as many consecutive
    packets as there are paths, or sends all packets of a flow the same way.

    ** The transport (src/ns2/tcp)

    - [Rq]: [ReassemblyQueue] (rq.h, rq.cc), used for received data and as the
      scoreboard of the sender.
    - [Ecn], [EcnReceive]: header flags (common/flags.h), trackers and
      processor of congestion notification (directory ecn), the echo of a receiver.
    - [TcpAgent]: the base class (tcp.h, tcp.cc): window, slowdown, growth,
      round-trip time.  [TcpCong]: the reactions to congestion.
    - [Tcp]: the members of [FullTcpAgent] and its derived classes
      (tcp-full.h).  [TcpPrio]: priorities of packets.  [TcpSack]: scoreboard
      and choice of the next sequence number.
    - [FullTcp]: sending, resetting, the commands of the application
      (tcp-full.cc).  [FullTcpRecv]: recv with all states, the
      actions of the derived classes on acknowledgements, and the timers.
    - [FullTcpSpec]: an abstract connection.  [FullTcpRefine],
      [FullTcpRecvRefine]: every function of the agent only makes steps of it.
      [FullTcpProps]: the consequences for whole runs of packets, time-outs
      and commands.  [FullTcpSend]: the send loop ends.  [FullTcpDelivery]:
      data is delivered exactly once and in order.  [FullTcpNet]: two agents
      and a network that loses, delays, reorders and repeats packets.

    Theorems: an agent of any class, under any packets, follows the state
    diagram of RFC 793, sends only what it was given in segments that fit, and
    takes as acknowledged only what it sent; what the agent at one end of a
    network takes for acknowledged has been delivered at the other; the
    reassembly queue holds exactly the bytes added; data is delivered once; a
    sender of a flow of known length never loops; the echo of a DCTCP receiver
    is exact; the window, its estimate alpha and the time-out keep their
    bounds; priorities are what the schemes say.

    ** Random numbers (src/ns2/tools)

    - [Rng] (rng.h, rng.cc): the combined multiple recursive generator
      MRG32k3a as the code has it, in doubles, with its streams, substreams,
      seeding and the distributions made of it.  [RngSpec]: the same generator
      on integers and matrices.  [RngExact]: the doubles of the first are the
      integers of the second.  [RngProps]: the consequences.
    - [RanVar] (ranvar.h, ranvar.cc): the random variables of the scripts, with
      the empirical distributions flow sizes are drawn from.

    Theorems: no rounding happens in the recurrence, its seeds stay well
    formed, the streams are 2^127 steps apart, going back undoes going
    forward, an integer drawn is in its range, and an empirical distribution
    is inverted by binary search, which ends.

    ** Applications (src/ns2/apps)

    - [App]: [ChunksApplication] (app-chunks.h, app-chunks.cc),
      [PIASApplication], [Application]: the sends a flow is cut into.

    Theorems: the chunks of a flow are its bytes, the first and the last
    marked, and every other outcome of a command is one named error.

    ** Conventions

    An object is a record with the members' names; a member function is a
    function from the object (and the memory of packets) to [res] of the new
    one.  A virtual call is a case on the class or a method of a type class.
    Effects on other objects (packets sent or dropped, bytes handed to the
    application) are returned or collected in a list, in order.  int is [Z]
    with overflow an error ([iadd], [isub], [imul]), unsigned int is taken
    modulo 2^32, short is wrapped, double is [F64].  The functions of
    the C library ([pow], [exp], [log], class [Libm]) and
    [std::generate_canonical] are parameters without hypotheses; so are, in
    the queues and agents, the random numbers they draw, and, in the
    classifiers and nodes, the Tcl code that is asked for a slot or a flow
    without an object ([no_slot], [unknown_flow]) or for the head of a link
    ([link_head]).  The hash table of the Tcl library is the class [TclHash];
    its laws [TclHashLaws] say that it is a map, and hold for [gmap].

    Fuel: a walk through a list, heap or tree has its length or height as
    fuel, and is shown not to use it up; so has the search of the calendar
    the number of its buckets; [nxt_tseq] has the bytes of the
    scoreboard ([nxt_tseq_hole]); the send loop has [send_fuel]
    ([send_much_terminates]); [Scheduler.run] has the number of turns, as a
    simulation may go on for ever.  The binary search of a table has its
    length ([empirical_inverts]); the rejection loops of the normal and gamma
    variables have a number of tries, as their end depends on the numbers
    drawn.  An array that doubles until it holds an index has 32 turns, as
    the index is an int ([doubled_above]); the search for a used path has the
    length of the table; a way through the routes has 16383 hops, as each
    costs at least 1 and the whole less than INFINITY.  Other functions are
    structural.

    ** Not modelled

    Tcl binding and the names of commands, tracing and debugging output, the
    allocation of packets (a packet sent is a value; memory is not
    exhausted), the real-time scheduler (it waits for the wall clock), the
    one-way TCP agents, Quick-Start, the
    calls of an application back into the agent during a notification, the
    links that change the packets under way, hierarchical addresses and their
    routes, multicast replication.  The rest of the repository is the ns-2 distribution the experiments do not
    configure: wireless, satellite, multicast, other transports and queues.

    Plan: the hops under the nodes of [Forward], so that the network of
    [FullTcpNet] is the one of the links and queues; the round trip of
    SACK blocks from receiver to sender. *)

From Stdlib Require Import ZArith Lia Bool Sorted.
From stdpp Require Import base list gmap.

(** ** Functional record update

    [s <| f := v |>] is the record [s] with field [f] replaced by [v].  A
    record type opts in with an instance of [Eta], its eta expansion; the
    setter of a projection is then found by abstracting that projection. *)

Class Eta (R : Type) := eta_expand : R -> R.

Class FieldUpdate {R T : Type} (proj : R -> T) := field_update : (T -> T) -> R -> R.

Ltac solve_field_update :=
  match goal with
  | |- @FieldUpdate ?R ?T ?proj =>
      let inst := constr:(_ : Eta R) in
      exact (fun (f : T -> T) (r : R) =>
        ltac:(let body := eval hnf in (inst r) in
              match eval pattern (proj r) in body with
              | ?g _ => let upd := eval cbv beta in (g (f (proj r))) in exact upd
              end))
  end.

#[export] Hint Extern 1 (FieldUpdate _) => solve_field_update : typeclass_instances.

Declare Scope ns_scope.
Delimit Scope ns_scope with ns.
Notation "s <| f := v |>" := (field_update (proj := f) (fun _ => v) s)
  (at level 1, f at next level, left associativity) : ns_scope.
Open Scope ns_scope.
Open Scope Z_scope.

Arguments field_update {R T} proj {_} _ _ /.

(** ** Outcomes of C++ code

    [Abort]: the code calls [abort ()] or [exit ()]; [Throw]: it throws an
    exception; [UB]: it dereferences a null or dangling pointer or breaks
    another rule of the language; [Fuel]: the model's loop bound was too
    small (theorems show it is not reached). *)

Inductive fault := Abort | Throw | UB | Fuel.

Inductive res (A : Type) := Ok (a : A) | Err (e : fault).
Arguments Ok {A} a.
Arguments Err {A} e.

#[export] Instance fault_eq_dec : EqDecision fault.
Proof. solve_decision. Defined.

Definition res_bind {A B} (m : res A) (k : A -> res B) : res B :=
  match m with Ok a => k a | Err e => Err e end.

Notation "'let!' x ':=' m 'in' k" := (res_bind m (fun x => k))
  (at level 10, x pattern, m at level 100, k at level 200) : ns_scope.

(** Reading through a pointer: undefined behaviour when it is null or
    dangling. *)
Definition deref {A} (o : option A) : res A :=
  match o with Some a => Ok a | None => Err UB end.

Lemma res_bind_Ok {A B} (m : res A) (k : A -> res B) b :
  res_bind m k = Ok b <-> exists a, m = Ok a /\ k a = Ok b.
Proof. destruct m; cbn; naive_solver. Qed.

Lemma deref_Ok {A} (o : option A) a : deref o = Ok a <-> o = Some a.
Proof. destruct o; cbn; naive_solver. Qed.

(** ** Fixed-width integers *)

(** A value fits a C++ [int]. *)
Definition in_int (z : Z) : Prop := - 2 ^ 31 <= z < 2 ^ 31.

Definition in_intb (z : Z) : bool := (- 2 ^ 31 <=? z) && (z <? 2 ^ 31).

(** Wrap-around of [unsigned int] arithmetic. *)
Definition u32 (z : Z) : Z := z mod 2 ^ 32.

Lemma in_intb_spec z : in_intb z = true <-> in_int z.
Proof. unfold in_intb, in_int. rewrite andb_true_iff, Z.leb_le, Z.ltb_lt. done. Qed.

Lemma u32_small z : 0 <= z < 2 ^ 32 -> u32 z = z.
Proof. apply Z.mod_small. Qed.

Lemma u32_range z : 0 <= u32 z < 2 ^ 32.
Proof. apply Z.mod_pos_bound; lia. Qed.

(** Checked [int] arithmetic: an overflow is undefined behaviour. *)
Definition chk (z : Z) : res Z := if in_intb z then Ok z else Err UB.

Definition iadd (a b : Z) : res Z := chk (a + b).
Definition isub (a b : Z) : res Z := chk (a - b).
Definition imul (a b : Z) : res Z := chk (a * b).

Lemma chk_ok z : in_int z -> chk z = Ok z.
Proof. intros H. unfold chk. by rewrite (proj2 (in_intb_spec z) H). Qed.

Lemma chk_inv z z' : chk z = Ok z' -> z' = z /\ in_int z.
Proof.
  unfold chk. destruct (in_intb z) eqn:E; [|done]. apply in_intb_spec in E. by intros [= <-].
Qed.

Lemma isub_ok a b : in_int (a - b) -> isub a b = Ok (a - b).
Proof. apply chk_ok. Qed.

Lemma iadd_ok a b : in_int (a + b) -> iadd a b = Ok (a + b).
Proof. apply chk_ok. Qed.

(** ** Arrays

    Access by an [int]; outside the array it is undefined behaviour. *)

Definition aget {A} (l : list A) (i : Z) : res A := if i <? 0 then Err UB else deref (l !! Z.to_nat i).

Definition aset {A} (l : list A) (i : Z) (a : A) : res (list A) :=
  if (i <? 0) || (Z.of_nat (length l) <=? i) then Err UB else Ok (<[Z.to_nat i := a]> l).

Lemma aget_lt {A} (l : list A) i a : aget l i = Ok a -> 0 <= i < Z.of_nat (length l).
Proof.
  unfold aget. destruct (Z.ltb_spec i 0) as [|Hi]; [done|]. intros E%deref_Ok%lookup_lt_Some. lia.
Qed.

Lemma aget_ok {A} (l : list A) i : 0 <= i < Z.of_nat (length l) -> exists a, aget l i = Ok a.
Proof.
  intros Hi. unfold aget. rewrite (proj2 (Z.ltb_ge _ _)) by lia.
  destruct (l !! Z.to_nat i) as [a|] eqn:E; [by exists a|]. apply lookup_ge_None in E. lia.
Qed.

Lemma aset_ok {A} (l : list A) i a :
  0 <= i < Z.of_nat (length l) ->
  exists l', aset l i a = Ok l' /\ length l' = length l /\ forall j, aget l' j = if j =? i then Ok a else aget l j.
Proof.
  intros Hi. exists (<[Z.to_nat i := a]> l). unfold aset.
  rewrite (proj2 (Z.ltb_ge _ _)), (proj2 (Z.leb_gt _ _)) by lia. split; [done|]. split; [apply length_insert|].
  intros j. unfold aget. destruct (Z.ltb_spec j 0) as [H|H], (Z.eqb_spec j i) as [->|Hne]; [lia|done|..].
  - rewrite list_lookup_insert_eq by lia. done.
  - rewrite list_lookup_insert_ne by lia. done.
Qed.

Lemma aget_replicate {A} (m : Z) (a : A) i : 0 <= i < m -> aget (replicate (Z.to_nat m) a) i = Ok a.
Proof.
  intros Hi. unfold aget. rewrite (proj2 (Z.ltb_ge _ _)) by lia. by rewrite lookup_replicate_2 by lia.
Qed.

(** [while (m <= n) m <<= 1;] *)
Fixpoint doubled (fuel : nat) (m n : Z) : res Z :=
  if m <=? n then
    match fuel with O => Err Fuel | S fuel => let! m := imul m 2 in doubled fuel m n end
  else Ok m.

Lemma doubled_above fuel m n :
  1 <= m -> n < 2 ^ 30 -> n < m * 2 ^ Z.of_nat fuel -> in_int m ->
  exists m', doubled fuel m n = Ok m' /\ m <= m' /\ n < m' /\ in_int m'.
Proof.
  revert m. induction fuel as [|fuel IH]; intros m Hm Hn Hf Hi; cbn [doubled]; destruct (Z.leb_spec m n) as [H|H].
  - cbn in Hf. lia.
  - exists m. split; [done|]. split; [lia|done].
  - unfold in_int in Hi. unfold imul. rewrite chk_ok by (unfold in_int; lia). cbn [res_bind].
    rewrite Nat2Z.inj_succ, Z.pow_succ_r in Hf by lia.
    destruct (IH (m * 2)) as (m' & -> & H1 & H2); [lia|lia|lia|unfold in_int; lia|]. exists m'. split; [done|]. split; [lia|done].
  - exists m. split; [done|]. split; [lia|done].
Qed.

(** ** Counting loops

    [for (i = a; i < b; ++i)] with a body that changes the state [s]. *)

Fixpoint for_from {S} (n : nat) (i : Z) (f : Z -> S -> res S) (s : S) : res S :=
  match n with
  | O => Ok s
  | Datatypes.S n => let! s := f i s in for_from n (i + 1) f s
  end.

Definition for_range {S} (a b : Z) (f : Z -> S -> res S) (s : S) : res S := for_from (Z.to_nat (b - a)) a f s.

(** A loop whose body never fails keeps its invariant and ends. *)
Lemma for_range_inv {S} (P : Z -> S -> Prop) a b (f : Z -> S -> res S) s :
  a <= b -> P a s -> (forall i s, a <= i < b -> P i s -> exists s', f i s = Ok s' /\ P (i + 1) s') ->
  exists s', for_range a b f s = Ok s' /\ P b s'.
Proof.
  intros Hab H0 Hf. unfold for_range. remember (Z.to_nat (b - a)) as n eqn:En.
  revert a s Hab H0 Hf En. induction n as [|n IH]; intros a s Hab H0 Hf En; cbn [for_from].
  { exists s. split; [done|]. by replace b with a by lia. }
  destruct (Hf a s ltac:(lia) H0) as (s' & -> & H1). cbn [res_bind]. apply IH; [lia|done| |lia].
  intros i s1 Hi. apply Hf. lia.
Qed.

(** ** Lists *)

Definition sum_Z {A} (f : A -> Z) (l : list A) : Z := foldr (fun a s => f a + s) 0 l.

Lemma sum_Z_app {A} (f : A -> Z) l k : sum_Z f (l ++ k) = sum_Z f l + sum_Z f k.
Proof. unfold sum_Z. induction l; cbn; lia. Qed.

Lemma sum_Z_perm {A} (f : A -> Z) l k : l ≡ₚ k -> sum_Z f l = sum_Z f k.
Proof. unfold sum_Z. induction 1; cbn; lia. Qed.

Lemma sum_Z_nonneg {A} (f : A -> Z) l : Forall (fun a => 0 <= f a) l -> 0 <= sum_Z f l.
Proof. unfold sum_Z. induction 1; cbn; lia. Qed.

Lemma sum_Z_ext {A} (f g : A -> Z) l :
  (forall a, a ∈ l -> f a = g a) -> sum_Z f l = sum_Z g l.
Proof.
  unfold sum_Z. induction l as [|a l IH]; cbn; intros H; [done|].
  rewrite (H a), IH; set_solver.
Qed.

Lemma sum_Z_zero {A} (f : A -> Z) l :
  Forall (fun a => 0 < f a) l -> sum_Z f l <= 0 -> l = [].
Proof.
  intros H Hs. destruct H as [|a l Ha Hl]; [done|]. exfalso.
  assert (0 <= sum_Z f l) as Hn.
  { apply sum_Z_nonneg. eapply Forall_impl; [exact Hl|]. cbn. lia. }
  unfold sum_Z in *. cbn in Hs. lia.
Qed.

Lemma snoc_cases {A} (l : list A) : l = [] \/ exists l' x, l = l' ++ [x].
Proof. destruct l as [|x l _] using rev_ind; [by left|right; eauto]. Qed.

Lemma filter_none {A} (P : A -> Prop) `{forall x, Decision (P x)} (l : list A) :
  Forall (fun x => ~ P x) l -> filter P l = [].
Proof. induction 1 as [|x l Hx _ IH]; [done|]. by rewrite filter_cons_False. Qed.

Lemma filter_all {A} (P : A -> Prop) `{forall x, Decision (P x)} (l : list A) :
  Forall P l -> filter P l = l.
Proof. induction 1 as [|x l Hx _ IH]; [done|]. by rewrite filter_cons_True, IH. Qed.

Lemma filter_ext_elem {A} (P Q : A -> Prop) `{forall x, Decision (P x)} `{forall x, Decision (Q x)} (l : list A) :
  (forall x, x ∈ l -> P x <-> Q x) -> filter P l = filter Q l.
Proof.
  induction l as [|x l IH]; [done|]. intros Hl. specialize (IH ltac:(intros; apply Hl; set_solver)).
  rewrite !filter_cons, IH. pose proof (Hl x ltac:(set_solver)).
  destruct (decide (P x)), (decide (Q x)); tauto.
Qed.

(** Removing the first occurrence of an element. *)
Fixpoint remove_one {A} `{EqDecision A} (x : A) (l : list A) : list A :=
  match l with
  | [] => []
  | y :: l' => if decide (y = x) then l' else y :: remove_one x l'
  end.

Section remove_one.
Context {A : Type} `{EqDecision A}.
Implicit Types (x y : A) (l : list A).

Lemma remove_one_split x l1 l2 : x ∉ l1 -> remove_one x (l1 ++ x :: l2) = l1 ++ l2.
Proof.
  induction l1 as [|y l1 IH]; cbn; intros Hx.
  - by rewrite decide_True.
  - rewrite decide_False by set_solver. f_equal. apply IH. set_solver.
Qed.

Lemma remove_one_perm x l : x ∈ l -> l ≡ₚ x :: remove_one x l.
Proof.
  induction l as [|y l IH]; cbn; intros Hx; [set_solver|].
  destruct (decide (y = x)) as [->|Hne]; [done|].
  rewrite Permutation_swap. f_equiv. apply IH. set_solver.
Qed.

Lemma remove_one_not_in x l : x ∉ l -> remove_one x l = l.
Proof.
  induction l as [|y l IH]; cbn; intros Hx; [done|].
  rewrite decide_False by set_solver. f_equal. apply IH. set_solver.
Qed.

Lemma remove_one_sublist x l : remove_one x l `sublist_of` l.
Proof.
  induction l as [|y l IH]; cbn; [constructor|].
  destruct (decide _); by constructor.
Qed.

Lemma elem_of_remove_one x y l : NoDup l -> y ∈ remove_one x l <-> y <> x /\ y ∈ l.
Proof.
  induction 1 as [|z l Hz Hl IH]; cbn; [set_solver|].
  destruct (decide (z = x)) as [->|Hne]; set_solver.
Qed.

Lemma NoDup_remove_one x l : NoDup l -> NoDup (remove_one x l).
Proof. intros H. eapply sublist_NoDup; [done|apply remove_one_sublist]. Qed.

Lemma remove_one_app_l x l k : x ∈ l -> remove_one x (l ++ k) = remove_one x l ++ k.
Proof.
  induction l as [|y l IH]; cbn; intros Hx; [set_solver|].
  destruct (decide (y = x)); [done|]. rewrite IH; [done|set_solver].
Qed.

Lemma length_remove_one x l : x ∈ l -> length l = S (length (remove_one x l)).
Proof. intros Hx. by rewrite (Permutation_length (remove_one_perm _ _ Hx)). Qed.
End remove_one.

Lemma elem_of_concat {A} (x : A) (ls : list (list A)) :
  x ∈ concat ls <-> exists l, x ∈ l /\ l ∈ ls.
Proof.
  induction ls as [|l ls IH]; cbn [concat]; [set_solver|].
  rewrite elem_of_app, IH. set_solver.
Qed.

Lemma perm_nil_app {A} (l k : list A) : [] ≡ₚ l ++ k -> l = [] /\ k = [].
Proof. intros H. apply Permutation_nil_l in H. by apply app_eq_nil. Qed.

(** Permutations by counting occurrences. *)
Definition occ {A} `{EqDecision A} (x : A) (l : list A) : nat :=
  foldr (fun y n => ((if decide (y = x) then 1 else 0) + n)%nat) 0%nat l.

Definition occ1 {A} `{EqDecision A} (x y : A) : nat := if decide (y = x) then 1%nat else 0%nat.

Section occ.
Context {A : Type} `{EqDecision A}.
Implicit Types (x y : A) (l k : list A).

Lemma occ_nil x : occ x [] = 0%nat.
Proof. done. Qed.

Lemma occ_cons x y l : occ x (y :: l) = (occ1 x y + occ x l)%nat.
Proof. done. Qed.

Lemma occ_app x l k : occ x (l ++ k) = (occ x l + occ x k)%nat.
Proof. induction l as [|y l IH]; [done|]. cbn [app]. rewrite !occ_cons, IH. lia. Qed.

Lemma occ_perm x l k : l ≡ₚ k -> occ x l = occ x k.
Proof. unfold occ. induction 1; cbn; lia. Qed.

Lemma occ_pos x l : x ∈ l <-> (0 < occ x l)%nat.
Proof.
  induction l as [|y l IH]; cbn; [set_solver by lia|]. rewrite elem_of_cons, IH.
  destruct (decide (y = x)); intuition (auto; try lia). congruence.
Qed.

Lemma perm_occ l k : (forall x, occ x l = occ x k) -> l ≡ₚ k.
Proof.
  revert k. induction l as [|y l IH]; intros k H.
  - destruct k as [|z k]; [done|]. specialize (H z). cbn in H. rewrite decide_True in H by done. lia.
  - assert (y ∈ k) as Hy.
    { apply occ_pos. rewrite <- H. cbn. rewrite decide_True by done. lia. }
    rewrite (remove_one_perm y k Hy). f_equiv. apply IH. intros x. specialize (H x).
    rewrite (occ_perm x k _ (remove_one_perm y k Hy)), !occ_cons in H. lia.
Qed.

Lemma occ_None x : occ x (option_list None) = 0%nat.
Proof. done. Qed.

Lemma occ_Some x y : occ x (option_list (Some y)) = occ1 x y.
Proof. unfold occ. cbn. unfold occ1. lia. Qed.

Lemma occ_rev x l : occ x (rev l) = occ x l.
Proof. induction l as [|y l IH]; [done|]. cbn [rev]. rewrite occ_app, !occ_cons, IH, occ_nil. lia. Qed.
End occ.

(** ** Sorted lists *)

Lemma StronglySorted_snoc {A} (R : A -> A -> Prop) l x :
  StronglySorted R l -> Forall (fun y => R y x) l -> StronglySorted R (l ++ [x]).
Proof.
  intros Hs. induction Hs as [|y l _ IH Hy]; intros Hx; cbn [app]; [by repeat constructor|].
  apply Forall_cons in Hx as [Hyx Hx]. constructor; [by apply IH|]. apply Forall_app.
  split; [done|by constructor].
Qed.

Lemma StronglySorted_rev {A} (R : A -> A -> Prop) l :
  StronglySorted (fun x y => R y x) l -> StronglySorted R (rev l).
Proof.
  induction 1 as [|x l _ IH Hx]; [constructor|]. cbn [rev]. apply StronglySorted_snoc; [done|].
  apply Forall_forall. intros y Hy. apply list_elem_of_In, in_rev, list_elem_of_In in Hy.
  rewrite Forall_forall in Hx. by apply Hx.
Qed.

(** ** Stable insertion

    [stable_insert leb x l] puts [x] behind the elements of [l] that are not
    greater, in front of the first greater one. *)

Fixpoint stable_insert {A} (leb : A -> A -> bool) (x : A) (l : list A) : list A :=
  match l with
  | [] => [x]
  | y :: l' => if leb y x then y :: stable_insert leb x l' else x :: l
  end.

Section stable_insert.
Context {A : Type} (leb : A -> A -> bool).
Implicit Types (x y : A) (l k : list A).

Lemma stable_insert_split x l k :
  Forall (fun y => leb y x = true) l -> Forall (fun y => leb y x = false) (take 1 k) ->
  stable_insert leb x (l ++ k) = l ++ x :: k.
Proof.
  intros Hl Hk. induction Hl as [|y l Hy _ IH]; cbn [app stable_insert].
  - destruct k as [|z k]; [done|]. cbn. apply Forall_cons in Hk as [Hz _]. by rewrite Hz.
  - by rewrite Hy, IH.
Qed.

Lemma stable_insert_perm x l : stable_insert leb x l ≡ₚ x :: l.
Proof.
  induction l as [|y l IH]; cbn [stable_insert]; [done|]. destruct (leb y x); [|done].
  rewrite IH. apply Permutation_swap.
Qed.

Lemma stable_insert_ex x l :
  exists l1 l2, l = l1 ++ l2 /\ stable_insert leb x l = l1 ++ x :: l2.
Proof.
  induction l as [|y l (l1 & l2 & -> & IH)]; cbn [stable_insert]; [by exists [], []|].
  destruct (leb y x); [|by exists [], (y :: l1 ++ l2)].
  exists (y :: l1), l2. by rewrite IH.
Qed.
End stable_insert.

(** ** Automation *)

Create Rewrite HintDb occ.
#[export] Hint Rewrite @occ_nil @occ_cons @occ_app @occ_rev @occ_None @occ_Some : occ.

(** Permutation goals over [++], [::] and [rev] from permutation hypotheses. *)
Ltac solve_perm :=
  apply perm_occ; let x := fresh "x" in intros x;
  repeat match goal with H : _ ≡ₚ _ |- _ => apply (occ_perm x) in H end;
  autorewrite with occ in *; lia.

Create HintDb ns.
#[export] Hint Resolve sum_Z_nonneg NoDup_remove_one remove_one_sublist : ns.

(** Decompose a successful monadic computation. *)
Ltac inv_res :=
  repeat match goal with
  | H : res_bind _ _ = Ok _ |- _ =>
      apply res_bind_Ok in H; destruct H as (? & ? & H); cbn beta iota in H
  | H : deref _ = Ok _ |- _ => apply deref_Ok in H
  | H : Ok _ = Ok _ |- _ => injection H as H
  | H : Err _ = Ok _ |- _ => discriminate H
  | p : (_ * _)%type |- _ => destruct p
  end; simplify_eq/=.

(** ** Relations between the states before and after

    [inv_res] computes the record updates it finds, which is slow on the large
    records; these do not.  [peel E], for [E : m = r], inverts the first thing
    [m] does, naming the states in between.  [chain] proves [R s s'] for a
    preorder [R] from the calls that led from [s] to [s'], working backwards:
    the hint database [chain] has the lemmas on the calls, and those that hold
    [R x (f x)] for the assignments. *)

Lemma Ok_inj {A} (x y : A) : Ok x = Ok y -> x = y.
Proof. by intros [= ->]. Qed.

Lemma pair_fst {A B} (x y : A) (u v : B) : (x, u) = (y, v) -> x = y.
Proof. by intros [= -> _]. Qed.

Create HintDb chain.

Ltac peel E :=
  lazymatch type of E with
  | (let x := ?v in @?k x) = ?r =>
      let keep :=
        let y := fresh x in let H := fresh "E" in let E' := fresh "E" in
        pose proof (ex_intro (fun y => y = v /\ k y = r) v (conj eq_refl E)) as (y & H & E');
        clear E; rename E' into E in
      lazymatch type of v with
      | bool => change (k v = r) in E
      | Z => change (k v = r) in E
      | forall _, _ => change (k v = r) in E
      | _ => keep
      end; cbn beta in E
  | res_bind _ (fun x => _) = _ =>
      let y := fresh x in let H := fresh "E" in
      apply res_bind_Ok in E as (y & H & E); cbn beta in E
  | (match ?x with pair _ _ => _ end) = _ =>
      destruct x as [? ?] eqn:?; cbn match in E
  | (if ?b then _ else _) = _ => destruct b eqn:?
  | (match ?x with _ => _ end) = _ => destruct x eqn:?
  | Ok _ = Ok _ => apply Ok_inj in E
  | Err _ = Ok _ => discriminate E
  end.

Ltac chain_call := etransitivity; [|solve [eauto 3 with chain nocore]].

Ltac chain1 :=
  match goal with
  | |- ?R ?s ?s => reflexivity
  | H : ?R ?s ?s' |- ?R ?s ?s' => exact H
  | E : ?s' = _ |- ?R _ ?s' => is_var s'; rewrite E; clear E
  | E : _ = ?s' |- ?R _ ?s' => is_var s'; rewrite <-E; clear E
  | E : (?x, _) = (?s', _) |- ?R _ ?s' => apply pair_fst in E
  | E : (?x, _, _) = (?s', _, _) |- ?R _ ?s' => do 2 apply pair_fst in E
  | E : _ = Ok ?s' |- ?R _ ?s' => is_var s'; first [progress peel E | chain_call]
  | E : _ = Ok (?s', _) |- ?R _ ?s' => is_var s'; first [progress peel E | chain_call]
  | E : _ = Ok (?s', _, _) |- ?R _ ?s' => is_var s'; first [progress peel E | chain_call]
  | |- ?R _ (if ?b then _ else _) => destruct b
  | |- ?R ?s (let x := ?v in @?k x) => change (R s (k v)); cbn beta
  | |- ?R ?s (?f ?x) =>
      let T := type of s in
      lazymatch type of x with T => transitivity x; [|solve [eauto 3 with chain nocore]] end
  | E : _ = (?s', _, _) |- ?R _ ?s' => is_var s'; chain_call
  | |- ?R _ (_ _) => chain_call
  end.

Ltac chain := repeat chain1.

(** [chain] through the body of [f]; [unfold] would compute its [let]s. *)
Tactic Notation "chain" "through" reference(f) "in" hyp(E) := cbv beta delta [f] in E; chain.

(** Case analysis on the boolean comparisons of the code. *)
Ltac bool_cases :=
  repeat match goal with
  | |- context [if ?b then _ else _] => destruct b eqn:?
  | H : context [if ?b then _ else _] |- _ => destruct b eqn:?
  end.

Ltac bool_prop :=
  repeat match goal with
  | H : (_ && _) = true |- _ => apply andb_true_iff in H; destruct H
  | H : (_ || _) = false |- _ => apply orb_false_iff in H; destruct H
  | H : (_ <? _) = true |- _ => apply Z.ltb_lt in H
  | H : (_ <? _) = false |- _ => apply Z.ltb_ge in H
  | H : (_ <=? _) = true |- _ => apply Z.leb_le in H
  | H : (_ <=? _) = false |- _ => apply Z.leb_gt in H
  | H : (_ =? _) = true |- _ => apply Z.eqb_eq in H
  | H : (_ =? _) = false |- _ => apply Z.eqb_neq in H
  | H : negb _ = true |- _ => apply negb_true_iff in H
  | H : negb _ = false |- _ => apply negb_false_iff in H
  end.
