(* ===== verification/F64.v ===== *)
(** * Double-precision arithmetic

    The C++ type [double] as IEEE 754 binary64, through the Standard
    Library's executable [SpecFloat] (precision 53, maximal exponent 1024,
    round to nearest even).  [lt], [le], [eq] are the language's comparison
    operators (false on NaN).  The order laws hold for all non-NaN values and
    are what the event schedulers rely on. *)

From Stdlib Require Import ZArith Lia Bool SpecFloat.
From stdpp Require Import base list.
From S2P Require Import Prelude.

Abbreviation f64 := spec_float.

(** The functions of the C library: parameters of everything that calls them. *)
Class Libm := { pow : f64 -> f64 -> f64; exp : f64 -> f64; log : f64 -> f64 }.

#[export] Instance f64_eq_dec : EqDecision f64.
Proof. solve_decision. Defined.

Module F64.
Definition prec : Z := 53.
Definition emax : Z := 1024.

Definition add (x y : f64) : f64 := SFadd prec emax x y.
Definition sub (x y : f64) : f64 := SFsub prec emax x y.
Definition mul (x y : f64) : f64 := SFmul prec emax x y.
Definition div (x y : f64) : f64 := SFdiv prec emax x y.
Definition opp (x : f64) : f64 := SFopp x.

Definition lt (x y : f64) : bool := SFltb x y.
Definition le (x y : f64) : bool := SFleb x y.
Definition eq (x y : f64) : bool := SFeqb x y.
Definition gt (x y : f64) : bool := lt y x.
Definition ge (x y : f64) : bool := le y x.

(** Conversion from an integer type (rounds to nearest). *)
Definition of_Z (z : Z) : f64 := binary_normalize prec emax z 0 false.

(** Conversion to an integer type: truncation towards zero.  [None] when
    the value is not finite. *)
Definition trunc (x : f64) : option Z :=
  match x with
  | S754_zero _ => Some 0
  | S754_finite s m e =>
      let a := if 0 <=? e then Z.pos m * 2 ^ e else Z.pos m / 2 ^ (- e) in
      Some (if s then - a else a)
  | _ => None
  end.

(** The remainder of the division truncated towards zero, which is exact. *)
Definition fmod (x y : f64) : f64 :=
  match x, y with
  | S754_nan, _ | _, S754_nan | S754_infinity _, _ | _, S754_zero _ => S754_nan
  | S754_zero _, _ | _, S754_infinity _ => x
  | S754_finite sx mx ex, S754_finite _ my ey =>
      let e := Z.min ex ey in
      let r := (Z.pos mx * 2 ^ (ex - e)) mod (Z.pos my * 2 ^ (ey - e)) in
      if r =? 0 then S754_zero sx else binary_normalize prec emax (if sx then - r else r) e sx
  end.

(** The double nearest to a quotient of integers. *)
Definition ratio (n d : Z) : f64 := div (of_Z n) (of_Z d).

(** Conversion to [int]; undefined behaviour when the value does not fit. *)
Definition to_int (x : f64) : res Z := let! z := deref (trunc x) in chk z.

Definition is_nan (x : f64) : bool := match x with S754_nan => true | _ => false end.

Definition zero : f64 := S754_zero false.

(** ** The order on values that are not NaN *)

(** Position of a value: class, exponent, mantissa, compared in this order. *)
Definition key (x : f64) : Z * Z * Z :=
  match x with
  | S754_nan => (3, 0, 0)
  | S754_infinity true => (-2, 0, 0)
  | S754_finite true m e => (-1, - e, - Z.pos m)
  | S754_zero _ => (0, 0, 0)
  | S754_finite false m e => (1, e, Z.pos m)
  | S754_infinity false => (2, 0, 0)
  end.

Definition lex_eq (x y : Z * Z * Z) : Prop :=
  let '(a, b, c) := x in let '(a', b', c') := y in a = a' /\ b = b' /\ c = c'.

Definition lex_le (x y : Z * Z * Z) : Prop :=
  let '(a, b, c) := x in let '(a', b', c') := y in
  a < a' \/ a = a' /\ (b < b' \/ b = b' /\ c <= c').

Definition lex_lt (x y : Z * Z * Z) : Prop :=
  let '(a, b, c) := x in let '(a', b', c') := y in
  a < a' \/ a = a' /\ (b < b' \/ b = b' /\ c < c').

Lemma compare_key x y :
  is_nan x = false -> is_nan y = false ->
  match SFcompare x y with
  | Some Lt => lex_lt (key x) (key y)
  | Some Eq => lex_eq (key x) (key y)
  | Some Gt => lex_lt (key y) (key x)
  | None => False
  end.
Proof.
  intros Hx Hy.
  destruct x as [sx|sx| |sx mx ex], y as [sy|sy| |sy my ey]; try discriminate;
    destruct sx, sy; cbn; try lia;
    destruct (Z.compare_spec ex ey) as [->|H|H]; cbn; try lia;
    change (PosDef.Pos.compare_cont Eq mx my) with (Pos.compare mx my);
    destruct (Pos.compare_spec mx my) as [->|H|H]; cbn; lia.
Qed.

Lemma nan_compare x y :
  is_nan x || is_nan y = true -> SFcompare x y = None.
Proof. by destruct x as [[]|[]| |[]], y as [[]|[]| |[]]. Qed.

(** The comparisons on keys. *)
Lemma cmp_spec x y :
  (lt x y = true <-> is_nan x = false /\ is_nan y = false /\ lex_lt (key x) (key y)) /\
  (eq x y = true <-> is_nan x = false /\ is_nan y = false /\ lex_eq (key x) (key y)) /\
  (le x y = true <-> is_nan x = false /\ is_nan y = false /\ lex_le (key x) (key y)).
Proof.
  unfold lt, eq, le, SFltb, SFeqb, SFleb.
  destruct (is_nan x) eqn:Hx; [|destruct (is_nan y) eqn:Hy].
  1,2: rewrite nan_compare by (by rewrite ?Hx, ?Hy, ?orb_true_r); naive_solver.
  pose proof (compare_key x y Hx Hy) as H.
  destruct (key x) as [[a b] c], (key y) as [[a' b'] c'].
  destruct (SFcompare x y) as [[]|]; cbn in *; [..|done];
    repeat split; intros; try done; try lia.
Qed.

Lemma lt_spec x y :
  lt x y = true <-> is_nan x = false /\ is_nan y = false /\ lex_lt (key x) (key y).
Proof. apply cmp_spec. Qed.

Lemma eq_spec x y :
  eq x y = true <-> is_nan x = false /\ is_nan y = false /\ lex_eq (key x) (key y).
Proof. apply cmp_spec. Qed.

Lemma le_spec x y :
  le x y = true <-> is_nan x = false /\ is_nan y = false /\ lex_le (key x) (key y).
Proof. apply cmp_spec. Qed.

(** Reduces facts about comparisons to linear arithmetic on keys. *)
Ltac solve_order :=
  intros;
  try (apply not_true_iff_false; intro);
  repeat match goal with
  | H : lt _ _ = true |- _ => apply lt_spec in H as (? & ? & H)
  | H : eq _ _ = true |- _ => apply eq_spec in H as (? & ? & H)
  | H : le _ _ = true |- _ => apply le_spec in H as (? & ? & H)
  | |- lt _ _ = true => apply lt_spec; split; [assumption|split; [assumption|]]
  | |- eq _ _ = true => apply eq_spec; split; [assumption|split; [assumption|]]
  | |- le _ _ = true => apply le_spec; split; [assumption|split; [assumption|]]
  end;
  repeat match goal with
  | |- context [key ?x] => destruct (key x) as [[? ?] ?]
  | H : context [key ?x] |- _ => destruct (key x) as [[? ?] ?]
  end; cbn in *; lia.

Lemma lt_irrefl x : lt x x = false.
Proof. solve_order. Qed.

Lemma lt_trans x y z : lt x y = true -> lt y z = true -> lt x z = true.
Proof. solve_order. Qed.

Lemma le_trans x y z : le x y = true -> le y z = true -> le x z = true.
Proof. solve_order. Qed.

Lemma lt_le_trans x y z : lt x y = true -> le y z = true -> lt x z = true.
Proof. solve_order. Qed.

Lemma le_lt_trans x y z : le x y = true -> lt y z = true -> lt x z = true.
Proof. solve_order. Qed.

Lemma lt_le x y : lt x y = true -> le x y = true.
Proof. solve_order. Qed.

Lemma eq_le x y : eq x y = true -> le x y = true.
Proof. solve_order. Qed.

Lemma le_refl x : is_nan x = false -> le x x = true.
Proof. solve_order. Qed.

Lemma eq_refl x : is_nan x = false -> eq x x = true.
Proof. solve_order. Qed.

Lemma le_antisym x y : le x y = true -> le y x = true -> eq x y = true.
Proof. solve_order. Qed.

Lemma lt_asym x y : lt x y = true -> lt y x = false.
Proof. solve_order. Qed.

Lemma lt_not_le x y : lt x y = true -> le y x = false.
Proof. solve_order. Qed.

Lemma eq_sym x y : eq x y = true -> eq y x = true.
Proof. solve_order. Qed.

Lemma eq_trans x y z : eq x y = true -> eq y z = true -> eq x z = true.
Proof. solve_order. Qed.

Lemma eq_not_lt x y : eq x y = true -> lt x y = false.
Proof. solve_order. Qed.

Lemma lt_eq_trans x y z : lt x y = true -> eq y z = true -> lt x z = true.
Proof. solve_order. Qed.

Lemma le_total x y :
  is_nan x = false -> is_nan y = false -> lt x y = false -> le y x = true.
Proof.
  intros Hx Hy Hl. apply le_spec. split; [done|]. split; [done|].
  apply not_true_iff_false in Hl. rewrite lt_spec in Hl.
  assert (~ lex_lt (key x) (key y)) by tauto. clear Hl.
  destruct (key x) as [[? ?] ?], (key y) as [[? ?] ?]. cbn in *. lia.
Qed.

Lemma le_lt_or_eq x y : le x y = lt x y || eq x y.
Proof. unfold le, lt, eq, SFleb, SFltb, SFeqb. by destruct (SFcompare x y) as [[]|]. Qed.

(** ** Integers as doubles *)

Lemma digits2_bounds p : 2 ^ (Z.pos (digits2_pos p) - 1) <= Z.pos p < 2 ^ Z.pos (digits2_pos p).
Proof.
  assert (forall d, 2 ^ Z.pos (Pos.succ d) = 2 * 2 ^ Z.pos d) as Hs.
  { intros d. rewrite Pos2Z.inj_succ. apply Z.pow_succ_r. lia. }
  induction p as [p [IH1 IH2]|p [IH1 IH2]|]; [| |cbn; lia];
    cbn [digits2_pos]; rewrite Hs; rewrite Pos2Z.inj_succ, Z.sub_succ_l, Z.pow_succ_r by lia;
    unfold Z.succ; lia.
Qed.

Lemma iter_xO p n : Z.pos (Pos.iter xO p n) = Z.pos p * 2 ^ Z.pos n.
Proof.
  revert p. induction n as [|n IH] using Pos.peano_ind; intros p; [cbn; lia|].
  rewrite Pos.iter_succ, Pos2Z.inj_succ, Z.pow_succ_r by lia.
  change (Z.pos (Pos.iter xO p n)~0) with (2 * Z.pos (Pos.iter xO p n)). rewrite IH. lia.
Qed.

Lemma digits_iter_xO p n : digits2_pos (Pos.iter xO p n) = (digits2_pos p + n)%positive.
Proof.
  induction n as [|n IH] using Pos.peano_ind; [cbn; lia|]. rewrite Pos.iter_succ. cbn [digits2_pos]. lia.
Qed.

(** An integer of at most 53 bits is represented exactly, with a mantissa of
    53 bits. *)
Lemma round_exact sx p :
  Z.pos p < 2 ^ 53 ->
  exists m k, binary_round prec emax sx p 0 = S754_finite sx m (- k) /\
    0 <= k /\ Z.pos m = Z.pos p * 2 ^ k /\ Z.pos (digits2_pos m) = 53 /\ k = 53 - Z.pos (digits2_pos p).
Proof.
  intros Hp. pose proof (digits2_bounds p) as [H1 H2]. set (d := Z.pos (digits2_pos p)) in *.
  assert (d <= 53).
  { destruct (Z.le_gt_cases d 53) as [|Hd]; [done|]. pose proof (Z.pow_le_mono_r 2 53 (d - 1)). lia. }
  unfold binary_round. fold d.
  assert (fexp prec emax (d + 0) = d - 53) as -> by (unfold fexp, emin, prec, emax; lia).
  assert (exists m, shl_align p 0 (d - 53) = (m, d - 53) /\
    Z.pos m = Z.pos p * 2 ^ (53 - d) /\ Z.pos (digits2_pos m) = 53) as (m & -> & Hm & Hdm).
  { unfold shl_align. destruct (d - 53 - 0) as [|n|n] eqn:E; [..|]; [|lia|].
    - exists p. replace (53 - d) with 0 by lia. split; [f_equal; lia|]. split; lia.
    - exists (Pos.iter xO p n). rewrite iter_xO, digits_iter_xO. split; [f_equal; lia|].
      split; [f_equal; f_equal; lia|]. rewrite Pos2Z.inj_add. fold d. lia. }
  exists m, (53 - d). split; [|repeat split; lia].
  assert (forall e, e = d - 53 -> shr_fexp prec emax (Z.pos m) e loc_Exact = (Build_shr_record (Z.pos m) false false, e)) as Hshr.
  { intros e ->. unfold shr_fexp. cbn [Zdigits2]. rewrite Hdm.
    assert (fexp prec emax (53 + (d - 53)) - (d - 53) = 0) as -> by (unfold fexp, emin, prec, emax; lia).
    done. }
  unfold binary_round_aux. rewrite Hshr by done.
  cbn [shr_m loc_of_shr_record round_nearest_even]. rewrite Hshr by done. cbn [shr_m].
  rewrite (proj2 (Z.leb_le (d - 53) (emax - prec))) by (unfold emax, prec; lia). f_equal. lia.
Qed.

Lemma of_Z_pos p :
  Z.pos p < 2 ^ 53 ->
  exists m k, of_Z (Z.pos p) = S754_finite false m (- k) /\ of_Z (Z.neg p) = S754_finite true m (- k) /\
    0 <= k /\ Z.pos m = Z.pos p * 2 ^ k /\ Z.pos (digits2_pos m) = 53 /\ k = 53 - Z.pos (digits2_pos p).
Proof.
  intros Hp. destruct (round_exact false p Hp) as (m & k & H1 & Hk & Hm & Hd & Hkd).
  destruct (round_exact true p Hp) as (m' & k' & H2 & Hk' & Hm' & _ & Hkd').
  assert (k' = k) as -> by lia. assert (m' = m) as -> by lia.
  exists m, k. by repeat split.
Qed.

(** Converting an [int] to [double] and back changes nothing. *)
Lemma trunc_of_Z z : Z.abs z < 2 ^ 53 -> trunc (of_Z z) = Some z.
Proof.
  intros Hz. destruct z as [|p|p]; [done|..];
    destruct (of_Z_pos p ltac:(lia)) as (m & k & H1 & H2 & Hk & Hm & _);
    rewrite ?H1, ?H2; cbn; f_equal.
  all: replace (if 0 <=? - k then Z.pos m * 2 ^ (- k) else Z.pos m / 2 ^ (- - k)) with (Z.pos p); [done|].
  all: rewrite Hm; destruct (Z.leb_spec 0 (- k)) as [H|H];
    [assert (k = 0) as -> by lia; cbn; lia|].
  all: rewrite Z.opp_involutive, Z.div_mul; [done|]; apply Z.pow_nonzero; lia.
Qed.

Lemma to_int_of_Z z : in_int z -> to_int (of_Z z) = Ok z.
Proof.
  unfold in_int. intros Hz. unfold to_int. rewrite trunc_of_Z by lia. cbn. by apply chk_ok.
Qed.

Lemma of_Z_not_nan z : Z.abs z < 2 ^ 53 -> is_nan (of_Z z) = false.
Proof.
  intros Hz. destruct z as [|p|p]; [done|..];
    destruct (of_Z_pos p ltac:(lia)) as (m & k & H1 & H2 & _); by rewrite ?H1, ?H2.
Qed.

(** Doubles compare like the integers they come from. *)
Lemma pos_lex p q m n j k :
  Z.pos p < Z.pos q -> Z.pos q < 2 ^ 53 ->
  Z.pos m = Z.pos p * 2 ^ j -> j = 53 - Z.pos (digits2_pos p) ->
  Z.pos n = Z.pos q * 2 ^ k -> k = 53 - Z.pos (digits2_pos q) ->
  - j < - k \/ - j = - k /\ Z.pos m < Z.pos n.
Proof.
  intros Hpq Hq Hm Hj Hn Hk. pose proof (digits2_bounds p) as [Hp1 Hp2].
  pose proof (digits2_bounds q) as [Hq1 Hq2]. set (d := Z.pos (digits2_pos p)) in *.
  set (e := Z.pos (digits2_pos q)) in *. destruct (Z.lt_trichotomy d e) as [H|[H|H]].
  - left. lia.
  - right. assert (j = k) as -> by lia. split; [done|]. rewrite Hm, Hn.
    apply Z.mul_lt_mono_pos_r; [|done].
    assert (e <= 53); [|apply Z.pow_pos_nonneg; lia].
    destruct (Z.le_gt_cases e 53) as [|He]; [done|]. pose proof (Z.pow_le_mono_r 2 53 (e - 1)). lia.
  - exfalso. pose proof (Z.pow_le_mono_r 2 e (d - 1)). lia.
Qed.

Lemma lt_of_Z_true a b : Z.abs a < 2 ^ 53 -> Z.abs b < 2 ^ 53 -> a < b -> lt (of_Z a) (of_Z b) = true.
Proof.
  intros Ha Hb Hab. apply lt_spec. rewrite !of_Z_not_nan by done. split; [done|]. split; [done|].
  destruct a as [|p|p], b as [|q|q]; try lia;
    try (destruct (of_Z_pos p ltac:(lia)) as (m & j & P1 & P2 & Hj & Hm & Hdm & Hdj); rewrite ?P1, ?P2);
    try (destruct (of_Z_pos q ltac:(lia)) as (n & k & Q1 & Q2 & Hk & Hn & Hdn & Hdk); rewrite ?Q1, ?Q2);
    cbn; try lia.
  - pose proof (pos_lex p q m n j k ltac:(lia) ltac:(lia) Hm Hdj Hn Hdk). lia.
  - pose proof (pos_lex q p n m k j ltac:(lia) ltac:(lia) Hn Hdk Hm Hdj). lia.
Qed.

Lemma lt_of_Z a b : Z.abs a < 2 ^ 53 -> Z.abs b < 2 ^ 53 -> lt (of_Z a) (of_Z b) = (a <? b).
Proof.
  intros Ha Hb. destruct (Z.ltb_spec a b) as [H|H]; [by apply lt_of_Z_true|].
  destruct (Z.eq_dec a b) as [->|Hne]; [apply lt_irrefl|]. apply lt_asym, lt_of_Z_true; lia.
Qed.
End F64.

#[export] Hint Resolve F64.lt_irrefl F64.lt_trans F64.le_trans F64.lt_le_trans
  F64.le_lt_trans F64.lt_le F64.eq_le F64.le_refl : ns.
