(* ===== verification/F64Exact.v ===== *)
(** * Doubles as numbers: exact operations and rounding errors

    What the arithmetic of [F64] computes.  A finite double is an integer
    number of units of 2^-1074 ([fin]); addition, subtraction, multiplication
    and division return the nearest number of at most 53 bits, here only: the
    exact result if that has at most 53 bits, and otherwise one of its two
    neighbours ([approx]).  In particular all operations on integers are exact
    up to 2^53 ([int]), and a quotient cut to an integer is off by less than
    one. *)

From Stdlib Require Import ZArith Lia Bool SpecFloat.
From stdpp Require Import base list.
From S2P Require Import Prelude F64.

Module F64Exact.
Import F64.

(** The unit 2^-1074 of the finite doubles, as the number of units in 1. *)
Definition one : Z := 2 ^ 1074.

Lemma one_pos : 0 < one.
Proof. done. Qed.

Definition signed (s : bool) (z : Z) : Z := if s then - z else z.

(** [x] is a well-formed finite double of [v] units. *)
Definition fin (x : f64) (v : Z) : Prop :=
  match x with
  | S754_zero _ => v = 0
  | S754_finite s m e => bounded prec emax m e = true /\ v = signed s (Z.pos m * 2 ^ (e + 1074))
  | _ => False
  end.

(** [x] is the integer [z]. *)
Definition int (x : f64) (z : Z) : Prop := fin x (z * one).

(** [w * t'], [w = 2^j], is the quotient [num / den] rounded: [t'] is one of
    the two numbers around the quotient of [num / den] by the quantum [w], one
    that is no farther than the other. *)
Record rounding (num den j t t' : Z) : Prop := {
  rd_quantum : 0 <= j;
  rd_floor : 2 ^ j * t * den <= num < 2 ^ j * (t + 1) * den;
  rd_near : t' = t \/ t' = t + 1;
  rd_exact : 2 ^ j * t * den = num -> t' = t;
  rd_half : (t' = t + 1 -> 2 ^ j * (2 * t + 1) * den <= 2 * num) /\
    (t' = t -> 2 * num <= 2 ^ j * (2 * t + 1) * den);
  rd_bits : 2 ^ 52 <= t < 2 ^ 53 \/ j = 0 /\ 0 <= t < 2 ^ 52
}.

Definition approx (num den v : Z) : Prop :=
  exists j t t', rounding num den j t t' /\ v = 2 ^ j * t'.

(** ** Shifting a mantissa right *)

(** [f] divides the mantissa by [k]; it stays exact if that is exact, and
    notes whether the remainder is less than, exactly, or more than half of
    [k]. *)
Definition divides (f : shr_record -> shr_record) (k : Z) : Prop :=
  0 < k /\ forall m r s, 0 <= m ->
    exists r' s', f (Build_shr_record m r s) = Build_shr_record (m / k) r' s' /\
      (m mod k = 0 -> r = false -> s = false -> r' = false /\ s' = false) /\
      (r' = true -> k <= 2 * (m mod k)) /\
      (r' = false -> 2 * (m mod k) + 2 <= k) /\
      (s' = false -> r = false /\ s = false /\ (m mod k = 0 \/ r' = true /\ 2 * (m mod k) <= k)).

Lemma shr_1_divides : divides shr_1 2.
Proof.
  split; [lia|]. intros m r s Hm.
  assert (forall q, (2 * q + 1) / 2 = q /\ (2 * q + 1) mod 2 = 1) as Hodd.
  { intros q. rewrite (Z.add_comm _ 1), Z.mul_comm, Z.div_add, Z.mod_add by lia. done. }
  assert (forall q, (2 * q) / 2 = q /\ (2 * q) mod 2 = 0) as Heven.
  { intros q. by rewrite Z.mul_comm, Z.div_mul, Z.mod_mul. }
  destruct m as [|[p|p|]|p]; [..|lia]; cbn [shr_1].
  - exists false, (r || s). split; [done|]. split; [by intros _ -> ->|]. split; [done|]. split; [done|].
    intros [-> ->]%orb_false_iff. split; [done|]. split; [done|]. by left.
  - exists true, (r || s). rewrite Pos2Z.inj_xI. destruct (Hodd (Z.pos p)) as [-> ->]. split; [done|].
    split; [done|]. split; [done|]. split; [done|].
    intros [-> ->]%orb_false_iff. split; [done|]. split; [done|]. by right.
  - exists false, (r || s). rewrite Pos2Z.inj_xO. destruct (Heven (Z.pos p)) as [-> ->]. split; [done|].
    split; [by intros _ -> ->|]. split; [done|]. split; [done|].
    intros [-> ->]%orb_false_iff. split; [done|]. split; [done|]. by left.
  - exists true, (r || s). split; [done|]. split; [done|]. split; [done|]. split; [done|].
    intros [-> ->]%orb_false_iff. split; [done|]. split; [done|]. by right.
Qed.

Lemma divides_comp f g a b : divides f a -> divides g b -> divides (fun x => g (f x)) (a * b).
Proof.
  intros [Ha F] [Hb G]. split; [lia|]. intros m r s Hm.
  destruct (F m r s Hm) as (r1 & s1 & -> & H1 & _ & H1b & H1c).
  destruct (G (m / a) r1 s1) as (r2 & s2 & -> & H2 & H3 & H4 & H5); [apply Z.div_pos; lia|].
  exists r2, s2. rewrite Z.div_div by lia. split; [done|]. rewrite Z.rem_mul_r by lia.
  pose proof (Z.mod_pos_bound m a). pose proof (Z.mod_pos_bound (m / a) b). split; [|split; [|split]].
  - intros H6 Hr Hs. assert (m mod a = 0) by nia. apply H2; [nia| |]; by apply H1.
  - intros Hr. apply H3 in Hr. nia.
  - intros Hr. apply H4 in Hr. nia.
  - intros Hs. destruct (H5 Hs) as (-> & -> & H6). destruct (H1c Logic.eq_refl) as (-> & -> & H7).
    split; [done|]. split; [done|]. destruct H7 as [H7|[? _]]; [|done]. destruct H6 as [H6|[-> H6]]; [left; nia|].
    right. split; [done|]. nia.
Qed.

Lemma iter_divides n : divides (SpecFloat.iter_pos shr_1 n) (2 ^ Z.pos n).
Proof.
  induction n as [n IH|n IH|]; [..|exact shr_1_divides].
  - replace (2 ^ Z.pos n~1) with (2 ^ 1 * 2 ^ Z.pos n * 2 ^ Z.pos n) by (rewrite <- !Z.pow_add_r by lia; f_equal; lia).
    exact (divides_comp _ _ _ _ (divides_comp _ _ _ _ shr_1_divides IH) IH).
  - replace (2 ^ Z.pos n~0) with (2 ^ Z.pos n * 2 ^ Z.pos n)
      by (rewrite <- Z.pow_add_r by lia; f_equal; lia).
    exact (divides_comp _ _ _ _ IH IH).
Qed.

(** Is the location in the upper half of the quantum? *)
Definition upper (l : location) : bool :=
  match l with loc_Inexact (Eq | Gt) => true | _ => false end.

(** Is it above the middle of the quantum? *)
Definition above (l : location) : bool := match l with loc_Inexact Gt => true | _ => false end.

(** The mantissa of a number rounded to exponent [e + n]. *)
Lemma shr_spec m e l n :
  0 <= m -> 0 <= n ->
  exists mrs, shr (shr_record_of_loc m l) e n = (mrs, e + n) /\ shr_m mrs = m / 2 ^ n /\
    (m mod 2 ^ n = 0 -> l = loc_Exact -> loc_of_shr_record mrs = loc_Exact) /\
    (upper (loc_of_shr_record mrs) = true -> n = 0 /\ upper l = true \/ 2 ^ n <= 2 * (m mod 2 ^ n)) /\
    (above (loc_of_shr_record mrs) = false -> n = 0 /\ above l = false \/
       2 * (m mod 2 ^ n) + 2 <= 2 ^ n \/ l = loc_Exact /\ 2 * (m mod 2 ^ n) <= 2 ^ n).
Proof.
  intros Hm Hn. assert (exists r s, shr_record_of_loc m l = Build_shr_record m r s /\
    (l = loc_Exact <-> r = false /\ s = false) /\ (r = true -> upper l = true) /\
    (above l = true -> r = true /\ s = true)) as (r & s & -> & Hl & Hu & Ha).
  { destruct l as [|[]]; eexists _, _; (split; [reflexivity|]); split; try done; split; try done; by intros []. }
  destruct n as [|n|]; [..|lia]; cbn [shr].
  - eexists. rewrite Z.add_0_r, Z.pow_0_r, Z.div_1_r. split; [done|]. split; [done|]. split; [|split].
    + intros _ E. apply Hl in E as [-> ->]. done.
    + intros E. left. split; [done|]. apply Hu. by destruct r, s.
    + intros E. left. split; [done|]. destruct (above l); [|done]. destruct Ha as [-> ->]; done.
  - destruct (proj2 (iter_divides n) m r s Hm) as (r' & s' & -> & H & H' & H2 & H3). eexists. split; [done|].
    split; [done|]. split; [|split].
    + intros H1 E. apply Hl in E as [-> ->]. by destruct (H H1 Logic.eq_refl Logic.eq_refl) as [-> ->].
    + intros E. right. apply H'. by destruct r', s'.
    + intros E. right. destruct r'; [|left; by apply H2]. destruct s'; [done|]. right.
      destruct (H3 Logic.eq_refl) as (-> & -> & [H4|[_ H4]]); (split; [by apply Hl|]); [|done]. rewrite H4. 
      pose proof (Z.pow_pos_nonneg 2 (Z.pos n)). lia.
Qed.

Lemma round_near m l :
  (round_nearest_even m l = m /\ above l = false \/ round_nearest_even m l = m + 1 /\ upper l = true) /\
  (l = loc_Exact -> round_nearest_even m l = m).
Proof. split; [|by intros ->]. destruct l as [|[]]; cbn; auto. destruct (Z.even m); auto. Qed.

Lemma digits_unique m d : 0 < m -> 0 <= d -> 2 ^ d <= m < 2 ^ (d + 1) -> Zdigits2 m = d + 1.
Proof.
  intros Hm Hd H. destruct m as [|p|]; [lia| |lia]. cbn. pose proof (digits2_bounds p) as [H1 H2].
  destruct (Z.lt_trichotomy (Z.pos (digits2_pos p)) (d + 1)) as [L|[E|G]]; [|done|].
  - pose proof (Z.pow_le_mono_r 2 (Z.pos (digits2_pos p)) d). lia.
  - pose proof (Z.pow_le_mono_r 2 (d + 1) (Z.pos (digits2_pos p) - 1)). lia.
Qed.

Lemma digits_bounds m : 0 < m -> 2 ^ (Zdigits2 m - 1) <= m < 2 ^ Zdigits2 m /\ 0 < Zdigits2 m.
Proof. intros Hm. destruct m as [|p|]; [lia| |lia]. split; [apply digits2_bounds|cbn; lia]. Qed.

(** ** Rounding *)

Lemma fexp_eq x : fexp prec emax x = Z.max (x - 53) (-1074).
Proof. reflexivity. Qed.

(** A number that already fits keeps its mantissa. *)
Lemma shr_fexp_fits m e :
  0 < m -> fexp prec emax (Zdigits2 m + e) = e ->
  exists mrs, shr_fexp prec emax m e loc_Exact = (mrs, e) /\ shr_m mrs = m.
Proof.
  intros Hm He. unfold shr_fexp. rewrite He, Z.sub_diag. by eexists.
Qed.

Lemma pow2_split a b : 0 <= b <= a -> 2 ^ a = 2 ^ b * 2 ^ (a - b).
Proof. intros H. rewrite <- Z.pow_add_r by lia. f_equal. lia. Qed.

(** The exponent of the result: too large, or in range. *)
Ltac too_large :=
  match goal with
  | |- context [if ?a <=? ?b then _ else _] =>
      let E := fresh in destruct (Z.leb_spec a b) as [E|E]; unfold emax, prec in E;
      [|right; split; [lia|done]]
  end.

(** The last step of rounding. *)
Definition finish (s : bool) (m e : Z) : f64 :=
  let '(mrs, e'') := shr_fexp prec emax m e loc_Exact in
  match shr_m mrs with
  | Z0 => S754_zero s
  | Zpos m' => if Z.leb e'' (Z.sub emax prec) then S754_finite s m' e'' else S754_infinity s
  | _ => S754_nan
  end.

(** A mantissa of at most 53 bits, or 2^53, becomes the mantissa of the
    result, unless that is too large. *)
Lemma finish_cases s m e j :
  0 < m -> -1074 <= e -> e = -1074 + j -> 2 ^ 52 <= m <= 2 ^ 53 \/ j = 0 /\ m <= 2 ^ 52 ->
  fin (finish s m e) (signed s (2 ^ j * m)) \/ 970 <= e /\ finish s m e = S754_infinity s.
Proof.
  intros Hm He -> Hb. unfold finish. destruct (digits_bounds m Hm) as [[D1 D2] D3].
  assert (Zdigits2 m < 53 \/ m = 2 ^ 53 \/ Zdigits2 m = 53) as Hd.
  { destruct (Z.le_gt_cases (Zdigits2 m) 52) as [|G1]; [lia|]. right.
    destruct (Z.le_gt_cases (Zdigits2 m) 53) as [|G2]; [lia|]. left.
    pose proof (Z.pow_le_mono_r 2 53 (Zdigits2 m - 1)). lia. }
  assert (Zdigits2 m < 53 -> j = 0) as Hj.
  { intros. pose proof (Z.pow_le_mono_r 2 (Zdigits2 m) 52). lia. }
  destruct (decide (m = 2 ^ 53)) as [->|Hne].
  - unfold shr_fexp. rewrite fexp_eq. change (Zdigits2 (2 ^ 53)) with 54.
    replace (Z.max (54 + (-1074 + j) - 53) (-1074) - (-1074 + j)) with 1 by lia.
    cbn -[Z.add Z.pow Z.leb]. too_large. left. cbn -[Z.add Z.pow Z.mul]. split.
    + unfold bounded, canonical_mantissa. rewrite fexp_eq.
      match goal with |- context [digits2_pos ?x] => change (digits2_pos x) with 53%positive end.
      apply andb_true_iff. split; [apply Z.eqb_eq|apply Z.leb_le]; unfold emax, prec; lia.
    + f_equal. replace (-1074 + j + 1 + 1074) with (j + 1) by lia. rewrite Z.pow_add_r by lia. lia.
  - destruct (shr_fexp_fits m (-1074 + j) Hm) as (mrs & -> & ->); [rewrite fexp_eq; lia|].
    destruct m as [|p|p]; [lia| |lia]. too_large. left. cbn [fin]. split.
    + unfold bounded, canonical_mantissa. change (Z.pos (digits2_pos p)) with (Zdigits2 (Z.pos p)). rewrite fexp_eq.
      apply andb_true_iff. split; [apply Z.eqb_eq|apply Z.leb_le]; unfold emax, prec; lia.
    + f_equal. replace (-1074 + j + 1074) with j by lia. lia.
Qed.

(** The mantissa [m] of [num / den], with what is left described by [l], is
    rounded to 53 bits. *)
Lemma binary_round_aux_cases s m e l num den :
  0 < m -> 0 < den -> -1074 <= e -> e <= fexp prec emax (Zdigits2 m + e) ->
  2 ^ (e + 1074) * m * den <= num < 2 ^ (e + 1074) * (m + 1) * den ->
  (2 ^ (e + 1074) * m * den = num <-> l = loc_Exact) ->
  (upper l = true -> 2 ^ (e + 1074) * (2 * m + 1) * den <= 2 * num) ->
  (above l = false -> 2 * num <= 2 ^ (e + 1074) * (2 * m + 1) * den) ->
  exists v, approx num den v /\
    (fin (binary_round_aux prec emax s m e l) (signed s v) \/
     970 <= fexp prec emax (Zdigits2 m + e) /\ binary_round_aux prec emax s m e l = S754_infinity s).
Proof.
  intros Hm Hden He Hf Hnum Hl Hu Ha. remember (fexp prec emax (Zdigits2 m + e) - e) as n eqn:En0. set (t := m / 2 ^ n).
  destruct (digits_bounds m Hm) as [[D1 D2] D3].
  assert (0 < 2 ^ n) as Hn by (apply Z.pow_pos_nonneg; lia).
  assert (0 < 2 ^ (e + 1074)) as He2 by (apply Z.pow_pos_nonneg; lia).
  destruct (shr_spec m e l n ltac:(lia) ltac:(lia)) as (mrs & Es & Em & Hex & Hup & Hab).
  destruct (round_near (shr_m mrs) (loc_of_shr_record mrs)) as [Hnear Hnex].
  set (t' := round_nearest_even (shr_m mrs) (loc_of_shr_record mrs)) in *. rewrite Em in Hnear, Hnex. fold t in Hnear, Hnex.
  pose proof (Z.div_mod m (2 ^ n) ltac:(lia)) as Hdm. fold t in Hdm. pose proof (Z.mod_pos_bound m (2 ^ n) Hn).
  assert (2 ^ (e + n + 1074) = 2 ^ (e + 1074) * 2 ^ n) as Ej by (rewrite <- Z.pow_add_r by lia; f_equal; lia).
  assert (2 ^ 52 <= t < 2 ^ 53 \/ e + n + 1074 = 0 /\ 0 < t < 2 ^ 52) as Hb.
  { rewrite fexp_eq in *. destruct (Z.le_gt_cases (-1074) (Zdigits2 m + e - 53)) as [G|G].
    - left. assert (n = Zdigits2 m - 53) as En by lia. split.
      + apply Z.div_le_lower_bound; [lia|]. rewrite Z.mul_comm, En, <- Z.pow_add_r by lia.
        replace (52 + (Zdigits2 m - 53)) with (Zdigits2 m - 1) by lia. lia.
      + apply Z.div_lt_upper_bound; [lia|]. rewrite Z.mul_comm, En, <- Z.pow_add_r by lia.
        replace (53 + (Zdigits2 m - 53)) with (Zdigits2 m) by lia. lia.
    - right. assert (n = 0) as En by lia. split; [lia|]. unfold t. rewrite En, Z.pow_0_r, Z.div_1_r.
      split; [lia|]. pose proof (Z.pow_le_mono_r 2 (Zdigits2 m) 52). lia. }
  exists (2 ^ (e + n + 1074) * t'). apply and_comm. split.
  - assert (binary_round_aux prec emax s m e l = finish s t' (e + n)) as ->.
    { unfold binary_round_aux. unfold shr_fexp at 1. by rewrite <- En0, Es. }
    replace (fexp prec emax (Zdigits2 m + e)) with (e + n) by lia. apply (finish_cases s t' (e + n)); lia.
  - exists (e + n + 1074), t, t'. split; [|done]. constructor.
    + lia.
    + rewrite Ej. split; nia.
    + lia.
    + rewrite Ej. intros Heq. apply Hnex, Hex; [|apply Hl]; nia.
    + split; intros Ht.
      * destruct Hup as [[-> Hul]|Hhalf]; [destruct Hnear as [|[_ ?]]; [lia|done]| |].
        -- rewrite Ej, Z.pow_0_r in *. specialize (Hu Hul). unfold t. rewrite Z.div_1_r. lia.
        -- rewrite Ej. nia.
      * destruct Hab as [[-> Hul]|[Hhalf|[-> Hhalf]]]; [destruct Hnear as [[_ ?]|]; [done|lia]| | |].
        -- rewrite Ej, Z.pow_0_r in *. specialize (Ha Hul). unfold t. rewrite Z.div_1_r. lia.
        -- rewrite Ej. nia.
        -- rewrite Ej. rewrite <- (proj2 Hl) by done. nia.
    + lia.
Qed.

Lemma binary_round_aux_spec s m e l num den :
  0 < m -> 0 < den -> -1074 <= e -> e <= fexp prec emax (Zdigits2 m + e) < 970 ->
  2 ^ (e + 1074) * m * den <= num < 2 ^ (e + 1074) * (m + 1) * den ->
  (2 ^ (e + 1074) * m * den = num <-> l = loc_Exact) ->
  (upper l = true -> 2 ^ (e + 1074) * (2 * m + 1) * den <= 2 * num) ->
  (above l = false -> 2 * num <= 2 ^ (e + 1074) * (2 * m + 1) * den) ->
  exists v, fin (binary_round_aux prec emax s m e l) (signed s v) /\ approx num den v.
Proof.
  intros Hm Hd He Hf H1 H2 H3 H4.
  destruct (binary_round_aux_cases s m e l num den Hm Hd He (proj1 Hf) H1 H2 H3 H4) as (v & Ha & [Hv|[G _]]); [by exists v|lia].
Qed.

(** ** The operations *)

(** Numbers between 2^-474 and 2^426 (and their negatives): sums, products and
    quotients of them neither overflow nor lose bits by underflow. *)
Definition normal (v : Z) : Prop := 2 ^ 600 <= Z.abs v < 2 ^ 1500.

Lemma fin_normal x v :
  fin x v -> normal v ->
  exists s p e, x = S754_finite s p e /\ 2 ^ 52 <= Z.pos p < 2 ^ 53 /\ -527 < e < 374 /\
    v = signed s (Z.pos p * 2 ^ (e + 1074)) /\ Z.abs v = Z.pos p * 2 ^ (e + 1074) /\ (v <? 0) = s.
Proof.
  unfold normal. intros Hx [H1 H2]. destruct x as [s|s| |s p e]; [|done|done|].
  { cbn in Hx. subst v. lia. }
  destruct Hx as [Hb ->]. exists s, p, e.
  unfold bounded, canonical_mantissa in Hb. apply andb_true_iff in Hb as [Hc _]. apply Z.eqb_eq in Hc.
  rewrite fexp_eq in Hc. pose proof (digits2_bounds p) as [D1 D2].
  assert (0 <= e + 1074) as He by lia.
  assert (0 < 2 ^ (e + 1074)) by (apply Z.pow_pos_nonneg; lia).
  assert (Z.abs (signed s (Z.pos p * 2 ^ (e + 1074))) = Z.pos p * 2 ^ (e + 1074)) as Ea by (destruct s; cbn [signed]; lia).
  rewrite Ea in *. set (d := Z.pos (digits2_pos p)) in *.
  assert (d = 53) as Hd.
  { destruct (Z.le_gt_cases (-1074) (d + e - 53)); [lia|]. assert (e + 1074 = 0) as E0 by lia. rewrite E0 in *.
    pose proof (Z.pow_le_mono_r 2 d 600). lia. }
  rewrite Hd in *. split; [done|]. split; [done|]. split.
  - split.
    + destruct (Z.le_gt_cases e (-527)) as [G|]; [|lia]. pose proof (Z.pow_le_mono_r 2 (e + 1074) 547).
      assert (2 ^ 600 = 2 ^ 53 * 2 ^ 547) by (rewrite <- Z.pow_add_r; lia). nia.
    + destruct (Z.le_gt_cases 374 e) as [G|]; [|lia]. pose proof (Z.pow_le_mono_r 2 1448 (e + 1074)).
      assert (2 ^ 1500 = 2 ^ 52 * 2 ^ 1448) by (rewrite <- Z.pow_add_r; lia). nia.
  - split; [done|]. split; [done|]. destruct s; cbn [signed]; [apply Z.ltb_lt|apply Z.ltb_ge]; lia.
Qed.

Lemma digits_product p q :
  2 ^ 52 <= p < 2 ^ 53 -> 2 ^ 52 <= q < 2 ^ 53 -> 105 <= Zdigits2 (p * q) <= 106.
Proof.
  intros Hp Hq. destruct (digits_bounds (p * q)) as [[D1 D2] D3]; [nia|]. split.
  - destruct (Z.le_gt_cases 105 (Zdigits2 (p * q))) as [|G]; [done|]. pose proof (Z.pow_le_mono_r 2 (Zdigits2 (p * q)) 104).
    assert (2 ^ 104 = 2 ^ 52 * 2 ^ 52) by reflexivity. nia.
  - destruct (Z.le_gt_cases (Zdigits2 (p * q)) 106) as [|G]; [done|]. pose proof (Z.pow_le_mono_r 2 106 (Zdigits2 (p * q) - 1)).
    assert (2 ^ 106 = 2 ^ 53 * 2 ^ 53) by reflexivity. nia.
Qed.

Lemma mul_spec x y a b :
  fin x a -> fin y b -> normal a -> normal b ->
  exists v, fin (mul x y) (signed (xorb (a <? 0) (b <? 0)) v) /\ approx (Z.abs a * Z.abs b) one v.
Proof.
  intros Hx Hy Ha Hb.
  destruct (fin_normal x a Hx Ha) as (sx & p & e & -> & Hp & He & _ & -> & ->).
  destruct (fin_normal y b Hy Hb) as (sy & q & f & -> & Hq & Hf & _ & -> & ->).
  pose proof (digits_product _ _ Hp Hq) as Hd. unfold mul, SFmul. apply binary_round_aux_spec.
  - lia.
  - unfold one. lia.
  - lia.
  - rewrite fexp_eq. change (Zdigits2 (Z.pos (p * q))) with (Zdigits2 (Z.pos p * Z.pos q)). lia.
  - replace (e + f + 1074) with (e + 1074 + (f + 1074) - 1074) by lia.
    assert (2 ^ (e + 1074 + (f + 1074) - 1074) * one = 2 ^ (e + 1074) * 2 ^ (f + 1074)) as E
      by (unfold one; rewrite <- !Z.pow_add_r by lia; f_equal; lia).
    assert (0 < 2 ^ (e + 1074 + (f + 1074) - 1074) * one) by (rewrite E; apply Z.mul_pos_pos; apply Z.pow_pos_nonneg; lia).
    rewrite Pos2Z.inj_mul. split; nia.
  - split; [done|intros _]. replace (e + f + 1074) with (e + 1074 + (f + 1074) - 1074) by lia.
    assert (2 ^ (e + 1074 + (f + 1074) - 1074) * one = 2 ^ (e + 1074) * 2 ^ (f + 1074)) as E
      by (unfold one; rewrite <- !Z.pow_add_r by lia; f_equal; lia).
    rewrite Pos2Z.inj_mul. nia.
  - done.
  - intros _. rewrite Pos2Z.inj_mul. replace (e + f + 1074) with (e + 1074 + (f + 1074) - 1074) by lia.
    assert (2 ^ (e + 1074 + (f + 1074) - 1074) * one = 2 ^ (e + 1074) * 2 ^ (f + 1074)) as E
      by (unfold one; rewrite <- !Z.pow_add_r by lia; f_equal; lia).
    assert (0 < 2 ^ (e + 1074 + (f + 1074) - 1074) * one) by (rewrite E; apply Z.mul_pos_pos; apply Z.pow_pos_nonneg; lia).
    nia.
Qed.

Lemma location_upper q r : upper (new_location q r) = true -> q <= 2 * r.
Proof.
  unfold new_location, new_location_even, new_location_odd.
  destruct (Z.even q), (r =? 0); cbn -[Z.compare Z.mul]; try done.
  - destruct (Z.compare_spec (2 * r) q); done || lia.
  - destruct (Z.compare_spec (2 * r + 1) q); done || lia.
Qed.

Lemma location_exact q r : new_location q r = loc_Exact <-> r = 0.
Proof.
  unfold new_location, new_location_even, new_location_odd. 
  destruct (Z.even q), (Z.eqb_spec r 0); cbn -[Z.compare Z.mul]; split; intros; congruence.
Qed.

Lemma location_not_above q r : 0 <= r < q -> above (new_location q r) = false -> 2 * r <= q.
Proof.
  intros Hr. unfold new_location, new_location_even, new_location_odd.
  destruct (Z.even q) eqn:E, (Z.eqb_spec r 0); cbn -[Z.compare Z.mul]; try lia.
  - destruct (Z.compare_spec (2 * r) q); done || lia.
  - destruct (Z.compare_spec (2 * r + 1) q); done || lia.
Qed.

Lemma div_spec x y a b :
  fin x a -> fin y b -> normal a -> normal b ->
  exists v, fin (div x y) (signed (xorb (a <? 0) (b <? 0)) v) /\ approx (Z.abs a * one) (Z.abs b) v.
Proof.
  intros Hx Hy Ha Hb.
  destruct (fin_normal x a Hx Ha) as (sx & p & e & -> & Hp & He & _ & -> & ->).
  destruct (fin_normal y b Hy Hb) as (sy & q & f & -> & Hq & Hf & _ & -> & ->).
  assert (Zdigits2 (Z.pos p) = 53) as Dp by (apply (digits_unique _ 52); lia).
  assert (Zdigits2 (Z.pos q) = 53) as Dq by (apply (digits_unique _ 52); lia).
  unfold div, SFdiv, SFdiv_core_binary. rewrite Dp, Dq, fexp_eq.
  replace (Z.min (Z.max (53 + e - (53 + f) - 53) (-1074)) (e - f)) with (e - f - 53) by lia.
  replace (e - f - (e - f - 53)) with 53 by lia. rewrite Z.shiftl_mul_pow2 by lia.
  pose proof (Z_div_mod (Z.pos p * 2 ^ 53) (Z.pos q) ltac:(lia)) as Hdiv.
  destruct (Z.div_eucl (Z.pos p * 2 ^ 53) (Z.pos q)) as [m r]. destruct Hdiv as [Em Hr].
  assert (2 ^ 52 <= m < 2 ^ 54) as Hm.
  { split; [destruct (Z.le_gt_cases (2 ^ 52) m)|destruct (Z.le_gt_cases (2 ^ 54) m)]; [lia|nia|nia|lia]. }
  assert (2 ^ (e - f - 53 + 1074) * 2 ^ (f + 1074) * 2 ^ 53 = 2 ^ (e + 1074) * one) as E
    by (unfold one; rewrite <- !Z.pow_add_r by lia; f_equal; lia).
  assert (0 < 2 ^ (e - f - 53 + 1074) * 2 ^ (f + 1074)) by (apply Z.mul_pos_pos; apply Z.pow_pos_nonneg; lia).
  apply binary_round_aux_spec.
  - lia.
  - apply Z.mul_pos_pos; [lia|apply Z.pow_pos_nonneg; lia].
  - lia.
  - rewrite fexp_eq. destruct (digits_bounds m ltac:(lia)) as [[D1 D2] D3].
    assert (53 <= Zdigits2 m) by (destruct (Z.le_gt_cases 53 (Zdigits2 m)); [done|]; pose proof (Z.pow_le_mono_r 2 (Zdigits2 m) 52); lia).
    assert (Zdigits2 m <= 54) by (destruct (Z.le_gt_cases (Zdigits2 m) 54); [done|]; pose proof (Z.pow_le_mono_r 2 54 (Zdigits2 m - 1)); lia).
    lia.
  - split; nia.
  - rewrite location_exact. split; intros; nia.
  - intros Hup. assert (Z.pos q <= 2 * r) by (by apply location_upper). nia.
  - intros Hup. assert (2 * r <= Z.pos q) by (by apply location_not_above). nia.
Qed.

(** Addition of integers of units, of whatever sign. *)
Lemma binary_normalize_spec z e s :
  -527 < e < 374 -> Z.abs z * 2 ^ (e + 1074) < 2 ^ 1501 ->
  (z = 0 -> fin (binary_normalize prec emax z e s) 0) /\
  (z <> 0 -> exists v, fin (binary_normalize prec emax z e s) (signed (z <? 0) v) /\ approx (Z.abs z * 2 ^ (e + 1074)) 1 v).
Proof.
  intros He Hz. split; [by intros ->|]. intros Hnz.
  assert (forall sz p, Z.pos p * 2 ^ (e + 1074) < 2 ^ 1501 -> exists v, fin (binary_round prec emax sz p e) (signed sz v) /\
    approx (Z.pos p * 2 ^ (e + 1074)) 1 v) as H.
  { intros sz p Hp. unfold binary_round, shl_align. pose proof (digits2_bounds p) as [D1 D2].
    set (d := Z.pos (digits2_pos p)) in *.
    assert (0 < 2 ^ (e + 1074)) by (apply Z.pow_pos_nonneg; lia).
    assert (d + e < 428).
    { destruct (Z.le_gt_cases 428 (d + e)) as [G|]; [|done]. pose proof (Z.pow_le_mono_r 2 1501 (d - 1 + (e + 1074))).
      rewrite Z.pow_add_r in * by lia. nia. }
    rewrite fexp_eq. destruct (Z.max (d + e - 53) (-1074) - e) as [|n|n] eqn:En.
    1,2: apply binary_round_aux_spec; [lia..| | |split; [done|nia]|done|nia]; [rewrite fexp_eq; cbn [Zdigits2]; fold d; lia|]; nia.
    assert (2 ^ (Z.max (d + e - 53) (-1074) + 1074) * (Z.pos p * 2 ^ Z.pos n) = Z.pos p * 2 ^ (e + 1074)) as Es.
    { rewrite Z.mul_comm, <- Z.mul_assoc, <- Z.pow_add_r by lia. do 2 f_equal. lia. }
    assert (0 < 2 ^ (Z.max (d + e - 53) (-1074) + 1074)) by (apply Z.pow_pos_nonneg; lia).
    apply binary_round_aux_spec; [lia..| | | |done|]; rewrite ?fexp_eq; cbn [Zdigits2].
    - rewrite digits_iter_xO, Pos2Z.inj_add. fold d. lia.
    - rewrite iter_xO. split; nia.
    - rewrite iter_xO. split; [done|nia].
    - intros _. rewrite iter_xO. nia. }
  destruct z as [|p|p]; [done|..]; apply H; lia.
Qed.

Lemma shl_align_min p e f :
  f <= e -> Z.pos (fst (shl_align p e f)) = Z.pos p * 2 ^ (e - f).
Proof.
  intros H. unfold shl_align. destruct (f - e) as [|n|n] eqn:E; [|lia|]; cbn [fst].
  - replace (e - f) with 0 by lia. lia.
  - rewrite iter_xO. do 2 f_equal. lia.
Qed.

Lemma add_spec x y a b :
  fin x a -> fin y b -> normal a -> normal b ->
  (a + b = 0 -> fin (add x y) 0) /\
  (a + b <> 0 -> exists v, fin (add x y) (signed (a + b <? 0) v) /\ approx (Z.abs (a + b)) 1 v).
Proof.
  intros Hx Hy Ha Hb.
  destruct (fin_normal x a Hx Ha) as (sx & p & e & -> & Hp & He & Ea & Eaa & _).
  destruct (fin_normal y b Hy Hb) as (sy & q & f & -> & Hq & Hf & Eb & Ebb & _).
  unfold add, SFadd. set (z := cond_Zopp _ _ + cond_Zopp _ _). set (g := Z.min e f) in *.
  assert (forall h, h >= g -> 2 ^ (h + 1074) = 2 ^ (h - g) * 2 ^ (g + 1074)) as Eg
    by (intros h Hh; rewrite <- Z.pow_add_r by lia; f_equal; lia).
  assert (0 < 2 ^ (g + 1074)) by (apply Z.pow_pos_nonneg; lia).
  assert (a + b = z * 2 ^ (g + 1074)) as Es.
  { unfold z. rewrite !shl_align_min by lia. rewrite Ea, Eb, (Eg e), (Eg f) by lia. destruct sx, sy; cbn; ring. }
  assert (Z.abs (a + b) = Z.abs z * 2 ^ (g + 1074)) as Eabs by (rewrite Es, Z.abs_mul; f_equal; lia).
  destruct (binary_normalize_spec z g false) as [H0 H1]; [lia| |].
  { rewrite <- Eabs. unfold normal in *. assert (2 ^ 1501 = 2 * 2 ^ 1500) by reflexivity. lia. }
  split; intros Hs.
  - apply H0. nia.
  - replace (a + b <? 0) with (z <? 0) by (apply eq_true_iff_eq; rewrite !Z.ltb_lt; nia).
    rewrite Eabs. apply H1. nia.
Qed.

Lemma sub_add x y : sub x y = add x (opp y).
Proof.
  unfold sub, add, SFsub, SFadd, opp. destruct x as [[]|[]| |sx p e], y as [[]|[]| |sy q f]; cbn [SFopp negb]; try done.
  f_equal. destruct sy; cbn [negb cond_Zopp]; lia.
Qed.

Lemma fin_opp x a : fin x a -> fin (opp x) (- a).
Proof. destruct x as [s|s| |s p e]; cbn; [lia|done..|]. intros [H ->]. split; [done|]. destruct s; cbn [negb signed]; lia. Qed.

(** ** Consequences of [approx] *)

Lemma pow2_pos k : 0 <= k -> 0 < 2 ^ k.
Proof. intros. by apply Z.pow_pos_nonneg. Qed.

(** A number of at most 53 bits is a multiple of the quantum of what lies
    below it. *)
Lemma quantum_divides j t B i :
  0 <= j -> 0 <= i -> 2 ^ 52 <= t < 2 ^ 53 \/ j = 0 /\ 0 <= t < 2 ^ 52 ->
  2 ^ j * t <= B -> (2 ^ i | B) -> B <= 2 ^ 53 * 2 ^ i -> (2 ^ j | B).
Proof.
  intros Hj Hi Hb Ht [c ->] Hle. pose proof (pow2_pos j Hj). pose proof (pow2_pos i Hi).
  destruct Hb as [Hb|[-> _]]; [|exists (c * 2 ^ i); lia].
  destruct (Z.le_gt_cases j i) as [Hji|Hji].
  - exists (c * 2 ^ (i - j)). rewrite (pow2_split i j) by lia. ring.
  - assert (j = i + 1) as ->.
    { destruct (Z.eq_dec j (i + 1)); [done|]. pose proof (Z.pow_le_mono_r 2 (i + 2) j ltac:(lia) ltac:(lia)).
      rewrite Z.pow_add_r in * by lia. nia. }
    exists (2 ^ 52). rewrite Z.pow_add_r in * by lia. nia.
Qed.

(** At most 53 bits: no rounding. *)
Lemma approx_exact num den v V i :
  approx num den v -> num = V * den -> 0 < den -> 0 <= i -> (2 ^ i | V) -> V <= 2 ^ 53 * 2 ^ i -> v = V.
Proof.
  intros (j & t & t' & [Hj Hfl _ Hex _ Hb] & ->) -> Hden Hi Hdiv Hle. pose proof (pow2_pos j Hj).
  assert (2 ^ j * t <= V < 2 ^ j * (t + 1)) as Hc
    by (split; [apply (Z.mul_le_mono_pos_r _ _ den)|apply (Z.mul_lt_mono_pos_r den)]; lia).
  destruct (quantum_divides j t V i Hj Hi Hb (proj1 Hc) Hdiv Hle) as [k ->].
  assert (k = t) as -> by nia. rewrite Hex by lia. ring.
Qed.

(** Rounding does not pass a number of at most 53 bits. *)
Lemma approx_le num den v B i :
  approx num den v -> num <= B * den -> 0 < den -> 0 <= i -> (2 ^ i | B) -> B <= 2 ^ 53 * 2 ^ i -> v <= B.
Proof.
  intros (j & t & t' & [Hj Hfl Hn Hex _ Hb] & ->) HB Hden Hi Hdiv Hle. pose proof (pow2_pos j Hj).
  assert (2 ^ j * t <= B) as Hc by (apply (Z.mul_le_mono_pos_r _ _ den); lia).
  destruct (quantum_divides j t B i Hj Hi Hb Hc Hdiv Hle) as [k ->].
  assert (t <= k) by nia. destruct Hn as [->| ->]; [nia|]. destruct (Z.eq_dec k t) as [->|]; [|nia].
  exfalso. assert (t + 1 = t) by (apply Hex; nia). lia.
Qed.

(** Rounding does not go below a power of two. *)
Lemma approx_ge num den v k : approx num den v -> 0 < den -> 0 <= k -> 2 ^ k * den <= num -> 2 ^ k <= v.
Proof.
  intros (j & t & t' & [Hj Hfl Hn Hex Hh Hb] & ->) Hden Hk Hle. pose proof (pow2_pos j Hj). pose proof (pow2_pos k Hk).
  assert (2 ^ k < 2 ^ j * (t + 1)) as Hlt by nia. enough (2 ^ k <= 2 ^ j * t) by nia.
  destruct (Z.le_gt_cases j k) as [Hjk|Hjk].
  - pose proof (pow2_split k j ltac:(lia)) as E. 
    assert (2 ^ (k - j) < t + 1) by (apply (Z.mul_lt_mono_pos_l (2 ^ j)); lia).
    rewrite E. apply Z.mul_le_mono_nonneg_l; lia.
  - pose proof (Z.pow_le_mono_r 2 k j). assert (1 <= t) by (destruct Hb as [|[-> _]]; lia). nia.
Qed.

(** The error is less than one quantum, at most the 2^-52nd part. *)
Lemma approx_error num den v :
  approx num den v -> 0 < den -> 2 ^ 52 * den <= num -> num * (2 ^ 52 - 1) < v * den * 2 ^ 52 <= num * (2 ^ 52 + 1).
Proof.
  intros (j & t & t' & [Hj Hfl Hn Hex Hh Hb] & ->) Hden Hle. pose proof (pow2_pos j Hj).
  assert (2 ^ 52 <= t) as Ht by (destruct Hb as [|[-> _]]; nia).
  assert (2 ^ j * den * 2 ^ 52 <= num) as Hq by nia.
  destruct Hn as [->| ->]; nia.
Qed.

Lemma approx_scale num den v k : 0 < k -> approx (num * k) (den * k) v -> approx num den v.
Proof.
  intros Hk (j & t & t' & [R1 R2 R3 R4 R5 R6] & ->). exists j, t, t'. split; [|done]. constructor; [done| |done| | |done].
  - split; [apply (Z.mul_le_mono_pos_r _ _ k)|apply (Z.mul_lt_mono_pos_r k)]; lia.
  - intros H. apply R4. rewrite <- H. ring.
  - destruct R5 as [R5 R5']. split; intros H; apply (Z.mul_le_mono_pos_r _ _ k); try done;
      [specialize (R5 H)|specialize (R5' H)]; lia.
Qed.

(** The integer part of a rounded quotient. *)
Lemma approx_floor A den v :
  approx (A * one) den v -> 0 < den -> 0 <= A < 2 ^ 53 * den ->
  A / den <= v / one <= A / den + 1 /\ (A mod den = 0 -> v / one = A / den).
Proof.
  intros Hap Hden HA. assert (0 < one) as Hone by done.
  pose proof (Z.div_mod A den ltac:(lia)) as Hdm. pose proof (Z.mod_pos_bound A den Hden) as Hmod. set (k := A / den) in *.
  assert (0 <= k) by (apply Z.div_pos; lia). split.
  - destruct Hap as (j & t & t' & [Hj Hfl Hn Hex Hh Hb] & ->). pose proof (pow2_pos j Hj).
    assert (exists u, one = 2 ^ j * u) as [u Eu].
    { exists (2 ^ (1074 - j)). unfold one. apply pow2_split. split; [done|]. destruct Hb as [Hb|[-> _]]; [|lia].
      destruct (Z.le_gt_cases j 1074) as [|G]; [done|]. pose proof (Z.pow_le_mono_r 2 1075 j ltac:(lia) ltac:(lia)).
      assert (2 ^ 1075 = 2 * one) by reflexivity. nia. }
    assert (0 < u) by nia. rewrite Eu in *.
    assert (k * u < t + 1) as Hl by nia. assert (t < (k + 1) * u) as Hu by nia.
    rewrite Z.div_mul_cancel_l by lia. split.
    + apply Z.div_le_lower_bound; nia.
    + assert (t' / u < k + 2); [|lia]. apply Z.div_lt_upper_bound; nia.
  - intros Hz. rewrite (approx_exact _ _ v (k * one) 1074 Hap); [|nia|done|lia|by exists k|fold one; nia].
    by apply Z.div_mul.
Qed.

(** For a dividend of at most 53 bits the integer part of the quotient is
    exact: the fraction is too far from 1 to be rounded up. *)
Lemma approx_floor_exact A den v :
  approx (A * one) den v -> 0 < den < 2 ^ 300 -> 0 <= A < 2 ^ 53 -> v / one = A / den.
Proof.
  intros Hap Hden HA. destruct (approx_floor A den v Hap) as [[H1 H2] _]; [lia..|].
  destruct (Z.eq_dec (v / one) (A / den)) as [|Hne]; [done|]. exfalso. pose proof one_pos.
  assert ((A / den + 1) * one <= v) as Hv by (pose proof (Z.mul_div_le v one one_pos); nia).
  pose proof (Z.div_mod A den ltac:(lia)) as Hdm. pose proof (Z.mod_pos_bound A den ltac:(lia)) as Hmod. set (k := A / den) in *.
  destruct Hap as (j & t & t' & [Hj Hfl Hn Hex Hh Hb] & ->). pose proof (pow2_pos j Hj).
  assert (2 ^ j * t < (k + 1) * one) as Hlt by nia.
  assert (t' = t + 1) as -> by nia. assert (2 ^ j * (2 * t + 1) * den <= 2 * (A * one)) as Hh' by (by apply Hh).
  assert (2 * one <= 2 ^ j * den) as Hw by nia.
  assert (2 ^ j * t * den < 2 ^ 53 * one) as Hup by nia.
  destruct Hb as [Hb|[-> _]]; [|cbn [Z.pow Z.pow_pos] in Hw; assert (2 ^ 300 < one) by done; lia].
  assert (2 ^ j * den * 2 ^ 52 < 2 ^ 53 * one) by nia. nia.
Qed.
(** ** Finite doubles compare and truncate like numbers *)

Lemma fin_not_nan x v : fin x v -> is_nan x = false.
Proof. by destruct x. Qed.

Lemma bounded_spec p e :
  bounded prec emax p e = true ->
  -1074 <= e /\ 0 < 2 ^ (e + 1074) /\ Z.pos p < 2 ^ 53 /\ (-1074 < e -> 2 ^ 52 <= Z.pos p).
Proof.
  unfold bounded, canonical_mantissa. intros [Hc _]%andb_true_iff. apply Z.eqb_eq in Hc. rewrite fexp_eq in Hc.
  pose proof (digits2_bounds p) as [P1 P2]. set (d := Z.pos (digits2_pos p)) in *.
  split; [lia|]. split; [apply pow2_pos; lia|]. split; [pose proof (Z.pow_le_mono_r 2 d 53); lia|].
  intros. replace 52 with (d - 1) by lia. done.
Qed.

Lemma fin_zero x : fin x 0 -> exists s, x = S754_zero s.
Proof.
  destruct x as [s| | |s p e]; try done; [by exists s|]. intros [Hb H]. exfalso.
  pose proof (bounded_spec p e Hb). destruct s; cbn [signed] in H; nia.
Qed.

(** The magnitude decides by exponent first. *)
Lemma finite_lt p e q f :
  bounded prec emax p e = true -> bounded prec emax q f = true -> e < f ->
  Z.pos p * 2 ^ (e + 1074) < Z.pos q * 2 ^ (f + 1074).
Proof.
  intros (H1 & H2 & H3 & _)%bounded_spec (H4 & H5 & H6 & H7)%bounded_spec Hef.
  rewrite (pow2_split (f + 1074) (e + 1074)) by lia.
  pose proof (Z.pow_le_mono_r 2 1 (f + 1074 - (e + 1074)) ltac:(lia) ltac:(lia)).
  set (k := 2 ^ (f + 1074 - (e + 1074))) in *. assert (Z.pos p < Z.pos q * k) by nia.
  rewrite (Z.mul_comm _ k), Z.mul_assoc. by apply Z.mul_lt_mono_pos_r.
Qed.

Lemma fin_lt x y a b : fin x a -> fin y b -> lt x y = (a <? b).
Proof.
  intros Hx Hy. apply eq_true_iff_eq. rewrite lt_spec, (fin_not_nan _ _ Hx), (fin_not_nan _ _ Hy), Z.ltb_lt.
  enough (lex_lt (key x) (key y) <-> a < b) by tauto.
  destruct x as [sx| | |sx p e]; try done; destruct y as [sy| | |sy q f]; try done; cbn in Hx, Hy.
  - subst. destruct sx, sy; cbn; lia.
  - destruct Hy as [Hb ->]. subst a. assert (0 < Z.pos q * 2 ^ (f + 1074)).
    { pose proof (bounded_spec q f Hb). nia. }
    destruct sy; cbn; lia.
  - destruct Hx as [Hb ->]. subst b. assert (0 < Z.pos p * 2 ^ (e + 1074)).
    { pose proof (bounded_spec p e Hb). nia. }
    destruct sx; cbn; lia.
  - destruct Hx as [Hbx ->], Hy as [Hby ->].
    pose proof (bounded_spec p e Hbx). pose proof (bounded_spec q f Hby).
    destruct (Z.lt_trichotomy e f) as [L|[->|G]];
      [pose proof (finite_lt p e q f Hbx Hby L)| |pose proof (finite_lt q f p e Hby Hbx G)];
      destruct sx, sy; cbn; nia.
Qed.

Lemma fin_trunc x v : fin x v -> trunc x = Some (Z.quot v one).
Proof.
  destruct x as [s| | |s p e]; try done; cbn [fin trunc]; [by intros ->|].
  intros [Hb ->]. pose proof (bounded_spec p e Hb). f_equal.
  assert ((if 0 <=? e then Z.pos p * 2 ^ e else Z.pos p / 2 ^ (- e)) = Z.quot (Z.pos p * 2 ^ (e + 1074)) one) as ->.
  { rewrite Z.quot_div_nonneg by (unfold one; lia). unfold one. destruct (Z.leb_spec 0 e).
    - rewrite Z.pow_add_r, Z.mul_assoc, Z.div_mul by lia. done.
    - rewrite (pow2_split 1074 (e + 1074)) by lia. pose proof (pow2_pos (- e)).
      replace (1074 - (e + 1074)) with (- e) by lia. rewrite (Z.mul_comm (Z.pos p)), Z.div_mul_cancel_l by lia. done. }
  destruct s; cbn [signed]; [by rewrite Z.quot_opp_l by done|done].
Qed.

(** ** Integers *)

Lemma int_normal z : z <> 0 -> Z.abs z < 2 ^ 400 -> normal (z * one).
Proof.
  intros H0 H. unfold normal. rewrite Z.abs_mul. change (Z.abs one) with one. split.
  - apply Z.le_trans with (1 * one); [by apply Z.leb_le|]. apply Z.mul_le_mono_nonneg_r; [done|lia].
  - apply Z.lt_le_trans with (2 ^ 400 * one); [by apply Z.mul_lt_mono_pos_r|by apply Z.leb_le].
Qed.

Lemma int_of_Z z : Z.abs z <= 2 ^ 53 -> int (of_Z z) z.
Proof.
  intros Hz. unfold of_Z, int. destruct (binary_normalize_spec z 0 false) as [H0 H1]; [lia| |].
  { change (2 ^ (0 + 1074)) with one. apply Z.le_lt_trans with (2 ^ 53 * one); [by apply Z.mul_le_mono_nonneg_r|by apply Z.ltb_lt]. }
  destruct (decide (z = 0)) as [->|Hne]; [by apply H0|].
  destruct (H1 Hne) as (v & Hv & Hap). change (2 ^ (0 + 1074)) with one in Hap.
  rewrite (approx_exact _ _ v (Z.abs z * one) 1074 Hap) in Hv;
    [|lia|lia|lia|by exists (Z.abs z)|by apply Z.mul_le_mono_nonneg_r].
  replace (z * one) with (signed (z <? 0) (Z.abs z * one)); [done|].
  destruct (Z.ltb_spec z 0); cbn [signed]; lia.
Qed.

Lemma int_lt x y a b : int x a -> int y b -> lt x y = (a <? b).
Proof.
  intros Hx Hy. rewrite (fin_lt _ _ _ _ Hx Hy). pose proof one_pos. apply eq_true_iff_eq. rewrite !Z.ltb_lt. nia.
Qed.

Lemma int_trunc x a : int x a -> trunc x = Some a.
Proof. intros Hx. rewrite (fin_trunc _ _ Hx), Z.quot_mul by done. done. Qed.

(** Multiplication by zero and the sign of the result. *)
Lemma mul_zero x y a b : fin x a -> fin y b -> a = 0 \/ b = 0 -> fin (mul x y) 0.
Proof.
  intros Hx Hy [-> | ->].
  - destruct (fin_zero x Hx) as [s ->]. by destruct y.
  - destruct (fin_zero y Hy) as [s ->]. by destruct x.
Qed.

Lemma signed_abs z : signed (z <? 0) (Z.abs z) = z.
Proof. destruct (Z.ltb_spec z 0); cbn [signed]; lia. Qed.

Lemma signed_mul a b v : v = Z.abs a * Z.abs b -> signed (xorb (a <? 0) (b <? 0)) v = a * b.
Proof. intros ->. destruct (Z.ltb_spec a 0), (Z.ltb_spec b 0); cbn [signed xorb]; nia. Qed.

Lemma sign_one z : (z * one <? 0) = (z <? 0).
Proof. pose proof one_pos. apply eq_true_iff_eq. rewrite !Z.ltb_lt. nia. Qed.

Lemma int_mul x y a b : int x a -> int y b -> Z.abs (a * b) <= 2 ^ 53 -> int (mul x y) (a * b).
Proof.
  intros Hx Hy Hab. destruct (decide (a = 0 \/ b = 0)) as [H0|H0].
  { assert (a * b = 0) as -> by lia. apply (mul_zero x y (a * one) (b * one)); [done..|]. pose proof one_pos. nia. }
  assert (Z.abs a <= 2 ^ 53 /\ Z.abs b <= 2 ^ 53) as [Ha Hb].
  { rewrite Z.abs_mul in Hab. split; nia. }
  destruct (mul_spec x y _ _ Hx Hy) as (v & Hv & Hap); [apply int_normal; lia..|]. rewrite !sign_one in Hv.
  rewrite !Z.abs_mul in Hap. change (Z.abs one) with one in Hap.
  rewrite (approx_exact _ _ v (Z.abs a * Z.abs b * one) 1074 Hap) in Hv;
    [|lia|done|lia|by exists (Z.abs a * Z.abs b)|rewrite <- Z.abs_mul; by apply Z.mul_le_mono_nonneg_r].
  unfold int. replace (a * b * one) with (signed (xorb (a <? 0) (b <? 0)) (Z.abs a * Z.abs b * one)); [done|].
  rewrite <- (signed_mul a b (Z.abs a * Z.abs b)) by done. by destruct (xorb _ _); cbn [signed]; lia.
Qed.

Lemma int_add x y a b :
  int x a -> int y b -> Z.abs a < 2 ^ 400 -> Z.abs b < 2 ^ 400 -> Z.abs (a + b) <= 2 ^ 53 -> int (add x y) (a + b).
Proof.
  intros Hx Hy Ha Hb Hab. destruct (decide (a = 0)) as [->|Ha0].
  { destruct (fin_zero x) as [s ->]; [exact Hx|]. destruct y as [[]| | |]; try done; by destruct s. }
  destruct (decide (b = 0)) as [->|Hb0].
  { rewrite Z.add_0_r. destruct (fin_zero y) as [s ->]; [exact Hy|]. destruct x as [[]| | |]; try done; by destruct s. }
  destruct (add_spec x y _ _ Hx Hy) as [H0 H1]; [by apply int_normal..|]. rewrite <- Z.mul_add_distr_r in H0, H1.
  unfold int. destruct (decide (a + b = 0)) as [Es|Hs].
  { rewrite Es in *. by apply H0. }
  destruct H1 as (v & Hv & Hap); [pose proof one_pos; nia|]. rewrite sign_one in Hv.
  rewrite Z.abs_mul in Hap. change (Z.abs one) with one in Hap.
  rewrite (approx_exact _ _ v (Z.abs (a + b) * one) 1074 Hap) in Hv;
    [|lia|lia|lia|by exists (Z.abs (a + b))|by apply Z.mul_le_mono_nonneg_r].
  replace ((a + b) * one) with (signed (a + b <? 0) (Z.abs (a + b) * one)); [done|].
  destruct (Z.ltb_spec (a + b) 0); cbn [signed]; lia.
Qed.

Lemma int_sub x y a b :
  int x a -> int y b -> Z.abs a < 2 ^ 400 -> Z.abs b < 2 ^ 400 -> Z.abs (a - b) <= 2 ^ 53 -> int (sub x y) (a - b).
Proof.
  intros Hx Hy Ha Hb Hab. rewrite sub_add. apply (int_add x (opp y) a (- b)); [done| |lia..].
  unfold int. rewrite Z.mul_opp_l. by apply fin_opp.
Qed.

(** The quotient of integers, cut to an integer, is the integer quotient. *)
Lemma int_div_trunc x y a b :
  int x a -> int y b -> 0 < b < 2 ^ 300 -> Z.abs a < 2 ^ 53 -> trunc (div x y) = Some (Z.quot a b).
Proof.
  intros Hx Hy Hb Ha. destruct (decide (a = 0)) as [->|Ha0].
  { destruct (fin_zero x) as [s ->]; [exact Hx|]. rewrite Z.quot_0_l by lia.
    destruct y as [s'| | |s' p e]; try done. exfalso. cbn in Hy. pose proof one_pos. nia. }
  destruct (div_spec x y _ _ Hx Hy) as (v & Hv & Hap); [apply int_normal; lia..|]. rewrite !sign_one in Hv.
  rewrite !Z.abs_mul in Hap. change (Z.abs one) with one in Hap.
  replace (xorb (a <? 0) (b <? 0)) with (a <? 0) in Hv by (by rewrite (proj2 (Z.ltb_ge b 0)), xorb_false_r by lia).
  rewrite (fin_trunc _ _ Hv). f_equal.
  assert (approx (Z.abs a * one) (Z.abs b) v) as Hap' by (by apply (approx_scale _ _ _ one)).
  pose proof (approx_floor_exact _ _ _ Hap' ltac:(lia) ltac:(lia)) as Hf.
  assert (0 <= v).
  { destruct (Z.le_gt_cases 0 v) as [|G]; [done|]. pose proof (Z.div_lt_upper_bound v one 0 one_pos ltac:(lia)).
    pose proof (Z.div_pos (Z.abs a) (Z.abs b)). lia. }
  rewrite <- (signed_abs a) at 2. rewrite (Z.abs_eq b) in Hf by lia. pose proof one_pos.
  destruct (a <? 0); cbn [signed]; rewrite ?Z.quot_opp_l, !Z.quot_div_nonneg by lia; congruence.
Qed.

(** A number other than zero has one representation. *)
Lemma fin_inj x y v : fin x v -> fin y v -> v <> 0 -> x = y.
Proof.
  intros Hx Hy Hv. destruct x as [s| | |s p e]; try done. destruct y as [s'| | |s' q f]; try done.
  destruct Hx as [Hbx Ex], Hy as [Hby Ey]. pose proof (bounded_spec p e Hbx). pose proof (bounded_spec q f Hby).
  assert (s = s') as ->. { destruct s, s'; cbn [signed] in *; try done; nia. }
  assert (Z.pos p * 2 ^ (e + 1074) = Z.pos q * 2 ^ (f + 1074)) as E by (destruct s'; cbn [signed] in *; lia).
  destruct (Z.lt_trichotomy e f) as [L|[->|G]];
    [pose proof (finite_lt p e q f Hbx Hby L); lia| |pose proof (finite_lt q f p e Hby Hbx G); lia].
  f_equal. nia.
Qed.

Lemma int_inj x y z : int x z -> int y z -> z <> 0 -> x = y.
Proof. intros Hx Hy Hz. apply (fin_inj x y _ Hx Hy). pose proof one_pos. nia. Qed.
(** ** Sums of nonnegative numbers, however large *)

Lemma binary_round_cases sz p e :
  -1074 <= e ->
  exists v, approx (Z.pos p * 2 ^ (e + 1074)) 1 v /\
    (fin (binary_round prec emax sz p e) (signed sz v) \/
     2 ^ 2000 <= Z.pos p * 2 ^ (e + 1074) /\ binary_round prec emax sz p e = S754_infinity sz).
Proof.
  intros He. unfold binary_round, shl_align. pose proof (pow2_pos (e + 1074) ltac:(lia)) as Hp.
  set (d := Z.pos (digits2_pos p)). rewrite fexp_eq.
  assert (forall q f, -1074 <= f -> f <= Z.max (Z.pos (digits2_pos q) + f - 53) (-1074) ->
    Z.pos q * 2 ^ (f + 1074) = Z.pos p * 2 ^ (e + 1074) ->
    exists v, approx (Z.pos p * 2 ^ (e + 1074)) 1 v /\
      (fin (binary_round_aux prec emax sz (Z.pos q) f loc_Exact) (signed sz v) \/
       2 ^ 2000 <= Z.pos p * 2 ^ (e + 1074) /\ binary_round_aux prec emax sz (Z.pos q) f loc_Exact = S754_infinity sz)) as H.
  { intros q f Hf Hfe Heq. pose proof (pow2_pos (f + 1074) ltac:(lia)).
    destruct (binary_round_aux_cases sz (Z.pos q) f loc_Exact (Z.pos p * 2 ^ (e + 1074)) 1) as (v & Ha & Hv);
      [lia..|rewrite fexp_eq; exact Hfe|nia|split; [done|lia]|done|nia|]. exists v. split; [done|].
    destruct Hv as [|[Hf' Hi]]; [by left|right]. split; [|done]. rewrite fexp_eq in Hf'. rewrite <- Heq.
    destruct (digits_bounds (Z.pos q) ltac:(lia)) as [[D1 _] _]. set (D := Zdigits2 (Z.pos q)) in *.
    pose proof (Z.pow_le_mono_r 2 2000 (D - 1 + (f + 1074)) ltac:(lia) ltac:(lia)) as Hb.
    rewrite (Z.pow_add_r 2 (D - 1)) in Hb by (subst D; cbn [Zdigits2]; lia). nia. }
  destruct (Z.max (d + e - 53) (-1074) - e) as [|n|n] eqn:En; [apply H; [lia|lia|done]..|].
  apply H; [lia| |].
  - rewrite digits_iter_xO, Pos2Z.inj_add. fold d. lia.
  - rewrite iter_xO, <- Z.mul_assoc, <- Z.pow_add_r by lia. do 2 f_equal. lia.
Qed.

(** Rounding does not go below a number of at most 53 bits. *)
Lemma approx_ge_exact num den v B i :
  approx num den v -> B * den <= num -> 0 < den -> 0 <= i -> (2 ^ i | B) -> B <= 2 ^ 53 * 2 ^ i -> B <= v.
Proof.
  intros (j & t & t' & [Hj Hfl Hn _ _ Hb] & ->) HB Hden Hi Hdiv Hle. pose proof (pow2_pos j Hj).
  destruct (Z.le_gt_cases B (2 ^ j * t)) as [|G]; [nia|].
  destruct (quantum_divides j t B i Hj Hi Hb ltac:(lia) Hdiv Hle) as [k ->].
  assert (t + 1 <= k) by nia. assert (2 ^ j * (t + 1) * den <= k * 2 ^ j * den); [|lia].
  apply Z.mul_le_mono_nonneg_r; [lia|nia].
Qed.

(** Two binades do not meet. *)
Lemma binades i j t u :
  0 <= i -> i < j -> 2 ^ 52 <= t -> u < 2 ^ 53 -> 2 ^ i * (u + 1) <= 2 ^ j * t.
Proof.
  intros Hi Hij Ht Hu. pose proof (pow2_pos i Hi). pose proof (pow2_pos (j - (i + 1)) ltac:(lia)) as Hp.
  rewrite (pow2_split j (i + 1)), Z.pow_add_r, Z.pow_1_r, <- !Z.mul_assoc by lia. apply Z.mul_le_mono_nonneg_l; [lia|].
  change (2 ^ 53) with (2 * 2 ^ 52) in Hu. remember (2 ^ 52) as B eqn:EB.
  assert (0 < B) by (by subst). clear EB. nia.
Qed.

(** Rounding is monotone. *)
Lemma approx_mono num num' den v v' :
  approx num den v -> approx num' den v' -> num < num' -> 0 < den -> v <= v'.
Proof.
  intros Ha Ha' Hlt Hden.
  pose proof Ha as (j & t & t' & [Hj Hfl Hn _ [Hh _] Hb] & Ev).
  pose proof Ha' as (j' & u & u' & [Hj' Hfl' Hn' _ [_ Hh'] Hb'] & Ev').
  pose proof (pow2_pos j Hj). pose proof (pow2_pos j' Hj').
  assert (exists k, v = k * 2 ^ j /\ k <= 2 ^ 53 /\ 0 <= k) as (k & Ek & Hk & Hk0).
  { exists t'. split; [lia|]. lia. }
  destruct (Z.le_gt_cases (v * den) num') as [G|G].
  { apply (approx_ge_exact num' den v' v j Ha'); [done..|by exists k|subst; nia]. }
  assert (t' = t + 1) as -> by (destruct Hn as [-> | ->]; [nia|done]). specialize (Hh Logic.eq_refl).
  assert (2 ^ j * t * den < num' < 2 ^ j * (t + 1) * den) as Hin by nia.
  assert (2 ^ j * t < 2 ^ j' * (u + 1)) as L1 by (apply (Z.mul_lt_mono_pos_r den); lia).
  assert (2 ^ j' * u < 2 ^ j * (t + 1)) as L2 by (apply (Z.mul_lt_mono_pos_r den); lia).
  assert (j' = j) as ->.
  { destruct (Z.lt_trichotomy j' j) as [L|[E|L]]; [exfalso|done|exfalso].
    - destruct Hb as [Hb|[-> _]]; [|lia]. pose proof (binades j' j t u). lia.
    - destruct Hb' as [Hb'|[-> _]]; [|lia]. pose proof (binades j j' u t). lia. }
  apply Z.mul_lt_mono_pos_l in L1; [|done]. apply Z.mul_lt_mono_pos_l in L2; [|done].
  assert (u = t) as -> by lia. destruct Hn' as [-> | ->]; [|lia]. specialize (Hh' Logic.eq_refl). lia.
Qed.

(** A number from 0 to infinity. *)
Definition nonneg (x : f64) : Prop := x = S754_infinity false \/ exists v, fin x v /\ 0 <= v.

Lemma nonneg_le x : nonneg x -> le zero x = true.
Proof.
  intros [->|(v & Hx & Hv)]; [done|]. apply le_total; [by apply (fin_not_nan x v)|done|].
  rewrite (fin_lt x zero v 0 Hx) by done. by apply Z.ltb_ge.
Qed.

Lemma nonneg_not_nan x : nonneg x -> is_nan x = false.
Proof. intros [->|(v & Hx & _)]; [done|by apply (fin_not_nan x v)]. Qed.

Lemma fin_le x y a b : fin x a -> fin y b -> a <= b -> le x y = true.
Proof.
  intros Hx Hy Hab. apply le_total; [by apply (fin_not_nan y b)|by apply (fin_not_nan x a)|].
  rewrite (fin_lt y x b a Hy Hx). by apply Z.ltb_ge.
Qed.

Lemma fin_pos x a :
  fin x a -> 0 < a -> exists p e, x = S754_finite false p e /\ bounded prec emax p e = true /\ a = Z.pos p * 2 ^ (e + 1074).
Proof.
  intros Hx Ha. destruct x as [s| | |s p e]; try done; [cbn in Hx; lia|]. destruct Hx as [Hb ->].
  pose proof (bounded_spec p e Hb) as (_ & H & _). exists p, e. destruct s; cbn [signed] in *; [lia|done].
Qed.

Lemma add_fin_nonneg x y a b :
  fin x a -> 0 < a -> fin y b -> 0 < b ->
  exists v, approx (a + b) 1 v /\ (fin (add x y) v \/ add x y = S754_infinity false).
Proof.
  intros Hx Ha Hy Hb. destruct (fin_pos x a Hx Ha) as (p & e & -> & Bx & ->).
  destruct (fin_pos y b Hy Hb) as (q & f & -> & By & ->). clear Hx Hy. rename Bx into Hx, By into Hy.
  pose proof (bounded_spec p e Hx). pose proof (bounded_spec q f Hy). unfold add, SFadd. set (g := Z.min e f).
  cbn [cond_Zopp]. assert (Z.pos (fst (shl_align p e g)) + Z.pos (fst (shl_align q f g)) =
    Z.pos (fst (shl_align p e g) + fst (shl_align q f g))) as -> by done.
  assert (Z.pos (fst (shl_align p e g) + fst (shl_align q f g)) * 2 ^ (g + 1074) =
    Z.pos p * 2 ^ (e + 1074) + Z.pos q * 2 ^ (f + 1074)) as E.
  { rewrite Pos2Z.inj_add, !shl_align_min, Z.mul_add_distr_r, <- !Z.mul_assoc, <- !Z.pow_add_r by lia.
    do 3 f_equal; lia. }
  rewrite <- E. cbn [binary_normalize].
  destruct (binary_round_cases false ((shl_align p e g).1 + (shl_align q f g).1) g) as (v & Hap & [Hv|[_ Hv]]); [lia|..];
    exists v; (split; [done|]); [by left|by right].
Qed.

(** A sum of two such numbers is one, and not below its terms. *)
Lemma nonneg_add x y : nonneg x -> nonneg y -> nonneg (add x y) /\ le x (add x y) = true.
Proof.
  intros [->|(a & Hx & Ha)] Hy'; [destruct Hy' as [->|(b & Hy & _)]; [|destruct y; try done]; (split; [by left|done])|].
  destruct Hy' as [->|(b & Hy & Hb)]; [destruct x as [[]| | |[] p e]; try done; (split; [by left|done])|].
  assert (a = 0 \/ b = 0 \/ 0 < a /\ 0 < b) as [-> |[-> |[Ha' Hb']]] by lia.
  - destruct (fin_zero x Hx) as [sx ->]. assert (exists s, add (S754_zero sx) y = y \/ add (S754_zero sx) y = S754_zero s /\ b = 0) as (s & [->|[-> ->]]).
    { destruct y as [sy| | |sy q f]; try done; [|exists true; by left].
      cbn in Hy. subst b. destruct sx, sy; (exists true + exists false); by (left + right). }
    + split; [right; by exists b|]. by apply (fin_le _ _ 0 b).
    + split; [right; by exists 0|by destruct sx, s].
  - destruct (fin_zero y Hy) as [sy ->]. destruct (Z.eq_dec a 0) as [->|Hna].
    + destruct (fin_zero x Hx) as [sx ->]. by destruct sx, sy; (split; [right; exists 0|]).
    + assert (add x (S754_zero sy) = x) as -> by (destruct x; cbn in Hx; try done).
      split; [right; by exists a|]. by apply le_refl, (fin_not_nan x a).
  - destruct (add_fin_nonneg x y a b Hx Ha' Hy Hb') as (v & Hap & Hv).
    assert (a <= v) as Hle.
    { destruct (fin_pos x a Hx Ha') as (p & e & -> & Hbx & ->). clear Hx. rename Hbx into Hx.
      pose proof (bounded_spec p e Hx). apply (approx_ge_exact _ _ _ _ (e + 1074) Hap); [lia..|by exists (Z.pos p)|nia]. }
    destruct Hv as [Hv| ->].
    + split; [right; exists v; by split; [|lia]|by apply (fin_le _ _ a v)].
    + split; [by left|]. by destruct x as [[]| | |[] p e].
Qed.

Lemma approx_nonneg num den v : approx num den v -> 0 <= v.
Proof. intros (j & t & t' & [R1 _ R3 _ _ R6] & ->). pose proof (pow2_pos j R1). nia. Qed.

(** The sign of a sum. *)
Lemma add_sign x y a b :
  fin x a -> fin y b -> (0 <= a + b -> nonneg (add x y)) /\ (a + b < 0 -> le (add x y) zero = true).
Proof.
  intros Hx Hy.
  assert (forall r v, fin r v -> (0 <= v -> nonneg r) /\ (v < 0 -> le r zero = true)) as Hfin.
  { intros r v Hr. split; intros Hv; [right; by exists v|apply (fin_le r zero v 0); [done|done|lia]]. }
  destruct x as [sx| | |sx p e]; try done; destruct y as [sy| | |sy q f]; try done.
  - cbn in Hx, Hy. subst. apply (Hfin _ 0). by destruct sx, sy.
  - cbn in Hx. subst. apply (Hfin _ b). by destruct sx.
  - cbn in Hy. subst. rewrite Z.add_0_r. apply (Hfin _ a). by destruct sy.
  - destruct Hx as [Hx ->], Hy as [Hy ->]. pose proof (bounded_spec p e Hx). pose proof (bounded_spec q f Hy).
    unfold add, SFadd. set (g := Z.min e f). set (z := cond_Zopp _ _ + cond_Zopp _ _).
    assert (signed sx (Z.pos p * 2 ^ (e + 1074)) + signed sy (Z.pos q * 2 ^ (f + 1074)) = z * 2 ^ (g + 1074)) as ->.
    { assert (forall h, g <= h -> 2 ^ (h + 1074) = 2 ^ (h - g) * 2 ^ (g + 1074)) as Eg
        by (intros h Hh; rewrite <- Z.pow_add_r by lia; f_equal; lia).
      unfold z. rewrite !shl_align_min, (Eg e), (Eg f) by lia. destruct sx, sy; cbn; ring. }
    pose proof (pow2_pos (g + 1074) ltac:(lia)).
    destruct z as [|r|r]; cbn [binary_normalize].
    + by apply (Hfin _ 0).
    + split; [intros _|lia]. destruct (binary_round_cases false r g) as (v & Ha & [Hv|[_ ->]]); [lia| |by left].
      right. exists v. split; [done|]. by eapply approx_nonneg.
    + split; [lia|intros _]. destruct (binary_round_cases true r g) as (v & Ha & [Hv|[_ ->]]); [lia| |done].
      pose proof (approx_nonneg _ _ _ Ha). apply (fin_le _ zero (- v) 0); [done|done|lia].
Qed.

(** A difference above such a number: the terms are in order, and stay so
    when the first grows. *)
Lemma nonneg_sub_above x y z :
  nonneg x -> nonneg y -> nonneg z -> lt z (sub x y) = true ->
  forall x', nonneg x' -> le x x' = true -> nonneg (sub x' y).
Proof.
  intros Hx [->|(b & Hy & _)] Hz Hl x' Hx' Hle.
  { exfalso. destruct Hx as [->|(a & Hx & _)]; [by destruct z as [[]|[]| |[]]|].
    pose proof (nonneg_le z Hz) as H0. pose proof (le_lt_trans _ _ _ H0 Hl) as H. by destruct x as [[]|[]| |[]]. }
  rewrite !sub_add in *. destruct Hx' as [->|(a' & Hx' & _)]; [destruct y; try done; by left|].
  apply (add_sign x' (opp y) a' (- b)); [done|by apply fin_opp|].
  destruct Hx as [->|(a & Hx & _)]; [by destruct x'|].
  destruct (add_sign x (opp y) a (- b) Hx (fin_opp y b Hy)) as [_ H2].
  destruct (Z.le_gt_cases b a) as [Hba|Hba].
  - enough (a <= a') by lia. destruct (Z.le_gt_cases a a') as [|G]; [done|]. exfalso.
    assert (lt x' x = true) as Hgt by (rewrite (fin_lt x' x a' a Hx' Hx); by apply Z.ltb_lt).
    apply lt_not_le in Hgt. congruence.
  - exfalso. pose proof (le_lt_trans _ _ _ (nonneg_le z Hz) Hl) as H. apply lt_not_le in H. rewrite H2 in H; [done|lia].
Qed.

(** The time a number of bits takes. *)
Lemma nonneg_int_div z x b : 0 <= z <= 2 ^ 53 -> fin x b -> normal b -> 0 < b -> nonneg (div (of_Z z) x).
Proof.
  intros Hz Hx Hb Hpos. pose proof (int_of_Z z ltac:(lia)) as Hi. right.
  destruct (Z.eq_dec z 0) as [->|Hne].
  { exists 0. split; [|done]. destruct (fin_normal x b Hx Hb) as (s & p & e & -> & _). change (of_Z 0) with (S754_zero false).
    by destruct s. }
  destruct (div_spec (of_Z z) x (z * one) b Hi Hx) as (v & Hv & (j & t & t' & [R1 R2 R3 _ _ R6] & ->));
    [apply int_normal; lia|done|].
  rewrite sign_one, (proj2 (Z.ltb_ge z 0)), (proj2 (Z.ltb_ge b 0)) in Hv by lia. cbn [xorb signed] in Hv.
  exists (2 ^ j * t'). split; [done|]. pose proof (pow2_pos j R1). nia.
Qed.
(** The remainder is exact. *)
Lemma fmod_spec x y a b : fin x a -> 0 <= a < 2 ^ 2000 -> fin y b -> 0 < b -> fin (fmod x y) (a mod b).
Proof.
  intros Hx Ha Hy Hb. destruct (fin_pos y b Hy Hb) as (q & f & -> & Bq & ->).
  destruct (Z.eq_dec a 0) as [->|Hne]; [destruct (fin_zero x Hx) as [s ->]; by rewrite Z.mod_0_l by lia|].
  destruct (fin_pos x a Hx) as (p & e & -> & Bp & ->); [lia|]. clear Hne.
  apply bounded_spec in Bp as (He & _ & Hp & _), Bq as (Hf & _ & Hq & _). cbn [fmod].
  set (g := Z.min e f). set (r := (Z.pos p * 2 ^ (e - g)) mod (Z.pos q * 2 ^ (f - g))).
  assert (0 < Z.pos q * 2 ^ (f - g)) as Hd by (pose proof (pow2_pos (f - g)); lia).
  pose proof (pow2_pos (g + 1074) ltac:(lia)) as Hg.
  assert (forall h, g <= h -> 2 ^ (h + 1074) = 2 ^ (h - g) * 2 ^ (g + 1074)) as Hsp
    by (intros h Hh; rewrite <- Z.pow_add_r by lia; f_equal; lia).
  assert ((Z.pos p * 2 ^ (e + 1074)) mod (Z.pos q * 2 ^ (f + 1074)) = r * 2 ^ (g + 1074)) as ->.
  { rewrite (Hsp e), (Hsp f), !Z.mul_assoc by lia. apply Z.mul_mod_distr_r; lia. }
  pose proof (Z.mod_pos_bound (Z.pos p * 2 ^ (e - g)) _ Hd) as Hr. fold r in Hr.
  assert (r <= 2 ^ 53) as Hr53.
  { pose proof (Z.mod_le (Z.pos p * 2 ^ (e - g)) _ ltac:(pose proof (pow2_pos (e - g)); lia) Hd) as Hle. fold r in Hle.
    destruct (Z.le_gt_cases e f).
    - replace (e - g) with 0 in Hle by lia. lia.
    - replace (f - g) with 0 in Hr by lia. lia. }
  destruct (Z.eqb_spec r 0) as [->|Hr0]; [done|]. destruct r as [|r'|r'] eqn:Er; [done| |lia].
  cbn [binary_normalize]. destruct (binary_round_cases false r' g) as (v & Hv & [Hfin|[Hbig _]]); [lia| |].
  - rewrite (approx_exact _ _ v (Z.pos r' * 2 ^ (g + 1074)) (g + 1074) Hv) in Hfin; [done|lia..|by exists (Z.pos r')|nia].
  - exfalso. pose proof (pow2_pos (e - g) ltac:(lia)).
    assert (Z.pos r' * 2 ^ (g + 1074) <= Z.pos p * 2 ^ (e + 1074)); [|lia].
    rewrite (Hsp e), Z.mul_assoc by lia. apply Z.mul_le_mono_nonneg_r; [lia|]. rewrite <- Er. apply Z.mod_le; lia.
Qed.
End F64Exact.
