(* ===== verification/PktQueue.v ===== *)
(** * Packets and the linked packet queue

    [Packet] (src/ns2/common/packet.h, ip.h, flags.h) restricted to the
    header fields the queueing code reads or writes, the memory that holds
    packets, and [PacketQueue] (src/ns2/queue/queue.h, queue.cc) at the level
    of its pointers.  [PacketQueue.rep] relates the pointers to the list of
    queued packets; every operation is shown to implement its list
    counterpart.  The class [PacketFifo] is the interface the queueing
    disciplines are written against; [PacketQueue] is its first instance. *)

From Stdlib Require Import ZArith Lia.
From stdpp Require Import base list gmap.
From S2P Require Import Prelude.

(** ** Packets in memory *)

Abbreviation addr := positive.

Record Packet := mkPacket {
  next_ : option addr;      (* Packet::next_ *)
  size_ : Z;                (* hdr_cmn::size () *)
  prio_ : Z;                (* hdr_ip::prio () *)
  saddr_ : Z;               (* hdr_ip::saddr () *)
  daddr_ : Z;               (* hdr_ip::daddr () *)
  flowid_ : Z;              (* hdr_ip::flowid () *)
  ecn_capable_ : Z;         (* hdr_flags::ect () *)
  ecn_to_echo_ : Z          (* hdr_flags::ce () *)
}.

#[export] Instance eta_Packet : Eta Packet := fun r =>
  mkPacket (next_ r) (size_ r) (prio_ r) (saddr_ r) (daddr_ r) (flowid_ r)
    (ecn_capable_ r) (ecn_to_echo_ r).

Abbreviation mem := (gmap addr Packet).

(** [p->f = ...] through a pointer. *)
Definition update_packet (m : mem) (p : addr) (f : Packet -> Packet) : res mem :=
  let! pk := deref (m !! p) in Ok (<[p := f pk]> m).

Definition set_next (m : mem) (p : addr) (n : option addr) : res mem :=
  update_packet m p (fun pk => pk <| next_ := n |>).

(** Bytes of a list of queued packets; a dangling pointer counts for 0. *)
Definition size_of (m : mem) (p : addr) : Z := from_option size_ 0 (m !! p).

Definition bytes_of (m : mem) (l : list addr) : Z := sum_Z (size_of m) l.

(** Two memories that differ at most in the links between packets. *)
Definition unlinked (pk : Packet) : Packet := pk <| next_ := None |>.

Definition same_packets (m m' : mem) : Prop := unlinked <$> m = unlinked <$> m'.

Lemma same_packets_lookup m m' p :
  same_packets m m' -> unlinked <$> m !! p = unlinked <$> m' !! p.
Proof. intros H. rewrite <- !lookup_fmap. by rewrite H. Qed.

Lemma same_packets_field {A} (f : Packet -> A) m m' p pk pk' :
  (forall k, f (unlinked k) = f k) ->
  same_packets m m' -> m !! p = Some pk -> m' !! p = Some pk' -> f pk = f pk'.
Proof.
  intros Hf Hs H H'. apply (same_packets_lookup _ _ p) in Hs.
  rewrite H, H' in Hs. cbn in Hs. injection Hs as Hs1 Hs2 Hs3 Hs4 Hs5 Hs6 Hs7.
  rewrite <- (Hf pk), <- (Hf pk'). f_equal. unfold unlinked, field_update. cbn. congruence.
Qed.

Lemma same_packets_size m m' p : same_packets m m' -> size_of m p = size_of m' p.
Proof.
  intros Hs. pose proof (same_packets_lookup _ _ p Hs) as H. unfold size_of.
  destruct (m !! p) as [k|], (m' !! p) as [k'|]; cbn in *; try congruence.
  by injection H.
Qed.

Lemma same_packets_bytes m m' l : same_packets m m' -> bytes_of m l = bytes_of m' l.
Proof. intros Hs. apply sum_Z_ext. intros p _. by apply same_packets_size. Qed.

Lemma same_packets_set_next m p n m' : set_next m p n = Ok m' -> same_packets m m'.
Proof.
  unfold set_next, update_packet, same_packets. intros H. inv_res.
  rewrite fmap_insert. cbn. rewrite insert_id; [done|].
  rewrite lookup_fmap. by replace (m !! p) with (Some x).
Qed.

(** The sizes of all packets, the part of memory no queue ever changes. *)
Definition sizes (m : mem) : gmap addr Z := size_ <$> m.

Lemma same_packets_sizes m m' : same_packets m m' -> sizes m' = sizes m.
Proof.
  intros H. apply (f_equal (fmap (M := gmap addr) size_)) in H.
  rewrite <- !map_fmap_compose in H. symmetry. exact H.
Qed.

Lemma size_of_sizes m p : size_of m p = default 0 (sizes m !! p).
Proof. unfold size_of, sizes. rewrite lookup_fmap. by destruct (m !! p). Qed.

Lemma size_of_valid m p : 0 < size_of m p -> is_Some (m !! p).
Proof. unfold size_of. destruct (m !! p); [eauto|]. cbn. lia. Qed.

Lemma sizes_insert m p pk pk' :
  m !! p = Some pk -> size_ pk' = size_ pk -> sizes (<[p := pk']> m) = sizes m.
Proof.
  intros Hp Hs. unfold sizes. rewrite fmap_insert, Hs. apply insert_id.
  by rewrite lookup_fmap, Hp.
Qed.

#[export] Instance same_packets_equiv : Equivalence same_packets.
Proof. split; unfold same_packets; repeat intro; congruence. Qed.

(** ** Observers of packets in memory *)

Definition prio_of (m : mem) (p : addr) : Z := from_option prio_ 0 (m !! p).

Lemma same_packets_prio m m' p : same_packets m m' -> prio_of m p = prio_of m' p.
Proof.
  intros Hs. pose proof (same_packets_lookup _ _ p Hs) as H. unfold prio_of.
  destruct (m !! p) as [k|], (m' !! p) as [k'|]; cbn in *; try congruence.
  by injection H.
Qed.

(** ** Linked segments

    [lseg m h l t]: following [next_] from [h] visits exactly the packets of
    [l] and then reaches [t]. *)
Fixpoint lseg (m : mem) (h : option addr) (l : list addr) (t : option addr) : Prop :=
  match l with
  | [] => h = t
  | p :: l' => h = Some p /\ exists pk, m !! p = Some pk /\ lseg m pk.(next_) l' t
  end.

Lemma lseg_app m h l1 l2 t :
  lseg m h (l1 ++ l2) t <-> exists x, lseg m h l1 x /\ lseg m x l2 t.
Proof. revert h. induction l1 as [|p l1 IH]; intros h; cbn; naive_solver. Qed.

Lemma lseg_snoc m h l p t :
  lseg m h (l ++ [p]) t <->
  lseg m h l (Some p) /\ exists pk, m !! p = Some pk /\ pk.(next_) = t.
Proof. rewrite lseg_app. cbn. naive_solver. Qed.

Lemma lseg_insert m h l t p pk :
  p ∉ l -> lseg (<[p := pk]> m) h l t <-> lseg m h l t.
Proof.
  revert h. induction l as [|q l IH]; intros h Hp; cbn; [done|].
  apply not_elem_of_cons in Hp as [Hpq Hp]. rewrite lookup_insert_ne by done.
  by setoid_rewrite IH.
Qed.

Lemma lseg_valid m h l t p : lseg m h l t -> p ∈ l -> is_Some (m !! p).
Proof.
  revert h. induction l as [|q l IH]; intros h; cbn; [set_solver|].
  intros [_ (pk & Hq & Hl)] [->|Hp]%elem_of_cons; eauto.
Qed.

Lemma lseg_length m h l t : lseg m h l t -> NoDup l -> (length l <= size m)%nat.
Proof.
  intros Hl Hd. rewrite <- (size_list_to_set (C := gset addr)) by done.
  rewrite <- size_dom. apply subseteq_size. intros p Hp%elem_of_list_to_set.
  apply elem_of_dom. by eapply lseg_valid.
Qed.

(** ** The queue *)

Module PacketQueue.

Record t := mk {
  head_ : option addr;
  tail_ : option addr;
  len_ : Z;                 (* packet count *)
  bytes_ : Z;               (* queue size in bytes *)
  iter : option addr
}.

#[global] Instance eta_t : Eta t := fun q =>
  mk (head_ q) (tail_ q) (len_ q) (bytes_ q) (iter q).

(** The constructor; [iter] is left uninitialised by the code. *)
Definition create : t := mk None None 0 0 None.

Definition length (q : t) : Z := q.(len_).
Definition byteLength (q : t) : Z := q.(bytes_).

(** Adds at the tail; returns the previous tail. *)
Definition enque (m : mem) (q : t) (p : addr) : res (mem * t * option addr) :=
  let pt := q.(tail_) in
  let! (m, q) :=
    match q.(tail_) with
    | None => Ok (m, q <| head_ := Some p |> <| tail_ := Some p |>)
    | Some tl => let! m := set_next m tl (Some p) in Ok (m, q <| tail_ := Some p |>)
    end in
  let! m := set_next m p None in
  let! pk := deref (m !! p) in
  Ok (m, q <| len_ := q.(len_) + 1 |> <| bytes_ := q.(bytes_) + pk.(size_) |>, pt).

Definition deque (m : mem) (q : t) : res (t * option addr) :=
  match q.(head_) with
  | None => Ok (q, None)
  | Some p =>
      let! pk := deref (m !! p) in
      let q := q <| head_ := pk.(next_) |> in
      let q := if decide (q.(tail_) = Some p)
               then q <| head_ := None |> <| tail_ := None |> else q in
      Ok (q <| len_ := q.(len_) - 1 |> <| bytes_ := q.(bytes_) - pk.(size_) |>, Some p)
  end.

Definition enqueHead (m : mem) (q : t) (p : addr) : res (mem * t) :=
  let q' := match q.(head_) with None => q <| tail_ := Some p |> | Some _ => q end in
  let! m := set_next m p q.(head_) in
  let! pk := deref (m !! p) in
  Ok (m, q' <| head_ := Some p |> <| len_ := q'.(len_) + 1 |>
           <| bytes_ := q'.(bytes_) + pk.(size_) |>).

(** Loops that walk the list; at most one step per packet in memory. *)
Definition walk_fuel (m : mem) : nat := S (size m).

Fixpoint lookup_loop (fuel : nat) (m : mem) (p : option addr) (n : Z) : res (option addr) :=
  match p with
  | None => Ok None
  | Some a =>
      match fuel with
      | O => Err Fuel
      | S fuel =>
          if n - 1 <? 0 then Ok p
          else let! pk := deref (m !! a) in lookup_loop fuel m pk.(next_) (n - 1)
      end
  end.

Definition lookup (m : mem) (q : t) (n : Z) : res (option addr) :=
  lookup_loop (walk_fuel m) m q.(head_) n.

(** [remove] calls the virtual [deque] when the target is the head, so it
    runs on a whole object of type [O] holding the queue: [get] and [put]
    access the base-class part and [vdeque] is the object's [deque]. *)
Section Remove.
Context {Obj : Type} (get : Obj -> t) (put : t -> Obj -> Obj).
Context (vdeque : mem -> Obj -> res (Obj * option addr)).

(** The target [a] follows [pp]. *)
Definition unlink (m : mem) (o : Obj) (pp a : addr) : res (mem * Obj) :=
  let! pk := deref (m !! a) in
  let q := get o in
  let q := if decide (q.(tail_) = Some a) then q <| tail_ := Some pp |> else q in
  let! m := set_next m pp pk.(next_) in
  let! pk := deref (m !! a) in
  Ok (m, put (q <| len_ := q.(len_) - 1 |> <| bytes_ := q.(bytes_) - pk.(size_) |>) o).

Fixpoint remove_loop (fuel : nat) (m : mem) (o : Obj) (target : addr)
    (pp p : option addr) : res (mem * Obj) :=
  match p with
  | None => Err Abort   (* "couldn't find target" *)
  | Some a =>
      match fuel with
      | O => Err Fuel
      | S fuel =>
          if decide (a = target) then
            match pp with
            | None => let! (o, _) := vdeque m o in Ok (m, o)
            | Some ppa => unlink m o ppa a
            end
          else let! pk := deref (m !! a) in remove_loop fuel m o target p pk.(next_)
      end
  end.

Definition remove_virtual (m : mem) (o : Obj) (target : addr) : res (mem * Obj) :=
  remove_loop (walk_fuel m) m o target None (get o).(head_).
End Remove.

Definition remove (m : mem) (q : t) (target : addr) : res (mem * t) :=
  remove_virtual id (fun q' _ => q') deque m q target.

(** Removal given the previous packet. *)
Definition remove_after (m : mem) (q : t) (pkt prev : option addr) : res (mem * t) :=
  match pkt with
  | None => Ok (m, q)
  | Some a =>
      if decide (q.(head_) = Some a)
      then let! (q, _) := deque m q in Ok (m, q)
      else
        let! pr := deref prev in
        let! pk := deref (m !! a) in
        let! m := set_next m pr pk.(next_) in
        let q := if decide (q.(tail_) = Some a) then q <| tail_ := prev |> else q in
        let! pk := deref (m !! a) in
        Ok (m, q <| len_ := q.(len_) - 1 |> <| bytes_ := q.(bytes_) - pk.(size_) |>)
  end.

Definition resetIterator (q : t) : t := q <| iter := q.(head_) |>.

Definition getNext (m : mem) (q : t) : res (t * option addr) :=
  match q.(iter) with
  | None => Ok (q, None)
  | Some a => let! pk := deref (m !! a) in Ok (q <| iter := pk.(next_) |>, Some a)
  end.

(** ** The list a queue represents *)

Record rep (m : mem) (q : t) (l : list addr) : Prop := mk_rep {
  rep_lseg : lseg m q.(head_) l None;
  rep_tail : q.(tail_) = last l;
  rep_nodup : NoDup l;
  rep_len : q.(len_) = Z.of_nat (List.length l);
  rep_bytes : q.(bytes_) = bytes_of m l
}.

(** An operation on the queue of [l] only changes the links of [l] (and of
    the packet it adds). *)
Definition frame (m m' : mem) (l : list addr) : Prop :=
  same_packets m m' /\ forall a, a ∉ l -> m' !! a = m !! a.

Lemma frame_refl m l : frame m m l.
Proof. split; [reflexivity|done]. Qed.

Lemma frame_trans m1 m2 m3 l : frame m1 m2 l -> frame m2 m3 l -> frame m1 m3 l.
Proof.
  intros [H1 H1'] [H2 H2']. split; [by etrans|]. intros a Ha.
  by rewrite H2', H1'.
Qed.

Lemma frame_mono m m' l l' : frame m m' l -> l ⊆ l' -> frame m m' l'.
Proof. intros [H H'] Hl. split; [done|]. intros a Ha. apply H'. set_solver. Qed.

Lemma set_next_ok m p n l :
  is_Some (m !! p) -> p ∈ l ->
  exists pk, m !! p = Some pk /\ set_next m p n = Ok (<[p := pk <| next_ := n |>]> m) /\
    frame m (<[p := pk <| next_ := n |>]> m) l.
Proof.
  intros [pk Hp] Hl. assert (set_next m p n = Ok (<[p := pk <| next_ := n |>]> m)) as Hs.
  { unfold set_next, update_packet. by rewrite Hp. }
  exists pk. split; [done|]. split; [done|]. split.
  - by eapply same_packets_set_next.
  - intros a Ha. apply lookup_insert_ne. set_solver.
Qed.

(** Queues over disjoint packets do not interfere. *)
Lemma rep_frame m m' q l k : rep m q l -> frame m m' k -> l ## k -> rep m' q l.
Proof.
  intros [Hl Ht Hd Hn Hb] [Hs Hf] Hk. split; try done.
  - clear - Hl Hf Hk. revert Hl. generalize (head_ q). induction l as [|p l IH]; intros h; cbn; [done|].
    intros [-> (pk & Hp & Hl)]. split; [done|]. exists pk. rewrite Hf by set_solver.
    split; [done|]. apply IH; [set_solver|done].
  - rewrite Hb. by apply same_packets_bytes.
Qed.

(** Changing a header field that is not a link or a size. *)
Lemma rep_update m (q : t) l p pk pk' :
  rep m q l -> m !! p = Some pk -> next_ pk' = next_ pk -> size_ pk' = size_ pk ->
  rep (<[p := pk']> m) q l.
Proof.
  intros [Hl Ht Hd Hn Hb] Hp Hnx Hsz. split; try done.
  - clear - Hl Hp Hnx. revert Hl. generalize (head_ q).
    induction l as [|a l IH]; intros h; cbn; [done|]. intros [-> (k & Ha & Hl)]. split; [done|].
    destruct (decide (a = p)) as [->|Hne].
    + exists pk'. rewrite lookup_insert_eq, Hnx. rewrite Hp in Ha. injection Ha as <-. eauto.
    + exists k. rewrite lookup_insert_ne by done. eauto.
  - rewrite Hb. apply sum_Z_ext. intros a _. unfold size_of. destruct (decide (a = p)) as [->|Hne].
    + by rewrite lookup_insert_eq, Hp; cbn.
    + by rewrite lookup_insert_ne.
Qed.

Lemma rep_create m : rep m create [].
Proof. split; cbn; try done. constructor. Qed.

Lemma rep_head m q l : rep m q l -> q.(head_) = head l.
Proof. intros [Hl _ _ _ _]. destruct l; cbn in *; naive_solver. Qed.

Lemma rep_valid m q l p : rep m q l -> p ∈ l -> is_Some (m !! p).
Proof. intros [Hl _ _ _ _]. by apply lseg_valid with (1 := Hl). Qed.

Lemma rep_fuel m q l : rep m q l -> (List.length l < walk_fuel m)%nat.
Proof.
  intros [Hl _ Hd _ _]. unfold walk_fuel. pose proof (lseg_length _ _ _ _ Hl Hd). lia.
Qed.

Lemma bytes_of_snoc m l p : bytes_of m (l ++ [p]) = bytes_of m l + size_of m p.
Proof. unfold bytes_of. rewrite sum_Z_app. unfold sum_Z. cbn. lia. Qed.

Lemma size_of_Some m p pk : m !! p = Some pk -> size_of m p = pk.(size_).
Proof. unfold size_of. by intros ->. Qed.

(** Appending a packet to a segment: the old last packet is linked to it. *)
Lemma lseg_append m h l tl pk p pkp :
  lseg m h (l ++ [tl]) None -> NoDup (l ++ [tl]) -> p ∉ l ++ [tl] ->
  m !! tl = Some pk -> m !! p = Some pkp ->
  lseg (<[p := pkp <| next_ := None |>]> (<[tl := pk <| next_ := Some p |>]> m))
    h ((l ++ [tl]) ++ [p]) None.
Proof.
  intros Hl Hd Hp Htl Hpk. apply lseg_snoc in Hl as [Hl _].
  apply NoDup_app in Hd as (Hd & Htn & _).
  assert (tl ∉ l) by (intros ?; eapply Htn; set_solver).
  assert (p <> tl) by set_solver.
  apply lseg_snoc. split.
  - apply lseg_insert; [done|]. apply lseg_snoc. split.
    + by apply lseg_insert.
    + eexists. split; [apply lookup_insert_eq|done].
  - eexists. split; [apply lookup_insert_eq|done].
Qed.

Lemma enque_rep m q l p :
  rep m q l -> p ∉ l -> is_Some (m !! p) ->
  exists m' q', enque m q p = Ok (m', q', last l) /\ rep m' q' (l ++ [p]) /\
    frame m m' (p :: l) /\ q'.(iter) = q.(iter).
Proof.
  intros Hr Hp [pkp Hpk]. pose proof Hr as [Hl Ht Hd Hn Hb].
  assert (Hnew : bytes_of m (l ++ [p]) = q.(bytes_) + pkp.(size_)).
  { by rewrite bytes_of_snoc, Hb, (size_of_Some _ _ _ Hpk). }
  unfold enque. rewrite Ht.
  destruct (snoc_cases l) as [->|(l0 & tl & ->)].
  - cbn. unfold set_next, update_packet. rewrite Hpk. cbn. rewrite lookup_insert_eq. cbn.
    assert (frame m (<[p := pkp <| next_ := None |>]> m) [p]) as Hf.
    { destruct (set_next_ok m p None [p]) as (? & ? & ? & ?); naive_solver set_solver. }
    eexists _, _. split; [done|]. split; [|split; [done|done]].
    split; cbn -[bytes_of].
    + split; [done|]. eexists. split; [apply lookup_insert_eq|done].
    + done.
    + apply NoDup_singleton.
    + cbn in Hn. lia.
    + cbn [app] in Hnew. rewrite <- Hnew. apply same_packets_bytes, Hf.
  - rewrite !last_snoc. destruct (rep_valid _ _ _ tl Hr) as [pk Htl]; [set_solver|].
    assert (p <> tl) by set_solver.
    destruct (set_next_ok m tl (Some p) (p :: l0 ++ [tl])) as (pk' & E1 & E2 & F1); [by eexists|set_solver|].
    rewrite E2. cbn [res_bind]. rewrite Htl in E1. injection E1 as <-.
    destruct (set_next_ok (<[tl := pk <| next_ := Some p |>]> m) p None (p :: l0 ++ [tl]))
      as (pkp' & E3 & E4 & F2); [rewrite lookup_insert_ne by done; by eexists|set_solver|].
    rewrite E4. cbn [res_bind]. rewrite lookup_insert_ne, Hpk in E3 by done. injection E3 as <-.
    rewrite lookup_insert_eq. cbn [deref res_bind].
    pose proof (frame_trans _ _ _ _ F1 F2) as F.
    eexists _, _. split; [done|]. split; [|split; [done|done]]. split; cbn -[bytes_of].
    + by apply lseg_append.
    + by rewrite last_snoc.
    + apply NoDup_app. split; [done|]. split; [set_solver|apply NoDup_singleton].
    + rewrite length_app. cbn. rewrite Hn. lia.
    + rewrite <- Hnew. apply same_packets_bytes, F.
Qed.

Lemma deque_rep m q l :
  rep m q l ->
  exists q', deque m q = Ok (q', head l) /\ rep m q' (tail l) /\ q'.(iter) = q.(iter).
Proof.
  intros [Hl Ht Hd Hn Hb]. unfold deque. destruct l as [|p l]; cbn in Hl.
  - rewrite Hl. eexists. split; [done|]. by split.
  - destruct Hl as [-> (pk & Hp & Hl)]. rewrite Hp. cbn [deref res_bind].
    apply NoDup_cons in Hd as [Hpl Hd].
    unfold bytes_of, sum_Z in Hb. cbn in Hb. rewrite (size_of_Some _ _ _ Hp) in Hb.
    eexists. split; [done|]. split; [|by case_decide].
    change (tail_ (q <| head_ := next_ pk |>)) with (tail_ q).
    rewrite Ht. destruct l as [|p' l].
    + cbn in Hl. rewrite decide_True by done. split; cbn in *; try done; lia.
    + rewrite decide_False.
      2: { rewrite last_cons_cons. intros He. apply Hpl. by apply last_Some_elem_of. }
      split; cbn -[last] in *; try done; lia.
Qed.

Lemma lookup_loop_spec fuel m p l n :
  lseg m p l None -> (List.length l < fuel)%nat ->
  lookup_loop fuel m p n = Ok (if n <? 0 then head l else l !! Z.to_nat n).
Proof.
  revert fuel p n. induction l as [|a l IH]; intros fuel p n; cbn [lseg].
  - intros -> Hf. destruct fuel; cbn; destruct (n <? 0); done.
  - intros [-> (pk & Ha & Hl)] Hf. cbn in Hf. destruct fuel as [|fuel]; [lia|]. cbn.
    rewrite Ha. cbn. destruct (n - 1 <? 0) eqn:E; bool_prop.
    + destruct (n <? 0) eqn:E'; bool_prop; [done|]. by replace n with 0 by lia.
    + rewrite (IH fuel pk.(next_)); [|done|lia].
      replace (n <? 0) with false by (symmetry; apply Z.ltb_ge; lia).
      replace (n - 1 <? 0) with false by (symmetry; apply Z.ltb_ge; lia).
      replace (Z.to_nat n) with (S (Z.to_nat (n - 1))) by lia. done.
Qed.

Lemma lookup_rep m q l n :
  rep m q l -> 0 <= n -> lookup m q n = Ok (l !! Z.to_nat n).
Proof.
  intros Hr Hn. unfold lookup. rewrite (lookup_loop_spec _ _ _ l); [|apply Hr|by eapply rep_fuel].
  by replace (n <? 0) with false by (symmetry; apply Z.ltb_ge; lia).
Qed.

(** Removing an inner packet relinks its predecessor to its successor. *)
Lemma lseg_unlink m h l1 b a l2 pkb pka :
  lseg m h (l1 ++ [b] ++ a :: l2) None -> NoDup (l1 ++ [b] ++ a :: l2) ->
  m !! b = Some pkb -> m !! a = Some pka ->
  lseg (<[b := pkb <| next_ := pka.(next_) |>]> m) h (l1 ++ [b] ++ l2) None.
Proof.
  intros Hl Hd Hb Ha. apply lseg_app in Hl as (x & Hl1 & Hl). cbn in Hl.
  destruct Hl as [-> (pkb' & Hb' & _ & pka' & Ha' & Hl2)].
  rewrite Ha in Ha'. injection Ha' as <-.
  assert ((b ∉ l1) /\ (b ∉ l2)) as [Hb1 Hb2].
  { apply NoDup_app in Hd as (_ & Hd1 & Hd2). cbn in Hd2. apply NoDup_cons in Hd2. set_solver. }
  apply lseg_app. exists (Some b). split; [by apply lseg_insert|]. cbn. split; [done|].
  eexists. split; [apply lookup_insert_eq|]. cbn. by apply lseg_insert.
Qed.

Section RemoveSpec.
Context {Obj : Type} (get : Obj -> t) (put : t -> Obj -> Obj).
Context (vdeque : mem -> Obj -> res (Obj * option addr)).

(** The search stops at the target with its predecessor. *)
Lemma remove_loop_walk fuel m o target l1 l2 l3 p :
  lseg m p (l2 ++ target :: l3) None -> target ∉ l2 ->
  (List.length (l2 ++ target :: l3) < fuel)%nat ->
  remove_loop get put vdeque fuel m o target (last l1) p =
  match last (l1 ++ l2) with
  | None => let! (o, _) := vdeque m o in Ok (m, o)
  | Some ppa => unlink get put m o ppa target
  end.
Proof.
  revert fuel p l1. induction l2 as [|a l2 IH]; intros fuel p l1; cbn [app lseg].
  - intros [-> _] _ Hf. destruct fuel; [lia|]. cbn. rewrite decide_True by done.
    by rewrite app_nil_r.
  - intros [-> (pk & Ha & Hl)] Ht Hf. cbn in Hf. destruct fuel as [|fuel]; [lia|]. cbn.
    rewrite decide_False by set_solver. rewrite Ha. cbn.
    replace (Some a) with (last (l1 ++ [a])) by (by rewrite last_snoc).
    rewrite (IH fuel pk.(next_) (l1 ++ [a])); [|done|set_solver|lia].
    by rewrite <- app_assoc.
Qed.

Lemma remove_loop_missing fuel m o target l pp p :
  lseg m p l None -> target ∉ l -> (List.length l < fuel)%nat ->
  remove_loop get put vdeque fuel m o target pp p = Err Abort.
Proof.
  revert fuel p pp. induction l as [|a l IH]; intros fuel p pp; cbn [lseg].
  - intros -> _ _. by destruct fuel.
  - intros [-> (pk & Ha & Hl)] Ht Hf. cbn in Hf. destruct fuel as [|fuel]; [lia|]. cbn.
    rewrite decide_False by set_solver. rewrite Ha. cbn. apply IH; [done|set_solver|lia].
Qed.

Lemma unlink_rep m o l1 b a l2 :
  rep m (get o) (l1 ++ [b] ++ a :: l2) ->
  exists m' q', unlink get put m o b a = Ok (m', put q' o) /\
    rep m' q' (l1 ++ [b] ++ l2) /\ frame m m' (l1 ++ [b] ++ a :: l2) /\
    q'.(iter) = (get o).(iter).
Proof.
  intros Hr. pose proof Hr as [Hl Ht Hd Hn Hb].
  destruct (rep_valid _ _ _ a Hr) as [pka Ha]; [set_solver|].
  destruct (rep_valid _ _ _ b Hr) as [pkb Hpb]; [set_solver|].
  assert (a <> b /\ NoDup (l1 ++ [b] ++ l2)) as [Hab Hd'].
  { rewrite app_assoc in Hd |- *. apply NoDup_app in Hd as (Hd1 & Hd2 & Hd3).
    apply NoDup_cons in Hd3 as [Ha3 Hd3]. split; [set_solver|].
    apply NoDup_app. split; [done|]. split; [set_solver|done]. }
  destruct (set_next_ok m b pka.(next_) (l1 ++ [b] ++ a :: l2)) as (pkb' & E1 & E2 & F);
    [by eexists|set_solver|].
  rewrite Hpb in E1. injection E1 as <-.
  unfold unlink. rewrite Ha. cbn [deref res_bind]. rewrite E2. cbn [res_bind].
  rewrite lookup_insert_ne, Ha by done. cbn [deref res_bind].
  assert (Hlast : last (l1 ++ [b] ++ l2) =
    if decide (last (l1 ++ [b] ++ a :: l2) = Some a) then Some b else last (l1 ++ [b] ++ a :: l2)).
  { destruct (snoc_cases l2) as [->|(l2' & z & ->)].
    - rewrite (app_assoc l1 [b] [a]), last_snoc, decide_True by done.
      by rewrite app_nil_r, last_snoc.
    - rewrite !app_assoc, last_snoc. rewrite app_comm_cons, !app_assoc, last_snoc.
      rewrite decide_False; [done|]. intros [= ->].
      rewrite !app_assoc in Hd. cbn in Hd.
      apply NoDup_app in Hd as (_ & _ & Hd%NoDup_cons). set_solver. }
  eexists _, _. split; [done|]. split; [|split; [done|by destruct (decide (tail_ (get o) = Some a))]].
  split.
  - destruct (decide (tail_ (get o) = Some a)); cbn -[app]; by eapply lseg_unlink.
  - rewrite Hlast, <- Ht. by destruct (decide (tail_ (get o) = Some a)).
  - done.
  - transitivity ((get o).(len_) - 1); [by destruct (decide (tail_ (get o) = Some a))|]. rewrite Hn.
    rewrite !length_app. cbn. lia.
  - transitivity ((get o).(bytes_) - pka.(size_)); [by destruct (decide (tail_ (get o) = Some a))|]. rewrite Hb.
    rewrite <- (same_packets_bytes _ _ _ (proj1 F)). unfold bytes_of.
    rewrite !sum_Z_app. unfold sum_Z at 3 6. cbn.
    rewrite (size_of_Some _ _ _ Ha). unfold sum_Z. lia.
Qed.

(** Removal of the head is the object's own [deque]; any other packet is
    unlinked from the base-class queue. *)
Lemma remove_virtual_head m o target l :
  rep m (get o) (target :: l) ->
  remove_virtual get put vdeque m o target = let! (o, _) := vdeque m o in Ok (m, o).
Proof.
  intros Hr. unfold remove_virtual.
  rewrite (remove_loop_walk _ _ _ _ [] [] l); [done|apply Hr|set_solver|].
  by apply rep_fuel in Hr.
Qed.

Lemma remove_virtual_inner m o target l :
  rep m (get o) l -> target ∈ l -> head l <> Some target ->
  exists m' q', remove_virtual get put vdeque m o target = Ok (m', put q' o) /\
    rep m' q' (remove_one target l) /\ frame m m' l /\ q'.(iter) = (get o).(iter).
Proof.
  intros Hr Ht Hh. destruct (list_elem_of_split_l _ _ Ht) as (l2 & l3 & -> & Hl2).
  destruct (snoc_cases l2) as [->|(l1 & b & ->)]; [done|].
  unfold remove_virtual.
  rewrite (remove_loop_walk _ _ _ _ [] (l1 ++ [b]) l3); [|apply Hr|done|by apply rep_fuel in Hr].
  cbn [app]. rewrite last_snoc, remove_one_split, <- app_assoc by done.
  rewrite <- !app_assoc in Hr |- *. by apply unlink_rep.
Qed.

Lemma remove_virtual_missing m o target l :
  rep m (get o) l -> target ∉ l ->
  remove_virtual get put vdeque m o target = Err Abort.
Proof.
  intros Hr Ht. apply remove_loop_missing with (l := l); [apply Hr|done|].
  by apply rep_fuel in Hr.
Qed.
End RemoveSpec.

Lemma remove_rep m q l p :
  rep m q l -> p ∈ l ->
  exists m' q', remove m q p = Ok (m', q') /\ rep m' q' (remove_one p l) /\
    frame m m' l /\ q'.(iter) = q.(iter).
Proof.
  intros Hr Hp. destruct (decide (head l = Some p)) as [Hh|Hh].
  - destruct l as [|a l]; [done|]. cbn in Hh. injection Hh as ->.
    unfold remove. rewrite (remove_virtual_head id _ _ _ _ _ l) by done.
    destruct (deque_rep _ _ _ Hr) as (q' & E & Hr' & Hi). cbn [id]. rewrite E.
    eexists _, _. split; [done|]. cbn. rewrite decide_True by done.
    split; [done|]. split; [apply frame_refl|done].
  - by apply (remove_virtual_inner id (fun q' _ => q') deque).
Qed.
End PacketQueue.

(** ** The interface of the queueing disciplines

    What [DropTail] (drop-tail.cc) uses of its underlying queue [q_]: the
    virtual [enque], [deque] and [remove], and the base-class part, which
    serves the non-virtual [length], [byteLength], [tail] and the iterator. *)

Class PacketFifo (Q : Type) := {
  fifo_base : Q -> PacketQueue.t;
  fifo_set_base : PacketQueue.t -> Q -> Q;
  fifo_enque : mem -> Q -> addr -> res (mem * Q);
  fifo_deque : mem -> Q -> res (Q * option addr);
  fifo_remove : mem -> Q -> addr -> res (mem * Q)
}.

Definition fifo_rep {Q} `{PacketFifo Q} (m : mem) (o : Q) (l : list addr) : Prop :=
  PacketQueue.rep m (fifo_base o) l.

(** The contract: the object behaves as the list of its packets. *)
Class PacketFifoLaws (Q : Type) `{PacketFifo Q} := {
  fifo_base_set q (o : Q) : fifo_base (fifo_set_base q o) = q;
  fifo_enque_law m (o : Q) l p :
    fifo_rep m o l -> p ∉ l -> is_Some (m !! p) ->
    exists m' o', fifo_enque m o p = Ok (m', o') /\ fifo_rep m' o' (l ++ [p]) /\
      PacketQueue.frame m m' (p :: l);
  fifo_deque_law m (o : Q) l :
    fifo_rep m o l ->
    exists o', fifo_deque m o = Ok (o', head l) /\ fifo_rep m o' (tail l);
  fifo_remove_law m (o : Q) l p :
    fifo_rep m o l -> p ∈ l ->
    exists m' o', fifo_remove m o p = Ok (m', o') /\ fifo_rep m' o' (remove_one p l) /\
      PacketQueue.frame m m' l
}.

#[export] Instance PacketQueue_fifo : PacketFifo PacketQueue.t := {
  fifo_base := id;
  fifo_set_base q _ := q;
  fifo_enque m q p := let! (m, q, _) := PacketQueue.enque m q p in Ok (m, q);
  fifo_deque := PacketQueue.deque;
  fifo_remove := PacketQueue.remove
}.

#[export] Instance PacketQueue_fifo_laws : PacketFifoLaws PacketQueue.t.
Proof.
  split; unfold fifo_rep; cbn.
  - done.
  - intros m q l p Hr Hp Hv. destruct (PacketQueue.enque_rep _ _ _ _ Hr Hp Hv)
      as (m' & q' & E & H1 & H2 & _). rewrite E. cbn. eauto.
  - intros m q l Hr. destruct (PacketQueue.deque_rep _ _ _ Hr) as (q' & E & H1 & _). eauto.
  - intros m q l p Hr Hp. destruct (PacketQueue.remove_rep _ _ _ _ Hr Hp)
      as (m' & q' & E & H1 & H2 & _). eauto 6.
Qed.

(** ** Iteration

    [resetIterator] followed by [getNext] until it returns null. *)

Section Iterate.
Context {Q : Type} `{PacketFifo Q}.

Fixpoint iterate_loop (fuel : nat) (m : mem) (o : Q) : res (Q * list addr) :=
  let! (q, x) := PacketQueue.getNext m (fifo_base o) in
  let o := fifo_set_base q o in
  match x with
  | None => Ok (o, [])
  | Some p =>
      match fuel with
      | O => Err Fuel
      | S fuel => let! (o, l) := iterate_loop fuel m o in Ok (o, p :: l)
      end
  end.

Definition iterate (m : mem) (o : Q) : res (Q * list addr) :=
  iterate_loop (PacketQueue.walk_fuel m) m
    (fifo_set_base (PacketQueue.resetIterator (fifo_base o)) o).

Context `{!PacketFifoLaws Q}.

Lemma iterate_loop_spec fuel m o l all :
  fifo_rep m o all -> lseg m (fifo_base o).(PacketQueue.iter) l None ->
  (length l < fuel)%nat ->
  exists o', iterate_loop fuel m o = Ok (o', l) /\ fifo_rep m o' all.
Proof.
  revert fuel o. induction l as [|p l IH]; intros fuel o Hr Hl Hf; cbn [lseg] in Hl.
  - destruct fuel as [|fuel]; [lia|]. cbn. unfold PacketQueue.getNext. rewrite Hl. cbn.
    eexists. split; [done|]. unfold fifo_rep. by rewrite fifo_base_set.
  - destruct Hl as [Hi (pk & Hp & Hl)]. cbn in Hf. destruct fuel as [|fuel]; [lia|]. cbn.
    unfold PacketQueue.getNext. rewrite Hi, Hp. cbn.
    destruct (IH fuel (fifo_set_base ((fifo_base o) <| PacketQueue.iter := next_ pk |>) o))
      as (o' & E & Hr'); [| |lia|].
    + unfold fifo_rep. rewrite fifo_base_set. by destruct Hr; split.
    + by rewrite fifo_base_set.
    + cbn in E. rewrite E. cbn. eauto.
Qed.

Lemma iterate_spec m o l :
  fifo_rep m o l -> exists o', iterate m o = Ok (o', l) /\ fifo_rep m o' l.
Proof.
  intros Hr. apply iterate_loop_spec.
  - unfold fifo_rep. rewrite fifo_base_set. by destruct Hr; split.
  - rewrite fifo_base_set. apply Hr.
  - by apply PacketQueue.rep_fuel in Hr.
Qed.
End Iterate.

(** ** Deciding [rep] on a concrete memory *)

Fixpoint lsegb (m : mem) (h : option addr) (l : list addr) : bool :=
  match l with
  | [] => bool_decide (h = None)
  | p :: l' =>
      bool_decide (h = Some p) &&
      match m !! p with Some pk => lsegb m pk.(next_) l' | None => false end
  end.

Definition repb (m : mem) (q : PacketQueue.t) (l : list addr) : bool :=
  lsegb m q.(PacketQueue.head_) l && bool_decide (q.(PacketQueue.tail_) = last l) &&
  bool_decide (NoDup l) && (q.(PacketQueue.len_) =? Z.of_nat (length l)) &&
  (q.(PacketQueue.bytes_) =? bytes_of m l).

Lemma lsegb_sound m h l : lsegb m h l = true -> lseg m h l None.
Proof.
  revert h. induction l as [|p l IH]; intros h; cbn.
  - apply bool_decide_eq_true.
  - intros [Hh Hl]%andb_true_iff. apply bool_decide_eq_true in Hh.
    destruct (m !! p) as [pk|]; [|done]. eauto.
Qed.

Lemma repb_sound m q l : repb m q l = true -> PacketQueue.rep m q l.
Proof.
  unfold repb. intros H. bool_prop.
  repeat match goal with H : bool_decide _ = true |- _ => apply bool_decide_eq_true in H end.
  split; try done. by apply lsegb_sound.
Qed.
