(* ===== verification/QueueBase.v ===== *)
(** * The base class of the queueing disciplines

    [Queue] (src/ns2/queue/queue.h, queue.cc): a connector that hands packets
    to a discipline ([enque], [deque] of the subclass) and sends one packet
    at a time down the link.  The link's handler calls [resume] when it can
    take another packet.  The discipline is the class [Discipline]; the
    theorems about the machine are proved from its laws alone, which
    [DropTail] and [Prio] discharge.

    [exp] of the C library is a parameter of the utilization estimate. *)

From Stdlib Require Import ZArith Lia Bool.
From stdpp Require Import base list gmap.
From S2P Require Import Prelude F64 PktQueue.

(** ** The interface of a discipline

    [enque] returns the packets handed to [drop]; [deque] those and the packet
    to send. *)

Class Discipline (D : Type) := {
  disc_enque : f64 -> mem -> D -> addr -> res (mem * D * list addr);
  disc_deque : f64 -> mem -> D -> res (mem * D * list addr * option addr)
}.

(** The contract: no packet is lost or invented, and a discipline that holds
    packets serves one.  Packets have a positive size, which no discipline
    changes. *)
Class DisciplineLaws (D : Type) `{Discipline D} := {
  disc_rep : mem -> D -> list addr -> Prop;
  disc_rep_nodup m d l : disc_rep m d l -> NoDup l;
  disc_rep_valid m d l p : disc_rep m d l -> p ∈ l -> is_Some (m !! p);
  disc_enque_law now m d l p :
    disc_rep m d l -> p ∉ l -> 0 < size_of m p ->
    exists m' d' ds l', disc_enque now m d p = Ok (m', d', ds) /\ disc_rep m' d' l' /\
      l' ++ ds ≡ₚ l ++ [p] /\ sizes m' = sizes m;
  disc_deque_law now m d l :
    disc_rep m d l ->
    exists m' d' ds r l', disc_deque now m d = Ok (m', d', ds, r) /\ disc_rep m' d' l' /\
      l ≡ₚ option_list r ++ ds ++ l' /\ (r = None -> l = []) /\ sizes m' = sizes m
}.

(** ** The machine *)

Module Queue.
Record t (D : Type) := mk {
  disc : D;
  blocked_ : bool;
  unblock_on_resume_ : bool;
  last_change_ : f64;
  old_util_ : f64;
  util_weight_ : f64;
  util_check_intv_ : f64;
  period_begin_ : f64;
  cur_util_ : f64;
  buf_slot_ : Z;
  util_buf_ : list f64;
  util_records_ : Z
}.
Arguments mk {D}. Arguments disc {D}. Arguments blocked_ {D}. Arguments unblock_on_resume_ {D}.
Arguments last_change_ {D}. Arguments old_util_ {D}. Arguments util_weight_ {D}.
Arguments util_check_intv_ {D}. Arguments period_begin_ {D}. Arguments cur_util_ {D}.
Arguments buf_slot_ {D}. Arguments util_buf_ {D}. Arguments util_records_ {D}.

#[global] Instance eta_t {D} : Eta (t D) := fun q =>
  mk (disc q) (blocked_ q) (unblock_on_resume_ q) (last_change_ q) (old_util_ q)
    (util_weight_ q) (util_check_intv_ q) (period_begin_ q) (cur_util_ q) (buf_slot_ q)
    (util_buf_ q) (util_records_ q).

(** The constructor, given the bound variables. *)
Definition create {D} (d : D) (blocked unblock : bool) (weight intv : f64) (records : Z) : t D :=
  mk d blocked unblock F64.zero F64.zero weight intv F64.zero F64.zero 0
    (replicate (Z.to_nat records) F64.zero) records.

Section Ops.
Context {D : Type} `{Discipline D}.
Context (exp : f64 -> f64).

Implicit Types (q : t D) (m : mem) (now : f64).

(** A [double] used as a condition. *)
Definition nonzero (x : f64) : bool := negb (F64.eq x F64.zero).

(** The loop that stores finished periods; [n] bounds [guard]. *)
Fixpoint util_loop (n : nat) (int_end link_state tot_intv intv : f64) q : res (t D) :=
  match n with
  | O => Ok q
  | S n =>
      if F64.gt (F64.add tot_intv intv) q.(util_check_intv_) then
        let q := q <| period_begin_ := int_end |> in
        let! _ := deref (q.(util_buf_) !! Z.to_nat q.(buf_slot_)) in
        let q := q <| util_buf_ := <[Z.to_nat q.(buf_slot_) := q.(cur_util_)]> q.(util_buf_) |> in
        let q := q <| buf_slot_ := Z.rem (q.(buf_slot_) + 1) q.(util_records_) |> in
        let q := q <| cur_util_ := link_state |> in
        util_loop n int_end link_state tot_intv (F64.sub intv q.(util_check_intv_)) q
      else Ok q
  end.

Definition utilUpdate (int_begin int_end : f64) (link_state : bool) q : res (t D) :=
  let link_state := F64.of_Z (if link_state then 1 else 0) in
  let decay := exp (F64.mul (F64.opp q.(util_weight_)) (F64.sub int_end int_begin)) in
  let q := q <| old_util_ :=
    F64.add link_state (F64.mul (F64.sub q.(old_util_) link_state) decay) |> in
  if q.(util_records_) =? 0 then Ok q
  else
    let intv := F64.sub int_end int_begin in
    let tot_intv := F64.sub int_begin q.(period_begin_) in
    if nonzero intv || nonzero tot_intv then
      let q := q <| cur_util_ :=
        F64.div (F64.add (F64.mul link_state intv) (F64.mul q.(cur_util_) tot_intv))
          (F64.add intv tot_intv) |> in
      util_loop (Z.to_nat q.(util_records_)) int_end link_state tot_intv intv q
    else Ok q.

(** The packets given to [target_->recv] are returned. *)
Definition recv now m q (p : addr) : res (mem * t D * list addr * option addr) :=
  let! (m, d, ds) := disc_enque now m q.(disc) p in
  let q := q <| disc := d |> in
  if q.(blocked_) then Ok (m, q, ds, None)
  else
    let! (m, d, ds', r) := disc_deque now m q.(disc) in
    let q := q <| disc := d |> in
    match r with
    | None => Ok (m, q, ds ++ ds', None)
    | Some p =>
        let! q := utilUpdate q.(last_change_) now q.(blocked_) q in
        Ok (m, q <| last_change_ := now |> <| blocked_ := true |>, ds ++ ds', Some p)
    end.

Definition resume now m q : res (mem * t D * list addr * option addr) :=
  let! (m, d, ds, r) := disc_deque now m q.(disc) in
  let q := q <| disc := d |> in
  match r with
  | Some p => Ok (m, q, ds, Some p)
  | None =>
      let! q := utilUpdate q.(last_change_) now q.(blocked_) q in
      Ok (m, q <| last_change_ := now |> <| blocked_ := negb q.(unblock_on_resume_) |>, ds, None)
  end.

Definition utilization now q : res (t D * f64) :=
  let! q := utilUpdate q.(last_change_) now q.(blocked_) q in
  let q := q <| last_change_ := now |> in Ok (q, q.(old_util_)).

Definition peak_utilization now q : res (t D * f64) :=
  if q.(util_records_) =? 0 then utilization now q
  else
    let! q := utilUpdate q.(last_change_) now q.(blocked_) q in
    let q := q <| last_change_ := now |> in
    Ok (q, fold_left (fun peak u => if F64.gt u peak then u else peak)
             (take (Z.to_nat q.(util_records_)) q.(util_buf_)) F64.zero).

(** [reset] drops what the discipline serves until it is empty; the statistics
    it clears belong to the discipline's record. *)
Fixpoint reset_loop (fuel : nat) now m (d : D) : res (mem * D * list addr) :=
  let! (m, d, ds, r) := disc_deque now m d in
  match r with
  | None => Ok (m, d, ds)
  | Some p =>
      match fuel with
      | O => Err Fuel
      | S fuel =>
          let! (m, d, ds') := reset_loop fuel now m d in Ok (m, d, ds ++ p :: ds')
      end
  end.

Definition reset now m q : res (mem * t D * list addr) :=
  let! (m, d, ds) := reset_loop (size m) now m q.(disc) in
  Ok (m, q <| disc := d |>, ds).

(** ** The queue and its link as a transition system

    The link calls [resume] once for every packet sent to it. *)

Record world := World {
  w_mem : mem;
  w_queue : t D;
  w_link : bool;               (* a packet is on the link *)
  w_arrived : list addr;
  w_sent : list addr;
  w_dropped : list addr
}.

Inductive step : world -> world -> Prop :=
| step_recv now m q k a s d p m' q' ds r :
    0 < size_of m p -> p ∉ a ->
    recv now m q p = Ok (m', q', ds, r) ->
    step (World m q k a s d)
      (World m' q' (if r is Some _ then true else k) (p :: a) (option_list r ++ s) (ds ++ d))
| step_resume now m q a s d m' q' ds r :
    resume now m q = Ok (m', q', ds, r) ->
    step (World m q true a s d)
      (World m' q' (if r is Some _ then true else false) a (option_list r ++ s) (ds ++ d)).
End Ops.
End Queue.

(** * Facts *)

Module QueueFacts.
Import Queue.

Section Facts.
Context {D : Type} `{DL : DisciplineLaws D}.
Context (exp : f64 -> f64).
Implicit Types (q : t D) (m : mem) (now : f64) (l : list addr).

(** The buffer of past utilizations has a slot for every record. *)
Definition util_ok q : Prop :=
  0 < q.(util_records_) ->
  Z.of_nat (length q.(util_buf_)) = q.(util_records_) /\
  0 <= q.(buf_slot_) < q.(util_records_).

(** Two queues that differ at most in the utilization estimate. *)
Definition same_machine q q' : Prop :=
  disc q' = disc q /\ blocked_ q' = blocked_ q /\ unblock_on_resume_ q' = unblock_on_resume_ q /\
  util_records_ q' = util_records_ q /\ util_check_intv_ q' = util_check_intv_ q.

Lemma util_loop_ok n e s tt i q :
  util_ok q -> (0 < Z.of_nat n -> 0 < q.(util_records_)) ->
  exists q', util_loop n e s tt i q = Ok q' /\ same_machine q q' /\ util_ok q'.
Proof.
  revert i q. induction n as [|n IH]; intros i q Hu Hn; cbn [util_loop].
  { exists q. done. }
  destruct (F64.gt _ _); [|by exists q]. destruct Hu as [Hlen Hs]; [apply Hn; lia|].
  cbn [buf_slot_ util_buf_ field_update].
  destruct (lookup_lt_is_Some_2 (util_buf_ q) (Z.to_nat (buf_slot_ q))) as [x Hx]; [lia|].
  cbn. rewrite Hx. cbn [deref res_bind].
  match goal with |- context [util_loop n e s tt ?i' ?q'] => destruct (IH i' q') as (q2 & E & Hm & Hu2) end.
  - intros Hr. cbn in *. rewrite length_insert. split; [done|].
    rewrite Z.rem_mod_nonneg by lia. apply Z.mod_pos_bound. lia.
  - cbn. intros _. apply Hn. lia.
  - exists q2. split; [done|]. split; [|done]. apply Hm.
Qed.

Lemma utilUpdate_ok b e s q :
  util_ok q -> exists q', utilUpdate exp b e s q = Ok q' /\ same_machine q q' /\ util_ok q'.
Proof.
  intros Hu. unfold utilUpdate. cbn [util_records_ field_update].
  destruct (util_records_ q =? 0) eqn:E.
  { eexists. split; [done|]. by split. }
  destruct (nonzero _ || nonzero _); [|eexists; split; [done|]; by split].
  match goal with |- context [util_loop ?n ?x1 ?x2 ?x3 ?x4 ?q'] =>
    destruct (util_loop_ok n x1 x2 x3 x4 q') as (q2 & E2 & Hm & Hu2) end.
  - done.
  - cbn. lia.
  - exists q2. split; [done|]. split; [|done]. apply Hm.
Qed.

Lemma disc_rep_length m d l : disc_rep m d l -> (length l <= size m)%nat.
Proof.
  intros Hr. rewrite <- (size_list_to_set (C := gset addr)) by (by eapply disc_rep_nodup).
  rewrite <- size_dom. apply subseteq_size. intros p Hp%elem_of_list_to_set.
  apply elem_of_dom. by eapply disc_rep_valid.
Qed.

(** The state of the machine: the discipline holds the packets of [l], and
    holds none when the link is free. *)
Record qrep m q l : Prop := {
  qrep_disc : disc_rep m q.(disc) l;
  qrep_util : util_ok q;
  qrep_idle : q.(blocked_) = false -> l = []
}.

Lemma recv_ok now m q l p :
  qrep m q l -> p ∉ l -> 0 < size_of m p ->
  exists m' q' ds r l', recv exp now m q p = Ok (m', q', ds, r) /\ qrep m' q' l' /\
    option_list r ++ ds ++ l' ≡ₚ p :: l /\ sizes m' = sizes m /\
    q'.(unblock_on_resume_) = q.(unblock_on_resume_) /\
    q'.(blocked_) = q.(blocked_) || bool_decide (r <> None) /\
    (q.(blocked_) = true -> r = None).
Proof.
  intros [Hr Hu Hi] Hp Hv. unfold recv.
  destruct (disc_enque_law now m (disc q) l p Hr Hp Hv) as (m1 & d1 & ds & l1 & -> & Hr1 & P1 & E1).
  cbn [res_bind]. cbn [blocked_ field_update]. destruct (blocked_ q) eqn:Hb.
  { eexists m1, _, ds, None, l1. split; [done|]. split; [|split].
    - by split.
    - solve_perm.
    - done. }
  cbn [disc].
  destruct (disc_deque_law now m1 d1 l1 Hr1) as (m2 & d2 & ds2 & r & l2 & -> & Hr2 & P2 & Hn & E2).
  cbn [res_bind].
  assert (option_list r ++ (ds ++ ds2) ++ l2 ≡ₚ p :: l) as HP.
  { solve_perm. }
  destruct r as [r|].
  - destruct (utilUpdate_ok (last_change_ q) now (blocked_ q) (q <| disc := d2 |>))
      as (q3 & E3 & (M1 & M2 & M3 & M4 & M5) & U3); [done|].
    cbn -[utilUpdate] in E3 |- *. rewrite Hb in E3. rewrite E3. cbn [res_bind].
    eexists _, _, _, _, l2. split; [done|]. split; [|split; [exact HP|]].
    + split; cbn; [by rewrite M1|done|done].
    + cbn. rewrite M3. split; [congruence|]. done.
  - eexists _, _, _, _, l2. split; [done|]. split; [|split; [exact HP|]].
    + split; cbn; [done|done|]. intros _. rewrite Hn in P2 by done. cbn in P2.
      by apply perm_nil_app in P2 as [_ ?].
    + split; [congruence|]. done.
Qed.

Lemma resume_ok now m q l :
  qrep m q l -> blocked_ q = true ->
  exists m' q' ds r l', resume exp now m q = Ok (m', q', ds, r) /\ disc_rep m' q'.(disc) l' /\
    util_ok q' /\ option_list r ++ ds ++ l' ≡ₚ l /\ sizes m' = sizes m /\
    q'.(unblock_on_resume_) = q.(unblock_on_resume_) /\
    (r = None -> l' = []) /\
    q'.(blocked_) = bool_decide (r <> None) || negb q.(unblock_on_resume_).
Proof.
  intros [Hr Hu Hi] Hb. unfold resume.
  destruct (disc_deque_law now m (disc q) l Hr) as (m2 & d2 & ds2 & r & l2 & -> & Hr2 & P2 & Hn & E2).
  cbn [res_bind]. destruct r as [r|].
  - eexists _, _, _, _, l2. split; [done|]. split; [done|]. split; [done|].
    split; [symmetry; exact P2|]. done.
  - destruct (utilUpdate_ok (last_change_ q) now (blocked_ q) (q <| disc := d2 |>))
      as (q3 & E3 & (M1 & M2 & M3 & M4 & M5) & U3); [done|].
    cbn -[utilUpdate] in E3 |- *. rewrite E3. cbn [res_bind].
    eexists _, _, _, _, l2. split; [done|]. cbn. rewrite M1, M3.
    split; [done|]. split; [done|]. split; [symmetry; exact P2|].
    split; [done|]. split; [done|]. split; [|done]. intros _. rewrite Hn in P2 by done.
    cbn in P2. by apply perm_nil_app in P2 as [_ ?].
Qed.

Lemma reset_loop_ok fuel now m d l :
  disc_rep m d l -> (length l <= fuel)%nat ->
  exists m' d' ds, reset_loop fuel now m d = Ok (m', d', ds) /\ disc_rep m' d' [] /\
    ds ≡ₚ l /\ sizes m' = sizes m.
Proof.
  revert m d l. induction fuel as [|fuel IH]; intros m d l Hr Hf; cbn [reset_loop];
    destruct (disc_deque_law now m d l Hr) as (m2 & d2 & ds2 & r & l2 & -> & Hr2 & P2 & Hn & E2);
    cbn [res_bind]; (destruct r as [r|]; [|rewrite Hn in P2 by done; cbn in P2;
      apply perm_nil_app in P2 as [-> ->]; rewrite Hn by done; by eexists _, _, _]).
  - apply Permutation_length in P2. cbn in P2. lia.
  - destruct (IH m2 d2 l2 Hr2) as (m3 & d3 & ds3 & -> & Hr3 & P3 & E3).
    { apply Permutation_length in P2. rewrite !length_app in P2. cbn in P2. lia. }
    cbn [res_bind]. eexists _, _, _. split; [done|]. split; [done|]. split; [|congruence].
    solve_perm.
Qed.
End Facts.
End QueueFacts.

(** * Properties *)

Module QueueProps.
Import Queue QueueFacts.

Section Props.
Context {D : Type} `{DL : DisciplineLaws D}.
Context (exp : f64 -> f64).
Implicit Types (q : t D) (m : mem) (now : f64) (l : list addr).

(** The invariant of the queue and its link. *)
Definition winv (w : world) (l : list addr) : Prop :=
  qrep w.(w_mem) w.(w_queue) l /\ w.(w_queue).(unblock_on_resume_) = true /\
  w.(w_queue).(blocked_) = w.(w_link) /\
  w.(w_sent) ++ w.(w_dropped) ++ l ≡ₚ w.(w_arrived).

Lemma step_winv w w' l : step exp w w' -> winv w l -> exists l', winv w' l'.
Proof.
  intros Hs (Hq & Hu & Hb & Hp). destruct Hs as [now m q k a s d p m' q' ds r Hv Hpa E
    |now m q a s d m' q' ds r E]; cbn in *.
  - destruct (recv_ok exp now m q l p Hq) as (m2 & q2 & ds2 & r2 & l2 & E2 & Hq2 & P2 & _ & Hu2 & Hb2 & Hn);
      [|done|].
    { intros Hpl. apply Hpa. rewrite <- Hp. set_solver. }
    rewrite E in E2. injection E2 as <- <- <- <-. exists l2. split; [done|]. cbn.
    split; [congruence|]. split; [|solve_perm].
    rewrite Hb2, Hb. destruct r; [by rewrite orb_true_r|by rewrite orb_false_r].
  - destruct (resume_ok exp now m q l Hq Hb) as (m2 & q2 & ds2 & r2 & l2 & E2 & Hr2 & Hu2 & P2 & _ & Hn2 & Hl2 & Hb2).
    rewrite E in E2. injection E2 as <- <- <- <-. rewrite Hu in Hb2.
    exists l2. split; [|cbn; split; [congruence|split; [|solve_perm]]].
    + split; [done|done|]. cbn. rewrite Hb2, orb_false_r. intros Hr. apply Hl2.
      by apply bool_decide_eq_false, dec_stable in Hr.
    + rewrite Hb2, orb_false_r. by destruct r.
Qed.

(** C21: the queue and its link never lose a packet, never hold one while the
    link is idle, and never get stuck.  In every world reached from an empty
    unblocked queue: the packets sent, dropped and still held are together
    exactly the arrived ones; the queue is blocked exactly while a packet is
    on the link, and holds packets only then; [recv] of a new packet and, with
    a packet on the link, [resume] succeed. *)
Theorem queue_work_conserving m q w :
  disc_rep m q.(disc) [] -> util_ok q -> q.(blocked_) = false ->
  q.(unblock_on_resume_) = true ->
  rtc (step exp) (World m q false [] [] []) w ->
  exists l,
    disc_rep w.(w_mem) w.(w_queue).(disc) l /\
    w.(w_sent) ++ w.(w_dropped) ++ l ≡ₚ w.(w_arrived) /\
    w.(w_queue).(blocked_) = w.(w_link) /\ (w.(w_link) = false -> l = []) /\
    (forall now p, p ∉ w.(w_arrived) -> 0 < size_of w.(w_mem) p ->
      exists r, recv exp now w.(w_mem) w.(w_queue) p = Ok r) /\
    (w.(w_link) = true -> forall now,
      exists r, resume exp now w.(w_mem) w.(w_queue) = Ok r).
Proof.
  intros Hr Hu Hb Hun Hs.
  assert (exists l, winv w l) as (l & Hq & Hun' & Hb' & Hp).
  { remember (World m q false [] [] []) as w0 eqn:Ew.
    assert (exists l, winv w0 l) as H0.
    { exists []. subst w0. split; [|by cbn]. by split. }
    clear Ew. induction Hs as [w|w1 w2 w3 Hs1 _ IH]; [done|].
    destruct H0 as [l1 H0]. apply IH. by eapply step_winv. }
  exists l. split; [apply Hq|]. split; [done|]. split; [done|]. split; [|split].
  - rewrite <- Hb'. apply Hq.
  - intros now p Hpa Hv. destruct (recv_ok exp now _ _ l p Hq) as (? & ? & ? & ? & ? & E & _);
      [|done|by eexists]. intros Hpl. apply Hpa. rewrite <- Hp. set_solver.
  - intros Hl now. destruct (resume_ok exp now _ _ l Hq) as (? & ? & ? & ? & ? & E & _);
      [congruence|by eexists].
Qed.

(** C13: [reset] terminates and drops every packet of the queue, each once. *)
Theorem reset_drops_all now m q l :
  disc_rep m q.(disc) l ->
  exists m' q' ds, reset now m q = Ok (m', q', ds) /\ disc_rep m' q'.(disc) [] /\ ds ≡ₚ l.
Proof.
  intros Hr. destruct (reset_loop_ok (size m) now m (disc q) l Hr) as (m' & d' & ds & E & Hr' & P & _).
  { by eapply disc_rep_length. }
  unfold reset. rewrite E. eexists _, _, _. split; [done|]. done.
Qed.

(** Updating the utilization estimate never writes outside the buffer of
    past utilizations and keeps the slot index in range, whatever the times
    are, and leaves the packets and the link state alone. *)
Theorem utilUpdate_in_bounds b e s q :
  (0 < q.(util_records_) -> Z.of_nat (length q.(util_buf_)) = q.(util_records_) /\
    0 <= q.(buf_slot_) < q.(util_records_)) ->
  exists q', utilUpdate exp b e s q = Ok q' /\ disc q' = disc q /\ blocked_ q' = blocked_ q /\
    (0 < q'.(util_records_) -> Z.of_nat (length q'.(util_buf_)) = q'.(util_records_) /\
      0 <= q'.(buf_slot_) < q'.(util_records_)).
Proof.
  intros Hu. destruct (utilUpdate_ok exp b e s q Hu) as (q' & E & (M1 & M2 & _) & Hu').
  by exists q'.
Qed.
End Props.
End QueueProps.
