(* ===== verification/DropTail.v ===== *)
(** * The drop-tail queue and its pFabric variants

    [DropTail] (src/ns2/queue/drop-tail.cc): a bounded queue with the
    policies of the data-plane experiments: drop the arriving packet, the
    front packet, the packet of lowest priority ([drop_prio_]) or a packet of
    the most recently served flow ([drop_smart_]); serve in FIFO order or by
    priority ([deque_prio_]), optionally keeping the order within a flow
    ([keep_order_]); mark ECN above a threshold.

    The discipline is written against [PacketFifo]; the module
    [BadTracking] is the queue class it uses in the code.  Packets the code
    hands to [drop] are returned as a list, in order. *)

From Stdlib Require Import ZArith Lia Bool.
From stdpp Require Import base list gmap.
From S2P Require Import Prelude F64 PktQueue QueueBase.

(** Low numbers are high priority; from 2^30 on a packet is "bad". *)
Definition is_bad_prio (pk : Packet) : bool := 2 ^ 30 <=? pk.(prio_).

(** ** BadTrackingPacketQueue *)

Module BadTracking.
Record t := mk { base : PacketQueue.t; num_bad_packets_ : Z }.

#[global] Instance eta_t : Eta t := fun q => mk (base q) (num_bad_packets_ q).

(** [std::make_unique] value-initialises, so the counter starts at 0. *)
Definition create : t := mk PacketQueue.create 0.

Definition get_num_bad_packets (q : t) : Z := q.(num_bad_packets_).
Definition get_num_good_packets (q : t) : Z :=
  PacketQueue.length q.(base) - get_num_bad_packets q.

Definition note_enque (m : mem) (q : t) (p : addr) : res t :=
  let! pk := deref (m !! p) in
  Ok (if is_bad_prio pk then q <| num_bad_packets_ := q.(num_bad_packets_) + 1 |> else q).

Definition note_deque (m : mem) (q : t) (p : addr) : res t :=
  let! pk := deref (m !! p) in
  Ok (if is_bad_prio pk then q <| num_bad_packets_ := q.(num_bad_packets_) - 1 |> else q).

Definition enque (m : mem) (q : t) (p : addr) : res (mem * t) :=
  let! q := note_enque m q p in
  let! (m, b, _) := PacketQueue.enque m q.(base) p in
  Ok (m, q <| base := b |>).

Definition deque (m : mem) (q : t) : res (t * option addr) :=
  let! (b, result) := PacketQueue.deque m q.(base) in
  let q := q <| base := b |> in
  match result with
  | Some p => let! q := note_deque m q p in Ok (q, result)
  | None => Ok (q, None)
  end.

(** [super::remove] calls the virtual [deque] above for the head. *)
Definition remove (m : mem) (q : t) (p : addr) : res (mem * t) :=
  let! q := note_deque m q p in
  PacketQueue.remove_virtual base (fun b q => q <| base := b |>) deque m q p.
End BadTracking.

#[export] Instance BadTracking_fifo : PacketFifo BadTracking.t := {
  fifo_base := BadTracking.base;
  fifo_set_base b q := q <| BadTracking.base := b |>;
  fifo_enque := BadTracking.enque;
  fifo_deque := BadTracking.deque;
  fifo_remove := BadTracking.remove
}.

(** The extra observer of the class. *)
Class GoodCounter (Q : Type) := num_good : Q -> Z.

#[export] Instance BadTracking_good : GoodCounter BadTracking.t :=
  BadTracking.get_num_good_packets.

(** ** DropTail *)

Module DropTail.

Inductive ExtremumKind := HIGHEST | LOWEST.

Record t (Q : Type) := mk {
  q_ : Q;
  qlim_ : Z;                  (* Queue::qlim_ *)
  true_ave_ : f64;            (* Queue::true_ave_ *)
  total_time_ : f64;          (* Queue::total_time_ *)
  thresh_ : Z;
  drop_front_ : bool;
  summarystats : bool;
  qib_ : bool;
  mean_pktsize_ : Z;
  drop_smart_ : bool;
  drop_prio_ : bool;
  deque_prio_ : bool;
  keep_order_ : bool;
  ecn_enable_ : bool;
  drop_low_prio_ : bool;
  good_prio_qlim_ : Z;
  sq_limit_ : Z;              (* unsigned *)
  sq_counts_ : gmap Z Z;
  sq_queue_ : list Z          (* front first *)
}.
Arguments mk {Q}.
Arguments q_ {Q}. Arguments qlim_ {Q}. Arguments true_ave_ {Q}.
Arguments total_time_ {Q}. Arguments thresh_ {Q}. Arguments drop_front_ {Q}.
Arguments summarystats {Q}. Arguments qib_ {Q}. Arguments mean_pktsize_ {Q}.
Arguments drop_smart_ {Q}. Arguments drop_prio_ {Q}. Arguments deque_prio_ {Q}.
Arguments keep_order_ {Q}. Arguments ecn_enable_ {Q}. Arguments drop_low_prio_ {Q}.
Arguments good_prio_qlim_ {Q}. Arguments sq_limit_ {Q}. Arguments sq_counts_ {Q}.
Arguments sq_queue_ {Q}.

#[global] Instance eta_t {Q} : Eta (t Q) := fun d =>
  mk (q_ d) (qlim_ d) (true_ave_ d) (total_time_ d) (thresh_ d) (drop_front_ d)
    (summarystats d) (qib_ d) (mean_pktsize_ d) (drop_smart_ d) (drop_prio_ d)
    (deque_prio_ d) (keep_order_ d) (ecn_enable_ d) (drop_low_prio_ d)
    (good_prio_qlim_ d) (sq_limit_ d) (sq_counts_ d) (sq_queue_ d).

Section Ops.
Context {Q : Type} `{PacketFifo Q} `{GoodCounter Q}.
(** [std::hash] of the bytes of a [FlowKey] (source, destination, flow). *)
Context (string_hasher : Z * Z * Z -> Z).

Implicit Types (m : mem) (d : t Q) (p packet : addr).

Definition length d : Z := PacketQueue.length (fifo_base d.(q_)).
Definition byteLength d : Z := PacketQueue.byteLength (fifo_base d.(q_)).

Definition qlim_in_bytes d : Z := d.(qlim_) * d.(mean_pktsize_).

Definition flow_key (pk : Packet) : Z * Z * Z := (pk.(saddr_), pk.(daddr_), pk.(flowid_)).

(** [Queue::updateStats]. *)
Definition updateStats (now : f64) (queuesize : Z) d : t Q :=
  let newtime := F64.sub now d.(total_time_) in
  if F64.gt newtime F64.zero then
    let oldave := d.(true_ave_) in
    let oldtime := d.(total_time_) in
    d <| true_ave_ := F64.div (F64.add (F64.mul oldtime oldave)
                                (F64.mul newtime (F64.of_Z queuesize))) now |>
      <| total_time_ := now |>
  else d.

Definition pre_enque (now : f64) d : t Q :=
  if d.(summarystats)
  then updateStats now (if d.(qib_) then byteLength d else length d) d
  else d.

Definition will_overflow m d packet : res bool :=
  let! pk := deref (m !! packet) in
  Ok (if d.(qib_) then qlim_in_bytes d <=? byteLength d + pk.(size_)
      else if 0 <=? d.(good_prio_qlim_) then
        if is_bad_prio pk then d.(qlim_) <=? length d + 1
        else d.(good_prio_qlim_) <=? num_good d.(q_) + 1
      else d.(qlim_) <=? length d + 1).

Definition enque_raw m d p : res (mem * t Q) :=
  let! (m, q) := fifo_enque m d.(q_) p in Ok (m, d <| q_ := q |>).

Definition remove_raw m d p : res (mem * t Q) :=
  let! (m, q) := fifo_remove m d.(q_) p in Ok (m, d <| q_ := q |>).

Definition visit m d : res (t Q * list addr) :=
  let! (q, l) := iterate m d.(q_) in Ok (d <| q_ := q |>, l).

Definition drop_front m d packet : res (mem * t Q * option addr) :=
  let! (m, d) := enque_raw m d packet in
  let! (q, r) := fifo_deque m d.(q_) in
  Ok (m, d <| q_ := q |>, r).

(** The scan of [drop_prio]: the last of the packets of largest priority
    number among those the guard admits. *)
Fixpoint drop_prio_scan m d (must_drop_good : bool) (l : list addr)
    (max_pp : addr) (max_prio : Z) : res addr :=
  match l with
  | [] => Ok max_pp
  | pp :: l =>
      if negb d.(qib_) && (0 <=? d.(good_prio_qlim_)) then Err Throw
      else
        let! pk := deref (m !! pp) in
        if (negb d.(qib_) && (negb must_drop_good || negb (is_bad_prio pk)))
           || (byteLength d - pk.(size_) <? qlim_in_bytes d)
        then
          if max_prio <=? pk.(prio_)
          then drop_prio_scan m d must_drop_good l pp pk.(prio_)
          else drop_prio_scan m d must_drop_good l max_pp max_prio
        else drop_prio_scan m d must_drop_good l max_pp max_prio
  end.

Definition drop_prio m d packet : res (mem * t Q * option addr) :=
  let! (m, d) := enque_raw m d packet in
  let must_drop_good :=
    (0 <=? d.(good_prio_qlim_)) && (d.(good_prio_qlim_) <? num_good d.(q_)) in
  let! (d, l) := visit m d in
  let! max_pp := drop_prio_scan m d must_drop_good l packet 0 in
  let! (m, d) := remove_raw m d max_pp in
  Ok (m, d, Some max_pp).

Fixpoint drop_smart_scan m d (l : list addr) (max_pp : addr) (max_count : Z) : res addr :=
  match l with
  | [] => Ok max_pp
  | pp :: l =>
      let! pk := deref (m !! pp) in
      match d.(sq_counts_) !! string_hasher (flow_key pk) with
      | Some count =>
          if max_count <? count then drop_smart_scan m d l pp count
          else drop_smart_scan m d l max_pp max_count
      | None => drop_smart_scan m d l max_pp max_count
      end
  end.

Definition drop_smart m d packet : res (mem * t Q * option addr) :=
  let! (m, d) := enque_raw m d packet in
  let! (d, l) := visit m d in
  let! max_pp := drop_smart_scan m d l packet 0 in
  let! (m, d) := remove_raw m d max_pp in
  Ok (m, d, Some max_pp).

Definition handle_overflow m d packet : res (mem * t Q * option addr) :=
  if d.(drop_front_) then drop_front m d packet
  else if d.(drop_prio_) then drop_prio m d packet
  else if d.(drop_smart_) then drop_smart m d packet
  else Ok (m, d, Some packet).

Fixpoint extreme_scan m (kind : ExtremumKind) (l : list addr)
    (best : addr) (best_prio : Z) : res addr :=
  match l with
  | [] => Ok best
  | pp :: l =>
      let! pk := deref (m !! pp) in
      if match kind with
         | LOWEST => pk.(prio_) <? best_prio
         | HIGHEST => best_prio <? pk.(prio_)
         end
      then extreme_scan m kind l pp pk.(prio_)
      else extreme_scan m kind l best best_prio
  end.

Definition find_extreme_packet m d (kind : ExtremumKind) : res (t Q * option addr) :=
  if length d =? 0 then Ok (d, None)
  else
    let! (d, l) := visit m d in
    match l with
    | [] => Err UB
    | best :: l =>
        let! pk := deref (m !! best) in
        let! b := extreme_scan m kind l best pk.(prio_) in
        Ok (d, Some b)
    end.

Definition find_best_packet m d : res (t Q * option addr) :=
  find_extreme_packet m d LOWEST.

Definition is_ecn_threshold_reached d : bool := d.(thresh_) <=? length d.

Definition mark_ecn m d : res (mem * t Q) :=
  let! (d, packet) := find_extreme_packet m d HIGHEST in
  match packet with
  | None => Ok (m, d)
  | Some p =>
      let! pk := deref (m !! p) in
      if negb (pk.(ecn_capable_) =? 0)
      then let! m := update_packet m p (fun pk => pk <| ecn_to_echo_ := 1 |>) in Ok (m, d)
      else Ok (m, d)
  end.

(** The packet is queued, or [handle_overflow] chooses what to drop.
    [Connector::drop] of a null pointer is undefined. *)
Definition enque (now : f64) m d p : res (mem * t Q * list addr) :=
  let d := pre_enque now d in
  let! over := will_overflow m d p in
  let! (m, d, dropped) :=
    if over then
      let! (m, d, r) := handle_overflow m d p in
      let! r := deref r in
      Ok (m, d, [r])
    else let! (m, d) := enque_raw m d p in Ok (m, d, []) in
  if d.(ecn_enable_) && is_ecn_threshold_reached d
  then let! (m, d) := mark_ecn m d in Ok (m, d, dropped)
  else Ok (m, d, dropped).

Definition is_same_flow (hp h : Packet) : bool :=
  (h.(saddr_) =? hp.(saddr_)) && (h.(daddr_) =? hp.(daddr_)) &&
  (h.(flowid_) =? hp.(flowid_)).

(** The loop of [handle_same_flow]: the packet to send and the packets to
    drop.  It runs until it meets [packet] and does not test for the end
    of the queue. *)
Fixpoint same_flow_scan m d (hp : Packet) packet (l : list addr) : res (addr * list addr) :=
  match l with
  | [] => Err UB
  | pp :: l =>
      if decide (pp = packet) then Ok (packet, [])
      else
        let! h := deref (m !! pp) in
        if is_same_flow hp h then
          if d.(drop_low_prio_) && is_bad_prio h && negb (is_bad_prio hp)
          then let! (r, ds) := same_flow_scan m d hp packet l in Ok (r, pp :: ds)
          else Ok (if d.(keep_order_) then pp else packet, [])
        else same_flow_scan m d hp packet l
  end.

Fixpoint remove_all m d (ps : list addr) : res (mem * t Q) :=
  match ps with
  | [] => Ok (m, d)
  | p :: ps => let! (m, d) := remove_raw m d p in remove_all m d ps
  end.

Definition handle_same_flow m d packet : res (mem * t Q * addr * list addr) :=
  let! (d, l) := visit m d in
  let! hp := deref (m !! packet) in
  let! (packet, packets_to_drop) := same_flow_scan m d hp packet l in
  let! (m, d) := remove_all m d packets_to_drop in
  Ok (m, d, packet, packets_to_drop).

Definition deque_priority m d : res (mem * t Q * list addr * option addr) :=
  let! (d, result) := find_best_packet m d in
  match result with
  | None => Ok (m, d, [], None)
  | Some p =>
      let! (m, d, p, dropped) :=
        if d.(keep_order_) || d.(drop_low_prio_) then handle_same_flow m d p
        else Ok (m, d, p, []) in
      let! (m, d) := remove_raw m d p in
      Ok (m, d, dropped, Some p)
  end.

(** Accounting of the flows served last: [sq_counts_] counts the entries
    of [sq_queue_] per flow signature. *)
Definition note_served d (signature : Z) : t Q :=
  let d := d <| sq_queue_ := d.(sq_queue_) ++ [signature] |> in
  let d := d <| sq_counts_ :=
    match d.(sq_counts_) !! signature with
    | Some c => <[signature := c + 1]> d.(sq_counts_)
    | None => <[signature := 1]> d.(sq_counts_)
    end |> in
  if d.(sq_limit_) <? Z.of_nat (List.length d.(sq_queue_)) then
    match d.(sq_queue_) with
    | [] => d
    | temp :: q =>
        let d := d <| sq_queue_ := q |> in
        (* operator[] default-inserts 0 *)
        let c := default 0 (d.(sq_counts_) !! temp) - 1 in
        d <| sq_counts_ :=
          if c =? 0 then delete temp d.(sq_counts_)
          else <[temp := c]> d.(sq_counts_) |>
    end
  else d.

Definition deque_with_drop_smart m d : res (t Q * option addr) :=
  let! (q, p) := fifo_deque m d.(q_) in
  let d := d <| q_ := q |> in
  match p with
  | None => Ok (d, None)
  | Some a =>
      let! pk := deref (m !! a) in
      Ok (note_served d (string_hasher (flow_key pk)), p)
  end.

Definition deque (now : f64) m d : res (mem * t Q * list addr * option addr) :=
  let d := pre_enque now d in
  if d.(deque_prio_) then deque_priority m d
  else if d.(drop_smart_) then
    let! (d, p) := deque_with_drop_smart m d in Ok (m, d, [], p)
  else
    let! (q, p) := fifo_deque m d.(q_) in Ok (m, d <| q_ := q |>, [], p).

(** Drops packets until the queue fits its limit again. *)
Fixpoint shrink_loop (fuel : nat) m d : res (mem * t Q * list addr) :=
  if (negb d.(qib_) && (d.(qlim_) <? length d))
     || (d.(qib_) && (qlim_in_bytes d <? byteLength d))
  then
    match fuel with
    | O => Err Fuel
    | S fuel =>
        let! (m, d, pp) :=
          if d.(drop_front_) then
            let! (q, pp) := fifo_deque m d.(q_) in
            let! pp := deref pp in
            Ok (m, d <| q_ := q |>, pp)
          else
            match (fifo_base d.(q_)).(PacketQueue.tail_) with
            | None => Err Abort
            | Some pp => let! (m, d) := remove_raw m d pp in Ok (m, d, pp)
            end in
        let! (m, d, ds) := shrink_loop fuel m d in
        Ok (m, d, pp :: ds)
    end
  else Ok (m, d, []).

Definition shrink_queue m d : res (mem * t Q * list addr) :=
  shrink_loop (PacketQueue.walk_fuel m) m d.
End Ops.
End DropTail.

(** * Facts *)

(** ** BadTracking implements the queue interface *)

Lemma note_deque_ok m q p :
  is_Some (m !! p) ->
  exists pk, m !! p = Some pk /\ BadTracking.note_deque m q p =
    Ok (if is_bad_prio pk
        then q <| BadTracking.num_bad_packets_ := BadTracking.num_bad_packets_ q - 1 |> else q).
Proof. intros [pk Hp]. exists pk. unfold BadTracking.note_deque. by rewrite Hp. Qed.

Lemma note_deque_base m q p q' :
  BadTracking.note_deque m q p = Ok q' -> BadTracking.base q' = BadTracking.base q.
Proof. unfold BadTracking.note_deque. intros H. inv_res. by destruct (is_bad_prio _). Qed.

Lemma bad_deque_ok m q l :
  PacketQueue.rep m (BadTracking.base q) l ->
  exists q', BadTracking.deque m q = Ok (q', head l) /\
    PacketQueue.rep m (BadTracking.base q') (tail l) /\
    BadTracking.num_bad_packets_ q' = BadTracking.num_bad_packets_ q -
      from_option (fun p => if from_option is_bad_prio false (m !! p) then 1 else 0) 0 (head l).
Proof.
  intros Hr. destruct (PacketQueue.deque_rep _ _ _ Hr) as (b & E & Hr' & _).
  unfold BadTracking.deque. rewrite E. cbn [res_bind]. destruct l as [|p l]; cbn [head tail] in *.
  - eexists. split; [done|]. split; [done|]. cbn. lia.
  - destruct (note_deque_ok m (q <| BadTracking.base := b |>) p) as (pk & Hp & En).
    { apply (PacketQueue.rep_valid _ _ _ _ Hr). set_solver. }
    rewrite En. cbn [res_bind]. eexists. split; [done|].
    split; [by destruct (is_bad_prio pk)|]. cbn. rewrite Hp. cbn.
    destruct (is_bad_prio pk); cbn; lia.
Qed.

#[export] Instance BadTracking_fifo_laws : PacketFifoLaws BadTracking.t.
Proof.
  split; unfold fifo_rep; cbn [fifo_base fifo_set_base fifo_enque fifo_deque fifo_remove BadTracking_fifo].
  - done.
  - intros m q l p Hr Hp [pk Hv]. unfold BadTracking.enque, BadTracking.note_enque. rewrite Hv.
    cbn [deref res_bind].
    set (q0 := if is_bad_prio pk then _ else q).
    replace (BadTracking.base q0) with (BadTracking.base q) by (subst q0; by destruct (is_bad_prio pk)).
    destruct (PacketQueue.enque_rep _ _ _ p Hr Hp) as (m' & b & E & H1 & H2 & _); [by eexists|].
    rewrite E. cbn. eauto.
  - intros m q l Hr. destruct (bad_deque_ok _ _ _ Hr) as (q' & E & H & _). eauto.
  - intros m q l p Hr Hp. unfold BadTracking.remove.
    destruct (note_deque_ok m q p) as (pk & Hpk & En); [by apply (PacketQueue.rep_valid _ _ _ _ Hr)|].
    rewrite En. cbn [res_bind].
    set (q0 := if is_bad_prio pk then _ else q).
    assert (BadTracking.base q0 = BadTracking.base q) as Hb
      by (subst q0; by destruct (is_bad_prio pk)).
    rewrite <- Hb in Hr. destruct (decide (head l = Some p)) as [Hh|Hh].
    + destruct l as [|a l]; [done|]. injection Hh as ->.
      rewrite (PacketQueue.remove_virtual_head _ _ _ _ _ _ l) by done.
      destruct (bad_deque_ok _ _ _ Hr) as (q' & E & H & _). rewrite E. cbn [res_bind].
      eexists _, _. split; [done|]. cbn. rewrite decide_True by done.
      split; [done|]. apply PacketQueue.frame_refl.
    + destruct (PacketQueue.remove_virtual_inner BadTracking.base
        (fun b q => q <| BadTracking.base := b |>) BadTracking.deque m q0 p l Hr Hp Hh)
        as (m' & b & E & H1 & H2 & _). rewrite E. eauto 6.
Qed.

(** ** Observers of packets in memory *)

Definition flow_of (m : mem) (p : addr) : option (Z * Z * Z) := DropTail.flow_key <$> m !! p.

Definition bad_of (m : mem) (p : addr) : bool := 2 ^ 30 <=? prio_of m p.

Module DropTailFacts.
Import DropTail.

Section Facts.
Context {Q : Type} {PF : PacketFifo Q} {PL : PacketFifoLaws Q} {GC : GoodCounter Q}.
Context (string_hasher : Z * Z * Z -> Z).
Implicit Types (m : mem) (d : t Q) (p r : addr) (l : list addr).

(** The queue holds exactly the packets of [l], in this order. *)
Definition drep m d l : Prop := fifo_rep m d.(q_) l.

Lemma drep_valid m d l p : drep m d l -> p ∈ l -> is_Some (m !! p).
Proof. apply PacketQueue.rep_valid. Qed.

Lemma drep_length m d l : drep m d l -> length d = Z.of_nat (List.length l).
Proof. intros Hr. apply (PacketQueue.rep_len _ _ _ Hr). Qed.

Lemma drep_bytes m d l : drep m d l -> byteLength d = bytes_of m l.
Proof. intros Hr. apply (PacketQueue.rep_bytes _ _ _ Hr). Qed.

Lemma drep_nodup m d l : drep m d l -> NoDup l.
Proof. intros Hr. apply (PacketQueue.rep_nodup _ _ _ Hr). Qed.

Lemma drep_set m d q l : fifo_rep m q l -> drep m (d <| q_ := q |>) l.
Proof. done. Qed.

Lemma drep_set2 m d q1 q l :
  fifo_rep m q l -> drep m (d <| q_ := q1 |> <| q_ := q |>) l.
Proof. done. Qed.

Lemma drep_nodup_l m d l x l1 l2 : drep m d l -> l = l1 ++ x :: l2 -> x ∉ l1.
Proof.
  intros Hr ->. apply drep_nodup in Hr. apply NoDup_app in Hr as (_ & Hr & _). set_solver.
Qed.

(** The queue operations only replace [q_]. *)
Lemma enque_raw_ok m d l p :
  drep m d l -> p ∉ l -> is_Some (m !! p) ->
  exists m' q', enque_raw m d p = Ok (m', d <| q_ := q' |>) /\
    fifo_rep m' q' (l ++ [p]) /\ PacketQueue.frame m m' (p :: l).
Proof.
  intros Hr Hp Hv. destruct (fifo_enque_law _ _ _ _ Hr Hp Hv) as (m' & q' & E & Hr' & F).
  unfold enque_raw. rewrite E. cbn [res_bind]. eauto.
Qed.

Lemma remove_raw_ok m d l p :
  drep m d l -> p ∈ l ->
  exists m' q', remove_raw m d p = Ok (m', d <| q_ := q' |>) /\
    fifo_rep m' q' (remove_one p l) /\ PacketQueue.frame m m' l.
Proof.
  intros Hr Hp. destruct (fifo_remove_law _ _ _ _ Hr Hp) as (m' & q' & E & Hr' & F).
  unfold remove_raw. rewrite E. cbn [res_bind]. eauto.
Qed.

Lemma visit_ok m d l :
  drep m d l -> exists q', visit m d = Ok (d <| q_ := q' |>, l) /\ fifo_rep m q' l.
Proof.
  intros Hr. destruct (iterate_spec _ _ _ Hr) as (q' & E & Hr').
  unfold visit. rewrite E. cbn [res_bind]. eauto.
Qed.

Lemma pre_enque_q now d : q_ (pre_enque now d) = q_ d.
Proof. unfold pre_enque, updateStats. by repeat case_match. Qed.

(** *** The scans *)

Lemma drop_prio_scan_in m d g l max_pp max_prio r :
  drop_prio_scan m d g l max_pp max_prio = Ok r -> r ∈ max_pp :: l.
Proof.
  revert max_pp max_prio. induction l as [|pp l IH]; cbn; intros max_pp max_prio E.
  - injection E as <-. set_solver.
  - destruct (negb (qib_ d) && _); [done|]. destruct (m !! pp) as [pk|]; [|done]. cbn in E.
    destruct (_ || _); [destruct (max_prio <=? _)|]; apply IH in E; set_solver.
Qed.

Lemma drop_prio_scan_total m d g l max_pp max_prio :
  d.(qib_) = true \/ d.(good_prio_qlim_) < 0 -> (forall p, p ∈ l -> is_Some (m !! p)) ->
  exists r, drop_prio_scan m d g l max_pp max_prio = Ok r.
Proof.
  intros Hc. revert max_pp max_prio. induction l as [|pp l IH]; cbn; intros max_pp max_prio Hv; [eauto|].
  replace (negb (qib_ d) && (0 <=? good_prio_qlim_ d)) with false.
  2: { destruct Hc as [->|Hc]; [done|]. by rewrite (proj2 (Z.leb_gt _ _) Hc), andb_false_r. }
  destruct (Hv pp) as [pk ->]; [set_solver|]. cbn.
  destruct (_ || _); [destruct (max_prio <=? _)|]; apply IH; set_solver.
Qed.

(** With packet-counted queues and no separate limit for good packets,
    every packet is a candidate: the last of the largest priorities. *)
Lemma drop_prio_scan_max m d l max_pp max_prio r :
  d.(qib_) = false -> d.(good_prio_qlim_) < 0 -> (forall p, p ∈ l -> is_Some (m !! p)) ->
  drop_prio_scan m d false l max_pp max_prio = Ok r ->
  (r = max_pp /\ Forall (fun x => prio_of m x < max_prio) l) \/
  exists l1 l2, l = l1 ++ r :: l2 /\ max_prio <= prio_of m r /\
    Forall (fun x => prio_of m x <= prio_of m r) l1 /\
    Forall (fun x => prio_of m x < prio_of m r) l2.
Proof.
  intros Hq Hg. revert max_pp max_prio. induction l as [|pp l IH]; cbn; intros max_pp max_prio Hv E.
  - injection E as <-. by left.
  - rewrite Hq, (proj2 (Z.leb_gt _ _) Hg) in E. cbn in E.
    destruct (Hv pp) as [pk Hpk]; [set_solver|]. rewrite Hpk in E. cbn in E.
    assert (prio_of m pp = prio_ pk) as Hpp by (unfold prio_of; by rewrite Hpk).
    destruct (Z.leb_spec max_prio (prio_ pk)) as [Hle|Hlt];
      (apply IH in E; [|set_solver]);
      destruct E as [[-> Hl]|(l1 & l2 & -> & Hm & H1 & H2)].
    + right. exists [], l. split; [done|]. rewrite Hpp. split; [done|]. by split; [constructor|].
    + right. exists (pp :: l1), l2. split; [done|]. split; [lia|].
      split; [|done]. constructor; [lia|done].
    + left. split; [done|]. constructor; [lia|done].
    + right. exists (pp :: l1), l2. split; [done|]. split; [done|].
      split; [|done]. constructor; [lia|done].
Qed.

Lemma drop_smart_scan_ok m d l max_pp max_count :
  (forall p, p ∈ l -> is_Some (m !! p)) ->
  exists r, drop_smart_scan string_hasher m d l max_pp max_count = Ok r /\ r ∈ max_pp :: l.
Proof.
  revert max_pp max_count. induction l as [|pp l IH]; cbn; intros max_pp max_count Hv.
  - eexists. split; [done|]. set_solver.
  - destruct (Hv pp) as [pk ->]; [set_solver|]. cbn.
    destruct (sq_counts_ d !! _) as [c|]; [destruct (max_count <? c)|].
    + destruct (IH pp c) as (r & E & Hr); [set_solver|]. exists r. split; [done|]. set_solver.
    + destruct (IH max_pp max_count) as (r & E & Hr); [set_solver|]. exists r. split; [done|]. set_solver.
    + destruct (IH max_pp max_count) as (r & E & Hr); [set_solver|]. exists r. split; [done|]. set_solver.
Qed.

(** [find_extreme_packet]: the first packet of extreme priority. *)
Definition extreme (m : mem) (kind : ExtremumKind) (r x : addr) : Prop :=
  match kind with LOWEST => prio_of m r <= prio_of m x | HIGHEST => prio_of m x <= prio_of m r end.
Definition strictly_extreme (m : mem) (kind : ExtremumKind) (r x : addr) : Prop :=
  match kind with LOWEST => prio_of m r < prio_of m x | HIGHEST => prio_of m x < prio_of m r end.

Lemma extreme_scan_ok m kind l best :
  (forall p, p ∈ l -> is_Some (m !! p)) ->
  exists l1 r l2, extreme_scan m kind l best (prio_of m best) = Ok r /\
    best :: l = l1 ++ r :: l2 /\ Forall (strictly_extreme m kind r) l1 /\
    Forall (extreme m kind r) l2.
Proof.
  revert best. induction l as [|pp l IH]; cbn; intros best Hv.
  - by exists [], best, [].
  - destruct (Hv pp) as [pk Hpk]; [set_solver|]. rewrite Hpk. cbn.
    assert (prio_of m pp = prio_ pk) as Hpp by (unfold prio_of; by rewrite Hpk).
    rewrite <- Hpp. destruct (match kind with HIGHEST => _ | LOWEST => _ end) eqn:E.
    + destruct (IH pp) as (l1 & r & l2 & -> & Hl & H1 & H2); [set_solver|].
      exists (best :: l1), r, l2. split; [done|]. rewrite Hl. split; [done|]. split; [|done].
      constructor; [|done]. assert (r ∈ pp :: l) as Hr by (rewrite Hl; set_solver).
      destruct l1 as [|b l1]; cbn in Hl; injection Hl as -> ->.
      * destruct kind; bool_prop; cbn; lia.
      * apply Forall_cons in H1 as [H1 _]. destruct kind; bool_prop; cbn in *; lia.
    + destruct (IH best) as (l1 & r & l2 & -> & Hl & H1 & H2); [set_solver|].
      destruct l1 as [|b l1]; cbn in Hl; injection Hl as -> ->.
      * exists [], r, (pp :: l2). split; [done|]. split; [done|]. split; [done|].
        constructor; [|done]. destruct kind; bool_prop; cbn; lia.
      * apply Forall_cons in H1 as [Hb H1].
        exists (b :: pp :: l1), r, l2. split; [done|]. split; [done|]. split; [|done].
        constructor; [done|]. constructor; [|done]. destruct kind; bool_prop; cbn in *; lia.
Qed.

Lemma find_extreme_ok m d l kind :
  drep m d l ->
  match l with
  | [] => find_extreme_packet m d kind = Ok (d, None)
  | _ => exists q' l1 r l2,
      find_extreme_packet m d kind = Ok (d <| q_ := q' |>, Some r) /\ fifo_rep m q' l /\
      l = l1 ++ r :: l2 /\ Forall (strictly_extreme m kind r) l1 /\
      Forall (extreme m kind r) l2
  end.
Proof.
  intros Hr. unfold find_extreme_packet. rewrite (drep_length _ _ _ Hr).
  destruct l as [|a l]; [done|]. cbn [List.length].
  replace (Z.of_nat _ =? 0) with false by (symmetry; apply Z.eqb_neq; lia).
  destruct (visit_ok _ _ _ Hr) as (q' & -> & Hr'). cbn [res_bind].
  destruct (drep_valid _ _ _ a Hr) as [pk Ha]; [set_solver|]. rewrite Ha. cbn [deref res_bind].
  destruct (extreme_scan_ok m kind l a) as (l1 & r & l2 & E & Hl & H1 & H2).
  { intros p Hp. apply (drep_valid _ _ _ _ Hr). set_solver. }
  unfold prio_of in E at 1. rewrite Ha in E. cbn in E. rewrite E. cbn [res_bind].
  exists q', l1, r, l2. done.
Qed.

(** The queue after [remove_all]. *)
Definition removes (ds l : list addr) : list addr :=
  fold_left (fun l p => remove_one p l) ds l.

Lemma remove_all_ok m d l ds :
  drep m d l -> NoDup ds -> ds ⊆ l ->
  exists m' q' l', remove_all m d ds = Ok (m', d <| q_ := q' |>) /\
    fifo_rep m' q' l' /\ l' = removes ds l /\ l ≡ₚ ds ++ l' /\ l' `sublist_of` l /\
    PacketQueue.frame m m' l.
Proof.
  revert m d l. induction ds as [|p ds IH]; intros m d l Hr Hd Hs; cbn.
  - exists m, (q_ d), l. split; [by destruct d|]. split; [done|]. split; [done|].
    split; [done|]. split; [done|]. apply PacketQueue.frame_refl.
  - apply NoDup_cons in Hd as [Hp Hd].
    assert (p ∈ l) as Hpl by set_solver.
    destruct (remove_raw_ok _ _ _ p Hr Hpl) as (m1 & q1 & -> & Hr1 & F1). cbn [res_bind].
    destruct (IH m1 (d <| q_ := q1 |>) (remove_one p l)) as (m2 & q2 & l' & -> & Hr2 & L2 & P2 & S2 & F2);
      [done|done| |].
    { intros x Hx. apply elem_of_remove_one; [by apply drep_nodup in Hr|]. set_solver. }
    exists m2, q2, l'. split; [done|]. split; [done|]. split; [done|]. split; [|split].
    + rewrite (remove_one_perm p l) by done. cbn. by f_equiv.
    + etrans; [done|]. apply remove_one_sublist.
    + eapply PacketQueue.frame_trans; [done|]. eapply PacketQueue.frame_mono; [done|].
      intros x Hx. eapply sublist_subseteq; [apply remove_one_sublist|done].
Qed.

Definition same_flow m (hp : Packet) (x : addr) : Prop :=
  from_option (is_same_flow hp) false (m !! x) = true.

#[global] Instance same_flow_dec m hp x : Decision (same_flow m hp x).
Proof. unfold same_flow. apply _. Defined.

Lemma same_flow_iff m best hp x :
  m !! best = Some hp -> same_flow m hp x <-> flow_of m x = flow_of m best.
Proof.
  intros Hb. unfold same_flow, flow_of. rewrite Hb. destruct (m !! x) as [h|]; cbn; [|done].
  unfold is_same_flow, flow_key. rewrite !andb_true_iff, !Z.eqb_eq.
  split; [intros [[-> ->] ->]; done|]. by injection 1.
Qed.

(** A packet [drop_low_prio_] sacrifices for a better one of its flow. *)
Definition droppable d m (hp : Packet) (x : addr) : Prop :=
  d.(drop_low_prio_) = true /\ bad_of m x = true /\ is_bad_prio hp = false.

Lemma is_same_flow_refl h : is_same_flow h h = true.
Proof. unfold is_same_flow. by rewrite !Z.eqb_refl. Qed.

Lemma same_flow_scan_ok m d hp packet l :
  (forall p, p ∈ l -> is_Some (m !! p)) -> packet ∈ l -> NoDup l ->
  exists stop l1 l2,
    same_flow_scan m d hp packet l =
      Ok (if d.(keep_order_) then stop else packet, filter (same_flow m hp) l1) /\
    l = l1 ++ stop :: l2 /\ (packet ∉ l1) /\
    Forall (fun x => same_flow m hp x -> droppable d m hp x) l1 /\
    (stop = packet \/ same_flow m hp stop /\ ~ droppable d m hp stop).
Proof.
  induction l as [|pp l IH]; cbn; intros Hv Hp Hd; [set_solver|].
  apply NoDup_cons in Hd as [Hpp Hd].
  destruct (decide (pp = packet)) as [->|Hne].
  { exists packet, [], l. cbn. destruct (keep_order_ d); repeat split; set_solver. }
  destruct (Hv pp) as [h Hh]; [set_solver|]. rewrite Hh. cbn.
  assert (Hbad : bad_of m pp = is_bad_prio h) by (unfold bad_of, prio_of; by rewrite Hh).
  assert (Hsame : same_flow m hp pp <-> is_same_flow hp h = true)
    by (unfold same_flow; by rewrite Hh).
  destruct IH as (stop & l1 & l2 & E & -> & H1 & H2 & H3); [set_solver|set_solver|done|].
  destruct (is_same_flow hp h) eqn:Hs.
  - destruct (drop_low_prio_ d && is_bad_prio h && negb (is_bad_prio hp)) eqn:Hdrop.
    + rewrite E. cbn. exists stop, (pp :: l1), l2.
      rewrite filter_cons_True by (by apply Hsame). split; [done|]. split; [done|].
      split; [set_solver|]. split; [|done]. constructor; [|done]. intros _.
      bool_prop. unfold droppable. by rewrite Hbad.
    + exists pp, [], (l1 ++ stop :: l2). split; [done|]. split; [done|].
      split; [set_solver|]. split; [constructor|]. right. split; [by apply Hsame|].
      unfold droppable. rewrite Hbad. intros (Ha & Hb & Hc). by rewrite Ha, Hb, Hc in Hdrop.
  - rewrite E. exists stop, (pp :: l1), l2.
    rewrite filter_cons_False by (rewrite Hsame; congruence). split; [done|]. split; [done|].
    split; [set_solver|]. split; [|done]. constructor; [|done]. rewrite Hsame. congruence.
Qed.

(** What [handle_same_flow] sends and drops. *)
Lemma handle_same_flow_ok m d q0 l packet hp :
  fifo_rep m q0 l -> packet ∈ l -> m !! packet = Some hp ->
  exists m' q' l' stop l1 l2,
    handle_same_flow m (d <| q_ := q0 |>) packet =
      Ok (m', d <| q_ := q0 |> <| q_ := q' |>, if d.(keep_order_) then stop else packet,
          filter (same_flow m hp) l1) /\
    fifo_rep m' q' l' /\ l' = removes (filter (same_flow m hp) l1) l /\
    l ≡ₚ filter (same_flow m hp) l1 ++ l' /\ l' `sublist_of` l /\
    PacketQueue.frame m m' l /\
    l = l1 ++ stop :: l2 /\ (packet ∉ l1) /\
    Forall (fun x => same_flow m hp x -> droppable d m hp x) l1 /\
    (stop = packet \/ same_flow m hp stop /\ ~ droppable d m hp stop).
Proof.
  intros Hr Hp Hhp. unfold handle_same_flow.
  destruct (visit_ok _ _ _ (drep_set _ d _ _ Hr)) as (q1 & -> & Hr1). cbn [res_bind].
  rewrite Hhp. cbn [deref res_bind].
  destruct (same_flow_scan_ok m (d <| q_ := q0 |> <| q_ := q1 |>) hp packet l)
    as (stop & l1 & l2 & -> & Hl & H1 & H2 & H3);
    [intros p Hx; by apply (PacketQueue.rep_valid _ _ _ _ Hr)|done|apply Hr|].
  cbn [res_bind].
  destruct (remove_all_ok m (d <| q_ := q0 |> <| q_ := q1 |>) l (filter (same_flow m hp) l1))
    as (m2 & q2 & l' & -> & Hr2 & L2 & P2 & S2 & F2); [done| | |].
  - apply NoDup_filter. apply PacketQueue.rep_nodup in Hr. rewrite Hl in Hr.
    by apply NoDup_app in Hr as [? _].
  - intros x [_ Hx]%list_elem_of_filter. rewrite Hl. set_solver.
  - cbn [res_bind]. exists m2, q2, l', stop, l1, l2. done.
Qed.

(** Everything about one [deque] in priority mode. *)
Lemma deque_priority_ok m d l :
  drep m d l -> l <> [] ->
  exists m' q' ds r l' best hp l1 l2,
    deque_priority m d = Ok (m', d <| q_ := q' |>, ds, Some r) /\
    fifo_rep m' q' l' /\ l' = remove_one r (removes ds l) /\
    l ≡ₚ r :: ds ++ l' /\ l' `sublist_of` l /\
    l = l1 ++ best :: l2 /\ Forall (strictly_extreme m LOWEST best) l1 /\
    Forall (extreme m LOWEST best) l2 /\ m !! best = Some hp /\ sizes m' = sizes m /\
    (d.(keep_order_) || d.(drop_low_prio_) = false -> r = best /\ ds = []) /\
    (d.(keep_order_) || d.(drop_low_prio_) = true ->
      exists stop k1 k2, l = k1 ++ stop :: k2 /\ (best ∉ k1) /\
        r = (if d.(keep_order_) then stop else best) /\
        ds = filter (same_flow m hp) k1 /\
        Forall (fun x => same_flow m hp x -> droppable d m hp x) k1 /\
        (stop = best \/ same_flow m hp stop /\ ~ droppable d m hp stop)).
Proof.
  intros Hr Hne. pose proof (find_extreme_ok m d l LOWEST Hr) as Hf.
  destruct l as [|a l0]; [done|]. set (l := a :: l0) in *.
  destruct Hf as (q1 & l1 & best & l2 & E & Hr1 & Hl & H1 & H2).
  assert (best ∈ l) as Hbl by (rewrite Hl; set_solver).
  destruct (drep_valid _ _ _ _ Hr Hbl) as [hp Hhp].
  unfold deque_priority, find_best_packet. rewrite E. cbn [res_bind].
  match goal with
  | |- context [keep_order_ ?x || drop_low_prio_ ?x] =>
      assert_fails (is_var x);
      change (keep_order_ x || drop_low_prio_ x) with (keep_order_ d || drop_low_prio_ d)
  end.
  destruct (keep_order_ d || drop_low_prio_ d) eqn:Hc.
  - destruct (handle_same_flow_ok m d q1 l best hp Hr1 Hbl Hhp)
      as (m2 & q2 & l' & stop & k1 & k2 & E2 & Hr2 & L2 & P2 & S2 & F2 & Hk & Hb & Ha & Hs).
    rewrite E2. cbn [res_bind].
    set (r := if keep_order_ d then stop else best) in *.
    assert (r ∈ l /\ (r ∉ filter (same_flow m hp) k1)) as [Hrl Hrn].
    { pose proof (drep_nodup _ _ _ Hr) as Hd. rewrite Hk in Hd.
      apply NoDup_app in Hd as (_ & Hd & _). rewrite list_elem_of_filter. subst r.
      destruct (keep_order_ d); [|set_solver]. split; [rewrite Hk; set_solver|].
      intros [_ Hx]. apply (Hd stop Hx). set_solver. }
    assert (r ∈ l') as Hrl'.
    { rewrite P2 in Hrl. apply elem_of_app in Hrl as [|]; [done|done]. }
    destruct (remove_raw_ok m2 _ l' r (drep_set2 _ d q1 _ _ Hr2) Hrl') as (m3 & q3 & E3 & Hr3 & F3).
    rewrite E3. cbn [res_bind].
    exists m3, q3, (filter (same_flow m hp) k1), r, (remove_one r l'), best, hp, l1, l2.
    split; [done|]. split; [done|]. split; [by rewrite <- L2|]. split.
    { rewrite P2, Permutation_middle. by rewrite <- (remove_one_perm r l'). }
    split; [etrans; [apply remove_one_sublist|done]|]. do 4 (split; [done|]). split.
    { rewrite (same_packets_sizes _ _ (proj1 F3)). apply same_packets_sizes, F2. }
    split; [done|]. intros _. exists stop, k1, k2. done.
  - cbn [res_bind].
    destruct (remove_raw_ok m _ l best (drep_set _ d _ _ Hr1) Hbl) as (m3 & q3 & E3 & Hr3 & F3).
    rewrite E3. cbn [res_bind].
    exists m3, q3, [], best, (remove_one best l), best, hp, l1, l2.
    split; [done|]. split; [done|]. split; [done|]. split; [by apply remove_one_perm|].
    split; [apply remove_one_sublist|]. do 4 (split; [done|]).
    split; [apply same_packets_sizes, F3|]. done.
Qed.

(** *** Enqueueing *)

(** The configurations [drop_prio] does not throw on. *)
Definition drop_prio_supported d : Prop :=
  d.(drop_prio_) = true -> d.(drop_front_) = false ->
  d.(qib_) = true \/ d.(good_prio_qlim_) < 0.

Lemma drop_front_ok m d l p :
  drep m d l -> p ∉ l -> is_Some (m !! p) ->
  exists m' q' v, drop_front m d p = Ok (m', d <| q_ := q' |>, Some v) /\ v ∈ l ++ [p] /\
    fifo_rep m' q' (remove_one v (l ++ [p])) /\ PacketQueue.frame m m' (p :: l).
Proof.
  intros Hr Hp Hv. unfold drop_front.
  destruct (enque_raw_ok _ _ _ _ Hr Hp Hv) as (m1 & q1 & -> & Hr1 & F1). cbn [res_bind].
  destruct (fifo_deque_law _ _ _ Hr1) as (q2 & E2 & Hr2).
  change (q_ (d <| q_ := q1 |>)) with q1. rewrite E2. cbn [res_bind].
  destruct l as [|v l]; cbn [head app tail] in *; exists m1, q2; eexists;
    (split; [done|]; split; [set_solver|]; split; [|done]);
    cbn; by rewrite decide_True.
Qed.

Lemma drop_prio_ok m d l p :
  drep m d l -> p ∉ l -> is_Some (m !! p) -> d.(qib_) = true \/ d.(good_prio_qlim_) < 0 ->
  exists m' q' v, drop_prio m d p = Ok (m', d <| q_ := q' |>, Some v) /\ v ∈ l ++ [p] /\
    fifo_rep m' q' (remove_one v (l ++ [p])) /\ PacketQueue.frame m m' (p :: l) /\
    (d.(qib_) = false -> d.(good_prio_qlim_) < 0 -> 0 <= prio_of m p ->
      exists l1 l2, l ++ [p] = l1 ++ v :: l2 /\
        Forall (fun x => prio_of m x <= prio_of m v) l1 /\
        Forall (fun x => prio_of m x < prio_of m v) l2).
Proof.
  intros Hr Hp Hv Hc. unfold drop_prio.
  destruct (enque_raw_ok _ _ _ _ Hr Hp Hv) as (m1 & q1 & -> & Hr1 & F1). cbn [res_bind].
  set (g := (0 <=? _) && _).
  destruct (visit_ok _ _ _ (drep_set _ d _ _ Hr1)) as (q2 & -> & Hr2). cbn [res_bind].
  destruct (drop_prio_scan_total m1 (d <| q_ := q1 |> <| q_ := q2 |>) g (l ++ [p]) p 0)
    as (v & Ev); [done|intros x; by apply (PacketQueue.rep_valid _ _ _ _ Hr2)|].
  rewrite Ev. cbn [res_bind].
  assert (v ∈ l ++ [p]) as Hvl by (apply drop_prio_scan_in in Ev; set_solver).
  destruct (remove_raw_ok m1 _ _ v (drep_set2 _ d q1 q2 _ Hr2) Hvl) as (m3 & q3 & -> & Hr3 & F3).
  cbn [res_bind]. exists m3, q3, v. split; [done|]. split; [done|]. split; [done|]. split.
  { eapply PacketQueue.frame_trans; [done|]. eapply PacketQueue.frame_mono; [done|]. set_solver. }
  intros Hq Hg Hpos.
  assert (g = false) as Hgf by (subst g; cbn; by rewrite (proj2 (Z.leb_gt _ _) Hg)).
  rewrite Hgf in Ev.
  assert (forall x, prio_of m1 x = prio_of m x) as Hprio
    by (intros x; symmetry; apply same_packets_prio, F1).
  apply drop_prio_scan_max in Ev;
    [|done|done|intros x; by apply (PacketQueue.rep_valid _ _ _ _ Hr2)].
  destruct Ev as [[-> Hall]|(l1 & l2 & Hl & _ & H1 & H2)].
  - exfalso. apply Forall_app in Hall as [_ Hall]. apply Forall_cons in Hall as [Hall _].
    rewrite Hprio in Hall. lia.
  - exists l1, l2. split; [done|]. split; eapply Forall_impl; try done;
      intros x; cbn; by rewrite !Hprio.
Qed.

Lemma drop_smart_ok m d l p :
  drep m d l -> p ∉ l -> is_Some (m !! p) ->
  exists m' q' v, drop_smart string_hasher m d p = Ok (m', d <| q_ := q' |>, Some v) /\
    v ∈ l ++ [p] /\ fifo_rep m' q' (remove_one v (l ++ [p])) /\
    PacketQueue.frame m m' (p :: l).
Proof.
  intros Hr Hp Hv. unfold drop_smart.
  destruct (enque_raw_ok _ _ _ _ Hr Hp Hv) as (m1 & q1 & -> & Hr1 & F1). cbn [res_bind].
  destruct (visit_ok _ _ _ (drep_set _ d _ _ Hr1)) as (q2 & -> & Hr2). cbn [res_bind].
  destruct (drop_smart_scan_ok m1 (d <| q_ := q1 |> <| q_ := q2 |>) (l ++ [p]) p 0)
    as (v & -> & Hvl); [intros x; by apply (PacketQueue.rep_valid _ _ _ _ Hr2)|].
  cbn [res_bind]. assert (v ∈ l ++ [p]) as Hvl' by set_solver.
  destruct (remove_raw_ok m1 _ _ v (drep_set2 _ d q1 q2 _ Hr2) Hvl') as (m3 & q3 & -> & Hr3 & F3).
  cbn [res_bind]. exists m3, q3, v. split; [done|]. split; [done|]. split; [done|].
  eapply PacketQueue.frame_trans; [done|]. eapply PacketQueue.frame_mono; [done|]. set_solver.
Qed.

Lemma handle_overflow_ok m d l p :
  drep m d l -> p ∉ l -> is_Some (m !! p) -> drop_prio_supported d ->
  exists m' q' v, handle_overflow string_hasher m d p = Ok (m', d <| q_ := q' |>, Some v) /\
    v ∈ l ++ [p] /\ fifo_rep m' q' (remove_one v (l ++ [p])) /\
    PacketQueue.frame m m' (p :: l).
Proof.
  intros Hr Hp Hv Hs. unfold handle_overflow, drop_prio_supported in *.
  destruct (drop_front_ d); [by apply drop_front_ok|].
  destruct (drop_prio_ d).
  { destruct (drop_prio_ok m d l p) as (m' & q' & v & H1 & H2 & H3 & H4 & _);
      [done|done|done|by apply Hs|]. by exists m', q', v. }
  destruct (drop_smart_ d); [by apply drop_smart_ok|].
  exists m, (q_ d), p. split; [by destruct d|]. split; [set_solver|].
  rewrite remove_one_split, app_nil_r by done. split; [done|]. apply PacketQueue.frame_refl.
Qed.

Lemma mark_ecn_ok m d l :
  drep m d l -> exists m' q', mark_ecn m d = Ok (m', d <| q_ := q' |>) /\ fifo_rep m' q' l /\
    sizes m' = sizes m.
Proof.
  intros Hr. unfold mark_ecn. pose proof (find_extreme_ok m d l HIGHEST Hr) as Hf.
  destruct l as [|a l0].
  { rewrite Hf. exists m, (q_ d). split; [by destruct d|done]. }
  destruct Hf as (q1 & l1 & r & l2 & -> & Hr1 & Hl & _ & _). cbn [res_bind].
  destruct (PacketQueue.rep_valid _ _ _ r Hr1) as [pk Hpk]; [rewrite Hl; set_solver|].
  unfold update_packet. rewrite Hpk. cbn [deref res_bind].
  destruct (negb _); [eexists _, q1|exists m, q1]; (split; [done|]); [|done].
  split; [by apply (PacketQueue.rep_update _ _ _ _ pk)|].
  by eapply sizes_insert.
Qed.

Lemma will_overflow_ok m d p : is_Some (m !! p) -> exists b, will_overflow m d p = Ok b.
Proof. intros [pk Hp]. unfold will_overflow. rewrite Hp. cbn. eauto. Qed.

(** Statistics do not change the configuration. *)
Lemma pre_enque_cfg now d :
  qib_ (pre_enque now d) = qib_ d /\ qlim_ (pre_enque now d) = qlim_ d /\
  good_prio_qlim_ (pre_enque now d) = good_prio_qlim_ d /\
  drop_prio_ (pre_enque now d) = drop_prio_ d /\
  drop_front_ (pre_enque now d) = drop_front_ d.
Proof.
  unfold pre_enque, updateStats.
  destruct (summarystats d); [|done]. by destruct (F64.gt _ _).
Qed.

Lemma droptail_enque_ok now m d l p :
  drep m d l -> p ∉ l -> is_Some (m !! p) -> drop_prio_supported d ->
  exists over m' q' dropped l',
    will_overflow m (pre_enque now d) p = Ok over /\
    enque string_hasher now m d p = Ok (m', (pre_enque now d) <| q_ := q' |>, dropped) /\
    fifo_rep m' q' l' /\
    (over = false -> dropped = [] /\ l' = l ++ [p]) /\
    (over = true -> exists v, dropped = [v] /\ v ∈ l ++ [p] /\ l' = remove_one v (l ++ [p])) /\
    sizes m' = sizes m.
Proof.
  intros Hr Hp Hv Hs. unfold enque.
  assert (drep m (pre_enque now d) l) as Hr0 by (unfold drep; by rewrite pre_enque_q).
  assert (drop_prio_supported (pre_enque now d)) as Hs0.
  { destruct (pre_enque_cfg now d) as (E1 & _ & E2 & E3 & E4).
    unfold drop_prio_supported in *. by rewrite E1, E2, E3, E4. }
  generalize dependent (pre_enque now d). intros d0 Hr0 Hs0.
  destruct (will_overflow_ok m d0 p Hv) as [over Hover]. rewrite Hover. cbn [res_bind].
  assert (exists m1 q1 dropped l', (if over then
      let! (m, d, r) := handle_overflow string_hasher m d0 p in
      let! r := deref r in Ok (m, d, [r])
    else let! (m, d) := enque_raw m d0 p in Ok (m, d, [])) =
      Ok (m1, d0 <| q_ := q1 |>, dropped) /\ fifo_rep m1 q1 l' /\
    (over = false -> dropped = [] /\ l' = l ++ [p]) /\
    (over = true -> exists v, dropped = [v] /\ v ∈ l ++ [p] /\ l' = remove_one v (l ++ [p])) /\
    sizes m1 = sizes m)
    as (m1 & q1 & dropped & l' & -> & Hr1 & Ho1 & Ho2 & Hdom).
  { destruct over.
    - destruct (handle_overflow_ok m d0 l p Hr0 Hp Hv Hs0) as (m1 & q1 & v & -> & Hvl & Hr1 & F1).
      pose proof (same_packets_sizes _ _ (proj1 F1)).
      cbn. exists m1, q1, [v], (remove_one v (l ++ [p])). naive_solver.
    - destruct (enque_raw_ok m d0 l p Hr0 Hp Hv) as (m1 & q1 & -> & Hr1 & F1).
      pose proof (same_packets_sizes _ _ (proj1 F1)).
      cbn. exists m1, q1, [], (l ++ [p]). naive_solver. }
  cbn [res_bind]. exists over.
  destruct (ecn_enable_ (d0 <| q_ := q1 |>) && is_ecn_threshold_reached (d0 <| q_ := q1 |>)).
  - destruct (mark_ecn_ok m1 _ l' (drep_set _ d0 _ _ Hr1)) as (m2 & q2 & -> & Hr2 & Hdom2).
    cbn [res_bind]. exists m2, q2, dropped, l'. do 5 (split; [done|]). congruence.
  - exists m1, q1, dropped, l'. done.
Qed.

Lemma over_bound m d l p :
  drep m d l -> d.(qib_) = false -> d.(good_prio_qlim_) < 0 -> is_Some (m !! p) ->
  will_overflow m d p = Ok (d.(qlim_) <=? Z.of_nat (List.length l) + 1).
Proof.
  intros Hr Hq Hg [pk Hp]. unfold will_overflow. rewrite Hp. cbn [deref res_bind].
  rewrite Hq, (proj2 (Z.leb_gt _ _) Hg), (drep_length _ _ _ Hr). done.
Qed.

(** *** Served flows *)

Definition count (s : Z) (q : list Z) : Z := sum_Z (fun x => if x =? s then 1 else 0) q.

(** [sq_counts_] holds the positive multiplicities in [sq_queue_]. *)
Definition sq_inv d : Prop :=
  (forall s, d.(sq_counts_) !! s =
    if count s d.(sq_queue_) =? 0 then None else Some (count s d.(sq_queue_))) /\
  Z.of_nat (List.length d.(sq_queue_)) <= d.(sq_limit_).

Lemma count_cons s x q : count s (x :: q) = (if x =? s then 1 else 0) + count s q.
Proof. done. Qed.

Lemma count_snoc s x q : count s (q ++ [x]) = count s q + (if x =? s then 1 else 0).
Proof. unfold count. rewrite sum_Z_app. cbn. lia. Qed.

Lemma count_nonneg s q : 0 <= count s q.
Proof. apply sum_Z_nonneg, Forall_forall. intros x _. by destruct (x =? s). Qed.

Lemma note_served_inv d s : 0 <= d.(sq_limit_) -> sq_inv d -> sq_inv (note_served d s).
Proof.
  intros Hlim [Hc Hn]. unfold note_served.
  set (q1 := sq_queue_ d ++ [s]).
  set (c1 := match sq_counts_ d !! s with
             | Some c => <[s := c + 1]> (sq_counts_ d)
             | None => <[s := 1]> (sq_counts_ d) end).
  assert (Hc1 : forall x, c1 !! x = if count x q1 =? 0 then None else Some (count x q1)).
  { intros x. subst c1 q1. rewrite count_snoc. pose proof (count_nonneg x (sq_queue_ d)).
    pose proof (Hc s) as Hs. destruct (Z.eqb_spec s x) as [<-|Hne].
    - replace (count s _ + 1 =? 0) with false by (symmetry; apply Z.eqb_neq; lia).
      rewrite Hs. destruct (Z.eqb_spec (count s (sq_queue_ d)) 0) as [E|E];
        rewrite lookup_insert_eq; f_equal; lia.
    - rewrite Z.add_0_r, <- Hc. destruct (sq_counts_ d !! s); by rewrite lookup_insert_ne. }
  assert (Hlen : Z.of_nat (List.length q1) <= sq_limit_ d + 1)
    by (subst q1; rewrite length_app; cbn; lia).
  cbn -[sq_inv]. fold q1 c1. destruct (Z.ltb_spec (sq_limit_ d) (Z.of_nat (List.length q1))) as [Ho|Ho].
  2: { by split; cbn. }
  destruct q1 as [|t q]; cbn [List.length] in Hlen, Ho; [lia|]. split; cbn -[count]; [|lia].
  intros x. pose proof (Hc1 t) as Ht. rewrite count_cons, Z.eqb_refl in Ht.
  pose proof (count_nonneg t q). pose proof (Hc1 x) as Hx. rewrite count_cons in Hx.
  replace (1 + count t q =? 0) with false in Ht by (symmetry; apply Z.eqb_neq; lia).
  rewrite Ht. change (default 0 (Some (1 + count t q))) with (1 + count t q).
  replace (1 + count t q - 1) with (count t q) by lia.
  destruct (Z.eqb_spec t x) as [->|Hne].
  - destruct (count x q =? 0); [apply lookup_delete_eq|apply lookup_insert_eq].
  - rewrite Z.add_0_l in Hx. rewrite <- Hx.
    destruct (count t q =? 0); [by apply lookup_delete_ne|by apply lookup_insert_ne].
Qed.

(** *** Every branch of [deque] *)

Lemma drop_prio_supported_pre now d :
  drop_prio_supported d -> drop_prio_supported (pre_enque now d).
Proof.
  destruct (pre_enque_cfg now d) as (E1 & _ & E2 & E3 & E4).
  unfold drop_prio_supported. by rewrite E1, E2, E3, E4.
Qed.

Lemma note_served_cfg d s :
  q_ (note_served d s) = q_ d /\ (drop_prio_supported d -> drop_prio_supported (note_served d s)).
Proof. unfold note_served. destruct (_ <? _); [|done]. by destruct (sq_queue_ _). Qed.

Lemma droptail_deque_ok now m d l :
  drep m d l -> drop_prio_supported d ->
  exists m' d' ds (r : option addr) l', deque string_hasher now m d = Ok (m', d', ds, r) /\
    drep m' d' l' /\ drop_prio_supported d' /\
    l ≡ₚ option_list r ++ ds ++ l' /\ (r = None -> l = []) /\ sizes m' = sizes m.
Proof.
  intros Hr Hs. unfold deque. apply (drop_prio_supported_pre now) in Hs.
  assert (drep m (pre_enque now d) l) as Hr0 by (unfold drep; by rewrite pre_enque_q).
  generalize dependent (pre_enque now d). clear d Hr. intros d Hs Hr.
  destruct (deque_prio_ d); [|destruct (drop_smart_ d)].
  - destruct (decide (l = [])) as [->|Hne].
    + pose proof (find_extreme_ok m d [] LOWEST Hr) as E. unfold deque_priority, find_best_packet.
      rewrite E. cbn [res_bind]. by exists m, d, [], None, [].
    + destruct (deque_priority_ok m d l Hr Hne)
        as (m' & q' & ds & r & l' & best & hp & l1 & l2 & -> & Hr' & _ & HP & _ & _ & _ & _ & _ & Hd & _).
      exists m', (d <| q_ := q' |>), ds, (Some r), l'. done.
  - unfold deque_with_drop_smart. destruct (fifo_deque_law _ _ _ Hr) as (q' & -> & Hr'). cbn [res_bind].
    destruct l as [|p l]; cbn [head].
    + cbn [res_bind]. by exists m, (d <| q_ := q' |>), [], None, [].
    + destruct (drep_valid _ _ _ p Hr) as [pk ->]; [set_solver|]. cbn [deref res_bind].
      destruct (note_served_cfg (d <| q_ := q' |>) (string_hasher (flow_key pk))) as [Eq Hs'].
      eexists m, _, [], (Some p), l. split; [done|]. unfold drep. rewrite Eq.
      split; [done|]. split; [by apply Hs'|done].
  - destruct (fifo_deque_law _ _ _ Hr) as (q' & -> & Hr'). cbn [res_bind].
    exists m, (d <| q_ := q' |>), [], (head l), (tail l). split; [done|]. split; [done|].
    split; [done|]. destruct l; done.
Qed.

(** *** Shrinking *)

Definition fits d : Prop :=
  if d.(qib_) then byteLength d <= qlim_in_bytes d else length d <= d.(qlim_).

Lemma shrink_loop_ok fuel m d l :
  drep m d l -> 0 <= d.(qlim_) -> 0 <= d.(mean_pktsize_) -> (List.length l < fuel)%nat ->
  exists m' q' ds l', shrink_loop fuel m d = Ok (m', d <| q_ := q' |>, ds) /\
    fifo_rep m' q' l' /\ fits (d <| q_ := q' |>) /\
    l = if d.(drop_front_) then ds ++ l' else l' ++ rev ds.
Proof.
  revert m d l. induction fuel as [|fuel IH]; intros m d l Hr Hq Hm Hf; [lia|]. cbn [shrink_loop].
  destruct (_ || _) eqn:Hc.
  2: { exists m, (q_ d), [], l. split; [by destruct d|]. split; [done|]. split.
       - unfold fits. cbn. destruct (qib_ d); cbn in Hc; bool_prop; done.
       - cbn. rewrite app_nil_r. by destruct (drop_front_ d). }
  assert (l <> []) as Hne.
  { intros ->. rewrite (drep_length _ _ _ Hr), (drep_bytes _ _ _ Hr) in Hc.
    unfold qlim_in_bytes, bytes_of, sum_Z in Hc. cbn in Hc.
    apply orb_true_iff in Hc as [Hc|Hc]; bool_prop; nia. }
  destruct (drop_front_ d) eqn:Hfr.
  - destruct (fifo_deque_law _ _ _ Hr) as (q1 & -> & Hr1). cbn [res_bind].
    destruct l as [|p l]; [done|]. cbn [head tail deref res_bind List.length] in *.
    destruct (IH m _ l (drep_set _ d _ _ Hr1)) as (m' & q' & ds & l' & E & Hr' & Hfit & Hl);
      [done|done|lia|].
    rewrite E. cbn [res_bind]. exists m', q', (p :: ds), l'.
    split; [done|]. split; [done|]. split; [done|]. cbn in Hl. rewrite Hfr in Hl. by rewrite Hl.
  - destruct (snoc_cases l) as [->|(l0 & p & ->)]; [done|].
    rewrite (PacketQueue.rep_tail _ _ _ Hr), last_snoc.
    destruct (remove_raw_ok m d _ p Hr) as (m1 & q1 & -> & Hr1 & _); [set_solver|]. cbn [res_bind].
    rewrite remove_one_split, app_nil_r in Hr1.
    2: { apply drep_nodup in Hr. apply NoDup_app in Hr as (_ & Hd & _). set_solver. }
    rewrite length_app in Hf. cbn in Hf.
    destruct (IH m1 _ l0 (drep_set _ d _ _ Hr1)) as (m' & q' & ds & l' & E & Hr' & Hfit & Hl);
      [done|done|lia|].
    rewrite E. cbn [res_bind]. exists m', q', (p :: ds), l'.
    split; [done|]. split; [done|]. split; [done|]. cbn in Hl. rewrite Hfr in Hl.
    rewrite Hl. cbn. by rewrite app_assoc.
Qed.
End Facts.
End DropTailFacts.

(** ** DropTail as a discipline *)

#[export] Instance DropTail_disc {Q} `{PacketFifo Q} `{GoodCounter Q} (h : Z * Z * Z -> Z) :
  Discipline (DropTail.t Q) := {
  disc_enque := DropTail.enque h;
  disc_deque := DropTail.deque h
}.

#[export] Instance DropTail_disc_laws {Q} `{PacketFifoLaws Q} `{GoodCounter Q}
    (h : Z * Z * Z -> Z) : @DisciplineLaws (DropTail.t Q) (DropTail_disc h).
Proof.
  exists (fun m d l => DropTailFacts.drep m d l /\ DropTailFacts.drop_prio_supported d).
  - intros m d l [Hr _]. by eapply DropTailFacts.drep_nodup.
  - intros m d l p [Hr _]. by eapply DropTailFacts.drep_valid.
  - intros now m d l p [Hr Hs] Hp Hv%size_of_valid. destruct (DropTailFacts.droptail_enque_ok h now m d l p Hr Hp Hv Hs)
      as (over & m' & q' & ds & l' & _ & E & Hr' & K1 & K2 & Hd).
    eexists _, _, _, l'. split; [exact E|]. split; [split; [done|]|split; [|done]].
    + by apply DropTailFacts.drop_prio_supported_pre.
    + destruct over; [destruct K2 as (v & -> & Hvl & ->); [done|]|destruct K1 as [-> ->]; [done|]].
      * pose proof (remove_one_perm v (l ++ [p]) Hvl). solve_perm.
      * solve_perm.
  - intros now m d l [Hr Hs]. destruct (DropTailFacts.droptail_deque_ok h now m d l Hr Hs)
      as (m' & d' & ds & r & l' & E & Hr' & Hs' & HP & Hn & Hd).
    exists m', d', ds, r, l'. done.
Defined.

(** * Properties *)

Module DropTailProps.
Import DropTail DropTailFacts.

Section Props.
Context {Q : Type} {PF : PacketFifo Q} {PL : PacketFifoLaws Q} {GC : GoodCounter Q}.
Implicit Types (m : mem) (d : t Q) (p : addr) (l : list addr).


(** A queue counted in packets that holds at most
    [qlim_ - 1] packets (at least none) still does after [enque], and a
    packet is dropped exactly when there would be [qlim_] of them. *)
Theorem enque_bound string_hasher now m d l p :
  drep m d l -> p ∉ l -> is_Some (m !! p) -> drop_prio_supported d ->
  d.(qib_) = false -> d.(good_prio_qlim_) < 0 ->
  Z.of_nat (List.length l) <= Z.max 0 (d.(qlim_) - 1) ->
  exists m' d' dropped l',
    enque string_hasher now m d p = Ok (m', d', dropped) /\ drep m' d' l' /\
    Z.of_nat (List.length l') <= Z.max 0 (d.(qlim_) - 1) /\
    (dropped <> [] <-> d.(qlim_) <= Z.of_nat (List.length l) + 1).
Proof.
  intros Hr Hp Hv Hs Hq Hg Hb.
  destruct (droptail_enque_ok string_hasher now m d l p Hr Hp Hv Hs)
    as (over & m' & q' & dropped & l' & Ho & E & Hr' & H1 & H2 & _).
  exists m', ((pre_enque now d) <| q_ := q' |>), dropped, l'.
  split; [done|]. split; [done|].
  destruct (pre_enque_cfg now d) as (E1 & E2 & E3 & _).
  rewrite (over_bound _ _ l) in Ho; [|unfold drep; by rewrite pre_enque_q|congruence..].
  rewrite E2 in Ho. injection Ho as Ho. destruct over; bool_prop.
  - destruct H2 as (v & -> & Hvl & ->); [done|].
    pose proof (length_remove_one _ _ Hvl) as Hl. rewrite length_app in Hl. cbn in Hl.
    split; [lia|]. split; [done|]. intros _. done.
  - destruct H1 as [-> ->]; [done|]. rewrite length_app. cbn. split; [lia|].
    split; [done|]. intros ?. exfalso. lia.
Qed.

(** C35: with [drop_prio_] (packets counted, no separate
    limit for good packets, priorities not negative) an overflow drops a
    packet of the largest priority number among the queued ones and the
    new one, and of those the one that arrived last. *)
Theorem drop_prio_victim string_hasher now m d l p :
  drep m d l -> p ∉ l -> is_Some (m !! p) -> 0 <= prio_of m p ->
  d.(drop_front_) = false -> d.(drop_prio_) = true ->
  d.(qib_) = false -> d.(good_prio_qlim_) < 0 ->
  d.(qlim_) <= Z.of_nat (List.length l) + 1 ->
  exists m' d' l1 v l2,
    enque string_hasher now m d p = Ok (m', d', [v]) /\ drep m' d' (l1 ++ l2) /\
    l ++ [p] = l1 ++ v :: l2 /\
    Forall (fun x => prio_of m x <= prio_of m v) l1 /\
    Forall (fun x => prio_of m x < prio_of m v) l2.
Proof.
  intros Hr Hp Hv Hpos Hf Hd Hq Hg Ho.
  destruct (pre_enque_cfg now d) as (E1 & E2 & E3 & E4 & E5).
  assert (drep m (pre_enque now d) l) as Hr0 by (unfold drep; by rewrite pre_enque_q).
  destruct (drop_prio_ok m (pre_enque now d) l p Hr0 Hp Hv)
    as (m1 & q1 & v & E & Hvl & Hr1 & _ & Hmax); [right; congruence|].
  destruct Hmax as (l1 & l2 & Hl & H1 & H2); [congruence|congruence|done|].
  assert (v ∉ l1) as Hv1.
  { assert (NoDup (l ++ [p])) as Hnd.
    { apply NoDup_app. split; [by apply drep_nodup in Hr|]. split; [set_solver|apply NoDup_singleton]. }
    rewrite Hl in Hnd. apply NoDup_app in Hnd as (_ & Hnd & _). set_solver. }
  rewrite Hl, remove_one_split in Hr1 by done. unfold enque.
  rewrite (over_bound _ _ l) by (done || congruence).
  rewrite E2, (proj2 (Z.leb_le _ _) Ho). cbn [res_bind].
  unfold handle_overflow. rewrite E4, E5, Hf, Hd, E. cbn [deref res_bind].
  destruct (_ && _).
  - destruct (mark_ecn_ok m1 _ _ (drep_set _ (pre_enque now d) _ _ Hr1)) as (m2 & q2 & -> & Hr2 & _).
    cbn [res_bind]. eexists m2, _, l1, v, l2. split; [done|]. by split.
  - eexists m1, _, l1, v, l2. split; [done|]. by split.
Qed.

(** C22: in priority mode, whatever [keep_order_]
    and [drop_low_prio_], [deque] on a non-empty queue serves a packet and
    the served, dropped and remaining packets are those queued before. *)
Theorem deque_priority_conserves string_hasher now m d l :
  drep m d l -> l <> [] -> d.(deque_prio_) = true ->
  exists m' d' dropped r l',
    deque string_hasher now m d = Ok (m', d', dropped, Some r) /\ drep m' d' l' /\
    l ≡ₚ r :: dropped ++ l' /\ l' `sublist_of` l.
Proof.
  intros Hr Hne Hd. unfold deque.
  assert (deque_prio_ (pre_enque now d) = true) as ->.
  { unfold pre_enque, updateStats. destruct (summarystats d); [|done]. by destruct (F64.gt _ _). }
  destruct (deque_priority_ok m (pre_enque now d) l)
    as (m' & q' & ds & r & l' & best & hp & l1 & l2 & E & Hr' & _ & HP & HS & _);
    [unfold drep; by rewrite pre_enque_q|done|].
  exists m', ((pre_enque now d) <| q_ := q' |>), ds, r, l'. done.
Qed.

(** C27: without [keep_order_] and [drop_low_prio_] the served
    packet has the smallest priority number in the queue and is the
    earliest of those; nothing is dropped. *)
Theorem deque_priority_best m d l :
  drep m d l -> l <> [] -> d.(keep_order_) = false -> d.(drop_low_prio_) = false ->
  exists m' d' r l1 l2,
    deque_priority m d = Ok (m', d', [], Some r) /\ drep m' d' (l1 ++ l2) /\
    l = l1 ++ r :: l2 /\
    Forall (fun x => prio_of m r < prio_of m x) l1 /\
    Forall (fun x => prio_of m r <= prio_of m x) l2.
Proof.
  intros Hr Hne Hk Hd.
  destruct (deque_priority_ok m d l Hr Hne)
    as (m' & q' & ds & r & l' & best & hp & l1 & l2 & E & Hr' & L & HP & _ & Hl & H1 & H2 & _ & _ & H3 & _).
  rewrite Hk, Hd in H3. destruct H3 as [-> ->]; [done|].
  exists m', (d <| q_ := q' |>), best, l1, l2. split; [done|]. split; [|done].
  cbn in L. rewrite Hl, remove_one_split in L; [by rewrite <- L|].
  by apply (drep_nodup_l m d l best l1 l2).
Qed.

(** C36: with [keep_order_] (and no [drop_low_prio_]) the
    served packet is the earliest queued packet of the flow to which the
    packet of smallest priority number belongs, so the packets of a flow
    leave in the order they arrived; nothing is dropped. *)
Theorem deque_priority_keep_order m d l :
  drep m d l -> l <> [] -> d.(keep_order_) = true -> d.(drop_low_prio_) = false ->
  exists m' d' r best l1 l2,
    deque_priority m d = Ok (m', d', [], Some r) /\ drep m' d' (l1 ++ l2) /\
    l = l1 ++ r :: l2 /\ best ∈ l /\
    Forall (fun x => prio_of m best <= prio_of m x) l /\
    flow_of m r = flow_of m best /\
    Forall (fun x => flow_of m x <> flow_of m r) l1.
Proof.
  intros Hr Hne Hk Hd.
  destruct (deque_priority_ok m d l Hr Hne) as (m' & q' & ds & r & l' & best & hp & l1 & l2 &
    E & Hr' & L & _ & _ & Hl & H1 & H2 & Hhp & _ & _ & H3).
  rewrite Hk, Hd in H3. destruct H3 as (stop & k1 & k2 & Hk1 & Hbk & -> & -> & Hall & Hs); [done|].
  assert (Forall (fun x => ~ same_flow m hp x) k1) as Hno.
  { eapply Forall_impl; [exact Hall|]. intros x Hx Hsx. apply Hx in Hsx as [Hsx _]. congruence. }
  assert (filter (same_flow m hp) k1 = []) as Hnil.
  { by apply filter_none. }
  rewrite Hnil in E, L. cbn in L.
  assert (stop ∉ k1) as Hsk by (by apply (drep_nodup_l m d l stop k1 k2)).
  rewrite Hk1, remove_one_split in L by done.
  assert (flow_of m stop = flow_of m best) as Hf.
  { destruct Hs as [->|[Hs _]]; [done|]. by apply (same_flow_iff m best hp). }
  exists m', (d <| q_ := q' |>), stop, best, k1, k2.
  split; [done|]. split; [by rewrite <- L|]. split; [done|].
  split; [rewrite Hl; set_solver|]. split.
  { rewrite Hl. apply Forall_app. split; [|apply Forall_cons; split; [lia|done]].
    eapply Forall_impl; [exact H1|]. cbn. lia. }
  split; [done|]. eapply Forall_impl; [exact Hno|]. intros x Hx Hfx. apply Hx.
  apply (same_flow_iff m best hp); [done|congruence].
Qed.

(** With [drop_low_prio_] the packets [deque] drops
    are "bad" packets of the flow of the best packet, which is itself not
    bad; and if the best packet is not bad, neither is the one served. *)
Theorem deque_priority_low_prio m d l :
  drep m d l -> l <> [] -> d.(drop_low_prio_) = true ->
  exists m' d' dropped r best,
    deque_priority m d = Ok (m', d', dropped, Some r) /\ best ∈ l /\
    Forall (fun x => prio_of m best <= prio_of m x) l /\
    Forall (fun x => flow_of m x = flow_of m best /\ bad_of m x = true /\
                     bad_of m best = false) dropped /\
    flow_of m r = flow_of m best /\
    (bad_of m best = false -> bad_of m r = false).
Proof.
  intros Hr Hne Hd.
  destruct (deque_priority_ok m d l Hr Hne) as (m' & q' & ds & r & l' & best & hp & l1 & l2 &
    E & Hr' & L & _ & _ & Hl & H1 & H2 & Hhp & _ & _ & H3).
  rewrite Hd, orb_true_r in H3. destruct H3 as (stop & k1 & k2 & Hk1 & Hbk & -> & -> & Hall & Hs); [done|].
  assert (bad_of m best = is_bad_prio hp) as Hbad by (unfold bad_of, prio_of; by rewrite Hhp).
  exists m', (d <| q_ := q' |>), (filter (same_flow m hp) k1), (if keep_order_ d then stop else best), best.
  split; [done|]. split; [rewrite Hl; set_solver|]. split.
  { rewrite Hl. apply Forall_app. split; [|apply Forall_cons; split; [lia|done]].
    eapply Forall_impl; [exact H1|]. cbn. lia. }
  split.
  { apply Forall_forall. intros x [Hx Hxk]%list_elem_of_filter.
    rewrite Forall_forall in Hall. destruct (Hall x Hxk Hx) as (_ & Hb1 & Hb2).
    split; [by apply (same_flow_iff m best hp)|]. by rewrite Hbad. }
  destruct (keep_order_ d); [|done]. destruct Hs as [->|[Hs Hn]]; [done|].
  split; [by apply (same_flow_iff m best hp)|]. intros Hbb.
  apply not_true_iff_false. intros Hbs. apply Hn. split; [done|]. by rewrite <- Hbad.
Qed.

(** C21: [deque] of a [drop_smart_] queue keeps the flow
    table exact: [sq_counts_] maps a signature to the number of times it
    occurs among the (at most [sq_limit_]) last served packets, and has no
    entry for the others. *)
Theorem deque_smart_table string_hasher now m d l :
  drep m d l -> d.(deque_prio_) = false -> d.(drop_smart_) = true ->
  0 <= d.(sq_limit_) -> sq_inv d ->
  exists d', deque string_hasher now m d = Ok (m, d', [], head l) /\
    drep m d' (tail l) /\ sq_inv d'.
Proof.
  intros Hr Hp Hs Hlim Hinv. unfold deque.
  assert (exists d0, pre_enque now d = d0 /\ drep m d0 l /\ deque_prio_ d0 = false /\
    drop_smart_ d0 = true /\ 0 <= sq_limit_ d0 /\ sq_inv d0) as (d0 & -> & Hr0 & -> & -> & Hlim0 & Hinv0).
  { eexists. split; [done|]. unfold drep. rewrite pre_enque_q. unfold pre_enque, updateStats, sq_inv in *.
    destruct (summarystats d); [|done]. by destruct (F64.gt _ _). }
  unfold deque_with_drop_smart.
  destruct (fifo_deque_law _ _ _ Hr0) as (q1 & -> & Hr1). cbn [res_bind].
  destruct l as [|p l]; cbn [head tail] in *.
  { cbn. eexists. by split. }
  destruct (drep_valid _ _ _ p Hr0) as [pk ->]; [set_solver|]. cbn [deref res_bind].
  eexists. split; [done|]. split; [|by apply note_served_inv].
  unfold drep, note_served. cbn.
  destruct (_ <? _); [|done]. by destruct (sq_queue_ d0 ++ _).
Qed.

(** C27: [shrink_queue] terminates, drops only as much as it
    has to (from the chosen end) and leaves a queue within its limit. *)
Theorem shrink_queue_fits m d l :
  drep m d l -> 0 <= d.(qlim_) -> 0 <= d.(mean_pktsize_) ->
  exists m' d' dropped l',
    shrink_queue m d = Ok (m', d', dropped) /\ drep m' d' l' /\ fits d' /\
    l = if d.(drop_front_) then dropped ++ l' else l' ++ rev dropped.
Proof.
  intros Hr Hq Hm. destruct (shrink_loop_ok (PacketQueue.walk_fuel m) m d l Hr Hq Hm)
    as (m' & q' & ds & l' & E & Hr' & Hf & Hl); [by apply PacketQueue.rep_fuel in Hr|].
  exists m', (d <| q_ := q' |>), ds, l'. done.
Qed.

(** On overflow of a queue counted in packets with a
    limit for good packets, [drop_prio_] throws instead of dropping. *)
Theorem drop_prio_throws string_hasher now m d l p :
  drep m d l -> p ∉ l -> is_Some (m !! p) ->
  d.(drop_front_) = false -> d.(drop_prio_) = true ->
  d.(qib_) = false -> 0 <= d.(good_prio_qlim_) ->
  will_overflow m (pre_enque now d) p = Ok true ->
  enque string_hasher now m d p = Err Throw.
Proof.
  intros Hr Hp Hv Hf Hd Hq Hg Ho.
  destruct (pre_enque_cfg now d) as (E1 & E2 & E3 & E4 & E5).
  unfold enque. rewrite Ho. cbn [res_bind]. unfold handle_overflow.
  rewrite E4, E5, Hf, Hd. unfold drop_prio.
  assert (drep m (pre_enque now d) l) as Hr0 by (unfold drep; by rewrite pre_enque_q).
  destruct (enque_raw_ok _ _ _ _ Hr0 Hp Hv) as (m1 & q1 & -> & Hr1 & _). cbn [res_bind].
  destruct (visit_ok _ _ _ (drep_set _ (pre_enque now d) _ _ Hr1)) as (q2 & -> & Hr2). cbn [res_bind].
  destruct (l ++ [p]) as [|a k] eqn:El; [by destruct l|]. cbn [drop_prio_scan].
  cbn. by rewrite E1, E3, Hq, (proj2 (Z.leb_le _ _) Hg).
Qed.
End Props.

(** Removing a packet by pointer takes a bad packet off the
    count of bad packets once when it is inside the queue, but twice when it
    is the head, because the base class removes the head through the virtual
    [deque]. *)
Theorem bad_counter_remove m q l p :
  PacketQueue.rep m (BadTracking.base q) l -> p ∈ l -> bad_of m p = true ->
  exists m' q', BadTracking.remove m q p = Ok (m', q') /\
    PacketQueue.rep m' (BadTracking.base q') (remove_one p l) /\
    BadTracking.num_bad_packets_ q' =
      BadTracking.num_bad_packets_ q - (if decide (head l = Some p) then 2 else 1).
Proof.
  intros Hr Hp Hb. unfold BadTracking.remove.
  destruct (note_deque_ok m q p) as (pk & Hpk & En); [by apply (PacketQueue.rep_valid _ _ _ _ Hr)|].
  assert (is_bad_prio pk = true) as Hbad by (unfold bad_of, prio_of in Hb; by rewrite Hpk in Hb).
  rewrite En, Hbad. cbn [res_bind]. destruct (decide (head l = Some p)) as [Hh|Hh].
  - destruct l as [|a l]; [done|]. injection Hh as ->.
    rewrite (PacketQueue.remove_virtual_head _ _ _ _ _ _ l) by done.
    match goal with |- context [BadTracking.deque m ?q0] =>
      destruct (bad_deque_ok m q0 (p :: l) Hr) as (q' & E & Hr' & Hn) end.
    rewrite E. cbn [res_bind]. exists m, q'. split; [done|]. split.
    + cbn. by rewrite decide_True.
    + rewrite Hn. cbn. rewrite Hpk. cbn. rewrite Hbad. cbn. lia.
  - match goal with |- context [PacketQueue.remove_virtual ?g ?s ?dq m ?q0 p] =>
      destruct (PacketQueue.remove_virtual_inner g s dq m q0 p l Hr Hp Hh)
        as (m' & b & E & H1 & _) end.
    rewrite E. eexists _, _. split; [done|]. split; [done|]. done.
Qed.
End DropTailProps.

(** * Witnesses

    Three queued packets: flow 7 (priority 5), flow 8 (3 and 9, the last one
    marked bad in [demo_bad_mem]); packet 4, of flow 7, arrives. *)

Module DropTailWitness.
Import DropTail DropTailFacts DropTailProps.

Definition demo_pkt (n : option addr) (prio flow : Z) : Packet :=
  mkPacket n 1500 prio 1 2 flow 1 0.

Definition demo_mem : mem :=
  {[ 1%positive := demo_pkt (Some 2%positive) 5 7;
     2%positive := demo_pkt (Some 3%positive) (2 ^ 30) 8;
     3%positive := demo_pkt None 3 8;
     4%positive := demo_pkt None 6 7 ]}.

Definition demo_list : list addr := [1%positive; 2%positive; 3%positive].

Definition demo_fifo : BadTracking.t :=
  BadTracking.mk (PacketQueue.mk (Some 1%positive) (Some 3%positive) 3 4500 None) 1.

(** Limit, flags: drop from front, byte limit, smart, by priority, priority
    service, keep order, drop low priority, limit for good packets. *)
Definition demo (lim : Z) (front qib smart dprio dqprio keep low : bool) (good : Z) :
    t BadTracking.t :=
  mk demo_fifo lim F64.zero F64.zero 2 front true qib 1500 smart dprio dqprio keep
    true low good 2 {[ 42 := 2 ]} [42; 42].

Lemma demo_rep lim a b c e f g h i : drep demo_mem (demo lim a b c e f g h i) demo_list.
Proof. apply repb_sound. vm_compute. reflexivity. Qed.

Lemma demo_fresh : 4%positive ∉ demo_list.
Proof. apply (bool_decide_unpack _). vm_compute. exact I. Qed.

Lemma demo_alloc : is_Some (demo_mem !! 4%positive).
Proof. eexists. vm_compute. reflexivity. Qed.


Lemma enque_bound_witness :
  exists m' d' dropped l',
    enque (fun _ => 0) F64.zero demo_mem (demo 4 true false false false false false false (-1))
      4%positive = Ok (m', d', dropped) /\ drep m' d' l' /\
    Z.of_nat (List.length l') <= Z.max 0 (4 - 1) /\
    (dropped <> [] <-> 4 <= Z.of_nat (List.length demo_list) + 1).
Proof.
  apply (enque_bound (fun _ => 0) F64.zero demo_mem
    (demo 4 true false false false false false false (-1)) demo_list 4%positive).
  - apply demo_rep.
  - apply demo_fresh.
  - apply demo_alloc.
  - intros H. discriminate H.
  - reflexivity.
  - reflexivity.
  - vm_compute. discriminate.
Defined.

Lemma drop_prio_victim_witness :
  exists m' d' l1 v l2,
    enque (fun _ => 0) F64.zero demo_mem (demo 4 false false false true false false false (-1))
      4%positive = Ok (m', d', [v]) /\ drep m' d' (l1 ++ l2) /\
    demo_list ++ [4%positive] = l1 ++ v :: l2 /\
    Forall (fun x => prio_of demo_mem x <= prio_of demo_mem v) l1 /\
    Forall (fun x => prio_of demo_mem x < prio_of demo_mem v) l2.
Proof.
  apply (drop_prio_victim (fun _ => 0) F64.zero demo_mem
    (demo 4 false false false true false false false (-1)) demo_list 4%positive).
  - apply demo_rep.
  - apply demo_fresh.
  - apply demo_alloc.
  - vm_compute. discriminate.
  - reflexivity.
  - reflexivity.
  - reflexivity.
  - reflexivity.
  - vm_compute. discriminate.
Defined.

Lemma deque_priority_conserves_witness :
  exists m' d' dropped r l',
    deque (fun _ => 0) F64.zero demo_mem (demo 9 false false false false true true true (-1))
      = Ok (m', d', dropped, Some r) /\ drep m' d' l' /\
    demo_list ≡ₚ r :: dropped ++ l' /\ l' `sublist_of` demo_list.
Proof.
  apply (deque_priority_conserves (fun _ => 0) F64.zero demo_mem
    (demo 9 false false false false true true true (-1)) demo_list).
  - apply demo_rep.
  - discriminate.
  - reflexivity.
Defined.

Lemma deque_priority_best_witness :
  exists m' d' r l1 l2,
    deque_priority demo_mem (demo 9 false false false false true false false (-1))
      = Ok (m', d', [], Some r) /\ drep m' d' (l1 ++ l2) /\ demo_list = l1 ++ r :: l2 /\
    Forall (fun x => prio_of demo_mem r < prio_of demo_mem x) l1 /\
    Forall (fun x => prio_of demo_mem r <= prio_of demo_mem x) l2.
Proof.
  apply (deque_priority_best demo_mem (demo 9 false false false false true false false (-1)) demo_list).
  - apply demo_rep.
  - discriminate.
  - reflexivity.
  - reflexivity.
Defined.

Lemma deque_priority_keep_order_witness :
  exists m' d' r best l1 l2,
    deque_priority demo_mem (demo 9 false false false false true true false (-1))
      = Ok (m', d', [], Some r) /\ drep m' d' (l1 ++ l2) /\ demo_list = l1 ++ r :: l2 /\
    best ∈ demo_list /\ Forall (fun x => prio_of demo_mem best <= prio_of demo_mem x) demo_list /\
    flow_of demo_mem r = flow_of demo_mem best /\
    Forall (fun x => flow_of demo_mem x <> flow_of demo_mem r) l1.
Proof.
  apply (deque_priority_keep_order demo_mem
    (demo 9 false false false false true true false (-1)) demo_list).
  - apply demo_rep.
  - discriminate.
  - reflexivity.
  - reflexivity.
Defined.

Lemma deque_priority_low_prio_witness :
  exists m' d' dropped r best,
    deque_priority demo_mem (demo 9 false false false false true true true (-1))
      = Ok (m', d', dropped, Some r) /\ best ∈ demo_list /\
    Forall (fun x => prio_of demo_mem best <= prio_of demo_mem x) demo_list /\
    Forall (fun x => flow_of demo_mem x = flow_of demo_mem best /\ bad_of demo_mem x = true /\
                     bad_of demo_mem best = false) dropped /\
    flow_of demo_mem r = flow_of demo_mem best /\
    (bad_of demo_mem best = false -> bad_of demo_mem r = false).
Proof.
  apply (deque_priority_low_prio demo_mem
    (demo 9 false false false false true true true (-1)) demo_list).
  - apply demo_rep.
  - discriminate.
  - reflexivity.
Defined.

Definition demo_queue : Queue.t (t BadTracking.t) :=
  Queue.create (demo 4 false false false true false false false (-1)) false true F64.zero
    (F64.of_Z 1) 2.

(** The machine with an empty queue, to which packet 4 is sent. *)
Definition demo_empty : Queue.t (t BadTracking.t) :=
  demo_queue <| Queue.disc := (Queue.disc demo_queue) <| q_ := BadTracking.create |> |>.

Definition demo_disc : Discipline (t BadTracking.t) := DropTail_disc (fun _ => 0).
#[local] Existing Instance demo_disc.

Definition demo_sent : res (mem * Queue.t (t BadTracking.t) * list addr * option addr) :=
  Queue.recv (fun x => x) (F64.of_Z 1) demo_mem demo_empty 4%positive.

Lemma queue_work_conserving_witness :
  exists m' q' r,
    demo_sent = Ok (m', q', [], Some r) /\
    exists l, @disc_rep _ _ (DropTail_disc_laws (fun _ => 0)) m' (Queue.disc q') l /\
      [r] ++ [] ++ l ≡ₚ [4%positive] /\ Queue.blocked_ q' = true /\ (true = false -> l = []) /\
      (forall now p, p ∉ [4%positive] -> 0 < size_of m' p ->
        exists r, Queue.recv (fun x => x) now m' q' p = Ok r) /\
      (true = true -> forall now, exists r, Queue.resume (fun x => x) now m' q' = Ok r).
Proof.
  destruct demo_sent as [[[[m' q'] ds] o]|e] eqn:E; [|exfalso; vm_compute in E; discriminate E].
  assert (ds = [] /\ o = Some 4%positive) as [-> ->]
    by (vm_compute in E; injection E as _ _ <- <-; by split).
  exists m', q', 4%positive. split; [reflexivity|].
  apply (QueueProps.queue_work_conserving (fun x => x) demo_mem demo_empty
    (Queue.World m' q' true [4%positive] [4%positive] [])).
  - split; [apply repb_sound; vm_compute; reflexivity|]. intros _ _. right. reflexivity.
  - intros _. vm_compute. split; [reflexivity|]. split; [discriminate|reflexivity].
  - reflexivity.
  - reflexivity.
  - apply rtc_once. apply (Queue.step_recv _ (F64.of_Z 1) demo_mem demo_empty false [] [] []
      4%positive m' q' [] (Some 4%positive)); [reflexivity| |exact E].
    intros H. inversion H.
Defined.

Lemma reset_drops_all_witness :
  exists m' q' ds,
    Queue.reset F64.zero demo_mem demo_queue = Ok (m', q', ds) /\
    @disc_rep _ _ (DropTail_disc_laws (fun _ => 0)) m' (Queue.disc q') [] /\ ds ≡ₚ demo_list.
Proof.
  apply (QueueProps.reset_drops_all F64.zero demo_mem demo_queue demo_list).
  split; [apply demo_rep|]. intros _ _. right. reflexivity.
Defined.

Lemma utilUpdate_in_bounds_witness :
  exists q', Queue.utilUpdate (fun x => x) F64.zero (F64.of_Z 5) true demo_queue = Ok q' /\
    Queue.disc q' = Queue.disc demo_queue /\ Queue.blocked_ q' = Queue.blocked_ demo_queue /\
    (0 < Queue.util_records_ q' ->
      Z.of_nat (List.length (Queue.util_buf_ q')) = Queue.util_records_ q' /\
      0 <= Queue.buf_slot_ q' < Queue.util_records_ q').
Proof.
  apply (QueueProps.utilUpdate_in_bounds (fun x => x) F64.zero (F64.of_Z 5) true demo_queue).
  intros _. vm_compute. split; [reflexivity|]. split; [discriminate|reflexivity].
Defined.

(** In that run the bad packet 2 is dropped and packet 3 is served. *)
Example low_prio_run :
  match deque_priority demo_mem (demo 9 false false false false true true true (-1)) with
  | Ok (_, _, dropped, r) => (dropped, r) = ([2%positive], Some 3%positive)
  | Err _ => False
  end.
Proof. vm_compute. reflexivity. Qed.

Lemma deque_smart_table_witness :
  exists d',
    deque (fun k => snd k) F64.zero demo_mem (demo 9 false false true false false false false (-1))
      = Ok (demo_mem, d', [], head demo_list) /\
    drep demo_mem d' (tail demo_list) /\ sq_inv d'.
Proof.
  apply (deque_smart_table (fun k => snd k) F64.zero demo_mem
    (demo 9 false false true false false false false (-1)) demo_list).
  - apply demo_rep.
  - reflexivity.
  - reflexivity.
  - vm_compute. discriminate.
  - split; [|vm_compute; discriminate]. intros s. cbn [sq_counts_ sq_queue_ demo].
    unfold count, sum_Z. cbn [foldr]. rewrite (Z.eqb_sym 42 s).
    destruct (Z.eqb_spec s 42) as [->|Hne]; [reflexivity|].
    rewrite lookup_singleton_ne; [reflexivity|congruence].
Defined.

Lemma shrink_queue_fits_witness :
  exists m' d' dropped l',
    shrink_queue demo_mem (demo 1 false false false false false false false (-1))
      = Ok (m', d', dropped) /\ drep m' d' l' /\ fits d' /\
    demo_list = l' ++ rev dropped.
Proof.
  apply (shrink_queue_fits demo_mem (demo 1 false false false false false false false (-1)) demo_list).
  - apply demo_rep.
  - vm_compute. discriminate.
  - vm_compute. discriminate.
Defined.

Lemma drop_prio_throws_witness :
  enque (fun _ => 0) F64.zero demo_mem (demo 4 false false false true false false false 2)
    4%positive = Err Throw.
Proof.
  apply (drop_prio_throws (fun _ => 0) F64.zero demo_mem
    (demo 4 false false false true false false false 2) demo_list 4%positive).
  - apply demo_rep.
  - apply demo_fresh.
  - apply demo_alloc.
  - reflexivity.
  - reflexivity.
  - reflexivity.
  - vm_compute. discriminate.
  - vm_compute. reflexivity.
Defined.

(** Serving the bad head of a queue that held one bad packet leaves the
    counter at -1. *)
Lemma bad_counter_remove_witness :
  exists m' q',
    BadTracking.remove demo_mem
      (BadTracking.mk (PacketQueue.mk (Some 2%positive) (Some 3%positive) 2 3000 None) 1)
      2%positive = Ok (m', q') /\
    PacketQueue.rep m' (BadTracking.base q') (remove_one 2%positive [2%positive; 3%positive]) /\
    BadTracking.num_bad_packets_ q' = -1.
Proof.
  apply (bad_counter_remove demo_mem
    (BadTracking.mk (PacketQueue.mk (Some 2%positive) (Some 3%positive) 2 3000 None) 1)
    [2%positive; 3%positive] 2%positive).
  - apply repb_sound. vm_compute. reflexivity.
  - apply (bool_decide_unpack _). vm_compute. exact I.
  - reflexivity.
Defined.
End DropTailWitness.
