(* ===== verification/Prio.v ===== *)
(** * Strict priority queueing with ECN marking

    [Priority] (src/ns2/queue/priority.h, priority.cc): up to eight FIFO
    queues that share a buffer counted in bytes; a packet goes to the queue of
    its (clamped) priority and the first non-empty queue is served.  The
    eight [PacketQueue]s live in one memory of packets. *)

From Stdlib Require Import ZArith Lia Bool.
From stdpp Require Import base list gmap.
From S2P Require Import Prelude F64 PktQueue QueueBase.

Module Prio.

Definition MAX_QUEUE_NUM : Z := 8.

Inductive ECNMode := DISABLE | PER_QUEUE | PER_PORT.

Record t := mk {
  q_ : list PacketQueue.t;      (* MAX_QUEUE_NUM queues *)
  qlim_ : Z;                    (* Queue::qlim_ *)
  mean_pktsize_ : Z;
  thresh_ : Z;
  queue_num_ : Z;
  marking_scheme_ : ECNMode
}.

#[global] Instance eta_t : Eta t := fun d =>
  mk (q_ d) (qlim_ d) (mean_pktsize_ d) (thresh_ d) (queue_num_ d) (marking_scheme_ d).

(** The constructor, given the bound variables. *)
Definition create (qlim mean thresh num : Z) (mode : ECNMode) : t :=
  mk (replicate (Z.to_nat MAX_QUEUE_NUM) PacketQueue.create) qlim mean thresh num mode.

Definition TotalByteLength (d : t) : Z := sum_Z PacketQueue.byteLength d.(q_).

Definition clamp_priority (d : t) (priority : Z) : Z :=
  Z.max 0 (Z.min priority (d.(queue_num_) - 1)).

Definition get_priority (d : t) (pk : Packet) : Z := clamp_priority d pk.(prio_).

Definition ensure_queue_bound (d : t) : res unit :=
  if (d.(queue_num_) <? 1) || (MAX_QUEUE_NUM <? d.(queue_num_)) then Err Throw else Ok tt.

(** The queue of priority [i]. *)
Definition queue_at (d : t) (i : Z) : res PacketQueue.t :=
  if i <? 0 then Err UB else deref (d.(q_) !! Z.to_nat i).

Definition set_queue (d : t) (i : Z) (q : PacketQueue.t) : t :=
  d <| q_ := <[Z.to_nat i := q]> d.(q_) |>.

(** The threshold test of [enque]. *)
Definition must_mark (d : t) (q : PacketQueue.t) : bool :=
  match d.(marking_scheme_) with
  | PER_QUEUE => d.(thresh_) * d.(mean_pktsize_) <? PacketQueue.byteLength q
  | PER_PORT => d.(thresh_) * d.(mean_pktsize_) <? TotalByteLength d
  | DISABLE => false
  end.

Definition enque (m : mem) (d : t) (p : addr) : res (mem * t * list addr) :=
  let! _ := ensure_queue_bound d in
  let! pk := deref (m !! p) in
  let prio := get_priority d pk in
  let qlimBytes := d.(qlim_) * d.(mean_pktsize_) in
  if qlimBytes <? TotalByteLength d + pk.(size_) then Ok (m, d, [p])
  else
    let! q := queue_at d prio in
    let! (m, q, _) := PacketQueue.enque m q p in
    let d := set_queue d prio q in
    if must_mark d q then
      let! pk := deref (m !! p) in
      if negb (pk.(ecn_capable_) =? 0)
      then let! m := update_packet m p (fun pk => pk <| ecn_to_echo_ := 1 |>) in Ok (m, d, [])
      else Ok (m, d, [])
    else Ok (m, d, []).

(** The scan of [deque] from queue [i], with [n] queues left. *)
Fixpoint deque_loop (m : mem) (d : t) (n : nat) (i : Z) : res (t * option addr) :=
  match n with
  | O => Ok (d, None)
  | S n =>
      let! q := queue_at d i in
      if 0 <? PacketQueue.length q then
        let! (q, p) := PacketQueue.deque m q in Ok (set_queue d i q, p)
      else deque_loop m d n (i + 1)
  end.

Definition deque (m : mem) (d : t) : res (t * option addr) :=
  if 0 <? TotalByteLength d then deque_loop m d (Z.to_nat d.(queue_num_)) 0
  else Ok (d, None).

End Prio.

(** * Facts *)

Module PrioFacts.
Import Prio.

Implicit Types (m : mem) (d : t) (p : addr) (ls : list (list addr)).

(** Queue [i] holds the packets of [ls !! i], all of that class; no packet is
    in two queues or has size 0, and the buffer limit holds. *)
Record prep m d ls : Prop := {
  prep_num : 1 <= d.(queue_num_) <= MAX_QUEUE_NUM;
  prep_len : length ls = Z.to_nat MAX_QUEUE_NUM;
  prep_rep : Forall2 (PacketQueue.rep m) d.(q_) ls;
  prep_nodup : NoDup (concat ls);
  prep_class : forall i l p, ls !! i = Some l -> p ∈ l ->
    Z.of_nat i = clamp_priority d (prio_of m p);
  prep_size : forall p, p ∈ concat ls -> 0 < size_of m p
}.

(** The buffer limit in bytes. *)
Definition qlim_in d : Z := d.(qlim_) * d.(mean_pktsize_).

Lemma clamp_range d x : 1 <= d.(queue_num_) -> 0 <= clamp_priority d x < d.(queue_num_).
Proof. unfold clamp_priority. lia. Qed.

Lemma clamp_mono d x y : x <= y -> clamp_priority d x <= clamp_priority d y.
Proof. unfold clamp_priority. lia. Qed.

Lemma total_bytes m qs ls :
  Forall2 (PacketQueue.rep m) qs ls ->
  sum_Z PacketQueue.byteLength qs = bytes_of m (concat ls).
Proof.
  induction 1 as [|q l qs ls Hr _ IH]; [done|]. unfold bytes_of. cbn [concat].
  rewrite sum_Z_app. change (sum_Z (size_of m) (concat ls)) with (bytes_of m (concat ls)).
  rewrite <- IH. unfold sum_Z at 1. cbn. fold (sum_Z PacketQueue.byteLength qs).
  unfold PacketQueue.byteLength at 1. by rewrite (PacketQueue.rep_bytes _ _ _ Hr).
Qed.

Lemma prep_total m d ls : prep m d ls -> TotalByteLength d = bytes_of m (concat ls).
Proof. intros Hp. apply total_bytes, Hp. Qed.

Lemma ensure_ok m d ls : prep m d ls -> ensure_queue_bound d = Ok tt.
Proof.
  intros [Hn _ _ _ _ _]. unfold ensure_queue_bound.
  replace (_ <? 1) with false by (symmetry; apply Z.ltb_ge; lia).
  by replace (_ <? _) with false by (symmetry; apply Z.ltb_ge; lia).
Qed.

(** The queues of a state, cut at one class. *)
Lemma prep_split m d ls i :
  prep m d ls -> 0 <= i < MAX_QUEUE_NUM ->
  exists qs1 q qs2 ls1 l ls2,
    d.(q_) = qs1 ++ q :: qs2 /\ ls = ls1 ++ l :: ls2 /\
    length qs1 = Z.to_nat i /\ length ls1 = Z.to_nat i /\
    Forall2 (PacketQueue.rep m) qs1 ls1 /\ PacketQueue.rep m q l /\
    Forall2 (PacketQueue.rep m) qs2 ls2 /\
    queue_at d i = Ok q /\ ls !! Z.to_nat i = Some l.
Proof.
  intros [_ Hl Hr _ _ _] Hi.
  destruct (lookup_lt_is_Some_2 ls (Z.to_nat i)) as [l El]; [lia|].
  destruct (Forall2_lookup_r _ _ _ _ _ Hr El) as (q & Eq & Hq).
  pose proof (take_drop_middle _ _ _ El) as Sl. pose proof (take_drop_middle _ _ _ Eq) as Sq.
  pose proof (Forall2_length _ _ _ Hr) as Hlen.
  exists (take (Z.to_nat i) (q_ d)), q, (drop (S (Z.to_nat i)) (q_ d)),
    (take (Z.to_nat i) ls), l, (drop (S (Z.to_nat i)) ls).
  split; [done|]. split; [done|]. split; [rewrite length_take; lia|]. split; [rewrite length_take; lia|].
  split; [by apply Forall2_take|]. split; [done|]. split; [by apply Forall2_drop|].
  split; [|done]. unfold queue_at. replace (i <? 0) with false by (symmetry; apply Z.ltb_ge; lia).
  by rewrite Eq.
Qed.

Lemma set_queue_split d i q q' qs1 qs2 :
  q_ d = qs1 ++ q :: qs2 -> length qs1 = Z.to_nat i -> q_ (set_queue d i q') = qs1 ++ q' :: qs2.
Proof.
  intros E Hl. unfold set_queue. cbn. rewrite E, <- Hl. replace (length qs1) with (length qs1 + 0)%nat by lia.
  by rewrite insert_app_r.
Qed.

Lemma Forall2_frame m m' qs ls k :
  Forall2 (PacketQueue.rep m) qs ls -> PacketQueue.frame m m' k -> concat ls ## k ->
  Forall2 (PacketQueue.rep m') qs ls.
Proof.
  intros Hr Hf. induction Hr as [|q l qs ls Hq _ IH]; intros Hd; [done|]. cbn [concat] in Hd.
  constructor; [|apply IH; set_solver]. eapply PacketQueue.rep_frame; [done|done|set_solver].
Qed.

Lemma concat_mid {A} (ls1 ls2 : list (list A)) l :
  concat (ls1 ++ l :: ls2) = concat ls1 ++ l ++ concat ls2.
Proof. by rewrite concat_app. Qed.

(** Setting the congestion bit of a packet. *)
Lemma prep_mark m d ls p pk :
  prep m d ls -> m !! p = Some pk ->
  prep (<[p := pk <| ecn_to_echo_ := 1 |>]> m) d ls.
Proof.
  intros [Hn Hl Hr Hd Hc Hs] Hp.
  assert (forall a, prio_of (<[p := pk <| ecn_to_echo_ := 1 |>]> m) a = prio_of m a) as Hprio.
  { intros a. unfold prio_of. destruct (decide (a = p)) as [->|Hne].
    - rewrite lookup_insert_eq, Hp. done.
    - by rewrite lookup_insert_ne. }
  split; try done.
  - eapply Forall2_impl; [exact Hr|]. intros q l Hq. by eapply PacketQueue.rep_update.
  - intros i l a Hi Ha. rewrite Hprio. by apply (Hc i l).
  - intros a Ha. rewrite size_of_sizes, (sizes_insert _ _ pk), <- size_of_sizes by done. by apply Hs.
Qed.

(** Adding a packet to its class. *)
Lemma prep_add m d ls p pk :
  prep m d ls -> p ∉ concat ls -> m !! p = Some pk -> 0 < size_ pk ->
  exists q m' q' l, queue_at d (get_priority d pk) = Ok q /\
    PacketQueue.enque m q p = Ok (m', q', last l) /\
    ls !! Z.to_nat (get_priority d pk) = Some l /\
    prep m' (set_queue d (get_priority d pk) q')
      (<[Z.to_nat (get_priority d pk) := l ++ [p]]> ls) /\
    same_packets m m'.
Proof.
  intros Hp Hnew Hpk Hpos.
  set (i := get_priority d pk).
  assert (0 <= i < MAX_QUEUE_NUM) as Hi.
  { pose proof (clamp_range d (prio_ pk)) as Hc. destruct Hp as [Hn _ _ _ _ _].
    subst i. unfold get_priority. lia. }
  destruct (prep_split m d ls i Hp Hi) as (qs1 & q & qs2 & ls1 & l & ls2 & Eq & El & L1 & L2 & R1 & R & R2 & Eat & Elk).
  assert (Hins : <[Z.to_nat i := l ++ [p]]> ls = ls1 ++ (l ++ [p]) :: ls2).
  { rewrite El, <- L2. replace (length ls1) with (length ls1 + 0)%nat by lia. by rewrite insert_app_r. }
  destruct Hp as [Hn Hl Hr Hd Hc Hs]. rewrite El, concat_mid in Hnew, Hd.
  destruct (PacketQueue.enque_rep m q l p R) as (m' & q' & E & R' & F & _); [set_solver|by eexists|].
  exists q, m', q', l. split; [done|]. split; [done|]. split; [done|]. split; [|apply F].
  assert (concat ls1 ## p :: l /\ concat ls2 ## p :: l) as [D1 D2].
  { apply NoDup_app in Hd as (_ & Hd1 & Hd2). apply NoDup_app in Hd2 as (_ & Hd2 & _). set_solver. }
  rewrite Hins. split.
  - done.
  - rewrite <- Hl, El, !length_app. done.
  - rewrite (set_queue_split _ _ q q' qs1 qs2) by done. apply Forall2_app.
    + by eapply Forall2_frame.
    + constructor; [done|]. by eapply Forall2_frame.
  - rewrite concat_mid.
    assert (concat ls1 ++ (l ++ [p]) ++ concat ls2 ≡ₚ p :: concat ls1 ++ l ++ concat ls2) as -> by solve_perm.
    constructor; [done|done].
  - intros j lj a Hj Ha. change (clamp_priority (set_queue d i q')) with (clamp_priority d).
    rewrite <- (same_packets_prio _ _ _ (proj1 F)).
    rewrite <- Hins in Hj. destruct (decide (j = Z.to_nat i)) as [->|Hne].
    + rewrite list_lookup_insert_eq in Hj by lia. injection Hj as <-.
      apply elem_of_app in Ha as [Ha|Ha]; [by eapply Hc|].
      apply list_elem_of_singleton in Ha as ->. unfold prio_of. rewrite Hpk. cbn.
      subst i. unfold get_priority in *. lia.
    + rewrite list_lookup_insert_ne in Hj by done. by eapply Hc.
  - intros a Ha. rewrite <- (same_packets_size _ _ _ (proj1 F)). rewrite concat_mid in Ha.
    rewrite El, concat_mid in Hs. destruct (decide (a = p)) as [->|Hne].
    + by rewrite (PacketQueue.size_of_Some _ _ _ Hpk).
    + apply Hs. set_solver.
Qed.

(** Taking the first packet of a class. *)
Lemma prep_take m d ls i p l :
  prep m d ls -> 0 <= i < MAX_QUEUE_NUM -> ls !! Z.to_nat i = Some (p :: l) ->
  exists q q', queue_at d i = Ok q /\ 0 < PacketQueue.length q /\
    PacketQueue.deque m q = Ok (q', Some p) /\
    prep m (set_queue d i q') (<[Z.to_nat i := l]> ls) /\
    concat ls ≡ₚ p :: concat (<[Z.to_nat i := l]> ls).
Proof.
  intros Hp Hi Hl0.
  destruct (prep_split m d ls i Hp Hi) as (qs1 & q & qs2 & ls1 & l' & ls2 & Eq & El & L1 & L2 & R1 & R & R2 & Eat & Elk).
  rewrite Hl0 in Elk. injection Elk as <-.
  destruct (PacketQueue.deque_rep m q (p :: l) R) as (q' & E & R' & _). cbn [head tail] in *.
  assert (Hins : <[Z.to_nat i := l]> ls = ls1 ++ l :: ls2).
  { rewrite El, <- L2. replace (length ls1) with (length ls1 + 0)%nat by lia. by rewrite insert_app_r. }
  assert (concat ls ≡ₚ p :: concat (<[Z.to_nat i := l]> ls)) as HP.
  { rewrite Hins, El, !concat_mid. solve_perm. }
  exists q, q'. split; [done|]. split.
  { unfold PacketQueue.length. rewrite (PacketQueue.rep_len _ _ _ R). cbn. lia. }
  split; [done|]. split; [|done].
  destruct Hp as [Hn Hl Hr Hd Hc Hs]. split.
  - done.
  - by rewrite length_insert.
  - rewrite (set_queue_split _ _ q q' qs1 qs2), Hins by done.
    apply Forall2_app; [done|]. by constructor.
  - rewrite HP in Hd. by apply NoDup_cons in Hd as [_ ?].
  - intros j lj a Hj Ha. change (clamp_priority (set_queue d i q')) with (clamp_priority d).
    destruct (decide (j = Z.to_nat i)) as [->|Hne].
    + apply lookup_lt_Some in Hj as Hlt. rewrite length_insert in Hlt.
      rewrite list_lookup_insert_eq in Hj by done. injection Hj as <-.
      apply (Hc _ _ _ Hl0). set_solver.
    + rewrite list_lookup_insert_ne in Hj by done. by eapply Hc.
  - intros a Ha. apply Hs. rewrite HP. set_solver.
Qed.

Lemma prio_deque_loop_ok m d ls n i :
  prep m d ls -> 0 <= i -> i + Z.of_nat n <= MAX_QUEUE_NUM ->
  (deque_loop m d n i = Ok (d, None) /\
    forall j, i <= j < i + Z.of_nat n -> ls !! Z.to_nat j = Some []) \/
  exists k p l d', i <= k < i + Z.of_nat n /\ ls !! Z.to_nat k = Some (p :: l) /\
    (forall j, i <= j < k -> ls !! Z.to_nat j = Some []) /\
    deque_loop m d n i = Ok (d', Some p) /\ prep m d' (<[Z.to_nat k := l]> ls) /\
    queue_num_ d' = queue_num_ d /\
    concat ls ≡ₚ p :: concat (<[Z.to_nat k := l]> ls).
Proof.
  intros Hp. revert i. induction n as [|n IH]; intros i Hi Hn; cbn [deque_loop].
  { left. split; [done|]. lia. }
  destruct (prep_split m d ls i Hp) as (qs1 & q & qs2 & ls1 & l' & ls2 & _ & _ & _ & _ & _ & R & _ & Eat & Elk);
    [lia|].
  rewrite Eat. cbn [res_bind]. unfold PacketQueue.length.
  rewrite (PacketQueue.rep_len _ _ _ R). destruct l' as [|p l]; cbn [length].
  - cbn [Z.of_nat Z.ltb Z.compare]. destruct (IH (i + 1)) as [[E Hall]|(k & p & l & d' & Hk & Hkl & Hbefore & E & Hrest)];
      [lia|lia|..]; rewrite E.
    + left. split; [done|]. intros j Hj. destruct (decide (j = i)) as [->|]; [done|]. apply Hall. lia.
    + right. exists k, p, l, d'. split; [lia|]. split; [done|]. split; [|done].
      intros j Hj. destruct (decide (j = i)) as [->|]; [done|]. apply Hbefore. lia.
  - replace (0 <? _) with true by (symmetry; apply Z.ltb_lt; lia).
    destruct (prep_take m d ls i p l Hp) as (q2 & q' & Eat2 & _ & Ed & Hp' & HP); [lia|done|].
    rewrite Eat in Eat2. injection Eat2 as <-. rewrite Ed. cbn [res_bind].
    right. exists i, p, l, (set_queue d i q'). split; [lia|]. split; [done|]. split; [lia|]. done.
Qed.

(** Queues beyond [queue_num_] are empty. *)
Lemma prep_unused m d ls i l :
  prep m d ls -> ls !! i = Some l -> queue_num_ d <= Z.of_nat i -> l = [].
Proof.
  intros [Hn _ _ _ Hc _] Hl Hi. destruct l as [|p l]; [done|]. exfalso.
  pose proof (Hc i (p :: l) p Hl) as H. rewrite H in Hi by set_solver.
  pose proof (clamp_range d (prio_of m p)). lia.
Qed.

Lemma concat_nil ls : (forall i l, ls !! i = Some l -> l = []) -> concat ls = [].
Proof.
  induction ls as [|l ls IH]; intros H; [done|]. cbn [concat].
  rewrite (H 0%nat l) by done. apply IH. intros i l' Hl. by apply (H (S i)).
Qed.

Lemma prio_deque_ok m d ls :
  prep m d ls ->
  (concat ls = [] /\ deque m d = Ok (d, None)) \/
  exists k p l d', ls !! k = Some (p :: l) /\
    (forall j lj, (j < k)%nat -> ls !! j = Some lj -> lj = []) /\
    deque m d = Ok (d', Some p) /\ prep m d' (<[k := l]> ls) /\
    queue_num_ d' = queue_num_ d /\ concat ls ≡ₚ p :: concat (<[k := l]> ls).
Proof.
  intros Hp. unfold deque. rewrite (prep_total _ _ _ Hp).
  destruct (Z.ltb_spec 0 (bytes_of m (concat ls))) as [Hb|Hb].
  - pose proof (prep_num _ _ _ Hp) as Hn.
    destruct (prio_deque_loop_ok m d ls (Z.to_nat (queue_num_ d)) 0 Hp) as [[E Hall]|(k & p & l & d' & Hk & Hkl & Hbefore & E & Hrest)];
      [lia|lia|..].
    + exfalso. rewrite concat_nil in Hb; [done|]. intros i l Hl.
      destruct (decide (queue_num_ d <= Z.of_nat i)); [by eapply prep_unused|].
      specialize (Hall (Z.of_nat i)). rewrite Nat2Z.id, Hl in Hall.
      assert (Some l = Some []) as [= ->]; [|done]. apply Hall. lia.
    + right. exists (Z.to_nat k), p, l, d'. split; [done|]. split; [|done].
      intros j lj Hj Hlj. specialize (Hbefore (Z.of_nat j)). rewrite Nat2Z.id, Hlj in Hbefore.
      assert (Some lj = Some []) as [= ->]; [|done]. apply Hbefore. lia.
  - left. split; [|done]. apply (sum_Z_zero (size_of m)); [|done].
    apply Forall_forall. intros p Hin. by apply (prep_size _ _ _ Hp).
Qed.

(** The congestion bit of a packet. *)
Definition ce_of m p : Z := from_option ecn_to_echo_ 0 (m !! p).

Lemma same_packets_ce m m' p : same_packets m m' -> ce_of m p = ce_of m' p.
Proof.
  intros Hs. pose proof (same_packets_lookup _ _ p Hs) as H. unfold ce_of.
  destruct (m !! p) as [k|], (m' !! p) as [k'|]; cbn in *; try congruence.
  by injection H.
Qed.

Lemma same_packets_ect m m' p pk pk' :
  same_packets m m' -> m !! p = Some pk -> m' !! p = Some pk' ->
  ecn_capable_ pk = ecn_capable_ pk'.
Proof. intros Hs. by apply same_packets_field. Qed.

(** The packets in the class of the new packet and in the buffer exceed the
    threshold. *)
Definition marks d m (l : list addr) ls : bool :=
  match d.(marking_scheme_) with
  | PER_QUEUE => d.(thresh_) * d.(mean_pktsize_) <? bytes_of m l
  | PER_PORT => d.(thresh_) * d.(mean_pktsize_) <? bytes_of m (concat ls)
  | DISABLE => false
  end.

Lemma prep_same_sizes m m' l : sizes m' = sizes m -> bytes_of m' l = bytes_of m l.
Proof. intros H. apply sum_Z_ext. intros p _. by rewrite !size_of_sizes, H. Qed.

Lemma enque_full m d ls p pk :
  prep m d ls -> m !! p = Some pk -> qlim_in d < bytes_of m (concat ls) + size_ pk ->
  enque m d p = Ok (m, d, [p]).
Proof.
  intros Hp Hpk Hf. unfold enque. rewrite (ensure_ok _ _ _ Hp), Hpk, (prep_total _ _ _ Hp).
  cbn [res_bind deref]. unfold qlim_in in Hf. by rewrite (proj2 (Z.ltb_lt _ _) Hf).
Qed.

Lemma enque_fits m d ls p pk :
  prep m d ls -> p ∉ concat ls -> m !! p = Some pk -> 0 < size_ pk ->
  bytes_of m (concat ls) + size_ pk <= qlim_in d ->
  exists m' d' l, enque m d p = Ok (m', d', []) /\
    ls !! Z.to_nat (get_priority d pk) = Some l /\
    let ls' := <[Z.to_nat (get_priority d pk) := l ++ [p]]> ls in
    prep m' d' ls' /\ sizes m' = sizes m /\ (exists qs, d' = d <| q_ := qs |>) /\
    (forall a, ce_of m' a =
      if decide (a = p) then
        if marks d m (l ++ [p]) ls' && negb (ecn_capable_ pk =? 0) then 1 else ce_of m p
      else ce_of m a).
Proof.
  intros Hp Hnew Hpk Hpos Hfit.
  destruct (prep_add m d ls p pk Hp Hnew Hpk Hpos) as (q & m1 & q' & l & Eat & E & El & Hp1 & Hsame).
  unfold enque. rewrite (ensure_ok _ _ _ Hp), Hpk, (prep_total _ _ _ Hp). cbn [res_bind deref].
  unfold qlim_in in Hfit. rewrite (proj2 (Z.ltb_ge _ _) Hfit), Eat. cbn [res_bind].
  rewrite E. cbn [res_bind].
  set (i := get_priority d pk) in *. set (ls' := <[Z.to_nat i := l ++ [p]]> ls) in *.
  set (d' := set_queue d i q') in *.
  pose proof (same_packets_sizes _ _ Hsame) as Hsz.
  assert (must_mark d' q' = marks d m (l ++ [p]) ls') as ->.
  { unfold must_mark, marks. change (marking_scheme_ d') with (marking_scheme_ d).
    change (thresh_ d') with (thresh_ d). change (mean_pktsize_ d') with (mean_pktsize_ d).
    destruct (marking_scheme_ d); [done| |].
    - destruct (Forall2_lookup_r _ _ _ (Z.to_nat i) (l ++ [p]) (prep_rep _ _ _ Hp1)) as (q2 & Eq2 & R2).
      { subst ls'. apply list_lookup_insert_eq. by apply lookup_lt_Some in El. }
      subst d'. unfold set_queue in Eq2. cbn in Eq2.
      pose proof (lookup_lt_Some _ _ _ Eq2) as Hlt. rewrite length_insert in Hlt.
      rewrite list_lookup_insert_eq in Eq2 by done.
      injection Eq2 as <-. unfold PacketQueue.byteLength.
      by rewrite (PacketQueue.rep_bytes _ _ _ R2), (prep_same_sizes m m1).
    - by rewrite (prep_total _ _ _ Hp1), (prep_same_sizes m m1). }
  assert (exists pk1, m1 !! p = Some pk1) as [pk1 Hpk1].
  { pose proof (same_packets_lookup _ _ p Hsame) as H. rewrite Hpk in H.
    destruct (m1 !! p); [eauto|done]. }
  destruct (marks d m (l ++ [p]) ls') eqn:Em; cbn [andb].
  2: { exists m1, d', l. split; [done|]. split; [done|]. split; [done|]. split; [done|].
       split; [by eexists|]. intros a. rewrite <- (same_packets_ce _ _ a Hsame).
       fold ls'. rewrite Em. by destruct (decide (a = p)) as [->|]. }
  unfold update_packet. rewrite Hpk1. cbn [deref res_bind].
  rewrite <- (same_packets_ect _ _ _ _ _ Hsame Hpk Hpk1).
  destruct (negb _) eqn:Ee.
  - eexists _, d', l. split; [done|]. split; [done|]. split; [by apply prep_mark|].
    split; [rewrite <- Hsz; by eapply sizes_insert|]. split; [by eexists|].
    intros a. fold ls'. rewrite Em. cbn [andb]. destruct (decide (a = p)) as [->|Hne]; unfold ce_of at 1.
    + by rewrite lookup_insert_eq.
    + rewrite lookup_insert_ne by done. symmetry. apply (same_packets_ce _ _ a Hsame).
  - exists m1, d', l. split; [done|]. split; [done|]. split; [done|]. split; [done|].
    split; [by eexists|]. intros a. rewrite <- (same_packets_ce _ _ a Hsame).
    fold ls'. rewrite Em. cbn [andb]. by destruct (decide (a = p)) as [->|].
Qed.

(** *** The abstract queue: one list, sorted by class *)

Definition class_of d m p : Z := clamp_priority d (prio_of m p).

Definition class_le d m (a b : addr) : bool := class_of d m a <=? class_of d m b.

Lemma prep_class_concat m d ls n a :
  prep m d ls -> a ∈ concat (drop n ls) -> Z.of_nat n <= class_of d m a.
Proof.
  intros Hp Ha. apply elem_of_concat in Ha as (l & Hal & Hl).
  apply list_elem_of_lookup in Hl as [j Hj]. rewrite lookup_drop in Hj.
  unfold class_of. rewrite <- (prep_class _ _ _ Hp _ _ _ Hj Hal). lia.
Qed.

Lemma prep_class_take m d ls n a :
  prep m d ls -> a ∈ concat (take n ls) -> class_of d m a < Z.of_nat n.
Proof.
  intros Hp Ha. apply elem_of_concat in Ha as (l & Hal & Hl).
  apply list_elem_of_lookup in Hl as [j Hj]. apply lookup_take_Some in Hj as [Hj Hlt].
  unfold class_of. rewrite <- (prep_class _ _ _ Hp _ _ _ Hj Hal). lia.
Qed.

(** Appending to a class is inserting in the sorted list. *)
Lemma concat_insert m d ls p l :
  prep m d ls -> ls !! Z.to_nat (class_of d m p) = Some l ->
  concat (<[Z.to_nat (class_of d m p) := l ++ [p]]> ls) = stable_insert (class_le d m) p (concat ls).
Proof.
  intros Hp Hl. set (i := Z.to_nat (class_of d m p)) in *.
  assert (Z.of_nat i = class_of d m p) as Hi.
  { subst i. pose proof (clamp_range d (prio_of m p)) as Hc. pose proof (prep_num _ _ _ Hp).
    unfold class_of in *. lia. }
  pose proof (lookup_lt_Some _ _ _ Hl) as Hlt.
  assert (concat ls = (concat (take i ls) ++ l) ++ concat (drop (S i) ls)) as ->.
  { rewrite <- (take_drop_middle _ _ _ Hl) at 1. by rewrite concat_mid, app_assoc. }
  rewrite insert_take_drop, concat_mid by done. rewrite stable_insert_split.
  - by rewrite <- !app_assoc.
  - apply Forall_app. split; apply Forall_forall; intros a Ha; apply Z.leb_le.
    + apply (prep_class_take _ _ _ _ _ Hp) in Ha. lia.
    + rewrite <- Hi. unfold class_of. rewrite <- (prep_class _ _ _ Hp _ _ _ Hl Ha). lia.
  - apply Forall_take, Forall_forall. intros a Ha. apply Z.leb_gt.
    apply (prep_class_concat _ _ _ _ _ Hp) in Ha. lia.
Qed.

(** Serving the first non-empty class is taking the head. *)
Lemma concat_take ls k p l :
  ls !! k = Some (p :: l) -> (forall j lj, (j < k)%nat -> ls !! j = Some lj -> lj = []) ->
  concat ls = p :: concat (<[k := l]> ls).
Proof.
  intros Hk Hb. rewrite insert_take_drop by (by eapply lookup_lt_Some).
  rewrite <- (take_drop_middle _ _ _ Hk) at 1. rewrite !concat_mid.
  rewrite (concat_nil (take k ls)); [done|]. intros j lj Hj.
  apply lookup_take_Some in Hj as [Hj Hlt]. by eapply Hb.
Qed.

Lemma enque_throw m d p :
  enque m d p = Err Throw <-> ~ (1 <= d.(queue_num_) <= MAX_QUEUE_NUM).
Proof.
  assert (forall q, PacketQueue.enque m q p <> Err Throw) as Hq.
  { intros q. unfold PacketQueue.enque, set_next, update_packet.
    destruct (PacketQueue.tail_ q) as [tl|]; [destruct (m !! tl); [|done]|]; cbn;
      destruct (_ !! p); cbn; try done; by rewrite lookup_insert_eq. }
  unfold enque, ensure_queue_bound, MAX_QUEUE_NUM.
  destruct (Z.ltb_spec (queue_num_ d) 1); cbn [orb]; [split; [lia|done]|].
  destruct (Z.ltb_spec 8 (queue_num_ d)); cbn [res_bind]; [split; [lia|done]|].
  split; [|lia]. intros E. exfalso. destruct (m !! p) as [pk|]; [|done]. cbn [deref res_bind] in E.
  destruct (_ <? _); [done|]. unfold queue_at in E. destruct (_ <? 0); [done|].
  destruct (q_ d !! _) as [q|]; [|done]. cbn [deref res_bind] in E.
  destruct (PacketQueue.enque m q p) as [[[m1 q1] o]|e] eqn:Eq; [|by injection E as ->; apply (Hq q)].
  cbn [res_bind] in E. destruct (must_mark _ _); [|done]. unfold update_packet in E.
  destruct (m1 !! p); [|done]. cbn in E. by destruct (negb _).
Qed.
End PrioFacts.

(** ** The priority queue as a discipline *)

#[export] Instance Prio_disc : Discipline Prio.t := {
  disc_enque _ := Prio.enque;
  disc_deque _ m d := let! (d, r) := Prio.deque m d in Ok (m, d, [], r)
}.

#[export] Instance Prio_disc_laws : DisciplineLaws Prio.t.
Proof.
  exists (fun m d l => exists ls, PrioFacts.prep m d ls /\ l = concat ls).
  - intros m d l (ls & Hp & ->). apply Hp.
  - intros m d l p (ls & Hp & ->) Hl. apply size_of_valid, (PrioFacts.prep_size _ _ _ Hp p Hl).
  - intros now m d l p (ls & Hp & ->) Hnew Hs. destruct (size_of_valid _ _ Hs) as [pk Hpk].
    rewrite (PacketQueue.size_of_Some _ _ _ Hpk) in Hs.
    destruct (Z.le_gt_cases (bytes_of m (concat ls) + size_ pk) (PrioFacts.qlim_in d)) as [Hf|Hf].
    + destruct (PrioFacts.enque_fits m d ls p pk Hp Hnew Hpk Hs Hf)
        as (m' & d' & l & E & Hl & Hp' & Hsz & _).
      exists m', d', []. eexists. split; [exact E|]. split; [by eexists|]. split; [|done].
      assert (Z.to_nat (Prio.get_priority d pk) = Z.to_nat (PrioFacts.class_of d m p)) as Hi
        by (unfold PrioFacts.class_of, prio_of; by rewrite Hpk).
      rewrite Hi in *. rewrite (PrioFacts.concat_insert m d ls p l Hp Hl), stable_insert_perm. solve_perm.
    + exists m, d, [p], (concat ls). split; [by eapply PrioFacts.enque_full|]. split; [by exists ls|]. done.
  - intros now m d l (ls & Hp & ->). cbn [disc_deque Prio_disc].
    destruct (PrioFacts.prio_deque_ok m d ls Hp) as [[Hn E]|(k & p & l & d' & Hk & _ & E & Hp' & _ & HP)];
      rewrite E; cbn [res_bind].
    + exists m, d, [], None, (concat ls). split; [done|]. split; [by exists ls|]. done.
    + exists m, d', [], (Some p). eexists. split; [done|]. split; [by eexists|]. done.
Defined.

(** * Properties *)

Module PrioProps.
Import Prio PrioFacts.


(** Strict priority: the served packet is of the most urgent class among
    all queued packets. *)
Theorem prio_deque_strict m d ls p d' :
  prep m d ls -> deque m d = Ok (d', Some p) ->
  p ∈ concat ls /\ Forall (fun a => class_of d m p <= class_of d m a) (concat ls).
Proof.
  intros Hp E. destruct (prio_deque_ok m d ls Hp) as [[Hn E']|(k & p' & l & d2 & Hk & Hb & E' & _)];
    rewrite E' in E; [done|]. injection E as -> ->.
  pose proof (concat_take ls k p l Hk Hb) as Hc. split; [rewrite Hc; set_solver|].
  assert (class_of d m p = Z.of_nat k) as Hpk
    by (symmetry; apply (prep_class _ _ _ Hp k (p :: l)); [done|set_solver]).
  rewrite <- (take_drop k ls), concat_app, (concat_nil (take k ls)).
  2: { intros j lj Hj. apply lookup_take_Some in Hj as [Hj Hlt]. by eapply Hb. }
  apply Forall_forall. intros a Ha. rewrite Hpk. by eapply prep_class_concat.
Qed.

(** An admitted packet is ECN-marked exactly when it is ECN-capable and
    the bytes now in its class (per-queue marking) or in the whole buffer
    (per-port marking) exceed [thresh_ * mean_pktsize_]; no other packet's mark
    changes, and the buffer stays within its limit. *)
Theorem prio_ecn_marks m d ls p pk :
  prep m d ls -> p ∉ concat ls -> m !! p = Some pk -> 0 < size_ pk ->
  bytes_of m (concat ls) + size_ pk <= qlim_ d * mean_pktsize_ d ->
  exists m' d' l, enque m d p = Ok (m', d', []) /\
    ls !! Z.to_nat (get_priority d pk) = Some l /\
    TotalByteLength d' = TotalByteLength d + size_ pk /\
    forall a, ce_of m' a =
      if decide (a = p) then
        if match d.(marking_scheme_) with
           | PER_QUEUE => d.(thresh_) * d.(mean_pktsize_) <? bytes_of m l + size_ pk
           | PER_PORT => d.(thresh_) * d.(mean_pktsize_) <? bytes_of m (concat ls) + size_ pk
           | DISABLE => false
           end && negb (ecn_capable_ pk =? 0)
        then 1 else ce_of m p
      else ce_of m a.
Proof.
  intros Hp Hnew Hpk Hs Hf.
  destruct (enque_fits m d ls p pk Hp Hnew Hpk Hs Hf) as (m' & d' & l & E & Hl & Hp' & Hsz & _ & Hce).
  exists m', d', l. split; [done|]. split; [done|].
  assert (size_of m p = size_ pk) as Hsp by (by apply PacketQueue.size_of_Some).
  assert (bytes_of m (concat (<[Z.to_nat (get_priority d pk) := l ++ [p]]> ls)) =
    bytes_of m (concat ls) + size_ pk) as Htot.
  { assert (Z.to_nat (get_priority d pk) = Z.to_nat (class_of d m p)) as Hi
      by (unfold class_of, prio_of; by rewrite Hpk).
    rewrite Hi in *. rewrite (concat_insert m d ls p l Hp Hl). unfold bytes_of.
    rewrite (sum_Z_perm _ _ _ (stable_insert_perm _ p (concat ls))). unfold sum_Z. cbn. lia. }
  split.
  - by rewrite (prep_total _ _ _ Hp'), (prep_total _ _ _ Hp), (prep_same_sizes m m').
  - intros a. rewrite Hce. unfold marks. by rewrite Htot, PacketQueue.bytes_of_snoc, Hsp.
Qed.

(** C18: [enque] throws exactly when the number of queues is outside 1..8. *)
Theorem prio_throws_iff m d p :
  enque m d p = Err Throw <-> ~ (1 <= d.(queue_num_) <= MAX_QUEUE_NUM).
Proof. apply enque_throw. Qed.
End PrioProps.

(** * Witnesses *)

Module PrioWitness.
Import Prio PrioFacts PrioProps.

(** Deciding [prep] on a concrete memory. *)
Fixpoint classb (d : t) (m : mem) (i : Z) (ls : list (list addr)) : bool :=
  match ls with
  | [] => true
  | l :: ls =>
      forallb (fun p => (i =? clamp_priority d (prio_of m p)) && (0 <? size_of m p)) l &&
      classb d m (i + 1) ls
  end.

Fixpoint repsb (m : mem) (qs : list PacketQueue.t) (ls : list (list addr)) : bool :=
  match qs, ls with
  | [], [] => true
  | q :: qs, l :: ls => repb m q l && repsb m qs ls
  | _, _ => false
  end.

Definition prepb (m : mem) (d : t) (ls : list (list addr)) : bool :=
  (1 <=? queue_num_ d) && (queue_num_ d <=? 8) && (length ls =? 8)%nat && repsb m (q_ d) ls &&
  bool_decide (NoDup (concat ls)) && classb d m 0 ls.

Lemma classb_sound d m i ls j l p :
  classb d m i ls = true -> ls !! j = Some l -> p ∈ l ->
  i + Z.of_nat j = clamp_priority d (prio_of m p) /\ 0 < size_of m p.
Proof.
  revert i j. induction ls as [|k ls IH]; intros i j H Hj Hp; [done|]. cbn in H.
  apply andb_true_iff in H as [H1 H2]. destruct j as [|j]; cbn in Hj.
  - injection Hj as ->. rewrite forallb_forall in H1. apply list_elem_of_In in Hp.
    apply H1, andb_true_iff in Hp as [Ha Hb]. bool_prop. split; [|done]. lia.
  - destruct (IH (i + 1) j H2 Hj Hp) as [<- Hs]. split; [lia|done].
Qed.

Lemma repsb_sound m qs ls : repsb m qs ls = true -> Forall2 (PacketQueue.rep m) qs ls.
Proof.
  revert ls. induction qs as [|q qs IH]; intros [|l ls] H; cbn in H; try done.
  apply andb_true_iff in H as [H1 H2]. constructor; [by apply repb_sound|by apply IH].
Qed.

Lemma prepb_sound m d ls : prepb m d ls = true -> prep m d ls.
Proof.
  unfold prepb. intros H. bool_prop.
  repeat match goal with H : bool_decide _ = true |- _ => apply bool_decide_eq_true in H end.
  match goal with H : (_ =? _)%nat = true |- _ => apply Nat.eqb_eq in H end.
  split; try done.
  - by apply repsb_sound.
  - intros i l p Hi Hp. by destruct (classb_sound d m 0 ls i l p).
  - intros p (l & Hp & Hl)%elem_of_concat. apply list_elem_of_lookup in Hl as [i Hi].
    by destruct (classb_sound d m 0 ls i l p).
Qed.

Definition demo_pkt (n : option addr) (prio : Z) : Packet := mkPacket n 1500 prio 1 2 3 1 0.

(** Packet 1 is of class 0; 2 and 3 of class 2; 4 (class 0) arrives. *)
Definition demo_mem : mem :=
  {[ 1%positive := demo_pkt None (-3); 2%positive := demo_pkt (Some 3%positive) 2;
     3%positive := demo_pkt None 2; 4%positive := demo_pkt None 0 ]}.

Definition demo (lim : Z) : t :=
  mk (PacketQueue.mk (Some 1%positive) (Some 1%positive) 1 1500 None :: PacketQueue.create ::
      PacketQueue.mk (Some 2%positive) (Some 3%positive) 2 3000 None ::
      replicate 5 PacketQueue.create) lim 1500 2 4 PER_PORT.

Definition demo_ls : list (list addr) :=
  [[1%positive]; []; [2%positive; 3%positive]; []; []; []; []; []].


Lemma prio_deque_strict_witness :
  exists d', deque demo_mem (demo 9) = Ok (d', Some 1%positive) /\
    1%positive ∈ concat demo_ls /\
    Forall (fun a => class_of (demo 9) demo_mem 1%positive <= class_of (demo 9) demo_mem a)
      (concat demo_ls).
Proof.
  eexists. split; [vm_compute; reflexivity|].
  eapply (prio_deque_strict demo_mem (demo 9) demo_ls 1%positive).
  - apply prepb_sound. vm_compute. reflexivity.
  - vm_compute. reflexivity.
Defined.

(** Four packets of 1500 bytes exceed the threshold of 3000. *)
Lemma prio_ecn_marks_witness :
  exists m' d' l, enque demo_mem (demo 9) 4%positive = Ok (m', d', []) /\
    demo_ls !! 0%nat = Some l /\ TotalByteLength d' = TotalByteLength (demo 9) + 1500 /\
    forall a, ce_of m' a = if decide (a = 4%positive) then 1 else ce_of demo_mem a.
Proof.
  apply (prio_ecn_marks demo_mem (demo 9) demo_ls 4%positive (demo_pkt None 0)).
  - apply prepb_sound. vm_compute. reflexivity.
  - apply (bool_decide_unpack _). vm_compute. exact I.
  - reflexivity.
  - reflexivity.
  - vm_compute. discriminate.
Defined.
End PrioWitness.
