(* ===== verification/Sched.v ===== *)
(** * The discrete-event scheduler

    [Event] and [Scheduler] (src/ns2/common/scheduler.h, scheduler.cc).  The
    event queue is the class [EventQueue], whose contract is a list of events
    sorted by time and, for equal times, by the order of scheduling;
    [ListSched], [HeapSched] and [SplaySched] implement it.  On top of the
    contract this file proves that simulated time never goes backwards and
    that events are dispatched in time order, first scheduled first.

    A handler is the list of scheduler operations it performs. *)

From Stdlib Require Import ZArith Lia Bool Sorted SpecFloat.
From stdpp Require Import base list gmap.
From S2P Require Import Prelude F64 PktQueue.

(** ** Events *)

Record Event := mkEvent {
  handler_ : option positive;   (* handler to call when event ready *)
  time_ : f64;                  (* time at which event is ready *)
  uid_ : Z                      (* unique ID; positive while queued *)
}.

#[export] Instance eta_Event : Eta Event := fun e => mkEvent (handler_ e) (time_ e) (uid_ e).

(** The constructor of [Event]. *)
Definition new_event : Event := mkEvent None F64.zero 0.

(** The memory of events. *)
Abbreviation evs := (gmap addr Event).

Definition time_of (s : evs) (a : addr) : f64 := from_option time_ S754_nan (s !! a).
Definition uid_of (s : evs) (a : addr) : Z := from_option uid_ 0 (s !! a).

(** ** Order *)

(** Lexicographic order on time and uid. *)
Definition key_before (x y : f64 * Z) : Prop :=
  F64.lt x.1 y.1 = true \/ F64.eq x.1 y.1 = true /\ x.2 < y.2.

Definition key_of (s : evs) (a : addr) : f64 * Z := (time_of s a, uid_of s a).

(** [a] is dispatched before [b]. *)
Definition before (s : evs) (a b : addr) : Prop := key_before (key_of s a) (key_of s b).

(** The test of the insertion loops: [x] goes behind [y]. *)
Definition not_later (s : evs) (y x : addr) : bool := negb (F64.lt (time_of s x) (time_of s y)).

(** The contents of an event queue: valid events with uids, in order. *)
Record queued (s : evs) (L : list addr) : Prop := {
  queued_valid : forall a, a ∈ L -> is_Some (s !! a) /\ F64.is_nan (time_of s a) = false /\ 0 < uid_of s a;
  queued_sorted : StronglySorted (before s) L
}.

(** ** The interface of the event queues *)

Class EventQueue (Q : Type) := {
  eq_insert : evs -> Q -> addr -> res Q;
  eq_cancel : evs -> Q -> addr -> res (evs * Q);
  eq_deque : evs -> Q -> res (Q * option addr);
  eq_head : evs -> Q -> res (Q * option addr);
  eq_lookup : evs -> Q -> Z -> res (Q * option addr)
}.

(** The uid of a cancelled event is negated so that it can be reused. *)
Definition negate_uid (s : evs) (a : addr) : evs :=
  alter (fun e => e <| uid_ := - e.(uid_) |>) a s.

Class EventQueueLaws (Q : Type) `{EventQueue Q} := {
  eq_rep : evs -> Q -> list addr -> Prop;
  (** The queue can take [n] more events; only finite counters limit it. *)
  eq_room : Q -> nat -> Prop;
  eq_room_le q n n' : eq_room q n -> (n' <= n)%nat -> eq_room q n';
  eq_rep_ext s s' q L :
    eq_rep s q L -> (forall a, a ∈ L -> s' !! a = s !! a) -> eq_rep s' q L;
  eq_insert_law s q L a n :
    eq_rep s q L -> queued s L -> eq_room q (S n) -> a ∉ L -> is_Some (s !! a) ->
    F64.is_nan (time_of s a) = false -> 0 < uid_of s a ->
    (forall b, b ∈ L -> uid_of s b < uid_of s a) ->
    exists q', eq_insert s q a = Ok q' /\ eq_rep s q' (stable_insert (not_later s) a L) /\ eq_room q' n;
  eq_cancel_law s q L a :
    eq_rep s q L -> queued s L -> is_Some (s !! a) -> (0 < uid_of s a -> a ∈ L) ->
    exists s' q', eq_cancel s q a = Ok (s', q') /\ (forall n, eq_room q n -> eq_room q' n) /\
      if 0 <? uid_of s a
      then s' = negate_uid s a /\ eq_rep s' q' (remove_one a L)
      else s' = s /\ eq_rep s' q' L;
  eq_deque_law s q L :
    eq_rep s q L -> queued s L ->
    exists q', eq_deque s q = Ok (q', head L) /\ eq_rep s q' (tail L) /\
      (forall n, eq_room q n -> eq_room q' n);
  eq_head_law s q L :
    eq_rep s q L -> queued s L ->
    exists q', eq_head s q = Ok (q', head L) /\ eq_rep s q' L /\ (forall n, eq_room q n -> eq_room q' n);
  eq_lookup_law s q L u :
    eq_rep s q L -> queued s L ->
    exists q' r, eq_lookup s q u = Ok (q', r) /\ eq_rep s q' L /\
      match r with
      | Some a => a ∈ L /\ uid_of s a = u
      | None => Forall (fun a => uid_of s a <> u) L
      end
}.

(** ** The scheduler *)

Module Scheduler.

(** [uid] is the static counter [Scheduler::uid_]. *)
Record t (Q : Type) := mk {
  events : evs;
  queue : Q;
  clock_ : f64;
  halted_ : bool;
  uid : Z
}.
Arguments mk {Q}. Arguments events {Q}. Arguments queue {Q}. Arguments clock_ {Q}.
Arguments halted_ {Q}. Arguments uid {Q}.

#[global] Instance eta_t {Q} : Eta (t Q) := fun s =>
  mk (events s) (queue s) (clock_ s) (halted_ s) (uid s).

Definition SCHED_START : f64 := F64.zero.

(** The constructor, with the events the program has allocated. *)
Definition create {Q} (e : evs) (q : Q) : t Q := mk e q SCHED_START false 1.

(** What a handler does to the scheduler. *)
Inductive cmd :=
| Schedule (h : option positive) (e : addr) (delay : f64)
| Cancel (e : addr)
| Halt.

Section Ops.
Context {Q : Type} `{EventQueue Q}.
Implicit Types (s : t Q).

Definition schedule s (h : option positive) (e : addr) (delay : f64) : res (t Q) :=
  match h with
  | None => Err Abort
  | Some _ =>
      let! ev := deref (s.(events) !! e) in
      if 0 <? ev.(uid_) then Err Abort
      else if s.(uid) <? 0 then Err Abort
      else if s.(uid) =? 2 ^ 63 - 1 then Err UB     (* overflow of uid_++ *)
      else
        let ev := ev <| uid_ := s.(uid) |> <| handler_ := h |>
                     <| time_ := F64.add s.(clock_) delay |> in
        let s := s <| uid := s.(uid) + 1 |> <| events := <[e := ev]> s.(events) |> in
        let! q := eq_insert s.(events) s.(queue) e in
        Ok (s <| queue := q |>)
  end.

Definition cancel s (e : addr) : res (t Q) :=
  let! (es, q) := eq_cancel s.(events) s.(queue) e in
  Ok (s <| events := es |> <| queue := q |>).

(** [dispatch] up to the call of the handler. *)
Definition dispatch s (p : addr) (time : f64) : res (t Q * positive) :=
  if F64.lt time s.(clock_) then Err Abort
  else
    let s := s <| clock_ := time |> in
    let! ev := deref (s.(events) !! p) in
    let s := s <| events := <[p := ev <| uid_ := - ev.(uid_) |>]> s.(events) |> in
    let! h := deref ev.(handler_) in
    Ok (s, h).

Definition exec s (c : cmd) : res (t Q) :=
  match c with
  | Schedule h e delay => schedule s h e delay
  | Cancel e => cancel s e
  | Halt => Ok (s <| halted_ := true |>)
  end.

Fixpoint exec_all s (cs : list cmd) : res (t Q) :=
  match cs with
  | [] => Ok s
  | c :: cs => let! s := exec s c in exec_all s cs
  end.

(** The handlers of the program. *)
Context (handle : positive -> addr -> t Q -> list cmd).

(** [run]; the events dispatched are returned, newest last. *)
Fixpoint run (fuel : nat) s : res (t Q * list addr) :=
  if s.(halted_) then Ok (s, [])
  else
    let! (q, p) := eq_deque s.(events) s.(queue) in
    let s := s <| queue := q |> in
    match p with
    | None => Ok (s, [])
    | Some p =>
        match fuel with
        | O => Err Fuel
        | S fuel =>
            let! ev := deref (s.(events) !! p) in
            let! (s, h) := dispatch s p ev.(time_) in
            let! s := exec_all s (handle h p s) in
            let! (s, ps) := run fuel s in
            Ok (s, p :: ps)
        end
    end.

(** [reset]; the queue is left alone. *)
Definition reset s : t Q := s <| clock_ := SCHED_START |>.

End Ops.

(** ** Steps

    The operations in any interleaving.  A trace records time and uid of the
    dispatched events, newest first. *)

Section Steps.
Context {Q : Type} `{EventQueueLaws Q}.

Definition trace := list (f64 * Z).

Inductive step : t Q * trace -> t Q * trace -> Prop :=
| step_schedule s s' tr h e delay :
    eq_room s.(queue) 1 -> F64.le s.(clock_) (F64.add s.(clock_) delay) = true ->
    schedule s h e delay = Ok s' ->
    step (s, tr) (s', tr)
| step_cancel s s' tr e :
    is_Some (s.(events) !! e) -> cancel s e = Ok s' ->
    step (s, tr) (s', tr)
| step_halt s tr b : step (s, tr) (s <| halted_ := b |>, tr)
| step_dispatch s q s' tr p ev h :
    eq_deque s.(events) s.(queue) = Ok (q, Some p) -> s.(events) !! p = Some ev ->
    dispatch (s <| queue := q |>) p ev.(time_) = Ok (s', h) ->
    step (s, tr) (s', (ev.(time_), ev.(uid_)) :: tr).
End Steps.
End Scheduler.

(** * Facts *)

Module SchedFacts.
Import Scheduler.

#[export] Instance key_before_trans : Transitive key_before.
Proof.
  intros [t1 u1] [t2 u2] [t3 u3]. unfold key_before. cbn. intros [H1|[H1 L1]] [H2|[H2 L2]].
  - left. by eapply F64.lt_trans.
  - left. by eapply F64.lt_eq_trans.
  - left. eapply F64.le_lt_trans; [by apply F64.eq_le|done].
  - right. split; [by eapply F64.eq_trans|lia].
Qed.

#[export] Instance before_trans s : Transitive (before s).
Proof. intros a b c. apply key_before_trans. Qed.

Lemma key_before_irrefl x : ~ key_before x x.
Proof. intros [H|[_ H]]; [by rewrite F64.lt_irrefl in H|lia]. Qed.

Lemma key_of_Some (s : evs) a e : s !! a = Some e -> key_of s a = (e.(time_), e.(uid_)).
Proof. unfold key_of, time_of, uid_of. by intros ->. Qed.

Lemma key_of_ext (s s' : evs) a : s' !! a = s !! a -> key_of s' a = key_of s a.
Proof. unfold key_of, time_of, uid_of. by intros ->. Qed.

Lemma key_of_time s s' a : key_of s' a = key_of s a -> time_of s' a = time_of s a.
Proof. by intros [= ? ?]. Qed.

Lemma key_of_uid s s' a : key_of s' a = key_of s a -> uid_of s' a = uid_of s a.
Proof. by intros [= ? ?]. Qed.

(** ** Sorted lists of events *)

Lemma queued_nodup s L : queued s L -> NoDup L.
Proof.
  intros [_ Hs]. induction Hs as [|a L _ IH Ha]; constructor; [|done].
  intros Hin. rewrite Forall_forall in Ha. by apply (key_before_irrefl (key_of s a)), Ha.
Qed.

Lemma StronglySorted_ext {A} (R R' : A -> A -> Prop) L :
  (forall a b, a ∈ L -> b ∈ L -> R a b -> R' a b) -> StronglySorted R L -> StronglySorted R' L.
Proof.
  intros HR Hs. induction Hs as [|a L _ IH Ha]; constructor.
  - apply IH. set_solver.
  - apply Forall_forall. intros b Hb. rewrite Forall_forall in Ha. apply HR; set_solver.
Qed.

Lemma queued_ext s s' L :
  queued s L -> (forall a, a ∈ L -> s' !! a = s !! a) -> queued s' L.
Proof.
  intros [Hv Hs] Hext. split.
  - intros a Ha. pose proof (key_of_ext s s' a (Hext a Ha)) as Hk.
    rewrite Hext, (key_of_time s s'), (key_of_uid s s') by done. by apply Hv.
  - eapply StronglySorted_ext; [|done]. intros a b Ha Hb. unfold before.
    by rewrite !(key_of_ext s s') by auto.
Qed.

Lemma queued_tail s a L : queued s (a :: L) -> queued s L /\ Forall (before s a) L.
Proof.
  intros [Hv Hs]. apply StronglySorted_inv in Hs as [Hs Ha]. split; [|done].
  split; [|done]. intros b Hb. apply Hv. set_solver.
Qed.

Lemma queued_sub s L L' : queued s L -> L' `sublist_of` L -> queued s L'.
Proof.
  intros [Hv Hs] Hsub. split.
  - intros a Ha. apply Hv. by eapply sublist_subseteq.
  - clear Hv. induction Hsub as [|a L' L Hsub IH|a L' L Hsub IH]; [done| |];
      apply StronglySorted_inv in Hs as [Hs Ha].
    + constructor; [by apply IH|]. rewrite Forall_forall in Ha |- *.
      intros b Hb. apply Ha. by eapply sublist_subseteq.
    + by apply IH.
Qed.

(** [not_later] is the order on times. *)
Lemma not_later_le s y x :
  F64.is_nan (time_of s y) = false -> F64.is_nan (time_of s x) = false ->
  not_later s y x = true <-> F64.le (time_of s y) (time_of s x) = true.
Proof.
  intros Hy Hx. unfold not_later. rewrite negb_true_iff. split.
  - intros H. by apply F64.le_total.
  - intros H. apply not_true_iff_false. intros Hl. apply F64.lt_not_le in Hl. congruence.
Qed.

Lemma not_later_before s y x :
  F64.is_nan (time_of s y) = false -> F64.is_nan (time_of s x) = false ->
  uid_of s y < uid_of s x ->
  if not_later s y x then before s y x else before s x y.
Proof.
  intros Hy Hx Hu. destruct (not_later s y x) eqn:E.
  - apply not_later_le in E; [|done|done]. rewrite F64.le_lt_or_eq in E.
    apply orb_true_iff in E as [E|E]; [by left|by right].
  - left. unfold not_later in E. by apply negb_false_iff in E.
Qed.

Lemma stable_insert_sorted s x L :
  StronglySorted (before s) L ->
  (forall y, y ∈ L -> if not_later s y x then before s y x else before s x y) ->
  StronglySorted (before s) (stable_insert (not_later s) x L).
Proof.
  intros Hs. induction Hs as [|y L Hs IH Hy]; cbn [stable_insert]; intros Hx.
  - repeat constructor.
  - pose proof (Hx y) as Hxy. destruct (not_later s y x) eqn:E.
    + constructor; [apply IH; set_solver|]. apply Forall_forall. intros z Hz.
      rewrite stable_insert_perm in Hz. apply elem_of_cons in Hz as [->|Hz]; [apply Hxy; set_solver|].
      rewrite Forall_forall in Hy. by apply Hy.
    + assert (before s x y) as Hb by (apply Hxy; set_solver).
      constructor; [by constructor|]. constructor; [done|].
      eapply Forall_impl; [exact Hy|]. intros z Hz. by transitivity y.
Qed.

Lemma queued_insert s L x :
  queued s L -> is_Some (s !! x) -> F64.is_nan (time_of s x) = false -> 0 < uid_of s x ->
  (forall b, b ∈ L -> uid_of s b < uid_of s x) ->
  queued s (stable_insert (not_later s) x L).
Proof.
  intros [Hv Hs] Hx Hn Hp Hu. split.
  - intros a Ha. rewrite stable_insert_perm in Ha. apply elem_of_cons in Ha as [->|Ha]; [done|by apply Hv].
  - apply stable_insert_sorted; [done|]. intros y Hy. apply not_later_before; [|done|by apply Hu].
    by apply (Hv y Hy).
Qed.

(** The least element of a permutation is the head. *)
Lemma queued_head s L a :
  queued s L -> a ∈ L -> (forall b, b ∈ L -> b <> a -> before s a b) -> head L = Some a.
Proof.
  intros Hq Ha Hmin. destruct L as [|c L]; [set_solver|]. cbn. f_equal.
  apply elem_of_cons in Ha as [->|Ha]; [done|]. exfalso.
  apply queued_tail in Hq as Hc. destruct Hc as [_ Hc]. rewrite Forall_forall in Hc.
  pose proof (queued_nodup _ _ Hq) as Hd. apply NoDup_cons in Hd as [Hd _].
  apply (key_before_irrefl (key_of s a)). change (before s a a). transitivity c; [|by apply Hc].
  apply Hmin; set_solver.
Qed.

(** ** The invariant of the scheduler *)

Section Inv.
Context {Q : Type} `{EL : EventQueueLaws Q}.
Implicit Types (s : t Q) (L : list addr) (tr : trace).

Record sinv s L tr : Prop := {
  sinv_rep : eq_rep s.(events) s.(queue) L;
  sinv_queued : queued s.(events) L;
  sinv_clock : F64.is_nan s.(clock_) = false;
  sinv_future : forall a, a ∈ L -> F64.le s.(clock_) (time_of s.(events) a) = true;
  sinv_uid : 0 < s.(uid) < 2 ^ 63;
  sinv_fresh : forall a, uid_of s.(events) a < s.(uid);
  sinv_free : forall a, a ∉ L -> uid_of s.(events) a <= 0;
  sinv_handler : forall a ev, a ∈ L -> s.(events) !! a = Some ev -> is_Some ev.(handler_);
  sinv_trace : StronglySorted (fun x y => key_before y x) tr;
  sinv_last : forall k, k ∈ tr -> F64.le k.1 s.(clock_) = true /\ k.2 < s.(uid) /\
    forall a, a ∈ L -> key_before k (key_of s.(events) a)
}.

Lemma uid_of_insert (es : evs) a e b :
  uid_of (<[a := e]> es) b = if decide (b = a) then uid_ e else uid_of es b.
Proof.
  unfold uid_of. destruct (decide (b = a)) as [->|]; [by rewrite lookup_insert_eq|by rewrite lookup_insert_ne].
Qed.

(** An event that is not queued gets queued at its time; a queued one is
    refused. *)
Lemma schedule_ok s L tr h e ev delay n :
  sinv s L tr -> s.(events) !! e = Some ev -> eq_room s.(queue) (S n) ->
  F64.le s.(clock_) (F64.add s.(clock_) delay) = true -> uid s < 2 ^ 63 - 1 ->
  if 0 <? ev.(uid_) then schedule s (Some h) e delay = Err Abort
  else exists s', schedule s (Some h) e delay = Ok s' /\
    sinv s' (stable_insert (not_later s'.(events)) e L) tr /\
    s'.(clock_) = s.(clock_) /\ time_of s'.(events) e = F64.add s.(clock_) delay /\
    s'.(uid) = s.(uid) + 1 /\ eq_room s'.(queue) n /\ is_Some (s'.(events) !! e).
Proof.
  intros [Hr Hq Hc Hf Hu Hfr Hfree Hhd Htr Hlast] He Hrd Hd Hmax. unfold schedule. rewrite He. cbn [deref res_bind].
  destruct (Z.ltb_spec 0 (uid_ ev)) as [Hpos|Hpos]; [done|].
  replace (uid s <? 0) with false by (symmetry; apply Z.ltb_ge; lia).
  replace (uid s =? 2 ^ 63 - 1) with false by (symmetry; apply Z.eqb_neq; lia).
  set (ev' := ev <| uid_ := _ |> <| handler_ := _ |> <| time_ := _ |>). cbn.
  assert (e ∉ L) as HeL.
  { intros HeL. pose proof (proj2 (proj2 (queued_valid _ _ Hq e HeL))) as Hp.
    unfold uid_of in Hp. rewrite He in Hp. cbn in Hp. lia. }
  set (es := <[e := ev']> (events s)).
  assert (forall a, a ∈ L -> es !! a = events s !! a) as Hext
    by (intros a Ha; apply lookup_insert_ne; set_solver).
  assert (key_of es e = (F64.add (clock_ s) delay, uid s)) as Hke
    by (apply (key_of_Some es e ev'), lookup_insert_eq).
  assert (time_of es e = F64.add (clock_ s) delay) as Hte by (by injection Hke).
  assert (uid_of es e = uid s) as Hue by (by injection Hke).
  assert (F64.is_nan (time_of es e) = false) as Hnan.
  { rewrite Hte. by apply F64.le_spec in Hd as (_ & ? & _). }
  destruct (eq_insert_law es (queue s) L e n) as (q' & -> & Hr' & Hroom').
  - by apply (eq_rep_ext (events s)).
  - by apply (queued_ext (events s)).
  - done.
  - done.
  - exists ev'. apply lookup_insert_eq.
  - done.
  - lia.
  - intros b Hb. rewrite Hue, (key_of_uid (events s)) by (by apply key_of_ext, Hext). apply Hfr.
  - assert (is_Some (es !! e)) as Hse by (exists ev'; apply lookup_insert_eq).
    cbn. eexists. split; [done|]. split; [|by cbn]. cbn. fold es.
    assert (queued es (stable_insert (not_later es) e L)) as Hq'.
    { apply queued_insert; [by apply (queued_ext (events s))|exists ev'; apply lookup_insert_eq|done|lia|].
      intros b Hb. rewrite Hue, (key_of_uid (events s)) by (by apply key_of_ext, Hext). apply Hfr. }
    split; cbn; try done.
    + intros a Ha. rewrite stable_insert_perm in Ha. apply elem_of_cons in Ha as [->|Ha]; [by rewrite Hte|].
      rewrite (key_of_time (events s)) by (by apply key_of_ext, Hext). by apply Hf.
    + lia.
    + intros a. subst es. rewrite uid_of_insert. destruct (decide _); cbn; [lia|]. specialize (Hfr a). lia.
    + intros a Ha. rewrite stable_insert_perm in Ha. subst es. rewrite uid_of_insert.
      destruct (decide _); [set_solver|]. apply Hfree. set_solver.
    + intros a eva Ha Ea. rewrite stable_insert_perm in Ha. apply elem_of_cons in Ha as [->|Ha].
      * subst es. rewrite lookup_insert_eq in Ea. injection Ea as <-. by eexists.
      * rewrite (Hext a Ha) in Ea. by apply (Hhd a).
    + intros k Hk. destruct (Hlast k Hk) as (H1 & H2 & H3). split; [done|]. split; [lia|].
      intros a Ha. rewrite stable_insert_perm in Ha. apply elem_of_cons in Ha as [->|Ha].
      * rewrite Hke. pose proof (F64.le_trans _ _ _ H1 Hd) as Hle. rewrite F64.le_lt_or_eq in Hle.
        apply orb_true_iff in Hle as [Hle|Hle]; [by left|right; by split].
      * rewrite (key_of_ext (events s)) by (by apply Hext). by apply H3.
Qed.

Lemma uid_of_negate (es : evs) a b :
  uid_of (negate_uid es a) b = if decide (b = a) then - uid_of es a else uid_of es b.
Proof.
  unfold uid_of, negate_uid. destruct (decide (b = a)) as [->|].
  - rewrite lookup_alter_eq. by destruct (es !! a).
  - by rewrite lookup_alter_ne.
Qed.

(** Negating the uid of an event takes it out of the queued ones. *)
Lemma sinv_remove s L tr e q' :
  sinv s L tr -> e ∈ L -> eq_rep (negate_uid s.(events) e) q' (remove_one e L) ->
  sinv (s <| events := negate_uid s.(events) e |> <| queue := q' |>) (remove_one e L) tr.
Proof.
  intros [Hr Hq Hc Hf Hu Hfr Hfree Hhd Htr Hlast] He Hr'.
  pose proof (queued_nodup _ _ Hq) as Hd.
  assert (forall a, a ∈ remove_one e L -> a ∈ L /\ negate_uid (events s) e !! a = events s !! a) as Hext.
  { intros a Ha. apply elem_of_remove_one in Ha as [Hne Ha]; [|done]. split; [done|].
    by apply lookup_alter_ne. }
  assert (0 < uid_of (events s) e) as Hpos by (by apply (queued_valid _ _ Hq)).
  split; cbn; try done.
  - apply (queued_ext (events s)); [|by intros a Ha; apply Hext].
    eapply queued_sub; [done|]. apply remove_one_sublist.
  - intros a Ha. destruct (Hext a Ha) as [Ha' E].
    rewrite (key_of_time (events s)) by (by apply key_of_ext). by apply Hf.
  - intros a. rewrite uid_of_negate. destruct (decide _); [lia|apply Hfr].
  - intros a Ha. rewrite uid_of_negate. destruct (decide _) as [->|Hne]; [lia|].
    apply Hfree. rewrite elem_of_remove_one in Ha by done. tauto.
  - intros a eva Ha Ea. destruct (Hext a Ha) as [Ha' E]. rewrite E in Ea. by apply (Hhd a).
  - intros k Hk. destruct (Hlast k Hk) as (H1 & H2 & H3). split; [done|]. split; [done|].
    intros a Ha. destruct (Hext a Ha) as [Ha' E]. rewrite (key_of_ext (events s)) by done. by apply H3.
Qed.

Lemma cancel_ok s L tr e :
  sinv s L tr -> is_Some (s.(events) !! e) ->
  exists s', cancel s e = Ok s' /\ sinv s' (remove_one e L) tr /\ s'.(clock_) = s.(clock_) /\
    s'.(uid) = s.(uid) /\ (forall n, eq_room s.(queue) n -> eq_room s'.(queue) n) /\
    forall a, is_Some (s.(events) !! a) -> is_Some (s'.(events) !! a).
Proof.
  intros Hi He. pose proof Hi as [Hr Hq _ _ _ _ Hfree _ _ _].
  assert (0 < uid_of (events s) e -> e ∈ L) as Hin.
  { intros Hp. destruct (decide (e ∈ L)) as [|Hn]; [done|]. apply Hfree in Hn. lia. }
  destruct (eq_cancel_law (events s) (queue s) L e Hr Hq He Hin) as (es' & q' & E & Hroom & Hc).
  unfold cancel. rewrite E. cbn [res_bind]. eexists. split; [done|].
  assert (forall a, is_Some (events s !! a) -> is_Some (es' !! a)) as Hsome.
  { intros a Ha. destruct (0 <? _); destruct Hc as [-> _]; [|done]. by apply lookup_alter_is_Some. }
  split; [|by repeat split].
  destruct (Z.ltb_spec 0 (uid_of (events s) e)) as [Hp|Hp].
  - destruct Hc as [-> Hr']. apply sinv_remove; [done|by apply Hin|done].
  - destruct Hc as [-> Hr']. rewrite remove_one_not_in.
    + destruct Hi. by split.
    + intros HeL. pose proof (proj2 (proj2 (queued_valid _ _ Hq e HeL))). lia.
Qed.

(** Taking and dispatching the next event. *)
Lemma dispatch_ok s L tr :
  sinv s L tr ->
  exists q, eq_deque s.(events) s.(queue) = Ok (q, head L) /\
    (forall n, eq_room s.(queue) n -> eq_room q n) /\
    match L with
    | [] => sinv (s <| queue := q |>) [] tr
    | p :: L' =>
        exists ev h s', s.(events) !! p = Some ev /\
          dispatch (s <| queue := q |>) p ev.(time_) = Ok (s', h) /\
          sinv s' L' ((ev.(time_), ev.(uid_)) :: tr) /\
          F64.lt ev.(time_) s.(clock_) = false /\
          s' = s <| queue := q |> <| clock_ := ev.(time_) |>
                 <| events := <[p := ev <| uid_ := - ev.(uid_) |>]> s.(events) |>
    end.
Proof.
  intros [Hr Hq Hc Hf Hu Hfr Hfree Hhd Htr Hlast].
  destruct (eq_deque_law (events s) (queue s) L Hr Hq) as (q & E & Hr' & Hroom). exists q. split; [done|]. split; [done|].
  destruct L as [|p L]; cbn [head tail] in *; [by split|].
  destruct (queued_valid _ _ Hq p) as ([ev Hev] & Hnan & Hpos); [set_solver|].
  destruct (Hhd p ev) as [h Hh]; [set_solver|done|].
  pose proof (key_of_Some _ _ _ Hev) as Hk.
  assert (time_of (events s) p = ev.(time_)) as Ht by (by injection Hk).
  assert (uid_of (events s) p = ev.(uid_)) as Hup by (by injection Hk).
  assert (F64.lt (time_ ev) (clock_ s) = false) as Hlt.
  { rewrite <- Ht. apply not_true_iff_false. intros Hl. apply F64.lt_not_le in Hl.
    rewrite Hf in Hl; [done|set_solver]. }
  exists ev, h. unfold dispatch.
  change (clock_ (s <| queue := q |>)) with (clock_ s). rewrite Hlt.
  change (events (s <| queue := q |> <| clock_ := time_ ev |>)) with (events s).
  rewrite Hev. cbn [deref res_bind]. rewrite Hh. cbn [deref res_bind].
  eexists. split; [done|]. split; [done|]. split; [|by split].
  pose proof (queued_nodup _ _ Hq) as Hd. apply NoDup_cons in Hd as [HpL Hd].
  destruct (queued_tail _ _ _ Hq) as [HqL HpB]. rewrite Forall_forall in HpB.
  set (es := <[p := _]> (events s)).
  assert (forall a, a ∈ L -> es !! a = events s !! a) as Hext
    by (intros a Ha; apply lookup_insert_ne; set_solver).
  split; cbn; try done.
  - by apply (eq_rep_ext (events s)).
  - by apply (queued_ext (events s)).
  - by rewrite <- Ht.
  - intros a Ha. rewrite (key_of_time (events s)) by (by apply key_of_ext, Hext).
    rewrite <- Ht. destruct (HpB a Ha) as [Hb|[Hb _]]; cbn in Hb; [by apply F64.lt_le|by apply F64.eq_le].
  - intros a. subst es. rewrite uid_of_insert. destruct (decide _) as [->|]; cbn; [|apply Hfr]. lia.
  - intros a Ha. subst es. rewrite uid_of_insert. destruct (decide _); cbn; [lia|].
    apply Hfree. set_solver.
  - intros a eva Ha Ea. rewrite (Hext a Ha) in Ea. apply (Hhd a); [set_solver|done].
  - constructor; [done|]. apply Forall_forall. intros k Hk'.
    destruct (Hlast k Hk') as (_ & _ & H3). rewrite <- Hk. apply H3. set_solver.
  - intros k Hk'. apply elem_of_cons in Hk' as [->|Hk'].
    + cbn. split; [apply F64.le_refl; by rewrite <- Ht|]. split; [rewrite <- Hup; apply Hfr|].
      intros a Ha. rewrite (key_of_ext (events s)) by (by apply Hext). rewrite <- Hk. by apply HpB.
    + destruct (Hlast k Hk') as (H1 & H2 & H3). split; [|split; [done|]].
      * rewrite <- Ht. eapply F64.le_trans; [done|]. apply Hf. set_solver.
      * intros a Ha. rewrite (key_of_ext (events s)) by (by apply Hext). apply H3. set_solver.
Qed.

Lemma step_sinv w w' L :
  step w w' -> sinv w.1 L w.2 -> exists L', sinv w'.1 L' w'.2.
Proof.
  intros Hs Hi. destruct Hs as [s s' tr h e delay Hrd Hd E|s s' tr e He E|s tr b|s q s' tr p ev h Ed Ep E]; cbn in *.
  - destruct h as [h|]; [|done]. destruct (events s !! e) as [ev|] eqn:He.
    2: { unfold schedule in E. by rewrite He in E. }
    assert (uid s < 2 ^ 63 - 1) as Hm.
    { unfold schedule in E. rewrite He in E. cbn [deref res_bind] in E.
      destruct (0 <? _); [done|]. destruct (_ <? 0); [done|].
      destruct (Z.eqb_spec (uid s) (2 ^ 63 - 1)); [done|]. pose proof (sinv_uid _ _ _ Hi). lia. }
    pose proof (schedule_ok s L tr h e ev delay 0 Hi He Hrd Hd Hm) as Hok.
    destruct (0 <? uid_ ev); [congruence|]. destruct Hok as (s2 & E2 & Hi2 & _).
    rewrite E in E2. injection E2 as <-. by eexists.
  - destruct (cancel_ok s L tr e Hi He) as (s2 & E2 & Hi2 & _). rewrite E in E2. injection E2 as <-. by eexists.
  - exists L. destruct Hi. by split.
  - destruct (dispatch_ok s L tr Hi) as (q2 & E2 & _ & HL). rewrite Ed in E2. injection E2 as <- Hh.
    destruct L as [|p' L]; [done|]. injection Hh as <-.
    destruct HL as (ev2 & h2 & s2 & Ev2 & Es & Hi2 & _).
    rewrite Ep in Ev2. injection Ev2 as <-. pose proof (eq_trans (eq_sym E) Es) as Ee.
    injection Ee as <- _. by exists L.
Qed.
End Inv.
End SchedFacts.

(** * Properties *)

Module SchedProps.
Import Scheduler SchedFacts.

Section Props.
Context {Q : Type} `{EL : EventQueueLaws Q}.
Implicit Types (s : t Q) (L : list addr) (tr : trace).

(** Nothing is queued and nothing has happened. *)
Definition initial s : Prop :=
  eq_rep s.(events) s.(queue) [] /\ F64.is_nan s.(clock_) = false /\ 0 < s.(uid) < 2 ^ 63 /\
  forall a, uid_of s.(events) a <= 0.

Lemma initial_sinv s : initial s -> sinv s [] [].
Proof.
  intros (Hr & Hc & Hu & Hfree). split; try done; try set_solver.
  - split; [set_solver|constructor].
  - intros a. specialize (Hfree a). lia.
  - constructor.
Qed.

Lemma steps_sinv w w' L :
  rtc step w w' -> sinv w.1 L w.2 -> exists L', sinv w'.1 L' w'.2.
Proof.
  intros Hs. revert L. induction Hs as [w|w1 w2 w3 Hs _ IH]; intros L Hi; [by exists L|].
  destruct (step_sinv _ _ _ Hs Hi) as [L2 Hi2]. by apply (IH L2).
Qed.


(** Scheduling an event that is queued already aborts; any other event,
    with a handler and a delay that does not lead into the past, is queued at
    time [clock + delay], behind the events of the same time, and the order of
    the others is unchanged. *)
Theorem schedule_queues s L tr h e ev delay :
  sinv s L tr -> s.(events) !! e = Some ev -> eq_room s.(queue) 1 ->
  F64.le s.(clock_) (F64.add s.(clock_) delay) = true -> s.(uid) < 2 ^ 63 - 1 ->
  (e ∈ L -> schedule s (Some h) e delay = Err Abort) /\
  (e ∉ L -> exists s' L1 L2, schedule s (Some h) e delay = Ok s' /\ L = L1 ++ L2 /\
    sinv s' (L1 ++ e :: L2) tr /\ time_of s'.(events) e = F64.add s.(clock_) delay).
Proof.
  intros Hi He Hrd Hd Hm. pose proof (schedule_ok s L tr h e ev delay 0 Hi He Hrd Hd Hm) as Hok.
  assert (uid_of (events s) e = uid_ ev) as Hu by (unfold uid_of; by rewrite He). split; intros Hin.
  - pose proof (proj2 (proj2 (queued_valid _ _ (sinv_queued _ _ _ Hi) e Hin))) as Hp.
    rewrite Hu in Hp. by rewrite (proj2 (Z.ltb_lt _ _) Hp) in Hok.
  - pose proof (sinv_free _ _ _ Hi e Hin) as Hp. rewrite Hu in Hp.
    rewrite (proj2 (Z.ltb_ge _ _) Hp) in Hok. destruct Hok as (s' & E & Hi' & _ & Ht & _).
    destruct (stable_insert_ex (not_later (events s')) e L) as (L1 & L2 & -> & E2).
    rewrite E2 in Hi'. by exists s', L1, L2.
Qed.

(** What a handler may ask of the scheduler in state [s]. *)
Definition legal s (c : cmd) : Prop :=
  match c with
  | Schedule h e delay => is_Some h /\ is_Some (s.(events) !! e) /\ uid_of s.(events) e <= 0 /\
      eq_room s.(queue) 1 /\ F64.le s.(clock_) (F64.add s.(clock_) delay) = true /\
      s.(uid) < 2 ^ 63 - 1
  | Cancel e => is_Some (s.(events) !! e)
  | Halt => True
  end.

Fixpoint legal_all s (cs : list cmd) : Prop :=
  match cs with
  | [] => True
  | c :: cs => legal s c /\ forall s', exec s c = Ok s' -> legal_all s' cs
  end.

Lemma exec_ok s L tr c :
  sinv s L tr -> legal s c ->
  exists s' L', exec s c = Ok s' /\ sinv s' L' tr /\
    ((forall h e d, c <> Schedule h e d) -> (length L' <= length L)%nat).
Proof.
  intros Hi Hl. destruct c as [h e d|e|]; cbn in Hl |- *.
  - destruct Hl as ([h' ->] & [ev He] & Hu & Hrd & Hd & Hm).
    pose proof (schedule_ok s L tr h' e ev d 0 Hi He Hrd Hd Hm) as Hok.
    unfold uid_of in Hu. rewrite He in Hu. cbn in Hu. rewrite (proj2 (Z.ltb_ge _ _) Hu) in Hok.
    destruct Hok as (s' & E & Hi' & _). eexists s', _. split; [done|]. split; [done|].
    intros Hc. by destruct (Hc (Some h') e d).
  - destruct (cancel_ok s L tr e Hi Hl) as (s' & E & Hi' & _). eexists s', _. split; [done|].
    split; [done|]. intros _. apply sublist_length, remove_one_sublist.
  - eexists _, L. split; [done|]. split; [by destruct Hi; split|done].
Qed.

Lemma exec_all_ok s L tr cs :
  sinv s L tr -> legal_all s cs ->
  exists s' L', exec_all s cs = Ok s' /\ sinv s' L' tr /\
    ((forall h e d, Schedule h e d ∉ cs) -> (length L' <= length L)%nat).
Proof.
  revert s L. induction cs as [|c cs IH]; intros s L Hi Hl; cbn in *.
  { exists s, L. done. }
  destruct Hl as [Hc Hcs]. destruct (exec_ok s L tr c Hi Hc) as (s1 & L1 & E & Hi1 & Hn1).
  rewrite E. cbn [res_bind]. destruct (IH s1 L1 Hi1 (Hcs s1 E)) as (s2 & L2 & E2 & Hi2 & Hn2).
  exists s2, L2. split; [done|]. split; [done|]. intros Hno. etrans.
  - apply Hn2. intros h e d Hin. apply (Hno h e d). set_solver.
  - apply Hn1. intros h e d ->. apply (Hno h e d). set_solver.
Qed.

Section Run.
Context (handle : positive -> addr -> t Q -> list cmd).
Context (Hlegal : forall s L tr h p, sinv s L tr -> legal_all s (handle h p s)).

(** One turn of the main loop. *)
Lemma run_cases s L tr fuel :
  sinv s L tr ->
  if s.(halted_) then run handle fuel s = Ok (s, [])
  else match L with
  | [] => exists s', run handle fuel s = Ok (s', []) /\ sinv s' [] tr
  | p :: L' =>
      match fuel with
      | O => run handle fuel s = Err Fuel
      | S fuel => exists s1 L1 k,
          run handle (S fuel) s = (let! (s2, ps) := run handle fuel s1 in Ok (s2, p :: ps)) /\
          sinv s1 L1 (k :: tr) /\ k = key_of s.(events) p /\
          ((forall h q s h' e d, Schedule h' e d ∉ handle h q s) -> (length L1 <= length L')%nat)
      end
  end.
Proof.
  intros Hi. destruct (dispatch_ok s L tr Hi) as (q & E & _ & HL).
  destruct fuel as [|fuel]; cbn [run]; destruct (halted_ s); try done; rewrite E; cbn [res_bind];
    destruct L as [|p L']; cbn [head]; try done; try by eexists.
  destruct HL as (ev & h & s1 & Hev & Ed & Hi1 & _).
  change (events (s <| queue := q |>)) with (events s). rewrite Hev. cbn [deref res_bind].
  rewrite Ed. cbn [res_bind].
  destruct (exec_all_ok s1 L' _ (handle h p s1) Hi1) as (s2 & L2 & E2 & Hi2 & Hn); [by eapply Hlegal|].
  rewrite E2. cbn [res_bind]. eexists s2, L2, _. split; [done|]. split; [exact Hi2|].
  split; [by rewrite (key_of_Some _ _ _ Hev)|]. intros Hno. apply Hn. intros h' e d. apply Hno.
Qed.

Lemma run_ok fuel s L tr :
  sinv s L tr ->
  run handle fuel s = Err Fuel \/
  exists s' ps L' ks, run handle fuel s = Ok (s', ps) /\ sinv s' L' (ks ++ tr) /\
    length ks = length ps /\ (s'.(halted_) = true \/ L' = []).
Proof.
  revert s L tr. induction fuel as [|fuel IH]; intros s L tr Hi.
  - pose proof (run_cases s L tr 0 Hi) as Hc. destruct (halted_ s) eqn:Hh.
    + right. exists s, [], L, []. by split; [|split; [|split; [|left]]].
    + destruct L as [|p L']; [|by left]. destruct Hc as (s' & E & Hi'). right.
      exists s', [], [], []. by split; [|split; [|split; [|right]]].
  - pose proof (run_cases s L tr (S fuel) Hi) as Hc. destruct (halted_ s) eqn:Hh.
    + right. exists s, [], L, []. by split; [|split; [|split; [|left]]].
    + destruct L as [|p L'].
      * destruct Hc as (s' & E & Hi'). right. exists s', [], [], []. by split; [|split; [|split; [|right]]].
      * destruct Hc as (s1 & L1 & k & E & Hi1 & _). rewrite E.
        destruct (IH s1 L1 _ Hi1) as [->|(s2 & ps & L2 & ks & -> & Hi2 & Hlen & Hend)]; [by left|].
        right. exists s2, (p :: ps), L2, (ks ++ [k]). split; [done|]. rewrite <- app_assoc.
        split; [done|]. split; [|done]. rewrite length_app. cbn. lia.
Qed.

Lemma run_enough fuel s L tr :
  (forall h q s h' e d, Schedule h' e d ∉ handle h q s) ->
  sinv s L tr -> (length L <= fuel)%nat -> run handle fuel s <> Err Fuel.
Proof.
  intros Hno. revert s L tr. induction fuel as [|fuel IH]; intros s L tr Hi Hf.
  - pose proof (run_cases s L tr 0 Hi) as Hc. destruct (halted_ s); [by rewrite Hc|].
    destruct L as [|p L']; [|cbn in Hf; lia]. destruct Hc as (s' & E & _). by rewrite E.
  - pose proof (run_cases s L tr (S fuel) Hi) as Hc. destruct (halted_ s); [by rewrite Hc|].
    destruct L as [|p L']; [destruct Hc as (s' & E & _); by rewrite E|].
    destruct Hc as (s1 & L1 & k & E & Hi1 & _ & Hn). rewrite E. cbn in Hf.
    assert (run handle fuel s1 <> Err Fuel) as Hr.
    { apply (IH s1 L1 _ Hi1). specialize (Hn Hno). lia. }
    destruct (run handle fuel s1) as [[s2 ps]|e]; [done|]. cbn. congruence.
Qed.

(** C22: [run] never aborts.  If the handlers only ask for legal operations, the
    main loop ends (with enough fuel) because it was halted or because no event
    is left, having dispatched its events in strictly increasing order of time
    and scheduling. *)
Theorem run_safe fuel s L tr :
  sinv s L tr ->
  run handle fuel s = Err Fuel \/
  exists s' ps ks L', run handle fuel s = Ok (s', ps) /\ length ks = length ps /\
    StronglySorted key_before (rev (ks ++ tr)) /\ sinv s' L' (ks ++ tr) /\
    (s'.(halted_) = true \/ L' = []).
Proof.
  intros Hi. destruct (run_ok fuel s L tr Hi) as [E|(s' & ps & L' & ks & E & Hi' & Hl & He)]; [by left|].
  right. exists s', ps, ks, L'. split; [done|]. split; [done|]. split; [|done].
  apply StronglySorted_rev, (sinv_trace _ _ _ Hi').
Qed.

(** A simulation whose handlers schedule nothing more terminates: as many
    turns as there are queued events suffice, and at the end the queue is
    empty or the scheduler halted. *)
Theorem run_terminates s L tr :
  (forall h q s h' e d, Schedule h' e d ∉ handle h q s) ->
  sinv s L tr ->
  exists s' ps L' tr', run handle (length L) s = Ok (s', ps) /\ sinv s' L' tr' /\
    (s'.(halted_) = true \/ L' = []).
Proof.
  intros Hno Hi. pose proof (run_enough (length L) s L tr Hno Hi (Nat.le_refl _)) as Hf.
  destruct (run_ok (length L) s L tr Hi) as [E|(s' & ps & L' & ks & E & Hi' & Hl & He)]; [done|].
  by exists s', ps, L', (ks ++ tr).
Qed.
End Run.
End Props.
End SchedProps.
