(* ===== verification/ListSched.v ===== *)
(** * The list scheduler

    [ListScheduler] (src/ns2/common/scheduler.cc): the queue is a linked list
    in dispatch order, given here as the list of its events.  It is the
    reference implementation of [EventQueue]. *)

From Stdlib Require Import ZArith Lia Bool Sorted SpecFloat.
From stdpp Require Import base list gmap.
From S2P Require Import Prelude F64 PktQueue Sched.

Module ListScheduler.

Record t := mk { queue_ : list addr }.

#[global] Instance eta_t : Eta t := fun q => mk (queue_ q).

Definition create : t := mk [].

(** The loop stops at the first event later than [e]. *)
Fixpoint insert_loop (s : evs) (time : f64) (e : addr) (l : list addr) : res (list addr) :=
  match l with
  | [] => Ok [e]
  | p :: l' =>
      let! ev := deref (s !! p) in
      if F64.lt time ev.(time_) then Ok (e :: l)
      else let! r := insert_loop s time e l' in Ok (p :: r)
  end.

Definition insert (s : evs) (q : t) (e : addr) : res t :=
  let! ev := deref (s !! e) in
  let! l := insert_loop s ev.(time_) e q.(queue_) in
  Ok (q <| queue_ := l |>).

Fixpoint cancel_loop (e : addr) (l : list addr) : res (list addr) :=
  match l with
  | [] => Err Abort
  | p :: l' => if decide (p = e) then Ok l' else let! r := cancel_loop e l' in Ok (p :: r)
  end.

Definition cancel (s : evs) (q : t) (e : addr) : res (evs * t) :=
  let! ev := deref (s !! e) in
  if ev.(uid_) <=? 0 then Ok (s, q)   (* event not in queue *)
  else
    let! l := cancel_loop e q.(queue_) in
    Ok (<[e := ev <| uid_ := - ev.(uid_) |>]> s, q <| queue_ := l |>).

Fixpoint lookup_loop (s : evs) (uid : Z) (l : list addr) : res (option addr) :=
  match l with
  | [] => Ok None
  | e :: l' =>
      let! ev := deref (s !! e) in
      if ev.(uid_) =? uid then Ok (Some e) else lookup_loop s uid l'
  end.

Definition lookup (s : evs) (q : t) (uid : Z) : res (t * option addr) :=
  let! r := lookup_loop s uid q.(queue_) in Ok (q, r).

Definition deque (q : t) : t * option addr :=
  match q.(queue_) with
  | [] => (q, None)
  | e :: l => (q <| queue_ := l |>, Some e)
  end.

Definition head (q : t) : option addr := list.head q.(queue_).

End ListScheduler.

#[export] Instance ListScheduler_queue : EventQueue ListScheduler.t := {
  eq_insert := ListScheduler.insert;
  eq_cancel := ListScheduler.cancel;
  eq_deque _ q := Ok (ListScheduler.deque q);
  eq_head _ q := Ok (q, ListScheduler.head q);
  eq_lookup := ListScheduler.lookup
}.

(** * Facts *)

Lemma time_of_Some (s : evs) a e : s !! a = Some e -> time_of s a = e.(time_).
Proof. unfold time_of. by intros ->. Qed.

Lemma uid_of_Some (s : evs) a e : s !! a = Some e -> uid_of s a = e.(uid_).
Proof. unfold uid_of. by intros ->. Qed.

Lemma negate_uid_Some (s : evs) a e :
  s !! a = Some e -> <[a := e <| uid_ := - e.(uid_) |>]> s = negate_uid s a.
Proof.
  intros Ha. apply map_eq. intros b. unfold negate_uid. destruct (decide (b = a)) as [->|Hne].
  - by rewrite lookup_insert_eq, lookup_alter_eq, Ha.
  - by rewrite lookup_insert_ne, lookup_alter_ne.
Qed.

Module ListFacts.
Import ListScheduler.

Lemma list_insert_loop_ok s e l :
  (forall a, a ∈ l -> is_Some (s !! a)) ->
  insert_loop s (time_of s e) e l = Ok (stable_insert (not_later s) e l).
Proof.
  induction l as [|p l IH]; intros Hv; cbn; [done|].
  destruct (Hv p) as [ev Hp]; [set_solver|]. rewrite Hp. cbn.
  unfold not_later at 1. rewrite (time_of_Some _ _ _ Hp).
  destruct (F64.lt (time_of s e) (time_ ev)); cbn; [done|]. by rewrite IH by set_solver.
Qed.

Lemma list_cancel_loop_ok e l : e ∈ l -> cancel_loop e l = Ok (remove_one e l).
Proof.
  induction l as [|p l IH]; cbn; intros He; [set_solver|].
  destruct (decide (p = e)); [done|]. by rewrite IH by set_solver.
Qed.

Lemma list_lookup_loop_ok s u l :
  (forall a, a ∈ l -> is_Some (s !! a)) ->
  exists r, lookup_loop s u l = Ok r /\
    match r with
    | Some a => a ∈ l /\ uid_of s a = u
    | None => Forall (fun a => uid_of s a <> u) l
    end.
Proof.
  induction l as [|p l IH]; intros Hv; cbn; [by exists None|].
  destruct (Hv p) as [ev Hp]; [set_solver|]. rewrite Hp. cbn.
  destruct (Z.eqb_spec (uid_ ev) u) as [E|E].
  - exists (Some p). split; [done|]. split; [set_solver|]. by rewrite (uid_of_Some _ _ _ Hp).
  - destruct IH as (r & -> & Hr); [set_solver|]. exists r. split; [done|].
    destruct r as [a|]; [set_solver|]. constructor; [|done]. by rewrite (uid_of_Some _ _ _ Hp).
Qed.
End ListFacts.

#[export] Instance ListScheduler_laws : EventQueueLaws ListScheduler.t.
Proof.
  exists (fun _ q L => q = ListScheduler.mk L) (fun _ _ => True); cbn.
  - done.
  - done.
  - intros s q L a n -> Hq _ Ha [ev Hv] _ _ _. unfold ListScheduler.insert. rewrite Hv. cbn.
    rewrite <- (time_of_Some _ _ _ Hv), ListFacts.list_insert_loop_ok; [by eexists|].
    intros b Hb. by apply (queued_valid _ _ Hq).
  - intros s q L a -> Hq [ev Hv] Hin. unfold ListScheduler.cancel. rewrite Hv. cbn.
    rewrite (uid_of_Some _ _ _ Hv) in *. destruct (Z.leb_spec (uid_ ev) 0) as [Hu|Hu].
    + rewrite (proj2 (Z.ltb_ge _ _) Hu). by eexists _, _.
    + rewrite (proj2 (Z.ltb_lt _ _) Hu), ListFacts.list_cancel_loop_ok by auto. cbn.
      eexists _, _. split; [done|]. split; [done|]. split; [|done]. by apply negate_uid_Some.
  - intros s q L -> _. destruct L; cbn; by eexists.
  - intros s q L -> _. by eexists.
  - intros s q L u -> Hq. destruct (ListFacts.list_lookup_loop_ok s u L) as (r & E & Hr).
    { intros b Hb. by apply (queued_valid _ _ Hq). }
    exists (ListScheduler.mk L), r. unfold ListScheduler.lookup. cbn. by rewrite E.
Defined.

(** * Properties *)

Module ListProps.
Import ListScheduler.

(** Cancelling an event that has a uid but is not in the list aborts; an
    event in the list is removed, leaving the others in order. *)
Theorem list_cancel s q e ev :
  s !! e = Some ev -> 0 < ev.(uid_) ->
  cancel s q e =
    if decide (e ∈ q.(queue_))
    then Ok (negate_uid s e, mk (remove_one e q.(queue_)))
    else Err Abort.
Proof.
  intros He Hu. unfold cancel. rewrite He. cbn. rewrite (proj2 (Z.leb_gt _ _) Hu).
  destruct (decide (e ∈ queue_ q)) as [Hin|Hin].
  - rewrite ListFacts.list_cancel_loop_ok by done. rewrite <- (negate_uid_Some _ _ _ He). done.
  - assert (cancel_loop e (queue_ q) = Err Abort) as ->; [|done].
    induction (queue_ q) as [|p l IH]; cbn; [done|].
    rewrite decide_False by set_solver. rewrite IH by set_solver. done.
Qed.
End ListProps.

(** * Witnesses

    Events 1 (time 2) and 2 (time 3) are queued, 3 and 4 are idle. *)

Module ListWitness.
Import Scheduler SchedFacts SchedProps.

(** Bounds on all uids of a concrete memory. *)
Lemma uid_of_all (s : evs) (P : addr -> Z -> Prop) a :
  (forall b, P b 0) -> map_Forall (fun b e => P b (uid_ e)) s -> P a (uid_of s a).
Proof.
  intros H0 Hall. unfold uid_of. destruct (s !! a) as [e|] eqn:Ha; [|apply H0]. by apply (Hall a e).
Qed.

Definition demo_events : evs :=
  {[ 1%positive := mkEvent (Some 1%positive) (F64.of_Z 2) 1;
     2%positive := mkEvent (Some 1%positive) (F64.of_Z 3) 2;
     3%positive := mkEvent None F64.zero 0;
     4%positive := mkEvent None F64.zero (-7) ]}.

Definition demo : t ListScheduler.t :=
  mk demo_events (ListScheduler.mk [1%positive; 2%positive]) (F64.of_Z 1) false 3.

Lemma demo_sinv : sinv demo [1%positive; 2%positive] [].
Proof.
  split; cbn [events queue clock_ uid demo].
  - reflexivity.
  - split.
    + intros a Ha. apply elem_of_cons in Ha as [->|Ha%list_elem_of_singleton]; [|subst a];
        (split; [by eexists|by split]).
    + repeat constructor.
  - reflexivity.
  - intros a Ha. apply elem_of_cons in Ha as [->|Ha%list_elem_of_singleton]; [|subst a]; reflexivity.
  - done.
  - intros a. apply (uid_of_all demo_events (fun _ u => u < 3)); [done|].
    apply (bool_decide_unpack _). vm_compute. exact I.
  - intros a Ha. revert Ha.
    apply (uid_of_all demo_events (fun b u => b ∉ [1%positive; 2%positive] -> u <= 0)); [done|].
    apply map_Forall_to_list.
    repeat (apply Forall_cons; split; [cbn; first [lia|set_solver]|]). apply Forall_nil. exact I.
  - intros a ev Ha. apply elem_of_cons in Ha as [->|Ha%list_elem_of_singleton]; [|subst a];
      vm_compute; intros [= <-]; by eexists.
  - constructor.
  - intros k Hk. inversion Hk.
Qed.

Definition idle_events : evs := {[ 3%positive := new_event; 4%positive := new_event ]}.

Definition idle : t ListScheduler.t := create idle_events ListScheduler.create.

(** Event 3 is scheduled, cancelled and scheduled again, then dispatched. *)
Definition idle_run : res (t ListScheduler.t) :=
  exec_all idle [Schedule (Some 1%positive) 3%positive (F64.of_Z 5); Cancel 3%positive;
                 Schedule (Some 1%positive) 3%positive (F64.of_Z 4)].


Lemma schedule_queues_witness :
  (3%positive ∈ [1%positive; 2%positive] ->
    schedule demo (Some 1%positive) 3%positive (F64.of_Z 1) = Err Abort) /\
  (3%positive ∉ [1%positive; 2%positive] ->
    exists s' L1 L2, schedule demo (Some 1%positive) 3%positive (F64.of_Z 1) = Ok s' /\
      [1%positive; 2%positive] = L1 ++ L2 /\ sinv s' (L1 ++ 3%positive :: L2) [] /\
      time_of s'.(events) 3%positive = F64.add (F64.of_Z 1) (F64.of_Z 1)).
Proof.
  apply (schedule_queues demo [1%positive; 2%positive] [] 1%positive 3%positive
    (mkEvent None F64.zero 0) (F64.of_Z 1)).
  - exact demo_sinv.
  - reflexivity.
  - exact I.
  - reflexivity.
  - reflexivity.
Defined.

(** Handlers of which the one called for event 2 halts the simulation. *)
Definition demo_handle (h : positive) (p : addr) (s : t ListScheduler.t) : list cmd :=
  if decide (p = 2%positive) then [Halt] else [].

Lemma demo_legal (s : t ListScheduler.t) L tr h p :
  sinv s L tr -> legal_all s (demo_handle h p s).
Proof. intros _. unfold demo_handle. by destruct (decide _). Qed.

Lemma run_safe_witness :
  run demo_handle 5 demo = Err Fuel \/
  exists s' ps ks L', run demo_handle 5 demo = Ok (s', ps) /\ length ks = length ps /\
    StronglySorted key_before (rev (ks ++ [])) /\ sinv s' L' (ks ++ []) /\
    (s'.(halted_) = true \/ L' = []).
Proof.
  apply (run_safe demo_handle demo_legal 5 demo [1%positive; 2%positive] []).
  exact demo_sinv.
Defined.

Lemma run_terminates_witness :
  exists s' ps L' tr', run demo_handle 2 demo = Ok (s', ps) /\ sinv s' L' tr' /\
    (s'.(halted_) = true \/ L' = []).
Proof.
  apply (run_terminates demo_handle demo_legal demo [1%positive; 2%positive] []).
  - intros h q s h' e d. unfold demo_handle. destruct (decide _); set_solver.
  - exact demo_sinv.
Defined.

Lemma list_cancel_witness :
  ListScheduler.cancel demo_events (ListScheduler.mk [1%positive; 2%positive]) 2%positive =
    Ok (negate_uid demo_events 2%positive, ListScheduler.mk [1%positive]).
Proof.
  apply (ListProps.list_cancel demo_events (ListScheduler.mk [1%positive; 2%positive]) 2%positive
    (mkEvent (Some 1%positive) (F64.of_Z 3) 2)).
  - reflexivity.
  - reflexivity.
Defined.
End ListWitness.
