(* ===== verification/QueueEquiv.v ===== *)
(** * The choice of event queue does not matter

    A simulation gives the same run with every implementation of [EventQueue]:
    the reference is the list scheduler.  Handlers see the events and the
    clock, not the queue.  A queue may keep its contract only while certain
    tests on its state succeed ([GuardedLaws], for the calendar scheduler); the
    run is the same if they succeed at each operation. *)

From Stdlib Require Import ZArith Lia Bool Sorted SpecFloat.
From stdpp Require Import base list gmap.
From S2P Require Import Prelude F64 PktQueue Sched ListSched.

Module QueueEquiv.
Import Scheduler SchedFacts.

(** A program: the operations each handler performs. *)
Definition program := positive -> addr -> evs -> f64 -> list cmd.

Definition handle_of {Q} (prog : program) (h : positive) (p : addr) (s : t Q) : list cmd :=
  prog h p s.(events) s.(clock_).

(** No event is scheduled at a time that is not a number. *)
Definition sane (prog : program) : Prop :=
  forall h p es c h' e d, F64.is_nan c = false -> Schedule h' e d ∈ prog h p es c ->
    F64.is_nan (F64.add c d) = false.

(** The contract of a queue whose insert and deque are guarded by tests. *)
Class GuardedLaws (Q : Type) `{EventQueue Q} := {
  gq_rep : evs -> Q -> list addr -> Prop;
  gq_room : Q -> nat -> Prop;
  gq_may_insert : evs -> Q -> addr -> bool;
  gq_may_deque : evs -> Q -> bool;
  gq_rep_ext s s' q L :
    gq_rep s q L -> (forall a, a ∈ L -> s' !! a = s !! a) -> gq_rep s' q L;
  gq_insert_law s q L a n :
    gq_rep s q L -> queued s L -> gq_room q (S n) -> a ∉ L -> is_Some (s !! a) ->
    F64.is_nan (time_of s a) = false -> 0 < uid_of s a ->
    (forall b, b ∈ L -> uid_of s b < uid_of s a) -> gq_may_insert s q a = true ->
    exists q', eq_insert s q a = Ok q' /\ gq_rep s q' (stable_insert (not_later s) a L) /\ gq_room q' n;
  gq_cancel_law s q L a :
    gq_rep s q L -> queued s L -> is_Some (s !! a) -> (0 < uid_of s a -> a ∈ L) ->
    exists s' q', eq_cancel s q a = Ok (s', q') /\ (forall n, gq_room q n -> gq_room q' n) /\
      if 0 <? uid_of s a
      then s' = negate_uid s a /\ gq_rep s' q' (remove_one a L)
      else s' = s /\ gq_rep s' q' L;
  gq_deque_law s q L :
    gq_rep s q L -> queued s L -> gq_may_deque s q = true ->
    exists q', eq_deque s q = Ok (q', head L) /\ gq_rep s q' (tail L) /\
      (forall n, gq_room q n -> gq_room q' n)
}.

(** A queue that keeps the contract without tests. *)
Definition unguarded {Q : Type} `{EL : EventQueueLaws Q} : GuardedLaws Q.
Proof.
  exists eq_rep eq_room (fun _ _ _ => true) (fun _ _ => true).
  - exact eq_rep_ext.
  - intros. by apply eq_insert_law.
  - exact eq_cancel_law.
  - intros s q L Hr Hq _. by apply eq_deque_law.
Defined.

Section Equiv.
Context {Q : Type} `{EL : GuardedLaws Q}.
Implicit Types (L : list addr).

(** The tests along a run. *)
Definition exec_may (s : t Q) (c : cmd) : bool :=
  match c with
  | Schedule h e delay =>
      match s.(events) !! e with
      | Some ev =>
          let ev := ev <| uid_ := s.(uid) |> <| handler_ := h |> <| time_ := F64.add s.(clock_) delay |> in
          gq_may_insert (<[e := ev]> s.(events)) s.(queue) e
      | None => true
      end
  | _ => true
  end.

Fixpoint exec_all_may (s : t Q) (cs : list cmd) : bool :=
  match cs with
  | [] => true
  | c :: cs => exec_may s c && match exec s c with Ok s => exec_all_may s cs | Err _ => true end
  end.

Fixpoint run_may (prog : program) (fuel : nat) (s : t Q) : bool :=
  if s.(halted_) then true
  else
    gq_may_deque s.(events) s.(queue) &&
    match eq_deque s.(events) s.(queue) with
    | Ok (q, Some p) =>
        let s := s <| queue := q |> in
        match fuel, s.(events) !! p with
        | S fuel, Some ev =>
            match dispatch s p ev.(time_) with
            | Ok (s, h) =>
                exec_all_may s (handle_of prog h p s) &&
                match exec_all s (handle_of prog h p s) with Ok s => run_may prog fuel s | Err _ => true end
            | Err _ => true
            end
        | _, _ => true
        end
    | _ => true
    end.

(** The two schedulers hold the same events in the same order. *)
Record matches (s1 : t Q) (s2 : t ListScheduler.t) L : Prop := {
  m_events : s1.(events) = s2.(events);
  m_clock : s1.(clock_) = s2.(clock_);
  m_halted : s1.(halted_) = s2.(halted_);
  m_uid : s1.(uid) = s2.(uid);
  m_list : s2.(queue) = ListScheduler.mk L;
  m_rep : gq_rep s2.(events) s1.(queue) L;
  m_queued : queued s2.(events) L;
  m_num : F64.is_nan s2.(clock_) = false;
  m_pos : 0 < s2.(uid);
  m_fresh : forall a, uid_of s2.(events) a < s2.(uid);
  m_free : forall a, a ∉ L -> uid_of s2.(events) a <= 0
}.

Lemma matches_schedule (s1 : t Q) (s2 s2' : t ListScheduler.t) L h e d n :
  matches s1 s2 L -> schedule s2 h e d = Ok s2' -> F64.is_nan (F64.add s2.(clock_) d) = false ->
  gq_room s1.(queue) (S n) -> exec_may s1 (Schedule h e d) = true ->
  exists s1' L', schedule s1 h e d = Ok s1' /\ matches s1' s2' L' /\ gq_room s1'.(queue) n /\
    s2'.(uid) = s2.(uid) + 1.
Proof.
  intros [Me Mc Mh Mu Ml Mr Mq Mn Mp Mf Mfree] E Hnan Hroom Hmay. unfold schedule, exec_may in *.
  destruct h as [h|]; [|done]. rewrite Me, Mc, Mu in *.
  destruct (events s2 !! e) as [ev|] eqn:He; [|done]. cbn [deref res_bind] in *.
  destruct (Z.ltb_spec 0 (uid_ ev)) as [Hpos|Hpos]; [done|].
  destruct (uid s2 <? 0); [done|]. destruct (uid s2 =? 2 ^ 63 - 1); [done|].
  set (ev' := ev <| uid_ := _ |> <| handler_ := _ |> <| time_ := _ |>) in *. cbn in E |- *.
  set (es := <[e := ev']> (events s2)) in *.
  assert (e ∉ L) as HeL.
  { intros HeL. pose proof (proj2 (proj2 (queued_valid _ _ Mq e HeL))) as Hp.
    rewrite (uid_of_Some _ _ _ He) in Hp. lia. }
  assert (forall a, a ∈ L -> es !! a = events s2 !! a) as Hext
    by (intros a Ha; apply lookup_insert_ne; set_solver).
  assert (key_of es e = (F64.add (clock_ s2) d, uid s2)) as Hke
    by (apply (key_of_Some es e ev'), lookup_insert_eq).
  assert (time_of es e = F64.add (clock_ s2) d) as Hte by (by injection Hke).
  assert (uid_of es e = uid s2) as Hue by (by injection Hke).
  assert (forall b, b ∈ L -> uid_of es b < uid_of es e) as Hlast.
  { intros b Hb. rewrite Hue, (key_of_uid (events s2)) by (by apply key_of_ext, Hext). apply Mf. }
  assert (is_Some (es !! e)) as Hse by (exists ev'; apply lookup_insert_eq).
  assert (queued es L) as Hq by (by apply (queued_ext (events s2))).
  destruct (gq_insert_law es (queue s1) L e n) as (q' & -> & Hr' & Hroom');
    [by apply (gq_rep_ext (events s2))|done|done|done|done|by rewrite Hte|lia|done|exact Hmay|].
  destruct (eq_insert_law (EventQueueLaws := ListScheduler_laws) es (ListScheduler.mk L) L e n)
    as (q2 & E2 & Hr2 & _); [done|done|done|done|done|by rewrite Hte|lia|done|].
  rewrite Ml in E. apply res_bind_Ok in E as (q3 & E3 & E).
  assert (q3 = q2) as -> by (enough (Ok q3 = Ok q2) by congruence; rewrite <- E3, <- E2; reflexivity).
  injection E as <-. cbn.
  eexists _, _. split; [done|]. split; [|done]. cbn. fold es.
  split; cbn; try done; try congruence.
  - apply queued_insert; [done|done|by rewrite Hte|lia|done].
  - lia.
  - intros a. subst es. rewrite uid_of_insert. destruct (decide _); cbn; [lia|]. specialize (Mf a). lia.
  - intros a Ha. rewrite stable_insert_perm in Ha. subst es. rewrite uid_of_insert.
    destruct (decide _); [set_solver|]. apply Mfree. set_solver.
Qed.

Lemma matches_cancel (s1 : t Q) (s2 s2' : t ListScheduler.t) L e :
  matches s1 s2 L -> cancel s2 e = Ok s2' ->
  exists s1' L', cancel s1 e = Ok s1' /\ matches s1' s2' L' /\
    (forall n, gq_room s1.(queue) n -> gq_room s1'.(queue) n) /\ s2'.(uid) = s2.(uid).
Proof.
  intros [Me Mc Mh Mu Ml Mr Mq Mn Mp Mf Mfree] E. unfold cancel in *. rewrite Me.
  assert (is_Some (events s2 !! e)) as He.
  { destruct (events s2 !! e) eqn:He; [by eexists|]. unfold eq_cancel in E. cbn in E.
    unfold ListScheduler.cancel in E. by rewrite He in E. }
  assert (0 < uid_of (events s2) e -> e ∈ L) as Hin.
  { intros Hp. destruct (decide (e ∈ L)) as [|Hn]; [done|]. apply Mfree in Hn. lia. }
  destruct (gq_cancel_law (events s2) (queue s1) L e Mr Mq He Hin) as (es' & q' & -> & Hroom & Hc).
  destruct (eq_cancel_law (EventQueueLaws := ListScheduler_laws) (events s2) (ListScheduler.mk L) L e
    eq_refl Mq He Hin) as (es2 & q2 & E2 & _ & Hc2).
  rewrite Ml in E. rewrite E2 in E. cbn in E. injection E as <-. cbn [res_bind].
  pose proof (queued_nodup _ _ Mq) as Hd.
  destruct (Z.ltb_spec 0 (uid_of (events s2) e)) as [Hp|Hp].
  - destruct Hc as [-> Hr']. destruct Hc2 as [-> Hr2]. cbn in Hr2. subst q2.
    eexists _, (remove_one e L). split; [done|]. split; [|done].
    assert (forall a, a ∈ remove_one e L -> a ∈ L /\ negate_uid (events s2) e !! a = events s2 !! a) as Hext.
    { intros a Ha. apply elem_of_remove_one in Ha as [Hne Ha]; [|done]. split; [done|].
      by apply lookup_alter_ne. }
    split; cbn; try done.
    + apply (queued_ext (events s2)); [|by intros a Ha; apply Hext].
      eapply queued_sub; [done|]. apply remove_one_sublist.
    + intros a. rewrite uid_of_negate. destruct (decide _); [lia|apply Mf].
    + intros a Ha. rewrite uid_of_negate. destruct (decide _) as [->|Hne]; [lia|].
      apply Mfree. rewrite elem_of_remove_one in Ha by done. tauto.
  - destruct Hc as [-> Hr']. destruct Hc2 as [-> Hr2]. cbn in Hr2. subst q2.
    eexists _, L. split; [done|]. split; [|done]. by split.
Qed.

Lemma matches_exec (s1 : t Q) (s2 s2' : t ListScheduler.t) L c n :
  matches s1 s2 L -> exec s2 c = Ok s2' ->
  (forall h e d, c = Schedule h e d -> F64.is_nan (F64.add s2.(clock_) d) = false) ->
  gq_room s1.(queue) (Z.to_nat (s2'.(uid) - s2.(uid)) + n) -> exec_may s1 c = true ->
  s2.(uid) <= s2'.(uid) /\ s2'.(clock_) = s2.(clock_) /\
  exists s1' L', exec s1 c = Ok s1' /\ matches s1' s2' L' /\ gq_room s1'.(queue) n.
Proof.
  intros Hm E Hnan Hroom Hmay. destruct c as [h e d|e|]; cbn [exec] in *.
  - assert (s2'.(uid) = s2.(uid) + 1 /\ s2'.(clock_) = s2.(clock_)) as [Hu Hc].
    { unfold schedule in E. destruct h; [|done]. destruct (events s2 !! e); [|done]. cbn in E.
      destruct (0 <? _); [done|]. destruct (_ <? 0); [done|]. destruct (_ =? _); [done|]. cbn in E.
      apply res_bind_Ok in E as (q & _ & E). by injection E as <-. }
    split; [lia|]. split; [done|].
    destruct (matches_schedule s1 s2 s2' L h e d n Hm E) as (s1' & L' & E1 & Hm' & Hr & _);
      [by eapply Hnan| |exact Hmay|by eauto].
    rewrite Hu in Hroom. by replace (Z.to_nat (uid s2 + 1 - uid s2)) with 1%nat in Hroom by lia.
  - destruct (matches_cancel s1 s2 s2' L e Hm E) as (s1' & L' & E1 & Hm' & Hr & Hu).
    split; [lia|]. split; [|exists s1', L'; split; [done|split; [done|]]].
    + unfold cancel in E. apply res_bind_Ok in E as ([es q] & _ & E). by injection E as <-.
    + apply Hr. by rewrite Hu, Z.sub_diag in Hroom.
  - injection E as <-. split; [done|]. split; [done|]. eexists _, L. split; [done|].
    split; [by destruct Hm; split|]. cbn in Hroom. by rewrite Z.sub_diag in Hroom.
Qed.

(** Operations on the list scheduler never lower the uid counter. *)
Lemma exec_uid (s2 s2' : t ListScheduler.t) c : exec s2 c = Ok s2' -> s2.(uid) <= s2'.(uid).
Proof.
  intros E. destruct c as [h e d|e|]; cbn [exec] in E.
  - unfold schedule in E. destruct h; [|done]. destruct (events s2 !! e); [|done]. cbn in E.
    destruct (0 <? _); [done|]. destruct (_ <? 0); [done|]. destruct (_ =? _); [done|]. cbn in E.
    apply res_bind_Ok in E as (q & _ & E). injection E as <-. cbn. lia.
  - unfold cancel in E. apply res_bind_Ok in E as ([es q] & _ & E). by injection E as <-.
  - by injection E as <-.
Qed.

Lemma exec_all_uid (s2 s2' : t ListScheduler.t) cs : exec_all s2 cs = Ok s2' -> s2.(uid) <= s2'.(uid).
Proof.
  revert s2. induction cs as [|c cs IH]; intros s2 E; cbn [exec_all] in E; [by injection E as <-|].
  apply res_bind_Ok in E as (s3 & E1 & E). apply exec_uid in E1. apply IH in E. lia.
Qed.

Lemma matches_exec_all (s1 : t Q) (s2 s2' : t ListScheduler.t) L cs n :
  matches s1 s2 L -> exec_all s2 cs = Ok s2' ->
  (forall h e d, Schedule h e d ∈ cs -> F64.is_nan (F64.add s2.(clock_) d) = false) ->
  gq_room s1.(queue) (Z.to_nat (s2'.(uid) - s2.(uid)) + n) -> exec_all_may s1 cs = true ->
  exists s1' L', exec_all s1 cs = Ok s1' /\ matches s1' s2' L' /\ gq_room s1'.(queue) n.
Proof.
  revert s1 s2 L. induction cs as [|c cs IH]; intros s1 s2 L Hm E Hnan Hroom Hmay; cbn [exec_all exec_all_may] in *.
  { injection E as <-. rewrite Z.sub_diag in Hroom. by exists s1, L. }
  apply res_bind_Ok in E as (s3 & E1 & E2).
  pose proof (exec_uid _ _ _ E1) as U1. pose proof (exec_all_uid _ _ _ E2) as U2.
  destruct (matches_exec s1 s2 s3 L c (Z.to_nat (uid s2' - uid s3) + n) Hm E1) as (_ & Hc & s1a & La & Ea & Hma & Hra).
  - intros h e d ->. eapply (Hnan h e d). apply elem_of_cons. by left.
  - by replace (Z.to_nat (uid s3 - uid s2) + (Z.to_nat (uid s2' - uid s3) + n))%nat
      with (Z.to_nat (uid s2' - uid s2) + n)%nat by lia.
  - by apply andb_true_iff in Hmay as [Hmay _].
  - rewrite Ea in *. apply andb_true_iff in Hmay as [_ Hmay]. cbn [res_bind]. apply (IH s1a s3 La Hma E2); [|done|done].
    intros h e d Hin. rewrite Hc. apply (Hnan h e d). apply elem_of_cons. by right.
Qed.

Lemma run_uid prog fuel (s2 s2' : t ListScheduler.t) ps :
  run (handle_of prog) fuel s2 = Ok (s2', ps) -> s2.(uid) <= s2'.(uid).
Proof.
  revert s2 ps. induction fuel as [|fuel IH]; intros s2 ps E; cbn in E;
    (destruct (halted_ s2); [by injection E as <- <-|]);
    destruct (ListScheduler.deque _) as [q [p|]]; try done; try (by injection E as <- <-).
  cbn in E. apply res_bind_Ok in E as (ev & _ & E). apply res_bind_Ok in E as ([s3 h] & E1 & E).
  apply res_bind_Ok in E as (s4 & E2 & E). apply res_bind_Ok in E as ([s5 ps'] & E3 & E).
  injection E as <- <-. apply IH in E3. apply exec_all_uid in E2.
  unfold dispatch in E1. destruct (F64.lt _ _); [done|]. cbn in E1.
  destruct (_ !! p); [|done]. cbn in E1. destruct (handler_ _); [|done]. cbn in E1.
  injection E1 as <- _. cbn in E2. lia.
Qed.

(** One turn of the main loop. *)
Lemma matches_dispatch (s1 : t Q) (s2 s2' : t ListScheduler.t) L p ev h :
  matches s1 s2 (p :: L) -> s2.(events) !! p = Some ev ->
  dispatch (s2 <| queue := ListScheduler.mk L |>) p ev.(time_) = Ok (s2', h) ->
  gq_may_deque s1.(events) s1.(queue) = true ->
  exists q1 s1', eq_deque s1.(events) s1.(queue) = Ok (q1, Some p) /\
    dispatch (s1 <| queue := q1 |>) p ev.(time_) = Ok (s1', h) /\ matches s1' s2' L /\
    s2'.(uid) = s2.(uid) /\ forall n, gq_room s1.(queue) n -> gq_room s1'.(queue) n.
Proof.
  intros [Me Mc Mh Mu Ml Mr Mq Mn Mp Mf Mfree] He E Hmay. rewrite Me in Hmay.
  destruct (gq_deque_law _ _ _ Mr Mq Hmay) as (q1 & E1 & Hr1 & Hroom). cbn in E1, Hr1.
  exists q1. rewrite Me. unfold dispatch in *. cbn in E |- *. rewrite ?Me, Mc.
  destruct (F64.lt _ _); [done|]. cbn in E |- *. rewrite ?Me. rewrite He in E |- *. cbn in E |- *.
  destruct (handler_ ev) as [h'|]; [|done]. cbn in E |- *. injection E as <- <-.
  eexists. split; [done|]. split; [done|]. split; [|done].
  destruct (queued_valid _ _ Mq p) as (_ & Hnp & Hup); [set_solver|].
  rewrite (time_of_Some _ _ _ He) in Hnp. rewrite (uid_of_Some _ _ _ He) in Hup.
  pose proof (queued_nodup _ _ Mq) as [HpL _]%NoDup_cons. apply queued_tail in Mq as [Mq _].
  assert (forall e a, a ∈ L -> <[p := e]> (events s2) !! a = events s2 !! a) as Hext
    by (intros e a Ha; apply lookup_insert_ne; set_solver).
  split; cbn; try done.
  - by eapply gq_rep_ext; [|apply Hext].
  - by eapply queued_ext; [|apply Hext].
  - intros a. rewrite uid_of_insert. destruct (decide _); cbn; [lia|apply Mf].
  - intros a Ha. rewrite uid_of_insert. destruct (decide _); cbn; [lia|]. apply Mfree. set_solver.
Qed.

Lemma run_matches (prog : program) fuel (s1 : t Q) (s2 s2' : t ListScheduler.t) L ps n :
  sane prog -> matches s1 s2 L -> run (handle_of prog) fuel s2 = Ok (s2', ps) ->
  gq_room s1.(queue) (Z.to_nat (s2'.(uid) - s2.(uid)) + n) -> run_may prog fuel s1 = true ->
  exists s1' L', run (handle_of prog) fuel s1 = Ok (s1', ps) /\ matches s1' s2' L'.
Proof.
  intros Hsane. revert s1 s2 L ps. induction fuel as [|fuel IH]; intros s1 s2 L ps Hm E Hroom Hmay;
    cbn [run run_may] in *; rewrite (m_halted _ _ _ Hm) in *;
    (destruct (halted_ s2) eqn:Hh; [injection E as <- <-; by exists s1, L|]);
    apply andb_true_iff in Hmay as [Hmay1 Hmay2]; pose proof Hmay1 as Hmay1'; rewrite (m_events _ _ _ Hm) in Hmay1';
    pose proof (gq_deque_law _ _ _ (m_rep _ _ _ Hm) (m_queued _ _ _ Hm) Hmay1') as (q1 & E1 & Hr1 & Hroom1);
    rewrite <- (m_events _ _ _ Hm) in E1; rewrite (m_list _ _ _ Hm) in E;
    destruct L as [|p L]; cbn in E, E1.
  1,3: injection E as <- <-; rewrite E1; cbn; eexists _, []; (split; [done|]);
    destruct Hm as [Me Mc Mh' Mu Ml Mr Mq Mn Mp Mf Mfree]; split; try done; cbn; congruence.
  - done.
  - rewrite E1 in *. cbn [res_bind].
    apply res_bind_Ok in E as (ev & He & E). apply deref_Ok in He. cbn in He.
    apply res_bind_Ok in E as ([s3 h] & E2 & E). apply res_bind_Ok in E as (s4 & E3 & E).
    apply res_bind_Ok in E as ([s5 ps'] & E4 & E). injection E as <- <-.
    destruct (matches_dispatch s1 s2 s3 L p ev h Hm He E2 Hmay1) as (q1' & s1a & E1' & Ed & Hma & Hu & Hra).
    rewrite E1 in E1'. injection E1' as <-.
    change (events (s1 <| queue := q1 |>)) with (events s1) in *. rewrite (m_events _ _ _ Hm), He in *.
    cbn [deref res_bind]. rewrite Ed in *. cbn [res_bind].
    pose proof (exec_all_uid _ _ _ E3) as U3. pose proof (run_uid _ _ _ _ _ E4) as U4.
    assert (handle_of prog h p s1a = handle_of prog h p s3) as Eh
      by (unfold handle_of; by rewrite (m_events _ _ _ Hma), (m_clock _ _ _ Hma)).
    rewrite Eh in *. apply andb_true_iff in Hmay2 as [Hmay2 Hmay3].
    destruct (matches_exec_all s1a s3 s4 L _ (Z.to_nat (uid s5 - uid s4) + n) Hma E3)
      as (s1b & Lb & Eb & Hmb & Hrb).
    { intros h' e' d' Hin. eapply Hsane; [apply (m_num _ _ _ Hma)|exact Hin]. }
    { apply Hra. by replace (Z.to_nat (uid s4 - uid s3) + (Z.to_nat (uid s5 - uid s4) + n))%nat
        with (Z.to_nat (uid s5 - uid s2) + n)%nat by lia. }
    { exact Hmay2. }
    rewrite Eb in *. cbn [res_bind].
    destruct (IH s1b s4 Lb ps' Hmb E4 Hrb Hmay3) as (s1' & L' & -> & Hm'). by exists s1', L'.
Qed.

(** Setting up and running from the start. *)
Lemma run_from_start (prog : program) fuel (es : evs) (q : Q) cs (s2 s2' : t ListScheduler.t) ps :
  sane prog -> (forall a, uid_of es a <= 0) -> gq_rep es q [] -> gq_room q (Z.to_nat (s2'.(uid) - 1)) ->
  exec_all (create es ListScheduler.create) cs = Ok s2 ->
  (forall h e d, Schedule h e d ∈ cs -> F64.is_nan (F64.add F64.zero d) = false) ->
  run (handle_of prog) fuel s2 = Ok (s2', ps) ->
  exec_all_may (create es q) cs = true ->
  (forall s1, exec_all (create es q) cs = Ok s1 -> run_may prog fuel s1 = true) ->
  exists s1 s1', exec_all (create es q) cs = Ok s1 /\
    run (handle_of prog) fuel s1 = Ok (s1', ps) /\
    s1'.(events) = s2'.(events) /\ s1'.(clock_) = s2'.(clock_) /\ s1'.(halted_) = s2'.(halted_).
Proof.
  intros Hsane Hes Hq Hroom E2 Hcs E Hmay Hmay'.
  pose proof (exec_all_uid _ _ _ E2) as U2. cbn in U2. pose proof (run_uid _ _ _ _ _ E) as U.
  assert (matches (create es q) (create es ListScheduler.create) []) as Hm.
  { split; cbn; try done.
    - split; [set_solver|constructor].
    - intros a. specialize (Hes a). lia. }
  destruct (matches_exec_all _ _ _ [] cs (Z.to_nat (uid s2' - uid s2) + 0) Hm E2)
    as (s1a & L & E1a & Hma & Hra).
  { intros h e d Hin. by apply (Hcs h e d). }
  { cbn. by replace (Z.to_nat (uid s2 - 1) + (Z.to_nat (uid s2' - uid s2) + 0))%nat
      with (Z.to_nat (uid s2' - 1)) by lia. }
  { exact Hmay. }
  destruct (run_matches prog fuel _ _ _ _ _ 0 Hsane Hma E Hra (Hmay' s1a E1a))
    as (s1' & L' & Er & [Me Mc Mh _ _ _ _ _ _ _ _]).
  by exists s1a, s1'.
Qed.
End Equiv.

(** Without tests there is nothing to fail. *)
Lemma exec_all_unguarded {Q : Type} `{EL : EventQueueLaws Q} (s : t Q) cs :
  exec_all_may (EL := unguarded) s cs = true.
Proof.
  revert s. induction cs as [|c cs IH]; intros s; cbn [exec_all_may]; [done|].
  assert (exec_may (EL := unguarded) s c = true) as -> by (destruct c; cbn; try done; by destruct (_ !! _)).
  destruct (exec s c); [apply IH|done].
Qed.

Lemma run_unguarded {Q : Type} `{EL : EventQueueLaws Q} prog fuel (s : t Q) :
  run_may (EL := unguarded) prog fuel s = true.
Proof.
  revert s. induction fuel as [|fuel IH]; intros s; cbn [run_may]; (destruct (halted_ s); [done|]);
    cbn [gq_may_deque unguarded andb]; destruct (eq_deque _ _) as [[q [p|]]|]; try done.
  destruct (_ !! p); [|done]. destruct (dispatch _ _ _) as [[s' h]|]; [|done].
  rewrite exec_all_unguarded. cbn [andb]. destruct (exec_all _ _); [apply IH|done].
Qed.
End QueueEquiv.

(** * Properties *)

Module EquivProps.
Import Scheduler SchedFacts QueueEquiv.

(** C14: a simulation does not depend on the event queue.  If the list
    scheduler runs a program from the start, any queue that keeps the contract
    and has room for the events dispatches the same events in the same order,
    to the same clock and the same memory. *)
Theorem run_queue_independent {Q : Type} `{EventQueueLaws Q} (prog : program) fuel (es : evs) (q : Q)
    (s2' : t ListScheduler.t) ps :
  sane prog -> (forall a, uid_of es a <= 0) -> eq_rep es q [] ->
  eq_room q (Z.to_nat (s2'.(uid) - 1)) ->
  forall cs s2, exec_all (create es ListScheduler.create) cs = Ok s2 ->
  (forall h e d, Schedule h e d ∈ cs -> F64.is_nan (F64.add F64.zero d) = false) ->
  run (handle_of prog) fuel s2 = Ok (s2', ps) ->
  exists s1 s1', exec_all (create es q) cs = Ok s1 /\
    run (handle_of prog) fuel s1 = Ok (s1', ps) /\
    s1'.(events) = s2'.(events) /\ s1'.(clock_) = s2'.(clock_) /\ s1'.(halted_) = s2'.(halted_).
Proof.
  intros Hsane Hes Hq Hroom cs s2 E2 Hcs E.
  apply (run_from_start (EL := unguarded) prog fuel es q cs s2 s2' ps Hsane Hes Hq Hroom E2 Hcs E).
  - apply exec_all_unguarded.
  - intros s1 _. apply run_unguarded.
Qed.
End EquivProps.
