(* ===== verification/HeapSched.v ===== *)
(** * The heap scheduler

    [Heap] (src/ns2/common/heap.h, scheduler.cc): a binary heap in an array
    that doubles when it is full, with a secondary key that counts insertions
    so that equal keys leave in insertion order; and [HeapScheduler] on top of
    it.  Indices are [unsigned int]; the secondary key wraps at 2^32. *)

From Stdlib Require Import ZArith Lia Bool Sorted SpecFloat.
From stdpp Require Import base list gmap.
From S2P Require Import Prelude F64 PktQueue Sched ListSched QueueEquiv.

Module Heap.

Record Heap_elem := mkElem {
  he_key : f64;
  he_s_key : Z;
  he_elem : option addr
}.

#[global] Instance Heap_elem_eq_dec : EqDecision Heap_elem.
Proof. solve_decision. Defined.

(** What [memset] leaves in fresh elements. *)
Definition zero_elem : Heap_elem := mkElem F64.zero 0 None.

Record t := mk {
  h_elems : list Heap_elem;
  h_s_key : Z;
  h_size : Z;
  h_maxsize : Z;
  h_iter : Z
}.

#[global] Instance eta_t : Eta t := fun h =>
  mk (h_elems h) (h_s_key h) (h_size h) (h_maxsize h) (h_iter h).

Definition HEAP_DEFAULT_SIZE : Z := 32.

Definition create (size : Z) : t := mk (replicate (Z.to_nat size) zero_elem) 0 0 size 0.

Definition parent (i : Z) : Z := u32 (i - 1) / 2.
Definition left (i : Z) : Z := u32 (u32 (i * 2) + 1).
Definition right (i : Z) : Z := u32 (u32 (i + 1) * 2).

(** [h_elems[i]], read and written. *)
Definition get (h : t) (i : Z) : res Heap_elem := deref (h.(h_elems) !! Z.to_nat i).

Definition set (h : t) (i : Z) (e : Heap_elem) : res t :=
  if decide (Z.to_nat i < length h.(h_elems))%nat
  then Ok (h <| h_elems := <[Z.to_nat i := e]> h.(h_elems) |>)
  else Err UB.

Definition swap (h : t) (i j : Z) : res t :=
  let! he := get h i in
  let! hj := get h j in
  let! h := set h i hj in
  set h j he.

Definition KEY_LESS_THAN (k1 : f64) (ks1 : Z) (k2 : f64) (ks2 : Z) : bool :=
  F64.lt k1 k2 || (F64.eq k1 k2 && (ks1 <? ks2)).

(** Index of the element plus one, or 0. *)
Fixpoint heap_member_loop (l : list Heap_elem) (n : nat) (i : Z) (elem : addr) {struct n} : res Z :=
  match n with
  | O => Ok 0
  | S n =>
      match l with
      | [] => Err UB
      | he :: l =>
          if decide (he.(he_elem) = Some elem) then Ok (i + 1)
          else heap_member_loop l n (i + 1) elem
      end
  end.

Definition heap_member (h : t) (elem : addr) : res Z :=
  heap_member_loop h.(h_elems) (Z.to_nat h.(h_size)) 0 elem.

(** The new element's place is found by moving greater parents down. *)
Fixpoint insert_loop (fuel : nat) (h : t) (key : f64) (i par : Z) : res (t * Z) :=
  if 0 <? i then
    let! pe := get h par in
    if KEY_LESS_THAN key h.(h_s_key) pe.(he_key) pe.(he_s_key) then
      match fuel with
      | O => Err Fuel
      | S fuel =>
          let! h := set h i pe in
          insert_loop fuel h key par (parent par)
      end
    else Ok (h, i)
  else Ok (h, i).

(** The array doubles; copying into a smaller one, after a wrap-around of the
    size, would be undefined. *)
Definition grow (h : t) : res t :=
  if h.(h_maxsize) =? h.(h_size) then
    let osize := h.(h_maxsize) in
    let maxsize := u32 (osize * 2) in
    if maxsize <? osize then Err UB
    else Ok (h <| h_maxsize := maxsize |>
               <| h_elems := h.(h_elems) ++ replicate (Z.to_nat (maxsize - osize)) zero_elem |>)
  else Ok h.

Definition heap_insert (h : t) (key : f64) (elem : addr) : res t :=
  let! h := grow h in
  let i := h.(h_size) in
  let h := h <| h_size := u32 (h.(h_size) + 1) |> in
  let! (h, i) := insert_loop (Z.to_nat i) h key i (parent i) in
  let! h := set h i (mkElem key h.(h_s_key) (Some elem)) in
  Ok (h <| h_s_key := u32 (h.(h_s_key) + 1) |>).

Definition heap_min (h : t) : res (option addr) :=
  if 0 <? h.(h_size) then let! e := get h 0 in Ok e.(he_elem) else Ok None.

(** The child to compare with: the smaller one, or [i] when there is none. *)
Definition smaller_child (h : t) (i : Z) : res Z :=
  let l := left i in
  let r := right i in
  if r <? h.(h_size) then
    let! el := get h l in
    let! er := get h r in
    Ok (if KEY_LESS_THAN el.(he_key) el.(he_s_key) er.(he_key) er.(he_s_key) then l else r)
  else Ok (if l <? h.(h_size) then l else i).

Fixpoint heapify (fuel : nat) (h : t) (i : Z) : res t :=
  if i <? h.(h_size) then
    let! x := smaller_child h i in
    if x =? i then Ok h
    else
      let! ex := get h x in
      let! ei := get h i in
      if KEY_LESS_THAN ex.(he_key) ex.(he_s_key) ei.(he_key) ei.(he_s_key) then
        match fuel with
        | O => Err Fuel
        | S fuel => let! h := swap h i x in heapify fuel h x
        end
      else Ok h
  else Ok h.

Definition heap_extract_min (h : t) : res (t * option addr) :=
  if h.(h_size) =? 0 then Ok (h, None)
  else
    let! e0 := get h 0 in
    let h := h <| h_size := h.(h_size) - 1 |> in
    let! last := get h h.(h_size) in
    let! h := set h 0 last in
    let! h := heapify (Z.to_nat h.(h_size)) h 0 in
    Ok (h, e0.(he_elem)).

(** Swaps the element to the root, without comparisons. *)
Fixpoint to_root (fuel : nat) (h : t) (i : Z) : res t :=
  if i =? 0 then Ok h
  else
    match fuel with
    | O => Err Fuel
    | S fuel => let! h := swap h i (parent i) in to_root fuel h (parent i)
    end.

Definition heap_delete (h : t) (elem : addr) : res (t * bool) :=
  let! i := heap_member h elem in
  if i =? 0 then Ok (h, false)
  else
    let! h := to_root (Z.to_nat i) h (i - 1) in
    let! (h, _) := heap_extract_min h in
    Ok (h, true).

Definition heap_iter_init (h : t) : res (t * option addr) :=
  let h := h <| h_iter := 1 |> in
  let! e := heap_min h in Ok (h, e).

Definition heap_iter (h : t) : res (t * option addr) :=
  if h.(h_size) <=? h.(h_iter) then Ok (h <| h_iter := 0 |>, None)
  else
    let! e := get h h.(h_iter) in
    Ok (h <| h_iter := u32 (h.(h_iter) + 1) |>, e.(he_elem)).

End Heap.

(** ** HeapScheduler *)

Module HeapScheduler.

Record t := mk { hp_ : Heap.t }.

#[global] Instance eta_t : Eta t := fun q => mk (hp_ q).

Definition create : t := mk (Heap.create Heap.HEAP_DEFAULT_SIZE).

Definition insert (s : evs) (q : t) (e : addr) : res t :=
  let! ev := deref (s !! e) in
  let! h := Heap.heap_insert q.(hp_) ev.(time_) e in
  Ok (q <| hp_ := h |>).

Definition cancel (s : evs) (q : t) (e : addr) : res (evs * t) :=
  let! ev := deref (s !! e) in
  if ev.(uid_) <=? 0 then Ok (s, q)
  else
    let s := <[e := ev <| uid_ := - ev.(uid_) |>]> s in
    let! (h, _) := Heap.heap_delete q.(hp_) e in
    Ok (s, q <| hp_ := h |>).

Definition deque (q : t) : res (t * option addr) :=
  let! (h, r) := Heap.heap_extract_min q.(hp_) in Ok (q <| hp_ := h |>, r).

Definition head (q : t) : res (option addr) := Heap.heap_min q.(hp_).

(** The iteration of [lookup]; at most [h_size] elements are visited. *)
Fixpoint lookup_loop (fuel : nat) (s : evs) (h : Heap.t) (uid : Z) (e : option addr)
    : res (Heap.t * option addr) :=
  match e with
  | None => Ok (h, None)
  | Some a =>
      let! ev := deref (s !! a) in
      if ev.(uid_) =? uid then Ok (h, Some a)
      else
        match fuel with
        | O => Err Fuel
        | S fuel => let! (h, e) := Heap.heap_iter h in lookup_loop fuel s h uid e
        end
  end.

Definition lookup (s : evs) (q : t) (uid : Z) : res (t * option addr) :=
  let! (h, e) := Heap.heap_iter_init q.(hp_) in
  let! (h, r) := lookup_loop (Z.to_nat h.(Heap.h_size)) s h uid e in
  Ok (q <| hp_ := h |>, r).

End HeapScheduler.

#[export] Instance HeapScheduler_queue : EventQueue HeapScheduler.t := {
  eq_insert := HeapScheduler.insert;
  eq_cancel := HeapScheduler.cancel;
  eq_deque _ := HeapScheduler.deque;
  eq_head _ q := let! r := HeapScheduler.head q in Ok (q, r);
  eq_lookup := HeapScheduler.lookup
}.

(** * Facts *)

#[export] Instance Heap_elem_inhabited : Inhabited Heap.Heap_elem := populate Heap.zero_elem.

Module HeapFacts.
Import Heap.

Ltac Zify.zify_post_hook ::= Z.div_mod_to_equations.

Implicit Types (l : list Heap_elem) (i j n : Z) (h : t) (x y : Heap_elem).

(** ** The order of elements *)

Definition lessb x y : bool := KEY_LESS_THAN x.(he_key) x.(he_s_key) y.(he_key) y.(he_s_key).

Definition good x : Prop := F64.is_nan x.(he_key) = false.

(** [x] need not be above [y]. *)
Definition leE x y : Prop := lessb y x = false.

Lemma lessb_spec x y :
  good x -> good y ->
  lessb x y = true <-> F64.lex_lt (F64.key x.(he_key)) (F64.key y.(he_key)) \/
    F64.lex_eq (F64.key x.(he_key)) (F64.key y.(he_key)) /\ x.(he_s_key) < y.(he_s_key).
Proof.
  unfold good, lessb, KEY_LESS_THAN. intros Hx Hy.
  rewrite orb_true_iff, andb_true_iff, F64.lt_spec, F64.eq_spec, Z.ltb_lt. tauto.
Qed.

Lemma leE_trans x y z : good x -> good y -> good z -> leE x y -> leE y z -> leE x z.
Proof.
  unfold leE. intros Hx Hy Hz. rewrite <- !not_true_iff_false, !lessb_spec by done.
  destruct (F64.key (he_key x)) as [[? ?] ?], (F64.key (he_key y)) as [[? ?] ?],
    (F64.key (he_key z)) as [[? ?] ?]. cbn. lia.
Qed.

Lemma less_leE x y : good x -> good y -> lessb x y = true -> leE x y.
Proof.
  unfold leE. intros Hx Hy. rewrite <- !not_true_iff_false, !lessb_spec by done.
  destruct (F64.key (he_key x)) as [[? ?] ?], (F64.key (he_key y)) as [[? ?] ?]. cbn. lia.
Qed.

Lemma leE_refl x : leE x x.
Proof.
  unfold leE, lessb, KEY_LESS_THAN. rewrite F64.lt_irrefl, Z.ltb_irrefl. by rewrite andb_false_r.
Qed.

(** ** The array *)

Definition nth l i : Heap_elem := l !!! Z.to_nat i.
Definition upd l i x : list Heap_elem := <[Z.to_nat i := x]> l.
Definition len l : Z := Z.of_nat (length l).

Lemma get_ok h i : 0 <= i < len h.(h_elems) -> get h i = Ok (nth h.(h_elems) i).
Proof.
  intros Hi. unfold get, nth, len in *.
  by rewrite (list_lookup_lookup_total_lt (h_elems h) (Z.to_nat i)) by lia.
Qed.

Lemma set_ok h i x : 0 <= i < len h.(h_elems) -> set h i x = Ok (h <| h_elems := upd h.(h_elems) i x |>).
Proof. intros Hi. unfold set, len in *. rewrite decide_True by lia. done. Qed.

Lemma len_upd l i x : len (upd l i x) = len l.
Proof. unfold len, upd. by rewrite length_insert. Qed.

Lemma nth_upd l i j x :
  0 <= i < len l -> 0 <= j -> nth (upd l i x) j = if decide (j = i) then x else nth l j.
Proof.
  intros Hi Hj. unfold nth, upd, len in *. destruct (decide (j = i)) as [->|Hne].
  - rewrite list_lookup_total_insert_eq; [done|lia].
  - rewrite list_lookup_total_insert_ne; [done|lia].
Qed.

Definition swapped l i j : list Heap_elem := upd (upd l i (nth l j)) j (nth l i).

Lemma swap_ok h i j :
  0 <= i < len h.(h_elems) -> 0 <= j < len h.(h_elems) ->
  swap h i j = Ok (h <| h_elems := swapped h.(h_elems) i j |>).
Proof.
  intros Hi Hj. unfold swap. rewrite !get_ok by done. cbn [res_bind].
  rewrite set_ok by done. cbn [res_bind]. rewrite set_ok; [done|]. cbn. by rewrite len_upd.
Qed.

Lemma len_swapped l i j : len (swapped l i j) = len l.
Proof. unfold swapped. by rewrite !len_upd. Qed.

Lemma nth_swapped l i j k :
  0 <= i < len l -> 0 <= j < len l -> 0 <= k ->
  nth (swapped l i j) k =
    if decide (k = j) then nth l i else if decide (k = i) then nth l j else nth l k.
Proof.
  intros Hi Hj Hk. unfold swapped. by rewrite !nth_upd by (rewrite ?len_upd; lia).
Qed.

(** The elements in use. *)
Definition live l n : list Heap_elem := take (Z.to_nat n) l.

Lemma occ_insert (l : list Heap_elem) (i : nat) x z :
  (i < length l)%nat -> (occ z (<[i := x]> l) + occ1 z (l !!! i) = occ z l + occ1 z x)%nat.
Proof.
  revert i. induction l as [|y l IH]; intros [|i] Hi; cbn [length] in Hi; try lia.
  - cbn -[occ occ1]. rewrite !occ_cons. lia.
  - change (<[S i := x]> (y :: l)) with (y :: <[i := x]> l).
    change ((y :: l) !!! S i) with (l !!! i). rewrite !occ_cons. specialize (IH i ltac:(lia)). lia.
Qed.

Lemma live_upd l i x n z :
  0 <= i < n -> n <= len l ->
  (occ z (live (upd l i x) n) + occ1 z (nth l i) = occ z (live l n) + occ1 z x)%nat.
Proof.
  intros Hi Hn. unfold live, upd, nth, len in *. rewrite take_insert_lt by lia.
  rewrite <- (lookup_total_take_lt l (Z.to_nat n) (Z.to_nat i)) by lia.
  apply occ_insert. rewrite length_take. lia.
Qed.

Lemma live_swapped l i j n :
  0 <= i < n -> 0 <= j < n -> n <= len l -> live (swapped l i j) n ≡ₚ live l n.
Proof.
  intros Hi Hj Hn. apply perm_occ. intros z. unfold swapped.
  pose proof (live_upd (upd l i (nth l j)) j (nth l i) n z) as H1.
  pose proof (live_upd l i (nth l j) n z) as H2.
  rewrite len_upd in H1. rewrite nth_upd in H1 by lia.
  destruct (decide (j = i)) as [->|Hne]; lia.
Qed.

Lemma live_nth l n i : 0 <= i < n -> n <= len l -> nth l i ∈ live l n.
Proof.
  intros Hi Hn. unfold live, nth, len in *.
  rewrite <- (lookup_total_take_lt l (Z.to_nat n) (Z.to_nat i)) by lia.
  apply list_elem_of_lookup_total_2. rewrite length_take. lia.
Qed.

Lemma live_elem l n x : x ∈ live l n -> n <= len l -> exists i, 0 <= i < n /\ nth l i = x.
Proof.
  intros Hx Hn. apply list_elem_of_lookup in Hx as [i Hi]. unfold live in Hi.
  apply lookup_take_Some in Hi as [Hi Hlt]. exists (Z.of_nat i). split; [lia|].
  unfold nth. rewrite Nat2Z.id. by apply list_lookup_total_correct.
Qed.

Lemma live_snoc l n : 0 <= n < len l -> live l (n + 1) = live l n ++ [nth l n].
Proof.
  intros Hn. unfold live, nth, len in *. replace (Z.to_nat (n + 1)) with (S (Z.to_nat n)) by lia.
  apply take_S_r. apply list_lookup_lookup_total_lt. lia.
Qed.

Definition all_good l n : Prop := Forall good (live l n).

Lemma good_nth l n i : all_good l n -> 0 <= i < n -> n <= len l -> good (nth l i).
Proof. unfold all_good. rewrite Forall_forall. intros H Hi Hn. by apply H, live_nth. Qed.

(** ** The heap order *)

Definition par j : Z := (j - 1) / 2.

Definition ordered l n (P : Z -> Prop) : Prop :=
  forall j, 0 < j < n -> P j -> leE (nth l (par j)) (nth l j).

(** The children of [i] are not above its parent. *)
Definition grand l n i : Prop :=
  forall j, 0 < j < n -> par j = i -> 0 < i -> leE (nth l (par i)) (nth l j).

Lemma parent_par i : 0 < i < 2 ^ 31 -> parent i = par i.
Proof. intros Hi. unfold parent, par. by rewrite u32_small by lia. Qed.

Lemma left_val i : 0 <= i < 2 ^ 30 -> left i = 2 * i + 1.
Proof. intros Hi. unfold left. rewrite (u32_small (i * 2)), u32_small by lia. lia. Qed.

Lemma right_val i : 0 <= i < 2 ^ 30 -> right i = 2 * i + 2.
Proof. intros Hi. unfold right. rewrite (u32_small (i + 1)), u32_small by lia. lia. Qed.

(** Index arithmetic of the heap. *)
Ltac heap_lia := unfold par in *; lia.

(** Splits the comparison of a swapped array into its cases. *)
Ltac swap_cases :=
  rewrite ?nth_swapped by heap_lia;
  repeat match goal with |- context [decide (?a = ?b)] => destruct (decide (a = b)) end;
  try (exfalso; heap_lia).

Section Order.
Context (l : list Heap_elem) (n : Z) (Hn : n <= len l) (Hg : all_good l n).

Let g i (Hi : 0 <= i < n) : good (nth l i) := good_nth l n i Hg Hi Hn.

(** One step down: [x] is the smaller child of [i] and is above it. *)
Lemma down_step i (x : Z) :
  0 <= i -> 0 < x < n -> par x = i ->
  (forall j, 0 < j < n -> par j = i -> leE (nth l x) (nth l j)) ->
  lessb (nth l x) (nth l i) = true ->
  ordered l n (fun j => par j <> i) -> grand l n i ->
  ordered (swapped l i x) n (fun j => par j <> x) /\ grand (swapped l i x) n x.
Proof.
  intros Hi Hx Hpx Hmin Hless Ho Hgr. split.
  - intros j Hj Hpj. assert (j = x \/ j = i \/ (j <> x /\ j <> i)) as [->|[->|[H1 H2]]] by lia.
    + rewrite Hpx. swap_cases. apply less_leE; [apply g; heap_lia|apply g; heap_lia|done].
    + swap_cases. apply Hgr; [lia|done|lia].
    + destruct (decide (par j = i)) as [E|E].
      * rewrite E. swap_cases; by apply Hmin.
      * swap_cases. by apply Ho.
  - intros j Hj Hpj Hx0. rewrite Hpx. swap_cases.
    rewrite <- Hpj. apply Ho; [lia|heap_lia].
Qed.

(** The sifted element is not below its children. *)
Lemma down_done i (x : Z) :
  0 <= i < n -> 0 < x < n -> 
  (forall j, 0 < j < n -> par j = i -> leE (nth l x) (nth l j)) ->
  lessb (nth l x) (nth l i) = false ->
  ordered l n (fun j => par j <> i) -> ordered l n (fun _ => True).
Proof.
  intros Hi Hx Hmin Hless Ho j Hj _. destruct (decide (par j = i)) as [E|E]; [|by apply Ho].
  rewrite E. eapply (leE_trans _ (nth l x)); [apply g; heap_lia..|done|by apply Hmin].
Qed.

(** One step up: the parent [par i] is below [i] and moves down. *)
Lemma up_step i :
  0 < i < n -> lessb (nth l i) (nth l (par i)) = true ->
  ordered l n (fun j => j <> i) -> grand l n i ->
  ordered (swapped l i (par i)) n (fun j => j <> par i) /\ grand (swapped l i (par i)) n (par i).
Proof.
  intros Hi Hless Ho Hgr. assert (0 <= par i < i) by heap_lia.
  assert (leE (nth l i) (nth l (par i))) as Hle by (apply less_leE; [apply g; heap_lia|apply g; heap_lia|done]).
  split.
  - intros j Hj Hpj. destruct (decide (j = i)) as [->|Hji]; [by swap_cases|].
    destruct (decide (par j = i)) as [E|E]; [rewrite E; swap_cases; apply Hgr; lia|].
    destruct (decide (par j = par i)) as [E2|E2]; [|swap_cases; by apply Ho].
    rewrite E2. swap_cases. apply (leE_trans _ (nth l (par i))); [apply g; heap_lia..|exact Hle|].
    rewrite <- E2. by apply Ho.
  - intros j Hj Hpj Hp0. assert (leE (nth l (par (par i))) (nth l (par i))) as Hpp by (apply Ho; heap_lia).
    destruct (decide (j = i)) as [->|Hji]; swap_cases; [done|].
    apply (leE_trans _ (nth l (par i))); [apply g; heap_lia|apply g; heap_lia|apply g; heap_lia|exact Hpp|].
    rewrite <- Hpj. by apply Ho.
Qed.

(** One step to the root, whatever the order of [i] is. *)
Lemma root_step i :
  0 < i < n ->
  ordered l n (fun j => j <> i /\ par j <> i) -> grand l n i ->
  ordered (swapped l i (par i)) n (fun j => j <> par i /\ par j <> par i) /\
  grand (swapped l i (par i)) n (par i).
Proof.
  intros Hi Ho Hgr. assert (0 <= par i < i) by heap_lia. split.
  - intros j Hj [Hpj1 Hpj2]. destruct (decide (par j = i)) as [E|E].
    + rewrite E. swap_cases; apply Hgr; lia.
    + destruct (decide (j = i)) as [->|Hji]; [lia|]. swap_cases. by apply Ho.
  - intros j Hj Hpj Hp0.
    assert (leE (nth l (par (par i))) (nth l (par i))) as Hpp by (apply Ho; [lia|heap_lia]).
    destruct (decide (j = i)) as [->|Hji]; swap_cases; [done|].
    apply (leE_trans _ (nth l (par i))); [apply g; heap_lia|apply g; heap_lia|apply g; heap_lia|exact Hpp|].
    rewrite <- Hpj. apply Ho; [done|heap_lia].
Qed.

(** The root of a heap is not below any element. *)
Lemma root_least : ordered l n (fun _ => True) -> forall j, 0 <= j < n -> leE (nth l 0) (nth l j).
Proof.
  intros Ho j [Hj0 Hjn]. revert Hjn. pattern j. apply Zlt_0_ind; [|done].
  intros k IH Hk Hkn. destruct (decide (k = 0)) as [->|Hne]; [apply leE_refl|].
  eapply (leE_trans _ (nth l (par k))); [apply g; heap_lia|apply g; heap_lia|apply g; heap_lia| |].
  - apply IH; heap_lia.
  - apply Ho; [lia|done].
Qed.
End Order.

(** ** The loops *)

(** Same heap up to the array, which is a permutation of the live part. *)
Definition rearranged h h' : Prop :=
  h' = h <| h_elems := h'.(h_elems) |> /\ len h'.(h_elems) = len h.(h_elems) /\
  live h'.(h_elems) h.(h_size) ≡ₚ live h.(h_elems) h.(h_size).

Lemma rearranged_refl h : rearranged h h.
Proof. split; [by destruct h|done]. Qed.

Lemma rearranged_trans h1 h2 h3 : rearranged h1 h2 -> rearranged h2 h3 -> rearranged h1 h3.
Proof.
  intros (E1 & L1 & P1) (E2 & L2 & P2). split; [|split].
  - rewrite E2, E1. done.
  - congruence.
  - rewrite E1 in P2. cbn in P2. by rewrite P2.
Qed.

Lemma rearranged_size h h' : rearranged h h' -> h'.(h_size) = h.(h_size).
Proof. intros (E & _). by rewrite E. Qed.

Lemma rearranged_swap h i j :
  0 <= i < h.(h_size) -> 0 <= j < h.(h_size) -> h.(h_size) <= len h.(h_elems) ->
  swap h i j = Ok (h <| h_elems := swapped h.(h_elems) i j |>) /\
  rearranged h (h <| h_elems := swapped h.(h_elems) i j |>).
Proof.
  intros Hi Hj Hl. rewrite swap_ok by lia. split; [done|]. split; [done|].
  split; [apply len_swapped|]. cbn. by apply live_swapped.
Qed.

Lemma rearranged_good h h' :
  rearranged h h' -> all_good h.(h_elems) h.(h_size) -> all_good h'.(h_elems) h'.(h_size).
Proof.
  intros Hr. pose proof (rearranged_size _ _ Hr) as E. destruct Hr as (_ & _ & P).
  unfold all_good. rewrite E. by rewrite P.
Qed.

Lemma smaller_child_ok h i :
  0 <= i < h.(h_size) -> h.(h_size) <= len h.(h_elems) -> h.(h_size) <= 2 ^ 30 ->
  all_good h.(h_elems) h.(h_size) ->
  exists x : Z, smaller_child h i = Ok x /\
    (x = i /\ (forall j, 0 < j < h.(h_size) -> par j <> i) \/
     0 < x < h.(h_size) /\ par x = i /\
     forall j, 0 < j < h.(h_size) -> par j = i -> leE (nth h.(h_elems) x) (nth h.(h_elems) j)).
Proof.
  intros Hi Hl Hs Hg. unfold smaller_child. rewrite left_val, right_val by lia.
  destruct (Z.ltb_spec (2 * i + 2) (h_size h)) as [H1|H1].
  - rewrite !get_ok by lia. cbn [res_bind]. set (a := nth _ (2 * i + 1)). set (b := nth _ (2 * i + 2)).
    assert (good a /\ good b) as [Ga Gb] by (split; by apply (good_nth _ (h_size h)); [|lia|]).
    eexists. split; [done|]. right. fold (lessb a b).
    destruct (lessb a b) eqn:E; (split; [lia|]; split; [heap_lia|]; intros j Hj Hp).
    + assert (j = 2 * i + 1 \/ j = 2 * i + 2) as [-> | ->] by heap_lia; [apply leE_refl|].
      by apply less_leE.
    + assert (j = 2 * i + 1 \/ j = 2 * i + 2) as [-> | ->] by heap_lia; [|apply leE_refl]. done.
  - eexists. split; [done|]. destruct (Z.ltb_spec (2 * i + 1) (h_size h)) as [H2|H2].
    + right. split; [lia|]. split; [heap_lia|]. intros j Hj Hp.
      assert (j = 2 * i + 1) as -> by heap_lia. apply leE_refl.
    + left. split; [done|]. intros j Hj. heap_lia.
Qed.

Lemma heapify_ok fuel h i :
  0 <= i -> h.(h_size) <= len h.(h_elems) -> h.(h_size) <= 2 ^ 30 -> h.(h_size) - i <= Z.of_nat fuel ->
  all_good h.(h_elems) h.(h_size) ->
  ordered h.(h_elems) h.(h_size) (fun j => par j <> i) -> grand h.(h_elems) h.(h_size) i ->
  exists h', heapify fuel h i = Ok h' /\ rearranged h h' /\
    ordered h'.(h_elems) h'.(h_size) (fun _ => True).
Proof.
  revert h i. induction fuel as [|fuel IH]; intros h i Hi Hl Hs Hf Hg Ho Hgr; cbn [heapify].
  { replace (i <? h_size h) with false by (symmetry; apply Z.ltb_ge; lia).
    exists h. split; [done|]. split; [apply rearranged_refl|]. intros j Hj _. apply Ho; [done|heap_lia]. }
  destruct (Z.ltb_spec i (h_size h)) as [Hin|Hin].
  2: { exists h. split; [done|]. split; [apply rearranged_refl|]. intros j Hj _. apply Ho; [done|heap_lia]. }
  destruct (smaller_child_ok h i) as (x & -> & Hx); [lia|done|done|done|]. cbn [res_bind].
  destruct Hx as [[-> Hno]|(Hx & Hpx & Hmin)].
  { rewrite Z.eqb_refl. exists h. split; [done|]. split; [apply rearranged_refl|].
    intros j Hj _. apply Ho; [done|by apply Hno]. }
  replace (x =? i) with false by (symmetry; apply Z.eqb_neq; heap_lia).
  rewrite !get_ok by lia. cbn [res_bind]. fold (lessb (nth (h_elems h) x) (nth (h_elems h) i)).
  destruct (lessb _ _) eqn:E.
  - destruct (rearranged_swap h i x) as [-> Hr]; [lia|lia|done|]. cbn [res_bind].
    destruct (down_step _ _ Hl Hg i x) as [Ho' Hgr']; try done.
    destruct (IH (h <| h_elems := swapped (h_elems h) i x |>) x) as (h' & -> & Hr' & Ho2).
    + lia.
    + cbn. by rewrite len_swapped.
    + done.
    + cbn. heap_lia.
    + by apply (rearranged_good h).
    + done.
    + done.
    + exists h'. split; [done|]. split; [by eapply rearranged_trans|done].
  - exists h. split; [done|]. split; [apply rearranged_refl|]. by apply (down_done _ _ Hl Hg i x).
Qed.

Lemma to_root_ok fuel h i :
  0 <= i < h.(h_size) -> h.(h_size) <= len h.(h_elems) -> h.(h_size) <= 2 ^ 30 -> i <= Z.of_nat fuel ->
  all_good h.(h_elems) h.(h_size) ->
  ordered h.(h_elems) h.(h_size) (fun j => j <> i /\ par j <> i) -> grand h.(h_elems) h.(h_size) i ->
  exists h', to_root fuel h i = Ok h' /\ rearranged h h' /\
    nth h'.(h_elems) 0 = nth h.(h_elems) i /\
    ordered h'.(h_elems) h'.(h_size) (fun j => par j <> 0).
Proof.
  revert h i. induction fuel as [|fuel IH]; intros h i Hi Hl Hs Hf Hg Ho Hgr; cbn [to_root].
  { assert (i = 0) as -> by lia. exists h. split; [done|]. split; [apply rearranged_refl|].
    split; [done|]. intros j Hj Hp. apply Ho; [done|lia]. }
  destruct (Z.eqb_spec i 0) as [->|Hne].
  { exists h. split; [done|]. split; [apply rearranged_refl|].
    split; [done|]. intros j Hj Hp. apply Ho; [done|lia]. }
  rewrite parent_par by lia.
  destruct (rearranged_swap h i (par i)) as [-> Hr]; [lia|heap_lia|done|]. cbn [res_bind].
  destruct (root_step _ _ Hl Hg i) as [Ho' Hgr']; [lia|done|done|].
  destruct (IH (h <| h_elems := swapped (h_elems h) i (par i) |>) (par i)) as (h' & -> & Hr' & Hnth & Ho2).
  - cbn. heap_lia.
  - cbn. by rewrite len_swapped.
  - done.
  - heap_lia.
  - by apply (rearranged_good h).
  - done.
  - done.
  - exists h'. split; [done|]. split; [by eapply rearranged_trans|]. split; [|done].
    rewrite Hnth. cbn. by swap_cases.
Qed.

(** The place of the new element [x], the hole, moves up. *)
Lemma heap_insert_loop_ok fuel h key i (x : Heap_elem) :
  he_key x = key -> he_s_key x = h.(h_s_key) ->
  0 <= i < h.(h_size) -> h.(h_size) <= len h.(h_elems) -> h.(h_size) <= 2 ^ 30 -> i <= Z.of_nat fuel ->
  all_good (upd h.(h_elems) i x) h.(h_size) ->
  ordered (upd h.(h_elems) i x) h.(h_size) (fun j => j <> i) ->
  grand (upd h.(h_elems) i x) h.(h_size) i ->
  exists l' i', insert_loop fuel h key i (parent i) = Ok (h <| h_elems := l' |>, i') /\
    0 <= i' < h.(h_size) /\ len l' = len h.(h_elems) /\
    live (upd l' i' x) h.(h_size) ≡ₚ live (upd h.(h_elems) i x) h.(h_size) /\
    ordered (upd l' i' x) h.(h_size) (fun _ => True).
Proof.
  intros Hk Hsk. revert h Hsk i. induction fuel as [|fuel IH]; intros h Hsk i Hi Hl Hs Hf Hg Ho Hgr;
    cbn [insert_loop]; destruct (Z.ltb_spec 0 i) as [Hpos|Hpos]; try lia;
    [exists (h_elems h), i; split; [by destruct h|]; split; [done|]; split; [done|]; split; [done|];
     intros j Hj _; apply Ho; lia| |
     exists (h_elems h), i; split; [by destruct h|]; split; [done|]; split; [done|]; split; [done|];
     intros j Hj _; apply Ho; lia].
  rewrite parent_par, get_ok by heap_lia. cbn [res_bind].
  set (p := nth (h_elems h) (par i)).
  assert (KEY_LESS_THAN key (h_s_key h) (he_key p) (he_s_key p) = lessb x p) as ->
    by (unfold lessb; by rewrite Hk, Hsk).
  set (l := upd (h_elems h) i x) in *.
  assert (nth l i = x /\ nth l (par i) = p) as [Ei Ep].
  { subst l p. rewrite !nth_upd by heap_lia. rewrite decide_True by done.
    by rewrite decide_False by heap_lia. }
  assert (len l = len (h_elems h)) as El by apply len_upd.
  assert (h_size h <= len l) as Hl' by lia.
  destruct (lessb x p) eqn:E.
  - rewrite set_ok by heap_lia. cbn [res_bind].
    destruct (up_step l (h_size h) Hl' Hg i) as [Ho' Hgr'];
      [lia|by rewrite Ei, Ep|done|done|].
    assert (upd (upd (h_elems h) i p) (par i) x = swapped l i (par i)) as Eq.
    { unfold swapped. rewrite Ei, Ep. subst l. unfold upd. by rewrite list_insert_insert_eq. }
    set (h2 := h <| h_elems := upd (h_elems h) i p |>).
    destruct (IH h2 Hsk (par i)) as (l' & i' & E2 & Hi' & Hlen & HP & Ho2);
      cbn -[insert_loop par len upd live all_good].
    + heap_lia.
    + by rewrite len_upd.
    + done.
    + heap_lia.
    + rewrite Eq. unfold all_good. rewrite (live_swapped l) by heap_lia. done.
    + by rewrite Eq.
    + by rewrite Eq.
    + exists l', i'. cbn -[insert_loop par len upd live all_good] in E2, Hi', Hlen, HP, Ho2. split; [exact E2|].
      split; [done|]. split; [by rewrite Hlen, len_upd|]. split; [|done].
      rewrite HP, Eq. apply live_swapped; heap_lia.
  - exists (h_elems h), i. split; [by destruct h|]. split; [done|]. split; [done|]. split; [done|].
    intros j Hj _. destruct (decide (j = i)) as [->|Hne]; [|by apply Ho]. fold l. by rewrite Ei, Ep.
Qed.

(** ** The operations *)

Record hinv h (P : Z -> Prop) : Prop := {
  hinv_size : 0 <= h.(h_size) <= h.(h_maxsize);
  hinv_len : len h.(h_elems) = h.(h_maxsize);
  hinv_max : 0 < h.(h_maxsize) <= 2 ^ 30;
  hinv_good : all_good h.(h_elems) h.(h_size);
  hinv_ordered : ordered h.(h_elems) h.(h_size) P
}.

Lemma grow_ok h P :
  hinv h P -> h.(h_size) < 2 ^ 29 ->
  exists h', grow h = Ok h' /\ hinv h' P /\ h'.(h_size) = h.(h_size) /\
    h'.(h_s_key) = h.(h_s_key) /\ h'.(h_size) < h'.(h_maxsize) /\
    live h'.(h_elems) h.(h_size) = live h.(h_elems) h.(h_size).
Proof.
  intros Hi Hm. pose proof Hi as [Hs Hl Hx Hg Ho]. unfold grow.
  destruct (Z.eqb_spec (h_maxsize h) (h_size h)) as [E|E].
  2: { exists h. split; [done|]. split; [done|]. repeat split; lia. }
  rewrite u32_small by lia. replace (_ <? _) with false by (symmetry; apply Z.ltb_ge; lia).
  assert (forall k, live (h_elems h ++ replicate k zero_elem) (h_size h) = live (h_elems h) (h_size h)) as Hlive.
  { intros k. unfold live, len in *. apply take_app_le. lia. }
  assert (forall j k, 0 <= j < h_size h -> nth (h_elems h ++ replicate k zero_elem) j = nth (h_elems h) j) as Hnth.
  { intros j k Hj. unfold nth, len in *. apply lookup_total_app_l. lia. }
  eexists. split; [done|]. split; [|cbn; split; [done|split; [done|split; [lia|apply Hlive]]]].
  split; cbn -[Z.mul].
  - lia.
  - unfold len in *. rewrite length_app, length_replicate. lia.
  - lia.
  - unfold all_good. by rewrite Hlive.
  - intros j Hj HP. rewrite !Hnth by heap_lia. by apply Ho.
Qed.

Lemma heap_insert_ok h key e :
  hinv h (fun _ => True) -> h.(h_size) < 2 ^ 29 -> F64.is_nan key = false ->
  exists h', heap_insert h key e = Ok h' /\ hinv h' (fun _ => True) /\
    live h'.(h_elems) h'.(h_size) ≡ₚ mkElem key h.(h_s_key) (Some e) :: live h.(h_elems) h.(h_size) /\
    h'.(h_s_key) = u32 (h.(h_s_key) + 1) /\ h'.(h_size) = h.(h_size) + 1.
Proof.
  intros Hi Hm Hk. destruct (grow_ok h _ Hi Hm) as (h1 & Eg & [Hs Hl Hx Hg Ho] & E1 & E2 & Hroom & E3).
  unfold heap_insert. rewrite Eg. cbn [res_bind]. set (n := h_size h1) in *.
  rewrite (u32_small (n + 1)) by lia.
  set (x := mkElem key (h_s_key h) (Some e)).
  assert (live (upd (h_elems h1) n x) (n + 1) ≡ₚ x :: live (h_elems h1) n) as HP.
  { rewrite live_snoc by (rewrite len_upd; lia).
    rewrite nth_upd, decide_True by lia. unfold live, upd. rewrite take_insert_ge by lia.
    solve_perm. }
  destruct (heap_insert_loop_ok (Z.to_nat n) (h1 <| h_size := n + 1 |>) key n x)
    as (l' & i' & -> & Hi' & Hlen & HP' & Ho').
  - done.
  - cbn. by rewrite E2.
  - cbn. lia.
  - cbn. lia.
  - cbn. lia.
  - lia.
  - cbn. unfold all_good. rewrite HP. by constructor.
  - cbn. intros j Hj Hne. rewrite !nth_upd by heap_lia.
    rewrite !decide_False by heap_lia. apply Ho; [lia|done].
  - cbn. intros j Hj Hp. heap_lia.
  - cbn [res_bind]. cbn in Hi', Hlen, HP', Ho'.
    rewrite set_ok by (cbn; lia). cbn [res_bind]. cbn. rewrite E2. fold x.
    eexists. split; [done|]. cbn. split; [|split; [|split; [done|lia]]].
    + split; cbn; [lia|by rewrite len_upd, Hlen|done| |done].
      unfold all_good. rewrite HP', HP. by constructor.
    + rewrite HP', HP, <- E3. by rewrite E1.
Qed.

Lemma heap_extract_min_ok h :
  hinv h (fun j => par j <> 0) ->
  exists h', heap_extract_min h =
      Ok (h', if h.(h_size) =? 0 then None else (nth h.(h_elems) 0).(he_elem)) /\
    hinv h' (fun _ => True) /\ h'.(h_s_key) = h.(h_s_key) /\ h'.(h_size) <= h.(h_size) /\
    live h.(h_elems) h.(h_size) ≡ₚ
      if h.(h_size) =? 0 then [] else nth h.(h_elems) 0 :: live h'.(h_elems) h'.(h_size).
Proof.
  intros [Hs Hl Hx Hg Ho]. unfold heap_extract_min.
  destruct (Z.eqb_spec (h_size h) 0) as [E|E].
  { exists h. split; [done|]. split; [split; try done; intros j Hj; lia|].
    split; [done|]. split; [done|]. by rewrite E. }
  rewrite !get_ok by lia. cbn [res_bind h_elems h_size field_update].
  set (n := h_size h - 1). set (h1 := h <| h_size := n |>).
  change (h_size h1) with n. rewrite get_ok by (cbn; lia). cbn [res_bind].
  change (h_elems h1) with (h_elems h). rewrite set_ok by (cbn; lia). cbn [res_bind].
  set (l := upd (h_elems h) 0 (nth (h_elems h) n)).
  assert (len l = len (h_elems h)) as El by apply len_upd.
  assert (live (h_elems h) (h_size h) ≡ₚ nth (h_elems h) 0 :: live l n) as HP.
  { replace (h_size h) with (n + 1) by lia. rewrite live_snoc by lia.
    destruct (decide (n = 0)) as [->|Hn0]; [done|].
    apply perm_occ. intros z. pose proof (live_upd (h_elems h) 0 (nth (h_elems h) n) n z) as Hu.
    subst l. autorewrite with occ. lia. }
  set (h2 := h1 <| h_elems := l |>).
  assert (h_size h2 = n /\ h_elems h2 = l /\ h_maxsize h2 = h_maxsize h /\ h_s_key h2 = h_s_key h)
    as (En & Ee & Em & Ek) by done.
  assert (all_good l n) as Hg2.
  { unfold all_good in *. rewrite HP in Hg. by apply Forall_cons in Hg as [_ Hg]. }
  destruct (heapify_ok (Z.to_nat n) h2 0) as (h' & E' & Hr & Ho'); rewrite ?En, ?Ee.
  - lia.
  - lia.
  - lia.
  - lia.
  - done.
  - intros j Hj Hp. subst l. rewrite !nth_upd by heap_lia. rewrite !decide_False by heap_lia.
    apply Ho; [lia|done].
  - intros j Hj Hp. lia.
  - lazymatch goal with |- context [heapify ?f ?hh 0] =>
      change (heapify f hh 0) with (heapify (Z.to_nat n) h2 0) end.
    rewrite E'. cbn [res_bind].
    pose proof (rearranged_size _ _ Hr) as Es. rewrite En in Es.
    pose proof (rearranged_good _ _ Hr) as Hg'. rewrite En, Ee in Hg'.
    destruct Hr as (Eh & Hlen & HP'). rewrite Ee, En in *.
    assert (h_maxsize h' = h_maxsize h /\ h_s_key h' = h_s_key h) as [Em' Ek'] by (by rewrite Eh).
    exists h'. split; [done|]. split; [|split; [done|split; [lia|by rewrite Es, HP']]].
    split; [lia|lia|lia|by apply Hg'|done].
Qed.

Lemma heap_member_loop_ok l (n : nat) i e :
  (n <= length l)%nat -> 0 <= i ->
  exists r, heap_member_loop l n i e = Ok r /\
    (r = 0 /\ Forall (fun x => x.(he_elem) <> Some e) (take n l) \/
     i < r <= i + Z.of_nat n /\ (l !!! Z.to_nat (r - 1 - i)).(he_elem) = Some e).
Proof.
  revert l i. induction n as [|n IH]; intros l i Hn Hi; cbn [heap_member_loop].
  { exists 0. split; [done|]. left. split; [done|constructor]. }
  destruct l as [|x l]; cbn [length] in Hn; [lia|].
  destruct (decide (he_elem x = Some e)) as [E|E].
  - exists (i + 1). split; [done|]. right. split; [lia|]. by replace (i + 1 - 1 - i) with 0 by lia.
  - destruct (IH l (i + 1)) as (r & -> & Hr); [lia|lia|]. exists r. split; [done|].
    destruct Hr as [(-> & Hall)|(Hr & He)]; [left; split; [done|by constructor]|right].
    split; [lia|]. replace (Z.to_nat (r - 1 - i)) with (S (Z.to_nat (r - 1 - (i + 1)))) by lia. done.
Qed.

Lemma heap_delete_ok h e :
  hinv h (fun _ => True) -> (exists x, x ∈ live h.(h_elems) h.(h_size) /\ x.(he_elem) = Some e) ->
  exists h' x, heap_delete h e = Ok (h', true) /\ x.(he_elem) = Some e /\
    hinv h' (fun _ => True) /\ h'.(h_s_key) = h.(h_s_key) /\ h'.(h_size) <= h.(h_size) /\
    live h.(h_elems) h.(h_size) ≡ₚ x :: live h'.(h_elems) h'.(h_size).
Proof.
  intros [Hs Hl Hx Hg Ho] (x0 & Hx0 & He0). unfold heap_delete, heap_member.
  destruct (heap_member_loop_ok (h_elems h) (Z.to_nat (h_size h)) 0 e) as (r & -> & Hr);
    [unfold len in *; lia|lia|]. cbn [res_bind].
  destruct Hr as [(-> & Hall)|(Hr & He)].
  { exfalso. rewrite Forall_forall in Hall. by apply (Hall x0). }
  replace (r =? 0) with false by (symmetry; apply Z.eqb_neq; lia).
  destruct (to_root_ok (Z.to_nat r) h (r - 1)) as (h1 & -> & Hrr & Hn & Ho1).
  - lia.
  - lia.
  - lia.
  - lia.
  - done.
  - intros j Hj _. by apply Ho.
  - intros j Hj Hp Hpos. apply (leE_trans _ (nth (h_elems h) (r - 1)));
      [apply (good_nth _ (h_size h)); [done|heap_lia|lia]..| |].
    + apply Ho; [lia|done].
    + rewrite <- Hp. by apply Ho.
  - cbn [res_bind]. pose proof (rearranged_size _ _ Hrr) as Es.
    pose proof (rearranged_good _ _ Hrr Hg) as Hg1. pose proof Hrr as (Eh & Hlen & HP).
    assert (h_maxsize h1 = h_maxsize h /\ h_s_key h1 = h_s_key h) as [Em Ek] by (by rewrite Eh).
    destruct (heap_extract_min_ok h1) as (h2 & -> & Hi2 & Ek2 & Em2 & HP2).
    { split; [lia|lia|lia|done|done]. }
    rewrite Es in HP2. cbn [res_bind].
    replace (h_size h =? 0) with false in HP2 by (symmetry; apply Z.eqb_neq; lia).
    exists h2, (nth (h_elems h1) 0). split; [done|]. split.
    { rewrite Hn. unfold nth. by replace (r - 1) with (r - 1 - 0) by lia. }
    split; [done|]. split; [congruence|]. split; [lia|]. by rewrite <- HP.
Qed.

End HeapFacts.

(** ** The heap holds the queued events *)

Module HeapRep.
Import Heap HeapFacts.

Implicit Types (s : evs) (h : t) (L : list addr) (x y : Heap_elem) (a b : addr).

(** An element is keyed by the time of its event. *)
Definition keyed s h x a : Prop :=
  x.(he_elem) = Some a /\ x.(he_key) = time_of s a /\ 0 <= x.(he_s_key) < h.(h_s_key).

Record heap_rep s h L : Prop := {
  hrep_inv : hinv h (fun _ => True);
  hrep_key : h.(h_s_key) < 2 ^ 32;
  hrep_perm : he_elem <$> live h.(h_elems) h.(h_size) ≡ₚ Some <$> L;
  hrep_keyed : forall x, x ∈ live h.(h_elems) h.(h_size) -> exists a, keyed s h x a;
  hrep_uid : forall x y a b,
    x ∈ live h.(h_elems) h.(h_size) -> y ∈ live h.(h_elems) h.(h_size) ->
    x.(he_elem) = Some a -> y.(he_elem) = Some b ->
    uid_of s a < uid_of s b <-> x.(he_s_key) < y.(he_s_key)
}.

Lemma hrep_in s h L x a :
  heap_rep s h L -> x ∈ live h.(h_elems) h.(h_size) -> x.(he_elem) = Some a -> a ∈ L.
Proof.
  intros Hr Hx Ha. assert (Some a ∈ he_elem <$> live (h_elems h) (h_size h)) as H
    by (rewrite <- Ha; by apply list_elem_of_fmap_2).
  rewrite (hrep_perm _ _ _ Hr) in H. apply list_elem_of_fmap in H as (b & [= ->] & Hb). done.
Qed.

Lemma hrep_elem s h L a :
  heap_rep s h L -> a ∈ L ->
  exists x, x ∈ live h.(h_elems) h.(h_size) /\ x.(he_elem) = Some a.
Proof.
  intros Hr Ha. assert (Some a ∈ Some <$> L) as H by (by apply list_elem_of_fmap_2).
  rewrite <- (hrep_perm _ _ _ Hr) in H. apply list_elem_of_fmap in H as (x & E & Hx). by exists x.
Qed.

Lemma heap_rep_ext s s' h L :
  heap_rep s h L -> (forall a, a ∈ L -> s' !! a = s !! a) -> heap_rep s' h L.
Proof.
  intros Hr Hext. pose proof Hr as [Hi Hk Hp Hkd Hu]. split; try done.
  - intros x Hx. destruct (Hkd x Hx) as (a & Ha & Ht & Hs). exists a. split; [done|].
    rewrite (SchedFacts.key_of_time s s'); [done|].
    apply SchedFacts.key_of_ext, Hext. by eapply hrep_in.
  - intros x y a b Hx Hy Ha Hb.
    rewrite (SchedFacts.key_of_uid s s' a), (SchedFacts.key_of_uid s s' b); [by apply Hu| |];
      apply SchedFacts.key_of_ext, Hext; [by apply (hrep_in s h L y)|by apply (hrep_in s h L x)].
Qed.

Lemma queued_total s L a b :
  queued s L -> a ∈ L -> b ∈ L -> a <> b -> before s a b \/ before s b a.
Proof.
  intros Hq Ha Hb Hne. pose proof (queued_sorted _ _ Hq) as Hs. clear Hq.
  induction Hs as [|c L Hs IH Hc]; [set_solver|]. rewrite Forall_forall in Hc.
  apply elem_of_cons in Ha as [->|Ha]; apply elem_of_cons in Hb as [->|Hb]; auto. done.
Qed.

(** The root is the first event. *)
Lemma hrep_root s h L :
  heap_rep s h L -> queued s L -> h.(h_size) <> 0 -> (nth h.(h_elems) 0).(he_elem) = head L.
Proof.
  intros Hr Hq Hne. pose proof Hr as [Hi Hk Hp Hkd Hu]. pose proof Hi as [Hs Hl Hm Hg Ho].
  assert (nth (h_elems h) 0 ∈ live (h_elems h) (h_size h)) as Hx by (apply live_nth; lia).
  destruct (Hkd _ Hx) as (a & Ha & Hta & Hsa). rewrite Ha. symmetry.
  assert (a ∈ L) as HaL by (by eapply hrep_in).
  apply (SchedFacts.queued_head s); [done|done|]. intros b HbL Hba.
  destruct (hrep_elem s h L b Hr HbL) as (y & Hy & Hb).
  destruct (Hkd _ Hy) as (b' & Hb' & Htb & Hsb). rewrite Hb in Hb'. injection Hb' as <-.
  destruct (live_elem _ _ _ Hy) as (j & Hj & Ej); [lia|].
  pose proof (root_least (h_elems h) (h_size h) ltac:(lia) Hg Ho j Hj) as Hle. rewrite Ej in Hle.
  assert (F64.is_nan (time_of s a) = false /\ F64.is_nan (time_of s b) = false) as [Na Nb]
    by (split; by apply (queued_valid _ _ Hq)).
  unfold leE, lessb, KEY_LESS_THAN in Hle. rewrite Hta, Htb in Hle.
  apply orb_false_iff in Hle as [H1 H2].
  pose proof (F64.le_total _ _ Nb Na H1) as Hle. rewrite F64.le_lt_or_eq in Hle.
  apply orb_true_iff in Hle as [Hlt|Heq]; [by left|]. right. split; [done|]. cbn.
  rewrite (F64.eq_sym _ _ Heq) in H2. cbn in H2. apply Z.ltb_ge in H2.
  destruct (Z.lt_trichotomy (uid_of s a) (uid_of s b)) as [H|[H|H]]; [done| |].
  - exfalso. destruct (queued_total s L a b Hq HaL HbL) as [[Hb1|[_ Hb1]]|[Hb1|[_ Hb1]]];
      [done| | | |]; cbn in Hb1; try lia.
    + by rewrite (F64.eq_not_lt _ _ Heq) in Hb1.
    + apply F64.eq_sym in Heq. by rewrite (F64.eq_not_lt _ _ Heq) in Hb1.
  - apply (Hu y (nth (h_elems h) 0) b a Hy Hx Hb Ha) in H. lia.
Qed.

(** Taking out an element of the heap. *)
Lemma heap_rep_remove s s' h h' L x a :
  heap_rep s h L -> NoDup L -> hinv h' (fun _ => True) -> h'.(h_s_key) = h.(h_s_key) ->
  live h.(h_elems) h.(h_size) ≡ₚ x :: live h'.(h_elems) h'.(h_size) -> x.(he_elem) = Some a ->
  (forall b, b ∈ L -> b <> a -> s' !! b = s !! b) ->
  heap_rep s' h' (remove_one a L).
Proof.
  intros Hr Hd Hi' Hk' HP Ha Hext. pose proof Hr as [Hi Hk Hp Hkd Hu].
  assert (a ∈ L) as HaL.
  { apply (hrep_in s h L x); [done|rewrite HP; set_solver|done]. }
  assert (he_elem <$> live (h_elems h') (h_size h') ≡ₚ Some <$> remove_one a L) as HP'.
  { apply (Permutation_cons_inv (a := Some a)). rewrite <- Ha at 1. rewrite <- fmap_cons, <- HP, Hp.
    change (Some a :: (Some <$> remove_one a L)) with (Some <$> (a :: remove_one a L)).
    by rewrite <- (remove_one_perm a L). }
  assert (forall y, y ∈ live (h_elems h') (h_size h') -> y ∈ live (h_elems h) (h_size h)) as Hsub
    by (intros y Hy; rewrite HP; set_solver).
  assert (forall y b, y ∈ live (h_elems h') (h_size h') -> he_elem y = Some b -> key_of s' b = key_of s b) as Hkey.
  { intros y b Hy Hb. assert (Some b ∈ Some <$> remove_one a L) as H
      by (rewrite <- HP', <- Hb; by apply list_elem_of_fmap_2).
    apply list_elem_of_fmap in H as (c & [= <-] & Hc). apply elem_of_remove_one in Hc as [Hne Hc]; [|done].
    by apply SchedFacts.key_of_ext, Hext. }
  split; [done|by rewrite Hk'|done| |].
  - intros y Hy. destruct (Hkd y (Hsub y Hy)) as (b & Hb & Htb & Hs). exists b. split; [done|].
    rewrite Hk', (SchedFacts.key_of_time s s') by (by eapply Hkey). done.
  - intros y z b c Hy Hz Hb Hc.
    rewrite (SchedFacts.key_of_uid s s' b (Hkey y b Hy Hb)), (SchedFacts.key_of_uid s s' c (Hkey z c Hz Hc)).
    by apply Hu; auto.
Qed.

(** Adding the latest event. *)
Lemma heap_rep_add s h h' L a :
  heap_rep s h L -> hinv h' (fun _ => True) -> h.(h_s_key) < 2 ^ 32 - 1 -> 0 <= h.(h_s_key) ->
  live h'.(h_elems) h'.(h_size) ≡ₚ
    mkElem (time_of s a) h.(h_s_key) (Some a) :: live h.(h_elems) h.(h_size) ->
  h'.(h_s_key) = u32 (h.(h_s_key) + 1) ->
  (forall b, b ∈ L -> uid_of s b < uid_of s a) ->
  heap_rep s h' (stable_insert (not_later s) a L).
Proof.
  intros Hr Hi' Hsk Hpos HP Hk' Hlast. pose proof Hr as [Hi Hk Hp Hkd Hu].
  rewrite u32_small in Hk' by lia.
  set (x := mkElem (time_of s a) (h_s_key h) (Some a)) in *.
  assert (forall y, y ∈ live (h_elems h') (h_size h') -> y = x \/ y ∈ live (h_elems h) (h_size h)) as Hcase
    by (intros y Hy; rewrite HP in Hy; set_solver).
  split; [done|lia| | |].
  - rewrite HP, (fmap_Permutation Some _ _ (stable_insert_perm _ a L)). cbn [fmap list_fmap].
    by constructor.
  - intros y Hy. destruct (Hcase y Hy) as [->|Hy'].
    + exists a. split; [done|]. split; [done|]. cbn. lia.
    + destruct (Hkd y Hy') as (b & Hb & Ht & Hs). exists b. split; [done|]. split; [done|lia].
  - intros y z b c Hy Hz Hb Hc.
    destruct (Hcase y Hy) as [->|Hy'], (Hcase z Hz) as [->|Hz'].
    + cbn in *. assert (b = c) as -> by congruence. lia.
    + cbn in Hb |- *. injection Hb as <-. destruct (Hkd z Hz') as (c' & Hc' & _ & Hs).
      pose proof (Hlast c (hrep_in s h L z c Hr Hz' Hc)). lia.
    + cbn in Hc |- *. injection Hc as <-. destruct (Hkd y Hy') as (b' & Hb' & _ & Hs).
      pose proof (Hlast b (hrep_in s h L y b Hr Hy' Hb)). lia.
    + by apply Hu.
Qed.

(** The iteration of [lookup]. *)
Lemma heap_lookup_loop_ok s h L u fuel e :
  heap_rep s h L -> queued s L ->
  1 <= h.(h_iter) <= h.(h_size) -> h.(h_size) - h.(h_iter) < Z.of_nat fuel ->
  e = (nth h.(h_elems) (h.(h_iter) - 1)).(he_elem) ->
  (forall j b, 0 <= j < h.(h_iter) - 1 -> (nth h.(h_elems) j).(he_elem) = Some b -> uid_of s b <> u) ->
  exists k r, HeapScheduler.lookup_loop fuel s h u e = Ok (h <| h_iter := k |>, r) /\
    match r with
    | Some a => a ∈ L /\ uid_of s a = u
    | None => Forall (fun a => uid_of s a <> u) L
    end.
Proof.
  intros Hr Hq. revert h Hr e. induction fuel as [|fuel IH]; intros h Hr e Hi Hf -> Hno; [lia|].
  pose proof Hr as [[Hs Hl Hm Hg Ho] Hk Hp Hkd Hu].
  assert (nth (h_elems h) (h_iter h - 1) ∈ live (h_elems h) (h_size h)) as Hx by (apply live_nth; lia).
  destruct (Hkd _ Hx) as (a & Ha & _). cbn [HeapScheduler.lookup_loop]. rewrite Ha.
  assert (a ∈ L) as HaL by (by eapply hrep_in).
  destruct (queued_valid _ _ Hq a HaL) as ([ev Hev] & _). rewrite Hev. cbn [deref res_bind].
  pose proof (uid_of_Some _ _ _ Hev) as Hua. destruct (Z.eqb_spec (uid_ ev) u) as [E|E].
  { exists (h_iter h), (Some a). split; [by destruct h|]. split; [done|congruence]. }
  assert (forall j b, 0 <= j < h_iter h -> he_elem (nth (h_elems h) j) = Some b -> uid_of s b <> u) as Hno'.
  { intros j b Hj Hb. destruct (decide (j = h_iter h - 1)) as [->|Hne]; [|by apply (Hno j); [lia|]].
    rewrite Ha in Hb. injection Hb as <-. congruence. }
  unfold heap_iter. destruct (Z.leb_spec (h_size h) (h_iter h)) as [Hend|Hend].
  - cbn [res_bind]. destruct fuel; cbn [HeapScheduler.lookup_loop]; exists 0, None; (split; [done|]);
      apply Forall_forall; intros b Hb; destruct (hrep_elem s h L b Hr Hb) as (y & Hy & Eb);
      destruct (live_elem _ _ _ Hy) as (j & Hj & Ej); try lia;
      apply (Hno' j); [lia|congruence|lia|congruence].
  - rewrite get_ok by lia. cbn [res_bind]. rewrite u32_small by lia.
    set (h2 := h <| h_iter := h_iter h + 1 |>).
    assert (heap_rep s h2 L) as Hr2 by (destruct Hr as [[] ? ? ? ?]; by split).
    destruct (IH h2 Hr2 (he_elem (nth (h_elems h) (h_iter h)))) as (k & r & E2 & Hres).
    + cbn. lia.
    + cbn. lia.
    + cbn. by replace (h_iter h + 1 - 1) with (h_iter h) by lia.
    + intros j b Hj. apply Hno'. cbn in Hj. lia.
    + rewrite E2. by exists k, r.
Qed.
End HeapRep.

(** ** The heap scheduler implements the interface *)

#[export] Instance HeapScheduler_laws : EventQueueLaws HeapScheduler.t.
Proof.
  exists (fun s q L => HeapRep.heap_rep s (HeapScheduler.hp_ q) L /\ 0 <= Heap.h_s_key (HeapScheduler.hp_ q))
    (fun q n => Heap.h_size (HeapScheduler.hp_ q) + Z.of_nat n <= 2 ^ 29 /\
       Heap.h_s_key (HeapScheduler.hp_ q) + Z.of_nat n < 2 ^ 32).
  - lia.
  - intros s s' q L [Hr Hpos] Hext. split; [|done]. by apply (HeapRep.heap_rep_ext s).
  - intros s [h] L a n [Hr Hpos] Hq [Hm Hsk] Ha [ev Hv] Hn Hp Hu. cbn in *.
    unfold HeapScheduler.insert. rewrite Hv. cbn. rewrite <- (time_of_Some _ _ _ Hv).
    destruct (HeapFacts.heap_insert_ok h (time_of s a) a (HeapRep.hrep_inv _ _ _ Hr))
      as (h' & -> & Hi' & HP' & Hk' & Hs'); [lia|done|].
    cbn. eexists. split; [done|]. cbn. split; [split|].
    + eapply (HeapRep.heap_rep_add s h h'); [done|done|lia|done..].
    + rewrite Hk'. apply u32_range.
    + rewrite Hk', u32_small by lia. lia.
  - intros s [h] L a [Hr Hpos] Hq [ev Hv] Hin. cbn in *. unfold HeapScheduler.cancel. rewrite Hv. cbn.
    rewrite (uid_of_Some _ _ _ Hv) in *. destruct (Z.leb_spec (uid_ ev) 0) as [Hu|Hu].
    + rewrite (proj2 (Z.ltb_ge _ _) Hu). by eexists _, _.
    + rewrite (proj2 (Z.ltb_lt _ _) Hu).
      destruct (HeapFacts.heap_delete_ok h a (HeapRep.hrep_inv _ _ _ Hr)) as (h' & x & -> & Hx & Hi' & Hk' & Hs' & HP).
      { eapply HeapRep.hrep_elem; [done|by apply Hin]. }
      cbn. eexists _, _. split; [done|]. split; [cbn; rewrite Hk'; lia|].
      split; [by apply negate_uid_Some|]. cbn. rewrite Hk'. split; [|done].
      eapply HeapRep.heap_rep_remove; [done|by eapply SchedFacts.queued_nodup|done|done|done|done|].
      intros b _ Hne. by apply lookup_insert_ne.
  - intros s [h] L [Hr Hpos] Hq. cbn in *. unfold HeapScheduler.deque. cbn.
    pose proof (HeapRep.hrep_inv _ _ _ Hr) as Hi.
    destruct (decide (Heap.h_size h = 0)) as [E|E].
    + assert (L = []) as ->.
      { destruct L as [|a L]; [done|]. destruct (HeapRep.hrep_elem s h (a :: L) a Hr) as (x & Hx & _); [set_solver|].
        unfold HeapFacts.live in Hx. rewrite E in Hx. cbn in Hx. set_solver. }
      unfold Heap.heap_extract_min. rewrite E. cbn. eexists. split; [done|]. split; [done|]. cbn. by rewrite E.
    + destruct (HeapFacts.heap_extract_min_ok h) as (h' & -> & Hi' & Hk' & Hs' & HP).
      { destruct Hi. split; try done. intros j Hj _. by apply hinv_ordered. }
      rewrite (proj2 (Z.eqb_neq _ _) E) in *. cbn.
      rewrite (HeapRep.hrep_root s h L Hr Hq E). eexists. split; [done|]. cbn. rewrite Hk'.
      split; [split; [|done]|intros n; lia].
      destruct L as [|a L]; cbn [head tail].
      { exfalso. assert (Heap.h_size h > 0) as Hs by (destruct Hi; lia).
        destruct (HeapRep.hrep_keyed _ _ _ Hr (HeapFacts.nth (Heap.h_elems h) 0)) as (a & Ha & _).
        - apply HeapFacts.live_nth; destruct Hi; lia.
        - pose proof (HeapRep.hrep_root s h [] Hr Hq E). cbn in *. congruence. }
      pose proof (HeapRep.heap_rep_remove s s h h' (a :: L) _ a Hr (SchedFacts.queued_nodup _ _ Hq) Hi' Hk' HP) as Hr'.
      cbn in Hr'. rewrite decide_True in Hr' by done. apply Hr'; [by apply (HeapRep.hrep_root s h (a :: L))|done].
  - intros s [h] L [Hr Hpos] Hq. exists (HeapScheduler.mk h).
    enough (HeapScheduler.head (HeapScheduler.mk h) = Ok (head L)) as E by (cbn [eq_head HeapScheduler_queue]; by rewrite E).
    cbn in *. unfold HeapScheduler.head, Heap.heap_min. cbn. pose proof (HeapRep.hrep_inv _ _ _ Hr) as Hi.
    destruct (Z.ltb_spec 0 (Heap.h_size h)) as [E|E].
    + rewrite HeapFacts.get_ok by (destruct Hi; lia). cbn. f_equal. apply (HeapRep.hrep_root s); [done|done|lia].
    + destruct L as [|a L]; [done|]. exfalso.
      destruct (HeapRep.hrep_elem s h (a :: L) a Hr) as (x & Hx & _); [set_solver|].
      destruct (HeapFacts.live_elem _ _ _ Hx) as (j & Hj & _); [destruct Hi; lia|]. lia.
  - intros s [h] L u [Hr Hpos] Hq. cbn in *. unfold HeapScheduler.lookup, Heap.heap_iter_init, Heap.heap_min.
    cbn [HeapScheduler.hp_]. pose proof (HeapRep.hrep_inv _ _ _ Hr) as Hi.
    set (h1 := h <| Heap.h_iter := 1 |>).
    assert (HeapRep.heap_rep s h1 L) as Hr1 by (destruct Hr as [[] ? ? ? ?]; by split).
    change (Heap.h_size h1) with (Heap.h_size h).
    destruct (Z.ltb_spec 0 (Heap.h_size h)) as [E|E].
    + change (Heap.get h1 0) with (Heap.get h 0).
      rewrite HeapFacts.get_ok by (destruct Hi; lia). cbn [res_bind].
      destruct (HeapRep.heap_lookup_loop_ok s h1 L u (Z.to_nat (Heap.h_size h)) (Heap.he_elem (HeapFacts.nth (Heap.h_elems h) 0)))
        as (k & r & E2 & Hres); [done|done|cbn; lia|cbn; lia|done|intros j b Hj; cbn in Hj; lia|].
      change (Heap.h_size h1) with (Heap.h_size h). rewrite E2. cbn [res_bind].
      eexists _, r. split; [done|]. split; [|done]. cbn. split; [|done].
      destruct Hr as [[] ? ? ? ?]; by split.
    + cbn. exists (HeapScheduler.mk h1), None. split; [by destruct (Z.to_nat (Heap.h_size h))|].
      split; [by split|]. apply Forall_forall. intros a Ha. exfalso.
      destruct (HeapRep.hrep_elem s h L a Hr Ha) as (x & Hx & _).
      destruct (HeapFacts.live_elem _ _ _ Hx) as (j & Hj & _); [destruct Hi; lia|]. lia.
Defined.

(** A run of the heap alone: keys leave in order, equal keys in insertion
    order, and the array has grown. *)
Example heap_sorts :
  (fix go (h : Heap.t) (ks : list Z) :=
     match ks with
     | [] => (fix out (n : nat) (h : Heap.t) :=
                match n with
                | O => Ok []
                | S n => let! (h, r) := Heap.heap_extract_min h in
                         let! l := out n h in Ok (r :: l)
                end) 5%nat h
     | k :: ks => let! h := Heap.heap_insert h (F64.of_Z (k mod 10)) (Z.to_pos k) in go h ks
     end) (Heap.create 2) [35; 21; 15; 40; 11] =
  Ok [Some 40%positive; Some 21%positive; Some 11%positive; Some 35%positive; Some 15%positive].
Proof. vm_compute. reflexivity. Qed.

(** * Properties *)

Module HeapProps.
Import Heap HeapFacts.

(** C39: [heap_extract_min] removes the least element: the one with the
    smallest key and, among equal keys, the smallest secondary key; the other
    elements stay, heap-ordered. *)
Theorem heap_extracts_least h :
  hinv h (fun _ => True) -> 0 < h.(h_size) ->
  exists h' x, heap_extract_min h = Ok (h', x.(he_elem)) /\ hinv h' (fun _ => True) /\
    live h.(h_elems) h.(h_size) ≡ₚ x :: live h'.(h_elems) h'.(h_size) /\
    Forall (leE x) (live h'.(h_elems) h'.(h_size)).
Proof.
  intros Hi Hpos. pose proof Hi as [Hs Hl Hx Hg Ho].
  destruct (heap_extract_min_ok h) as (h' & E & Hi' & _ & _ & HP); [by split; [..|intros j Hj _; apply Ho]|].
  replace (h_size h =? 0) with false in E, HP by (symmetry; apply Z.eqb_neq; lia).
  exists h', (nth (h_elems h) 0). split; [done|]. split; [done|]. split; [done|].
  apply Forall_forall. intros y Hy.
  destruct (live_elem (h_elems h) (h_size h) y) as (j & Hj & <-); [rewrite HP; set_solver|lia|].
  apply (root_least (h_elems h) (h_size h)); [lia|done..].
Qed.

(** C25: [heap_insert] adds one element, numbered with the secondary key, to
    the others and keeps the heap order; [heap_delete] takes one element with
    the given pointer out, and only that one. *)
Theorem heap_insert_delete h key e :
  hinv h (fun _ => True) -> h.(h_size) < 2 ^ 29 -> F64.is_nan key = false ->
  exists h1, heap_insert h key e = Ok h1 /\ hinv h1 (fun _ => True) /\
    live h1.(h_elems) h1.(h_size) ≡ₚ mkElem key h.(h_s_key) (Some e) :: live h.(h_elems) h.(h_size) /\
    exists h2 x, heap_delete h1 e = Ok (h2, true) /\ hinv h2 (fun _ => True) /\ x.(he_elem) = Some e /\
      live h1.(h_elems) h1.(h_size) ≡ₚ x :: live h2.(h_elems) h2.(h_size).
Proof.
  intros Hi Hs Hk. destruct (heap_insert_ok h key e Hi Hs Hk) as (h1 & E1 & Hi1 & HP1 & _).
  exists h1. split; [done|]. split; [done|]. split; [done|].
  destruct (heap_delete_ok h1 e Hi1) as (h2 & x & E2 & Hx & Hi2 & _ & _ & HP2).
  { exists (mkElem key (h_s_key h) (Some e)). rewrite HP1. split; [set_solver|done]. }
  by exists h2, x.
Qed.
End HeapProps.

(** * Witnesses *)

Module HeapWitness.
Import Heap HeapFacts HeapProps Scheduler QueueEquiv EquivProps.



Definition demo_heap1 : Heap.t := Heap.mk [mkElem (F64.of_Z 5) 0 (Some 7%positive); zero_elem] 1 1 2 0.

Lemma demo_hinv n : n = 0 \/ n = 1 -> hinv (demo_heap1 <| h_size := n |>) (fun _ => True).
Proof.
  intros Hn. split; cbn; [by destruct Hn as [-> | ->]|done|by destruct Hn as [-> | ->]| |].
  - destruct Hn as [-> | ->]; repeat constructor.
  - intros j Hj. lia.
Qed.

Lemma heap_extracts_least_witness :
  exists h' x, heap_extract_min demo_heap1 = Ok (h', x.(he_elem)) /\ hinv h' (fun _ => True) /\
    live demo_heap1.(h_elems) 1 ≡ₚ x :: live h'.(h_elems) h'.(h_size) /\
    Forall (leE x) (live h'.(h_elems) h'.(h_size)).
Proof.
  apply (heap_extracts_least demo_heap1).
  - apply (demo_hinv 1). by right.
  - reflexivity.
Defined.

Lemma heap_insert_delete_witness :
  exists h1, heap_insert demo_heap1 (F64.of_Z 3) 9%positive = Ok h1 /\ hinv h1 (fun _ => True) /\
    live h1.(h_elems) h1.(h_size) ≡ₚ
      mkElem (F64.of_Z 3) 1 (Some 9%positive) :: live demo_heap1.(h_elems) 1 /\
    exists h2 x, heap_delete h1 9%positive = Ok (h2, true) /\ hinv h2 (fun _ => True) /\
      x.(he_elem) = Some 9%positive /\
      live h1.(h_elems) h1.(h_size) ≡ₚ x :: live h2.(h_elems) h2.(h_size).
Proof.
  apply (heap_insert_delete demo_heap1 (F64.of_Z 3) 9%positive).
  - apply (demo_hinv 1). by right.
  - reflexivity.
  - reflexivity.
Defined.

(** Two periodic events and one that is cancelled; the run ends at time 3. *)
Definition ticks : program := fun h p es c =>
  if F64.is_nan (F64.add c (F64.of_Z 1)) then [Halt]
  else if F64.lt c (F64.of_Z 3) then [Schedule (Some h) p (F64.of_Z 1)] else [].

Definition tick_events : evs :=
  {[ 1%positive := new_event; 2%positive := new_event; 3%positive := new_event ]}.

Definition tick_start : list cmd :=
  [Schedule (Some 1%positive) 2%positive (F64.of_Z 1); Schedule (Some 1%positive) 1%positive (F64.of_Z 1);
   Schedule (Some 1%positive) 3%positive (F64.of_Z 2); Cancel 3%positive].

Definition tick_final : t ListScheduler.t :=
  let s := match exec_all (Scheduler.create tick_events ListScheduler.create) tick_start with
           | Ok s => s | Err _ => Scheduler.create tick_events ListScheduler.create end in
  match run (handle_of ticks) 10 s with Ok (s, _) => s | Err _ => s end.

Lemma run_queue_independent_witness :
  exists s1 s1', exec_all (Scheduler.create tick_events HeapScheduler.create) tick_start = Ok s1 /\
    run (handle_of ticks) 10 s1 = Ok (s1', [2; 1; 2; 1; 2; 1]%positive) /\
    s1'.(events) = tick_final.(events) /\ s1'.(clock_) = tick_final.(clock_) /\
    s1'.(halted_) = tick_final.(halted_).
Proof.
  destruct (exec_all (Scheduler.create tick_events ListScheduler.create) tick_start) as [s2|] eqn:E;
    [|exfalso; vm_compute in E; discriminate E].
  apply (run_queue_independent ticks 10 tick_events HeapScheduler.create tick_final
    [2; 1; 2; 1; 2; 1]%positive) with (cs := tick_start) (s2 := s2).
  - intros h p es c h' e d _. unfold ticks. destruct (F64.is_nan _) eqn:Hn; [set_solver|].
    destruct (F64.lt _ _); [|set_solver]. intros [= _ _ ->]%list_elem_of_singleton. exact Hn.
  - intros a. apply (ListWitness.uid_of_all tick_events (fun _ u => u <= 0)); [reflexivity|].
    apply (bool_decide_unpack _). vm_compute. exact I.
  - split; [|reflexivity]. split; cbn.
    + split; cbn; [done|done|done|constructor|intros j Hj; lia].
    + reflexivity.
    + constructor.
    + intros x Hx. inversion Hx.
    + intros x y a b Hx. inversion Hx.
  - split; vm_compute; congruence.
  - exact E.
  - intros h e d. unfold tick_start. rewrite !elem_of_cons.
    intros [[= _ _ ->]|[[= _ _ ->]|[[= _ _ ->]|[?|?%elem_of_nil]]]]; try reflexivity; done.
  - vm_compute in E. injection E as <-. vm_compute. reflexivity.
Defined.
End HeapWitness.
