(* ===== verification/SplaySched.v ===== *)
(** * The splay-tree scheduler

    [SplayScheduler] (src/ns2/common/splay-scheduler.cc): a binary search tree
    of events on the pointers [LEFT] and [RIGHT], restructured by top-down
    splaying on insertion and removal.  A tree of pointers is the inductive
    [tree] of event addresses; a null pointer is [Leaf]. *)

From Stdlib Require Import ZArith Lia Bool Sorted SpecFloat.
From stdpp Require Import base list gmap.
From S2P Require Import Prelude F64 PktQueue Sched ListSched QueueEquiv.

Module SplayScheduler.

Inductive tree := Leaf | Node (l : tree) (e : addr) (r : tree).

Record t := mk {
  root_ : tree;
  lookup_uid_ : Z;
  qsize_ : Z
}.

#[global] Instance eta_t : Eta t := fun q => mk (root_ q) (lookup_uid_ q) (qsize_ q).

Definition create : t := mk Leaf 0 0.

(** The left tree of a top-down splay: events with their left subtrees, the
    last linked first; the right pointer of the last is still to be set. *)
Definition close_left (ls : list (tree * addr)) (x : tree) : tree :=
  foldl (fun x '(l, e) => Node l e x) x ls.

(** The right tree: events with their right subtrees. *)
Definition close_right (rs : list (addr * tree)) (x : tree) : tree :=
  foldl (fun x '(e, r) => Node x e r) x rs.

(** The loop of [insert]: splits the tree [t] at [time]. *)
Fixpoint insert_loop (s : evs) (time : f64) (t : tree) (ls : list (tree * addr))
    (rs : list (addr * tree)) {struct t} : res (tree * tree) :=
  match t with
  | Leaf => Ok (close_left ls Leaf, close_right rs Leaf)
  | Node tl e tr =>
      let! ev := deref (s !! e) in
      if F64.lt time ev.(time_) then
        match tl with
        | Leaf => Ok (close_left ls Leaf, close_right rs t)
        | Node xl x xr =>
            let! xv := deref (s !! x) in
            if F64.lt time xv.(time_)
            then insert_loop s time xl ls ((x, Node xr e tr) :: rs)   (* ROTATE_RIGHT *)
            else insert_loop s time tl ls ((e, tr) :: rs)
        end
      else
        match tr with
        | Leaf => Ok (close_left ls t, close_right rs Leaf)
        | Node xl x xr =>
            let! xv := deref (s !! x) in
            if F64.ge time xv.(time_)
            then insert_loop s time xr ((Node tl e xl, x) :: ls) rs   (* ROTATE_LEFT *)
            else insert_loop s time tr ((tl, e) :: ls) rs
        end
  end.

Definition insert (s : evs) (q : t) (n : addr) : res t :=
  if q.(qsize_) =? 2 ^ 31 - 1 then Err UB      (* overflow of ++qsize_ *)
  else
    let q := q <| qsize_ := q.(qsize_) + 1 |> in
    let! ev := deref (s !! n) in
    match q.(root_) with
    | Leaf => Ok (q <| root_ := Node Leaf n Leaf |>)
    | _ =>
        let! (l, r) := insert_loop s ev.(time_) q.(root_) [] [] in
        Ok (q <| root_ := Node l n r |>)
    end.

Fixpoint head_loop (l : tree) (e : addr) : addr :=
  match l with
  | Leaf => e
  | Node ll x _ => head_loop ll x
  end.

Definition head (q : t) : option addr :=
  match q.(root_) with
  | Leaf => None
  | Node l e _ => Some (head_loop l e)
  end.

(** The loop of [deque] on the node [l] with subtrees [ll] and [r]: what the
    parent's left pointer becomes, and the event taken out. *)
Fixpoint deque_loop (ll : tree) (l : addr) (r : tree) {struct ll} : tree * addr :=
  match ll with
  | Leaf => (r, l)
  | Node lll x rr =>
      match lll with
      | Leaf => (Node rr l r, x)
      | Node a y b =>
          let (t, m) := deque_loop a y b in
          (Node t x (Node rr l r), m)                 (* zig-zig *)
      end
  end.

Definition deque (q : t) : t * option addr :=
  match q.(root_) with
  | Leaf => (q, None)
  | Node l e r =>
      let q := q <| qsize_ := q.(qsize_) - 1 |> in
      match l with
      | Leaf => (q <| root_ := r |>, Some e)
      | Node a x b =>
          let (l', m) := deque_loop a x b in
          (q <| root_ := Node l' e r |>, Some m)
      end
  end.

(** Takes the leftmost event [q] of a tree [Node l e r] out. *)
Fixpoint take_successor (l : tree) (e : addr) (r : tree) : tree * addr :=
  match l with
  | Leaf => (r, e)
  | Node ll x lr => let (l', m) := take_successor ll x lr in (Node l' e r, m)
  end.

(** What replaces a node with subtrees [l] and [r]. *)
Definition unlink (l r : tree) : tree :=
  match r with
  | Leaf => l
  | Node rl p rr =>
      match l with
      | Leaf => r
      | _ => let (r', m) := take_successor rl p rr in Node l m r'
      end
  end.

(** The search of [cancel]: right when [e] is later, by time and uid. *)
Definition goes_right (ev xv : Event) : bool :=
  F64.gt ev.(time_) xv.(time_) || F64.eq ev.(time_) xv.(time_) && (xv.(uid_) <? ev.(uid_)).

Fixpoint cancel_loop (s : evs) (e : addr) (ev : Event) (t : tree) : res tree :=
  match t with
  | Leaf => Err Abort                              (* not found *)
  | Node l x r =>
      if decide (x = e) then Ok (unlink l r)
      else
        let! xv := deref (s !! x) in
        if goes_right ev xv
        then let! r := cancel_loop s e ev r in Ok (Node l x r)
        else let! l := cancel_loop s e ev l in Ok (Node l x r)
  end.

Definition cancel (s : evs) (q : t) (e : addr) : res (evs * t) :=
  let! ev := deref (s !! e) in
  if ev.(uid_) <=? 0 then Ok (s, q)                (* event not in queue *)
  else
    let! x := cancel_loop s e ev q.(root_) in
    Ok (<[e := ev <| uid_ := - ev.(uid_) |>]> s,
        q <| root_ := x |> <| qsize_ := q.(qsize_) - 1 |>).

Fixpoint uid_lookup (s : evs) (uid : Z) (root : tree) : res (option addr) :=
  match root with
  | Leaf => Ok None
  | Node l e r =>
      let! ev := deref (s !! e) in
      if ev.(uid_) =? uid then Ok (Some e)
      else
        let! res := uid_lookup s uid l in
        match res with
        | Some a => Ok (Some a)
        | None => uid_lookup s uid r
        end
  end.

Definition lookup (s : evs) (q : t) (uid : Z) : res (t * option addr) :=
  let q := q <| lookup_uid_ := uid |> in
  let! r := uid_lookup s q.(lookup_uid_) q.(root_) in
  Ok (q, r).

(** [validate]: the assertions on neighbouring times, and the size. *)
Fixpoint validate (s : evs) (root : tree) : res Z :=
  match root with
  | Leaf => Ok 0
  | Node l e r =>
      let! ev := deref (s !! e) in
      let! okl := match l with
                  | Leaf => Ok true
                  | Node _ x _ => let! xv := deref (s !! x) in Ok (F64.ge ev.(time_) xv.(time_))
                  end in
      let! okr := match r with
                  | Leaf => Ok true
                  | Node _ x _ => let! xv := deref (s !! x) in Ok (F64.le ev.(time_) xv.(time_))
                  end in
      if okl && okr then
        let! a := validate s l in
        let! b := validate s r in
        Ok (1 + a + b)
      else Err Abort
  end.

End SplayScheduler.

#[export] Instance SplayScheduler_queue : EventQueue SplayScheduler.t := {
  eq_insert := SplayScheduler.insert;
  eq_cancel := SplayScheduler.cancel;
  eq_deque _ q := Ok (SplayScheduler.deque q);
  eq_head _ q := Ok (q, SplayScheduler.head q);
  eq_lookup := SplayScheduler.lookup
}.

(** * Facts *)

Module SplayFacts.
Import SplayScheduler SchedFacts.

Implicit Types (s : evs) (t l r : tree) (e n x : addr) (L : list addr).

(** The events of a tree, left to right. *)
Fixpoint elements t : list addr :=
  match t with
  | Leaf => []
  | Node l e r => elements l ++ e :: elements r
  end.

Lemma close_left_elements ls t :
  elements (close_left ls t) = elements (close_left ls Leaf) ++ elements t.
Proof.
  revert t. induction ls as [|[l e] ls IH]; intros t; [done|]. cbn [close_left foldl].
  change (elements (close_left ls (Node l e t)) = elements (close_left ls (Node l e Leaf)) ++ elements t).
  rewrite IH, (IH (Node l e Leaf)). cbn. by rewrite <- !app_assoc.
Qed.

Lemma close_right_elements rs t :
  elements (close_right rs t) = elements t ++ elements (close_right rs Leaf).
Proof.
  revert t. induction rs as [|[e r] rs IH]; intros t; [by rewrite app_nil_r|]. cbn [close_right foldl].
  change (elements (close_right rs (Node t e r)) = elements t ++ elements (close_right rs (Node Leaf e r))).
  rewrite IH, (IH (Node Leaf e r)). cbn. by rewrite <- !app_assoc.
Qed.

(** Sizes of trees. *)
Ltac tree_lia := repeat (cbn; rewrite ?length_app); lia.

(** Once later than [n], later ever after. *)
Lemma later_mono s n x y : before s x y -> not_later s x n = false -> not_later s y n = false.
Proof.
  unfold not_later. rewrite !negb_false_iff. intros Hb Hx. eapply F64.lt_le_trans; [exact Hx|].
  destruct Hb as [Hb|[Hb _]]; [by apply F64.lt_le|by apply F64.eq_le].
Qed.

(** [elements] of the four ways to descend. *)
Lemma queued_app s L1 L2 :
  queued s (L1 ++ L2) ->
  queued s L1 /\ queued s L2 /\ forall x y, x ∈ L1 -> y ∈ L2 -> before s x y.
Proof.
  intros Hq. split; [|split].
  - eapply queued_sub; [exact Hq|]. by apply sublist_inserts_r.
  - eapply queued_sub; [exact Hq|]. by apply sublist_inserts_l.
  - intros x y Hx Hy. apply list_elem_of_split in Hx as (k1 & k2 & ->).
    rewrite <- app_assoc in Hq. cbn in Hq.
    assert (queued s (x :: k2 ++ L2)) as Hq' by (eapply queued_sub; [exact Hq|by apply sublist_inserts_l]).
    apply queued_tail in Hq' as [_ Hx]. rewrite Forall_forall in Hx. apply Hx. set_solver.
Qed.

Lemma queued_node s l e r :
  queued s (elements (Node l e r)) ->
  queued s (elements l) /\ queued s (elements r) /\
  (exists ev, s !! e = Some ev /\ F64.is_nan ev.(time_) = false) /\
  (forall x, x ∈ elements l -> before s x e) /\ (forall x, x ∈ elements r -> before s e x).
Proof.
  cbn. intros Hq. pose proof (queued_app _ _ _ Hq) as (Hl & Hr & Hb).
  pose proof (queued_tail _ _ _ Hr) as [Hr' He]. rewrite Forall_forall in He.
  split; [done|]. split; [done|]. split.
  - destruct (queued_valid _ _ Hr e) as ([ev Hev] & Hn & _); [set_solver|].
    exists ev. split; [done|]. by rewrite (time_of_Some _ _ _ Hev) in Hn.
  - split; [|done]. intros x Hx. apply Hb; set_solver.
Qed.

(** [out] is a split of the events [L] at [n], added to the spines. *)
Definition splits s n ls rs L (out : res (tree * tree)) : Prop :=
  exists tl tr k1 k2, out = Ok (tl, tr) /\ L = k1 ++ k2 /\
    elements tl = elements (close_left ls Leaf) ++ k1 /\
    elements tr = k2 ++ elements (close_right rs Leaf) /\
    Forall (fun y => not_later s y n = true) k1 /\ Forall (fun y => not_later s y n = false) k2.

(** [LINK_RIGHT] and [LINK_LEFT]. *)
Lemma splits_right s n ls rs x r L out :
  splits s n ls ((x, r) :: rs) L out ->
  Forall (fun y => not_later s y n = false) (x :: elements r) ->
  splits s n ls rs (L ++ x :: elements r) out.
Proof.
  intros (a & b & k1 & k2 & -> & -> & Ea & Eb & H1 & H2) Hr.
  exists a, b, k1, (k2 ++ x :: elements r). split; [done|]. split; [by rewrite <- app_assoc|].
  split; [done|]. split; [|split; [done|by apply Forall_app]]. rewrite Eb.
  change (close_right ((x, r) :: rs) Leaf) with (close_right rs (Node Leaf x r)).
  rewrite (close_right_elements rs (Node _ _ _)). cbn. by rewrite <- app_assoc.
Qed.

Lemma splits_left s n ls rs l x L out :
  splits s n ((l, x) :: ls) rs L out ->
  Forall (fun y => not_later s y n = true) (elements l ++ [x]) ->
  splits s n ls rs (elements l ++ x :: L) out.
Proof.
  intros (a & b & k1 & k2 & -> & -> & Ea & Eb & H1 & H2) Hl.
  exists a, b, (elements l ++ x :: k1), k2. split; [done|]. split; [by rewrite <- app_assoc|].
  split; [|split; [done|split; [|done]]].
  - rewrite Ea. change (close_left ((l, x) :: ls) Leaf) with (close_left ls (Node l x Leaf)).
    rewrite (close_left_elements ls (Node _ _ _)). cbn. by rewrite <- !app_assoc.
  - change (x :: k1) with ([x] ++ k1). rewrite app_assoc. by apply Forall_app.
Qed.

Lemma splits_leaf s n ls rs : splits s n ls rs [] (Ok (close_left ls Leaf, close_right rs Leaf)).
Proof. eexists _, _, [], []. split; [done|]. split; [done|]. by rewrite app_nil_r. Qed.

(** Everything right of a later event is later, everything left of an event
    that is not later is not later. *)
Lemma later_right s n x L :
  not_later s x n = false -> (forall y, y ∈ L -> before s x y) ->
  Forall (fun y => not_later s y n = false) (x :: L).
Proof.
  intros Hx HL. constructor; [done|]. apply Forall_forall. intros y Hy.
  eapply later_mono; [by apply HL|done].
Qed.

Lemma earlier_left s n x L :
  not_later s x n = true -> (forall y, y ∈ L -> before s y x) ->
  Forall (fun y => not_later s y n = true) (L ++ [x]).
Proof.
  intros Hx HL. apply Forall_app. split; [|by constructor]. apply Forall_forall. intros y Hy.
  apply not_false_iff_true. intros Hy'. apply (later_mono s n y x) in Hy'; [congruence|by apply HL].
Qed.

(** The loop of [insert] splits the tree in two without losing an event. *)
Lemma splay_insert_loop_ok s n t ls rs :
  queued s (elements t) -> splits s n ls rs (elements t) (insert_loop s (time_of s n) t ls rs).
Proof.
  intros Hq. remember (length (elements t)) as m eqn:Hm. revert t ls rs Hm Hq.
  induction m as [m IH] using lt_wf_ind. intros t ls rs -> Hq.
  destruct t as [|tl e tr]; cbn [insert_loop]; [apply splits_leaf|].
  destruct (queued_node _ _ _ _ Hq) as (Hql & Hqr & (ev & He & Hne) & Hbl & Hbr).
  rewrite He. cbn [deref res_bind].
  assert (not_later s e n = negb (F64.lt (time_of s n) (time_ ev))) as Hen
    by (unfold not_later; by rewrite (time_of_Some _ _ _ He)).
  destruct (F64.lt (time_of s n) (time_ ev)) eqn:El; cbn in Hen.
  - pose proof (later_right s n e _ Hen Hbr) as Hlate.
    destruct tl as [|xl x xr]; [by apply (splits_right s n ls rs e tr []); [apply splits_leaf|]|].
    destruct (queued_node _ _ _ _ Hql) as (Hqxl & Hqxr & (xv & Hx & Hnx) & Hxl & Hxr).
    rewrite Hx. cbn [deref res_bind]. destruct (F64.lt (time_of s n) (time_ xv)) eqn:Ex.
    + cbn. rewrite <- app_assoc. apply (splits_right s n ls rs x (Node xr e tr)).
      * eapply IH; [|done|done]. tree_lia.
      * assert (not_later s x n = false) as Hxn
          by (unfold not_later; by rewrite (time_of_Some _ _ _ Hx), Ex).
        pose proof (later_right s n x _ Hxn Hxr) as Hlx. apply (Forall_app _ (x :: elements xr)). done.
    + apply (splits_right s n ls rs e tr (elements (Node xl x xr))); [|done].
      eapply IH; [|done|done]. tree_lia.
  - pose proof (earlier_left s n e _ Hen Hbl) as Hearly.
    destruct tr as [|xl x xr]; [by apply (splits_left s n ls rs tl e []); [apply splits_leaf|]|].
    destruct (queued_node _ _ _ _ Hqr) as (Hqxl & Hqxr & (xv & Hx & Hnx) & Hxl & Hxr).
    rewrite Hx. cbn [deref res_bind]. unfold F64.ge. destruct (F64.le (time_ xv) (time_of s n)) eqn:Ex.
    + replace (elements (Node tl e (Node xl x xr))) with (elements (Node tl e xl) ++ x :: elements xr)
        by (cbn; by rewrite <- app_assoc).
      apply (splits_left s n ls rs (Node tl e xl) x).
      * eapply IH; [|done|done]. tree_lia.
      * assert (not_later s x n = true) as Hxn.
        { unfold not_later. rewrite (time_of_Some _ _ _ Hx). apply negb_true_iff.
          apply not_true_iff_false. intros Hlt. apply F64.lt_not_le in Hlt. congruence. }
        pose proof (earlier_left s n x _ Hxn Hxl) as Hlx. cbn. rewrite <- app_assoc. cbn.
        change (elements tl ++ e :: elements xl ++ [x]) with (elements tl ++ [e] ++ elements xl ++ [x]).
        rewrite app_assoc. by apply Forall_app.
    + apply (splits_left s n ls rs tl e (elements (Node xl x xr))); [|done].
      eapply IH; [|done|done]. tree_lia.
Qed.

Lemma head_loop_ok l e r : list.head (elements (Node l e r)) = Some (head_loop l e).
Proof.
  revert e r. induction l as [|ll IH x lr _]; intros e r; [done|]. cbn [head_loop].
  rewrite <- (IH x (Node lr e r)). cbn. by rewrite <- app_assoc.
Qed.

(** [deque] takes the leftmost event out. *)
Lemma splay_deque_loop_ok ll (l m : addr) r t :
  deque_loop ll l r = (t, m) -> elements (Node ll l r) = m :: elements t.
Proof.
  remember (length (elements ll)) as n eqn:Hn. revert ll l m r t Hn.
  induction n as [n IH] using lt_wf_ind. intros ll l m r t -> E.
  destruct ll as [|[|a y b] x rr]; cbn [deque_loop] in E; [by injection E as <- <-..|].
  destruct (deque_loop a y b) as [t' m'] eqn:E'. injection E as <- <-.
  apply (IH (length (elements a))) in E'; [|tree_lia|done]. cbn in *. rewrite E'. cbn. by rewrite <- !app_assoc.
Qed.

Lemma take_successor_ok l e m r t :
  take_successor l e r = (t, m) -> elements (Node l e r) = m :: elements t.
Proof.
  revert e m r t. induction l as [|ll IH x lr _]; intros e m r t E; cbn [take_successor] in E.
  { by injection E as <- <-. }
  destruct (take_successor ll x lr) as [l' m'] eqn:E'. injection E as <- <-.
  apply IH in E'. cbn in *. by rewrite E'.
Qed.

Lemma splay_unlink_ok l r : elements (unlink l r) = elements l ++ elements r.
Proof.
  destruct r as [|rl p rr]; cbn [unlink]; [by rewrite app_nil_r|].
  destruct l as [|a y b]; [done|]. destruct (take_successor rl p rr) as [r' m] eqn:E.
  apply take_successor_ok in E. cbn in *. by rewrite E.
Qed.

(** The search of [cancel] goes where the event is. *)
Lemma goes_right_before s e x ev xv :
  s !! e = Some ev -> s !! x = Some xv -> goes_right ev xv = true <-> before s x e.
Proof.
  intros He Hx. unfold goes_right, before, key_before, F64.gt.
  rewrite (key_of_Some _ _ _ He), (key_of_Some _ _ _ Hx). cbn.
  rewrite orb_true_iff, andb_true_iff, Z.ltb_lt.
  split; (intros [H|[H Hu]]; [by left|right; split; [by apply F64.eq_sym|done]]).
Qed.

Lemma splay_cancel_loop_ok s e ev t :
  s !! e = Some ev -> queued s (elements t) -> e ∈ elements t ->
  exists t', cancel_loop s e ev t = Ok t' /\ elements t' = remove_one e (elements t).
Proof.
  intros He. induction t as [|l IHl x r IHr]; cbn [cancel_loop]; intros Hq Hin; [set_solver|].
  pose proof (queued_node _ _ _ _ Hq) as (Hql & Hqr & (xv & Hx & Hn) & Hl & Hr).
  pose proof (queued_nodup _ _ Hq) as Hd. cbn in Hd, Hin |- *.
  apply NoDup_app in Hd as (Hdl & Hlr & Hdr). apply NoDup_cons in Hdr as [Hxr Hdr].
  destruct (decide (x = e)) as [->|Hne].
  { exists (unlink l r). split; [done|]. rewrite splay_unlink_ok, remove_one_split; [done|].
    intros Hel. by apply (Hlr e Hel), elem_of_cons; left. }
  rewrite Hx. cbn [deref res_bind]. pose proof (goes_right_before s e x ev xv He Hx) as Hg.
  apply elem_of_app in Hin as [Hin|[->|Hin]%elem_of_cons]; [|done|].
  - destruct (goes_right ev xv).
    { exfalso. apply (key_before_irrefl (key_of s e)). change (before s e e).
      transitivity x; [by apply Hl|by apply Hg]. }
    destruct (IHl Hql Hin) as (l' & -> & El). exists (Node l' x r). split; [done|].
    cbn. by rewrite El, remove_one_app_l.
  - rewrite (proj2 Hg (Hr e Hin)). destruct (IHr Hqr Hin) as (r' & -> & Er).
    exists (Node l x r'). split; [done|]. cbn. rewrite Er.
    assert (e ∉ elements l) as Hel by (intros Hel; by apply (Hlr e Hel), elem_of_cons; right).
    clear -Hel Hne. induction (elements l) as [|y k IH]; cbn; [by rewrite decide_False|].
    rewrite decide_False by set_solver. f_equal. apply IH. set_solver.
Qed.

(** A search for an event that is not in the tree aborts. *)
Lemma cancel_loop_absent s e ev t :
  (forall x, x ∈ elements t -> is_Some (s !! x)) -> e ∉ elements t ->
  cancel_loop s e ev t = Err Abort.
Proof.
  induction t as [|l IHl x r IHr]; cbn; intros Hv He; [done|].
  rewrite decide_False by set_solver. destruct (Hv x) as [xv ->]; [set_solver|]. cbn.
  destruct (goes_right ev xv); [rewrite IHr by set_solver|rewrite IHl by set_solver]; done.
Qed.

Lemma uid_lookup_ok s u t :
  (forall x, x ∈ elements t -> is_Some (s !! x)) ->
  exists o, uid_lookup s u t = Ok o /\
    match o with
    | Some a => a ∈ elements t /\ uid_of s a = u
    | None => Forall (fun a => uid_of s a <> u) (elements t)
    end.
Proof.
  induction t as [|l IHl x r IHr]; cbn; intros Hv; [by exists None|].
  destruct (Hv x) as [xv Hx]; [set_solver|]. rewrite Hx. cbn.
  destruct (Z.eqb_spec (uid_ xv) u) as [E|E].
  { exists (Some x). split; [done|]. rewrite (uid_of_Some _ _ _ Hx). set_solver. }
  destruct IHl as ([a|] & -> & Hl); [set_solver| |]; cbn; [exists (Some a); set_solver|].
  destruct IHr as (res & -> & Hr); [set_solver|]. exists res. split; [done|].
  destruct res as [a|]; [set_solver|]. apply Forall_app. split; [done|].
  constructor; [by rewrite (uid_of_Some _ _ _ Hx)|done].
Qed.

(** The tree holds [L] in order and the counter counts it. *)
Definition splay_rep (q : SplayScheduler.t) L : Prop :=
  elements q.(root_) = L /\ q.(qsize_) = Z.of_nat (length L) /\ Z.of_nat (length L) < 2 ^ 31.

Lemma splay_insert_ok s q L n :
  splay_rep q L -> queued s L -> q.(qsize_) < 2 ^ 31 - 1 -> is_Some (s !! n) ->
  exists q' l r, insert s q n = Ok q' /\ q'.(root_) = Node l n r /\ L = elements l ++ elements r /\
    Forall (fun y => not_later s y n = true) (elements l) /\
    Forall (fun y => not_later s y n = false) (elements r) /\ q'.(qsize_) = q.(qsize_) + 1.
Proof.
  intros (<- & Hs & _) Hq Hmax [ev He]. unfold insert. rewrite (proj2 (Z.eqb_neq _ _)) by lia.
  rewrite He. cbn [deref res_bind]. rewrite <- (time_of_Some _ _ _ He).
  destruct q as [t u z]; cbn in *. destruct t as [|tl e tr].
  { by eexists _, Leaf, Leaf. }
  destruct (splay_insert_loop_ok s n (Node tl e tr) [] [] Hq) as (l & r & k1 & k2 & -> & Ek & El & Er & H1 & H2).
  cbn in El, Er. rewrite app_nil_r in Er. subst k1 k2. by eexists _, l, r.
Qed.

Lemma splay_deque_ok q L :
  splay_rep q L ->
  exists q', deque q = (q', list.head L) /\ splay_rep q' (tail L) /\ q'.(qsize_) <= q.(qsize_).
Proof.
  intros (<- & Hz & Hm). unfold deque. destruct q as [[|l e r] u z]; cbn [root_ qsize_] in *.
  { by eexists. }
  destruct (list.head (elements (Node l e r))) as [m|] eqn:Eh; [|by rewrite head_loop_ok in Eh].
  assert (exists t, match l with
    | Leaf => ((mk (Node l e r) u z) <| qsize_ := z - 1 |> <| root_ := r |>, Some e)
    | Node a x b => let (l', m) := deque_loop a x b in
                    ((mk (Node l e r) u z) <| qsize_ := z - 1 |> <| root_ := Node l' e r |>, Some m)
    end = (mk t u (z - 1), Some m) /\ elements (Node l e r) = m :: elements t) as (t & E & Et).
  { destruct l as [|a x b]; [cbn in Eh; injection Eh as <-; by exists r|].
    destruct (deque_loop a x b) as [l' m'] eqn:E. apply splay_deque_loop_ok in E.
    exists (Node l' e r). assert (elements (Node (Node a x b) e r) = m' :: elements (Node l' e r)) as Ee.
    { change (elements (Node a x b) ++ e :: elements r = m' :: elements (Node l' e r)). by rewrite E. }
    rewrite Ee in Eh. injection Eh as <-. by split. }
  eexists. split; [exact E|]. rewrite Et in *. cbn in *. split; [|lia]. split; [done|]. cbn. lia.
Qed.
End SplayFacts.

#[export] Instance SplayScheduler_laws : EventQueueLaws SplayScheduler.t.
Proof.
  exists (fun _ q L => SplayFacts.splay_rep q L)
    (fun q n => q.(SplayScheduler.qsize_) + Z.of_nat n < 2 ^ 31); cbn.
  - lia.
  - done.
  - intros s q L a n Hr Hq Hroom Ha Hs Hn Hp Hu.
    destruct (SplayFacts.splay_insert_ok s q L a Hr Hq ltac:(lia) Hs) as (q' & l & r & -> & Er & EL & H1 & H2 & Ez).
    destruct Hr as (_ & Hz & _).
    exists q'. split; [done|]. split; [|lia]. subst L. rewrite stable_insert_split; [|done|].
    + split; [by rewrite Er|]. rewrite Ez, Hz, !length_app in *. cbn. lia.
    + destruct (SplayFacts.elements r); [done|]. cbn. apply Forall_cons in H2 as [H2 _]. by constructor.
  - intros s q L a (<- & Hz & Hm) Hq [ev He] Hin. unfold SplayScheduler.cancel. rewrite He. cbn.
    rewrite (uid_of_Some _ _ _ He) in *. destruct (Z.leb_spec (uid_ ev) 0) as [Hu|Hu].
    { rewrite (proj2 (Z.ltb_ge _ _) Hu). by eexists _, _. }
    rewrite (proj2 (Z.ltb_lt _ _) Hu). specialize (Hin Hu).
    destruct (SplayFacts.splay_cancel_loop_ok s a ev _ He Hq Hin) as (t' & -> & Et). cbn.
    eexists _, _. split; [done|]. cbn. split; [lia|]. split; [by apply negate_uid_Some|].
    pose proof (length_remove_one _ _ Hin). split; [done|]. cbn. lia.
  - intros s q L Hr _. destruct (SplayFacts.splay_deque_ok q L Hr) as (q' & E & Hr' & Hz).
    exists q'. rewrite E. split; [done|]. split; [done|]. lia.
  - intros s q L (<- & Hr) _. exists q. split; [|done]. unfold SplayScheduler.head.
    destruct (SplayScheduler.root_ q); [done|]. by rewrite SplayFacts.head_loop_ok.
  - intros s q L u (<- & Hz) Hq.
    destruct (SplayFacts.uid_lookup_ok s u (SplayScheduler.root_ q)) as (r & E & Hr).
    { intros x Hx. by apply (queued_valid _ _ Hq). }
    unfold SplayScheduler.lookup. cbn. rewrite E. eexists _, r. by split; [|split].
Defined.

(** * Properties *)

Module SplayProps.
Import SplayScheduler SchedFacts SplayFacts.

Implicit Types (s : evs) (t l r : tree) (e n x : addr) (L : list addr).

(** C37: [insert] makes the new event the root of the splay tree: the events
    not later than it become the left subtree, the later ones the right
    subtree, all others kept in order. *)
Theorem splay_insert_root s q L n :
  splay_rep q L -> queued s L -> q.(qsize_) < 2 ^ 31 - 1 -> is_Some (s !! n) ->
  exists q' l r, insert s q n = Ok q' /\ q'.(root_) = Node l n r /\ L = elements l ++ elements r /\
    Forall (fun y => not_later s y n = true) (elements l) /\
    Forall (fun y => not_later s y n = false) (elements r) /\ q'.(qsize_) = q.(qsize_) + 1.
Proof. apply splay_insert_ok. Qed.

(** C34: [cancel] searches by time and uid.  It removes exactly the event asked
    for when that is in the tree, whatever the shape of the tree and however
    many events share its time, and aborts when it is not. *)
Theorem splay_cancel_exact s q e ev :
  queued s (elements q.(root_)) -> s !! e = Some ev -> 0 < ev.(uid_) ->
  if decide (e ∈ elements q.(root_))
  then exists t', cancel s q e = Ok (negate_uid s e, mk t' q.(lookup_uid_) (q.(qsize_) - 1)) /\
         elements t' = remove_one e (elements q.(root_))
  else cancel s q e = Err Abort.
Proof.
  intros Hq He Hu. unfold cancel. rewrite He. cbn [deref res_bind]. rewrite (proj2 (Z.leb_gt _ _) Hu).
  destruct (decide _) as [Hin|Hin].
  - destruct (splay_cancel_loop_ok s e ev _ He Hq Hin) as (t' & -> & Et). cbn [res_bind].
    exists t'. rewrite (negate_uid_Some _ _ _ He). done.
  - rewrite cancel_loop_absent; [done| |done]. intros x Hx. by apply (queued_valid _ _ Hq).
Qed.

Lemma validate_ok s t : queued s (elements t) -> validate s t = Ok (Z.of_nat (length (elements t))).
Proof.
  induction t as [|l IHl e r IHr]; [done|]. intros Hq.
  pose proof (queued_node _ _ _ _ Hq) as (Hql & Hqr & (ev & He & Hn) & Hl & Hr).
  cbn [validate]. rewrite He. cbn [deref res_bind].
  assert (forall x y xv yv, s !! x = Some xv -> s !! y = Some yv -> before s x y ->
    F64.le xv.(time_) yv.(time_) = true) as Hle.
  { intros x y xv yv Hx Hy. unfold before. rewrite (key_of_Some _ _ _ Hx), (key_of_Some _ _ _ Hy).
    intros [Hb|[Hb _]]; [by apply F64.lt_le|by apply F64.eq_le]. }
  assert (match l with
          | Leaf => Ok true
          | Node _ x _ => let! xv := deref (s !! x) in Ok (F64.ge ev.(time_) xv.(time_))
          end = Ok true) as ->.
  { destruct l as [|a x b]; [done|].
    destruct (queued_node _ _ _ _ Hql) as (_ & _ & (xv & Hx & _) & _). rewrite Hx. cbn.
    unfold F64.ge. rewrite (Hle x e xv ev Hx He); [done|apply Hl; set_solver]. }
  assert (match r with
          | Leaf => Ok true
          | Node _ x _ => let! xv := deref (s !! x) in Ok (F64.le ev.(time_) xv.(time_))
          end = Ok true) as ->.
  { destruct r as [|a x b]; [done|].
    destruct (queued_node _ _ _ _ Hqr) as (_ & _ & (xv & Hx & _) & _). rewrite Hx. cbn.
    rewrite (Hle e x ev xv He Hx); [done|apply Hr; set_solver]. }
  cbn. rewrite (IHl Hql), (IHr Hqr). cbn. f_equal. rewrite length_app. cbn. lia.
Qed.

(** The splay tree of a queue passes [validate], which returns the counter
    [qsize_]; [deque] takes the first event out and leaves the others in
    order, in a tree that passes again. *)
Theorem splay_validates s q L :
  splay_rep q L -> queued s L ->
  validate s q.(root_) = Ok q.(qsize_) /\
  exists q', deque q = (q', list.head L) /\ splay_rep q' (tail L) /\
    validate s q'.(root_) = Ok q'.(qsize_).
Proof.
  intros Hr Hq. pose proof (splay_deque_ok q L Hr) as (q' & E & Hr' & _).
  assert (queued s (tail L)) as Hq' by (destruct L; [done|by apply queued_tail in Hq as [Hq _]]).
  destruct Hr as (<- & Hz & _). destruct Hr' as (Et & Hz' & Hm').
  split; [by rewrite Hz, validate_ok|]. exists q'. split; [done|]. split; [done|].
  rewrite Hz', <- Et. apply validate_ok. by rewrite Et.
Qed.
End SplayProps.

(** * Witnesses: the events of the list scheduler's witnesses, and one more
    at time 2. *)

Module SplayWitness.
Import SplayScheduler SchedFacts SplayFacts SplayProps.

Definition demo_events : evs :=
  {[ 1%positive := mkEvent (Some 1%positive) (F64.of_Z 2) 1;
     2%positive := mkEvent (Some 1%positive) (F64.of_Z 3) 2;
     3%positive := mkEvent (Some 1%positive) (F64.of_Z 2) 3 ]}.

Definition demo : SplayScheduler.t :=
  mk (Node (Node Leaf 1%positive Leaf) 2%positive Leaf) 0 2.

Definition demo3 : SplayScheduler.t :=
  mk (Node (Node Leaf 1%positive Leaf) 3%positive (Node Leaf 2%positive Leaf)) 0 3.

Lemma demo3_queued : queued demo_events [1; 3; 2]%positive.
Proof.
  split.
  - intros a Ha. rewrite !elem_of_cons in Ha.
    destruct Ha as [-> |[-> |[-> |Ha%elem_of_nil]]]; [..|done]; (split; [by eexists|by split]).
  - assert (before demo_events 1 3 /\ before demo_events 1 2 /\ before demo_events 3 2)%positive as (H1 & H2 & H3).
    { split; [right; by split|]. split; by left. }
    repeat (apply SSorted_cons || apply SSorted_nil || apply Forall_cons_2 || apply Forall_nil_2); done.
Qed.

Lemma splay_insert_root_witness :
  exists q' l r, insert demo_events demo 3%positive = Ok q' /\ q'.(root_) = Node l 3%positive r /\
    [1; 2]%positive = elements l ++ elements r /\
    Forall (fun y => not_later demo_events y 3%positive = true) (elements l) /\
    Forall (fun y => not_later demo_events y 3%positive = false) (elements r) /\ q'.(qsize_) = 2 + 1.
Proof.
  apply (splay_insert_root demo_events demo [1; 2]%positive 3%positive).
  - repeat split.
  - apply (queued_sub _ [1; 3; 2]%positive); [exact demo3_queued|].
    apply sublist_skip, sublist_cons, sublist_skip, sublist_nil.
  - reflexivity.
  - by eexists.
Defined.

Lemma splay_cancel_exact_witness :
  if decide (3%positive ∈ elements demo3.(root_))
  then exists t', cancel demo_events demo3 3%positive =
           Ok (negate_uid demo_events 3%positive, mk t' 0 (3 - 1)) /\
         elements t' = remove_one 3%positive (elements demo3.(root_))
  else cancel demo_events demo3 3%positive = Err Abort.
Proof.
  apply (splay_cancel_exact demo_events demo3 3%positive (mkEvent (Some 1%positive) (F64.of_Z 2) 3)).
  - exact demo3_queued.
  - reflexivity.
  - reflexivity.
Defined.

Lemma splay_validates_witness :
  validate demo_events demo3.(root_) = Ok 3 /\
  exists q', deque demo3 = (q', Some 1%positive) /\ splay_rep q' [3; 2]%positive /\
    validate demo_events q'.(root_) = Ok q'.(qsize_).
Proof.
  apply (splay_validates demo_events demo3 [1; 3; 2]%positive).
  - repeat split.
  - exact demo3_queued.
Defined.
End SplayWitness.
