(* ===== verification/CalendarTime.v ===== *)
(** * The days of a calendar

    The calendar scheduler divides time into days of [width] seconds and years
    of as many days as it has buckets, all in doubles.  This file says what
    its arithmetic computes: the day of a time is monotone in the time, the
    bucket of a time is its day modulo the length of the year, and the tests
    of [head] tell an event of this year from one of a later year, although
    quotient, differences and limits are rounded.  That needs times of no more
    than 2^48 days. *)

From Stdlib Require Import ZArith Lia Bool SpecFloat.
From stdpp Require Import base list.
From S2P Require Import Prelude F64 F64Exact.
Import F64Exact.

Module CalendarTime.

(** A width from 2^-474 to 2^326, in units. *)
Definition wide (W : Z) : Prop := 2 ^ 600 <= W < 2 ^ 1400.

(** A time, in units, that such a width can handle. *)
Definition timely (W T : Z) : Prop := 0 <= T /\ (T = 0 \/ normal T) /\ T <= 2 ^ 48 * W.

(** The numbers of buckets. *)
Definition year (n : Z) : Prop := exists k, 2 <= k <= 29 /\ n = 2 ^ k.

Lemma year_bounds n : year n -> 4 <= n <= 2 ^ 29.
Proof.
  intros (k & Hk & ->). split; [apply (Z.pow_le_mono_r 2 2 k); lia|apply Z.pow_le_mono_r; lia].
Qed.

Lemma wide_normal W : wide W -> normal W /\ 0 < W.
Proof.
  unfold wide, normal. intros [H1 H2]. assert (2 ^ 1400 < 2 ^ 1500) by (by apply Z.ltb_lt). lia.
Qed.

(** The day of a time. *)
Definition day (w t : f64) : Z := default 0 (F64.trunc (F64.div t w)).

Section Days.
Context (w : f64) (W : Z) (Hw : fin w W) (HW : wide W).

Lemma quotient_ok t T :
  fin t T -> timely W T ->
  exists v, fin (F64.div t w) v /\ 0 <= v < 2 ^ 2000 /\ 16 * Z.abs (v * W - T * one) <= W * one /\
    day w t = v / one /\ (0 < T -> approx (T * one) W v).
Proof.
  intros Ht (H0 & Hn & Hle). destruct (wide_normal W HW) as [HnW HW0]. pose proof one_pos as Hone. unfold day.
  destruct Hn as [->|Hn].
  - exists 0. destruct (fin_zero t Ht) as [s ->]. destruct (fin_pos w W Hw HW0) as (p & e & -> & _).
    destruct s; cbn -[Z.mul Z.abs]; (split; [done|]); (split; [done|]); (split; [lia|]); done.
  - destruct (div_spec t w T W Ht Hw Hn HnW) as (v & Hv & Ha).
    rewrite (proj2 (Z.ltb_ge T 0)), (proj2 (Z.ltb_ge W 0)), !Z.abs_eq in * by lia. cbn [xorb signed] in Hv.
    exists v. pose proof (approx_nonneg _ _ _ Ha) as Hv0.
    assert (2 ^ 52 * W <= T * one) as Hbig.
    { unfold wide, normal in *. rewrite Z.abs_eq in Hn by lia.
      assert (2 ^ 52 * 2 ^ 1400 <= 2 ^ 600 * one) by (by apply Z.leb_le). nia. }
    pose proof (approx_error _ _ _ Ha HW0 Hbig) as [E1 E2].
    assert (v < 2 ^ 2000) as Hlt.
    { apply (Z.le_lt_trans _ (2 ^ 49 * one)); [|by apply Z.ltb_lt].
      assert (v * W * 2 ^ 52 <= (2 ^ 48 * W) * one * (2 ^ 52 + 1)) by nia.
      apply (Z.mul_le_mono_pos_r _ _ (W * 2 ^ 52)); [lia|]. lia. }
    split; [done|]. split; [lia|]. split; [|split; [|done]].
    + assert (T * one <= 2 ^ 48 * (W * one)) by nia. rewrite Z.mul_assoc in *. lia.
    + rewrite (fin_trunc _ _ Hv). cbn [default from_option]. by rewrite Z.quot_div_nonneg by lia.
Qed.

Lemma day_nonneg t T : fin t T -> timely W T -> 0 <= day w t.
Proof.
  intros Ht HT. destruct (quotient_ok t T Ht HT) as (v & _ & Hv & _ & -> & _). apply Z.div_pos; [lia|apply one_pos].
Qed.

(** Later times do not have earlier days. *)
Lemma day_mono t t' T T' :
  fin t T -> fin t' T' -> timely W T -> timely W T' -> T <= T' -> day w t <= day w t'.
Proof.
  intros Ht Ht' HT HT' Hle. pose proof (day_nonneg t' T' Ht' HT') as Hd'. destruct (wide_normal W HW) as [_ HW0].
  pose proof one_pos as Hone.
  destruct (quotient_ok t T Ht HT) as (v & Hv & Hv0 & Hve & Ed & Hva).
  destruct (quotient_ok t' T' Ht' HT') as (v' & Hv' & _ & _ & Ed' & Hva').
  destruct (decide (T = 0)) as [->|Hne]; [|destruct (decide (T = T')) as [<-|Hne']].
  - assert (v = 0 \/ 0 < v) as [->|Hp] by lia; [by rewrite Ed|]. rewrite Ed, Z.div_small; [done|].
    split; [lia|]. nia.
  - by rewrite (fin_inj t t' T Ht Ht' Hne).
  - destruct HT as [HT _]. rewrite Ed, Ed'. apply Z.div_le_mono; [done|].
    apply (approx_mono (T * one) (T' * one) W); [apply Hva; lia|apply Hva'; lia|nia|done].
Qed.

(** The bucket of a time. *)
Lemma hash_ok n t T :
  year n -> fin t T -> timely W T ->
  F64.to_int (F64.fmod (F64.div t w) (F64.of_Z n)) = Ok (day w t mod n).
Proof.
  intros Hn Ht HT. destruct (quotient_ok t T Ht HT) as (v & Hv & Hv0 & _ & -> & _).
  apply year_bounds in Hn as Hb. pose proof one_pos as Hone.
  pose proof (fmod_spec _ (F64.of_Z n) v (n * one) Hv Hv0 (int_of_Z n ltac:(lia)) ltac:(lia)) as Hm.
  unfold F64.to_int. rewrite (fin_trunc _ _ Hm). cbn [deref res_bind].
  pose proof (Z.mod_pos_bound v (n * one) ltac:(lia)).
  rewrite Z.quot_div_nonneg, (Z.mul_comm n), Z.rem_mul_r, Z.mul_comm, Z.div_add by lia.
  rewrite (Z.div_small (v mod one)) by (by apply Z.mod_pos_bound). cbn [Z.add].
  apply chk_ok. pose proof (Z.mod_pos_bound (v / one) n). unfold in_int. lia.
Qed.

(** Days and times differ by the same, up to a day and a bit. *)
Lemma day_gap t c T C :
  fin t T -> fin c C -> timely W T -> timely W C ->
  8 * (T - C) - 9 * W < 8 * ((day w t - day w c) * W) < 8 * (T - C) + 9 * W.
Proof.
  intros Ht Hc HT HC. destruct (wide_normal W HW) as [_ HW0]. pose proof one_pos as Hone.
  destruct (quotient_ok t T Ht HT) as (a & _ & _ & Ea & -> & _).
  destruct (quotient_ok c C Hc HC) as (b & _ & _ & Eb & -> & _).
  pose proof (Z.div_mod a one ltac:(lia)) as Da. pose proof (Z.mod_pos_bound a one Hone).
  pose proof (Z.div_mod b one ltac:(lia)) as Db. pose proof (Z.mod_pos_bound b one Hone).
  set (x := a / one) in *. set (y := b / one) in *. set (r := a mod one) in *. set (q := b mod one) in *.
  assert (a * W = one * (x * W) + r * W) as Fa by (rewrite Da at 1; ring).
  assert (b * W = one * (y * W) + q * W) as Fb by (rewrite Db at 1; ring).
  assert (0 <= r * W < one * W) by nia. assert (0 <= q * W < one * W) by nia.
  replace ((x - y) * W) with (x * W - y * W) by ring.
  remember (x * W) as X. remember (y * W) as Y. remember (r * W) as R. remember (q * W) as S.
  assert (8 * (T - C) * one - 9 * W * one < 8 * (X - Y) * one < 8 * (T - C) * one + 9 * W * one) by lia.
  split; apply (Z.mul_lt_mono_pos_r one); lia.
Qed.

(** The difference of two times. *)
Lemma sub_gap t c T C :
  fin t T -> fin c C -> timely W T -> timely W C -> C <= T ->
  exists s, fin (F64.sub t c) s /\ (T - C) * (2 ^ 52 - 1) <= s * 2 ^ 52 <= (T - C) * (2 ^ 52 + 1).
Proof.
  intros Ht Hc (HT0 & HT & _) (HC0 & HC & _) Hle.
  destruct HC as [->|HC]; [|destruct HT as [->|HT]].
  - exists T. split; [|lia]. destruct (fin_zero c Hc) as [s ->]. destruct t as [[]|[]| |[] p e], s; try done.
  - unfold normal in HC. lia.
  - rewrite sub_add. apply fin_opp in Hc.
    destruct (add_spec t (F64.opp c) T (- C) Ht Hc HT) as [Hz Hs]; [unfold normal in *; lia|].
    destruct (decide (T = C)) as [->|Hne]; [exists 0; split; [apply Hz; lia|lia]|].
    destruct Hs as (v & Hv & Ha); [lia|]. rewrite (proj2 (Z.ltb_ge _ 0)), Z.abs_eq in * by lia. exists v. split; [done|].
    destruct (Z.le_gt_cases (2 ^ 52) (T - C)) as [G|G].
    + pose proof (approx_error _ _ _ Ha ltac:(lia) ltac:(lia)). lia.
    + assert (T + - C = T - C) as E by lia. rewrite E in Ha.
      rewrite (approx_exact _ _ v (T - C) 0 Ha) by (lia || by exists (T - C); lia). lia.
Qed.

(** ** The limits *)

Section Limits.
Context (n : Z) (Hn : year n).

Definition half_year : f64 := F64.div (F64.mul w (F64.of_Z n)) (F64.of_Z 2).

Lemma year_ok : fin (F64.mul w (F64.of_Z n)) (W * n) /\ normal (W * n).
Proof.
  destruct (wide_normal W HW) as [HnW HW0]. pose proof (year_bounds n Hn) as Hb. pose proof one_pos as Hone.
  assert (normal (W * n)) as HnN.
  { assert (W <= W * n) by (clear HW HnW; nia).
    unfold normal, wide in *. rewrite Z.abs_eq by lia. assert (2 ^ 1400 * 2 ^ 29 < 2 ^ 1500) by (by apply Z.ltb_lt).
    assert (W * n <= 2 ^ 1400 * 2 ^ 29) by (apply Z.mul_le_mono_nonneg; lia). lia. }
  split; [|done].
  destruct (mul_spec w (F64.of_Z n) W (n * one) Hw (int_of_Z n ltac:(lia)) HnW) as (v & Hv & Ha); [apply int_normal; lia|].
  rewrite sign_one, (proj2 (Z.ltb_ge n 0)), (proj2 (Z.ltb_ge W 0)), !Z.abs_eq in * by lia. cbn [xorb signed] in Hv.
  destruct (fin_pos w W Hw HW0) as (p & e & -> & Bp & EW). destruct Hn as (k & Hk & En).
  apply bounded_spec in Bp as (He & _ & Hp & _).
  assert (W * n = Z.pos p * 2 ^ (e + 1074 + k)) as Ev by (rewrite EW, En, (Z.pow_add_r 2 (e + 1074) k) by lia; ring).
  rewrite (approx_exact _ _ v (W * n) (e + 1074 + k) Ha) in Hv; [done|ring|done|lia|by rewrite Ev; exists (Z.pos p)|].
  rewrite Ev. apply Z.mul_le_mono_nonneg_r; [|lia]. apply Z.pow_nonneg. lia.
Qed.

Lemma half_year_ok : exists H, fin half_year H /\ 2 * H = W * n /\ normal H.
Proof.
  destruct year_ok as [Hy HnN]. destruct (wide_normal W HW) as [HnW HW0]. pose proof (year_bounds n Hn) as Hb.
  assert (exists H, 2 * H = W * n /\ normal H) as (H & EH & HnH).
  { destruct Hn as (k & Hk & ->). exists (W * 2 ^ (k - 1)).
    assert (2 ^ k = 2 * 2 ^ (k - 1)) as E by (rewrite <- Z.pow_succ_r by lia; f_equal; lia).
    split; [rewrite E; ring|]. unfold normal in *. pose proof (Z.pow_le_mono_r 2 1 (k - 1)). rewrite E in *.
    rewrite !Z.abs_eq in * by nia. nia. }
  exists H. split; [|done]. pose proof one_pos as Hone.
  assert (0 < H) as HH by nia. pose proof HnH as HnH'. unfold normal in HnH'. rewrite Z.abs_eq in HnH' by lia.
  unfold half_year. destruct (div_spec _ (F64.of_Z 2) _ (2 * one) Hy (int_of_Z 2 ltac:(lia)) HnN) as (v & Hv & Ha);
    [apply int_normal; lia|].
  rewrite sign_one, (proj2 (Z.ltb_ge (W * n) 0)), !Z.abs_eq in * by lia. cbn [xorb signed] in Hv.
  destruct (fin_pos _ _ Hy ltac:(lia)) as (p & e & _ & Bp & Ep).
  apply bounded_spec in Bp as (He & _ & Hp & _).
  assert (0 < e + 1074) as He'.
  { destruct (Z.le_gt_cases (e + 1074) 0) as [G|]; [|lia]. assert (e + 1074 = 0) as E0 by lia. rewrite E0 in Ep.
    assert (2 ^ 600 <= 2 ^ 53); [lia|done]. }
  assert (H = Z.pos p * 2 ^ (e + 1073)) as Ev.
  { assert (2 ^ (e + 1074) = 2 * 2 ^ (e + 1073)) as E by (rewrite <- Z.pow_succ_r by lia; f_equal; lia). rewrite E in Ep. lia. }
  rewrite (approx_exact _ _ v H (e + 1073) Ha) in Hv; [done|rewrite <- EH; ring|lia|lia|by rewrite Ev; exists (Z.pos p)|].
  rewrite Ev. apply Z.mul_le_mono_nonneg_r; [|lia]. apply Z.pow_nonneg. lia.
Qed.

Lemma half_year_and_day_ok :
  exists H, fin (F64.add half_year w) H /\
    (W * n + 2 * W) * (2 ^ 52 - 1) <= 2 * H * 2 ^ 52 <= (W * n + 2 * W) * (2 ^ 52 + 1).
Proof.
  destruct half_year_ok as (H & HH & EH & HnH). destruct (wide_normal W HW) as [HnW HW0]. pose proof (year_bounds n Hn) as Hb.
  assert (0 < H) by nia. destruct (add_spec _ w H W HH Hw HnH HnW) as [_ Ha]. destruct Ha as (v & Hv & Ha); [lia|].
  rewrite (proj2 (Z.ltb_ge _ 0)), Z.abs_eq in * by lia. exists v. split; [done|].
  unfold wide in HW. pose proof (approx_error _ _ _ Ha ltac:(lia) ltac:(lia)). lia.
Qed.

(** An event that passes a test of [head] is in the year the test is for, and
    one that does not is in a later year: [d] is the number of days from [c]
    to [t]. *)
Section Tests.
Context (t c : f64) (T C : Z) (Ht : fin t T) (Hc : fin c C) (HT : timely W T) (HC : timely W C) (Hle : C <= T).

Abbreviation d := (day w t - day w c).

Lemma test0 :
  if F64.lt (F64.sub t c) half_year then d < n else 1 <= d.
Proof.
  destruct (sub_gap t c T C Ht Hc HT HC Hle) as (s & Hs & Es). destruct half_year_ok as (H & HH & EH & _).
  rewrite (fin_lt _ _ _ _ Hs HH). pose proof (day_gap t c T C Ht Hc HT HC) as Hd.
  pose proof (year_bounds n Hn) as Hb. destruct (wide_normal W HW) as [_ HW0].
  remember (W * n) as N eqn:EN. assert (4 * W <= N <= 2 ^ 29 * W) as HN by (subst N; nia).
  remember d as x eqn:Ex. clear Ex HT HC. destruct (Z.ltb_spec s H).
  - apply Z.lt_nge. intros G. assert (N <= x * W) by (subst N; nia). lia.
  - destruct (Z.le_gt_cases x 0) as [G|G]; [|lia]. assert (x * W <= 0) by nia. lia.
Qed.

Lemma test1 :
  if F64.lt (F64.sub t c) (F64.add half_year w) then d < n + 1 else 2 <= d.
Proof.
  destruct (sub_gap t c T C Ht Hc HT HC Hle) as (s & Hs & Es). destruct half_year_and_day_ok as (H & HH & EH).
  rewrite (fin_lt _ _ _ _ Hs HH). pose proof (day_gap t c T C Ht Hc HT HC) as Hd.
  pose proof (year_bounds n Hn) as Hb. destruct (wide_normal W HW) as [_ HW0].
  remember (W * n) as N eqn:EN. assert (4 * W <= N <= 2 ^ 29 * W) as HN by (subst N; nia).
  remember d as x eqn:Ex. clear Ex HT HC. destruct (Z.ltb_spec s H).
  - apply Z.lt_nge. intros G. assert (N + W <= x * W) by (subst N; nia). lia.
  - destruct (Z.le_gt_cases x 1) as [G|G]; [|lia]. assert (x * W <= W) by nia. lia.
Qed.

Lemma test2 :
  if F64.lt (F64.sub t c) (F64.mul w (F64.of_Z n)) then d < n + 2 else n - 1 <= d.
Proof.
  destruct (sub_gap t c T C Ht Hc HT HC Hle) as (s & Hs & Es). destruct year_ok as (HH & _).
  rewrite (fin_lt _ _ _ _ Hs HH). pose proof (day_gap t c T C Ht Hc HT HC) as Hd.
  pose proof (year_bounds n Hn) as Hb. destruct (wide_normal W HW) as [_ HW0].
  remember (W * n) as N eqn:EN. assert (4 * W <= N <= 2 ^ 29 * W) as HN by (subst N; nia).
  remember d as x eqn:Ex. clear Ex HT HC. destruct (Z.ltb_spec s N).
  - apply Z.lt_nge. intros G. assert (N + 2 * W <= x * W) by (subst N; nia). lia.
  - destruct (Z.le_gt_cases x (n - 2)) as [G|G]; [|lia]. assert (x * W <= N - 2 * W) by (subst N; nia). lia.
Qed.
End Tests.
End Limits.
End Days.
End CalendarTime.
