(* ===== verification/Calendar.v ===== *)
(** * The calendar scheduler

    [CalendarScheduler] (src/ns2/common/scheduler.h, scheduler.cc), the event
    queue a simulation uses unless told otherwise: an array of buckets, each a
    sorted list of events, where an event of time [t] is in bucket
    [(t / width_) mod nbuckets_].  The numbers of buckets and the width follow
    the events queued.

    A circular list is given as the list of its events from [list_] on; the
    previous event of the first is the last. *)

From Stdlib Require Import ZArith Lia Bool Sorted SpecFloat.
From stdpp Require Import base list gmap.
From S2P Require Import Prelude F64 F64Exact PktQueue Sched ListSched.

Module CalendarScheduler.

Record Bucket := mkBucket { list_ : list addr; count_ : Z }.

#[global] Instance eta_Bucket : Eta Bucket := fun b => mkBucket (list_ b) (count_ b).

Record t := mk {
  min_bin_width_ : f64;
  adjust_new_width_interval_ : Z;   (* unsigned int *)
  time_to_newwidth : Z;             (* unsigned *)
  head_search_ : Z;                 (* unsigned long *)
  insert_search_ : Z;               (* unsigned long *)
  round_num_ : Z;
  gap_num_ : Z;                     (* long *)
  last_time_ : f64;
  avg_gap_ : f64;
  width_ : f64;
  diff0_ : f64;
  diff1_ : f64;
  diff2_ : f64;
  stat_qsize_ : Z;                  (* # of distinct priorities in queue *)
  nbuckets_ : Z;
  lastbucket_ : Z;
  top_threshold_ : Z;
  bot_threshold_ : Z;
  buckets_ : list Bucket;
  qsize_ : Z;
  cal_clock_ : f64
}.

#[global] Instance eta_t : Eta t := fun q =>
  mk (min_bin_width_ q) (adjust_new_width_interval_ q) (time_to_newwidth q) (head_search_ q) (insert_search_ q)
    (round_num_ q) (gap_num_ q) (last_time_ q) (avg_gap_ q) (width_ q) (diff0_ q) (diff1_ q) (diff2_ q)
    (stat_qsize_ q) (nbuckets_ q) (lastbucket_ q) (top_threshold_ q) (bot_threshold_ q) (buckets_ q) (qsize_ q)
    (cal_clock_ q).

Definition u64 (z : Z) : Z := z mod 2 ^ 64.

(** [(int)fmod((t)/width_, nbuckets_)] *)
Definition CALENDAR_HASH (q : t) (t : f64) : res Z :=
  F64.to_int (F64.fmod (F64.div t q.(width_)) (F64.of_Z q.(nbuckets_))).

(** [buckets_[i]] *)
Definition bucket (q : t) (i : Z) : res Bucket :=
  if i <? 0 then Err UB else deref (q.(buckets_) !! Z.to_nat i).

Definition set_bucket (q : t) (i : Z) (b : Bucket) : t :=
  q <| buckets_ := <[Z.to_nat i := b]> q.(buckets_) |>.

(** A change of the numbers of distinct times. *)
Definition count_distinct (q : t) (i : Z) (d : Z) : res t :=
  let! n := iadd q.(stat_qsize_) d in
  let! b := bucket q i in
  let! c := iadd b.(count_) d in
  Ok (set_bucket (q <| stat_qsize_ := n |>) i (b <| count_ := c |>)).

(** ** Starting *)

Definition reinit (q : t) (nbuck : Z) (bwidth start : f64) : res t :=
  let q := q <| buckets_ := replicate (Z.to_nat nbuck) (mkBucket [] 0) |>
             <| width_ := bwidth |> <| nbuckets_ := nbuck |> <| qsize_ := 0 |> <| stat_qsize_ := 0 |> in
  let! l := CALENDAR_HASH q start in
  let year := F64.mul bwidth (F64.of_Z nbuck) in
  let q := q <| lastbucket_ := l |> <| diff0_ := F64.div year (F64.of_Z 2) |> in
  let q := q <| diff1_ := F64.add q.(diff0_) bwidth |> <| diff2_ := year |> in
  let! bot := isub (Z.shiftr nbuck 1) 2 in
  let! top := imul nbuck 2 in
  Ok (q <| bot_threshold_ := bot |> <| top_threshold_ := top |>).

(** The constructor; [junk] is what the memory held before. *)
Definition create (junk : t) (min_bin_width : f64) (adjust : Z) : res t :=
  let q := junk <| cal_clock_ := Scheduler.SCHED_START |> <| adjust_new_width_interval_ := adjust |>
                <| min_bin_width_ := min_bin_width |> in
  let q := if adjust =? 0 then q
           else q <| avg_gap_ := F64.of_Z (-2) |> <| last_time_ := F64.of_Z (-2) |> <| gap_num_ := 0 |>
                  <| head_search_ := 0 |> <| insert_search_ := 0 |> <| round_num_ := 0 |>
                  <| time_to_newwidth := adjust |> in
  reinit q 4 (F64.of_Z 1) q.(cal_clock_).

(** ** Inserting *)

(** The search from the end of a bucket, given backwards, for the last event
    not later than [newtime]; also the number of turns, and whether no event
    had this time.  It would go round for ever were all events later. *)
Fixpoint insert_back (s : evs) (newtime : f64) (e : addr) (l : list addr) : res (list addr * Z * bool) :=
  match l with
  | [] => Err Fuel
  | after :: l' =>
      let! ev := deref (s !! after) in
      if F64.lt newtime ev.(time_)
      then let! (r, n, unique) := insert_back s newtime e l' in Ok (after :: r, n + 1, unique)
      else Ok (e :: l, 0, F64.lt ev.(time_) newtime)
  end.

Definition insert_list (s : evs) (newtime : f64) (e : addr) (l : list addr) : res (list addr * Z * bool) :=
  match l with
  | [] => Ok ([e], 0, true)
  | head :: _ =>
      let! hv := deref (s !! head) in
      if F64.lt newtime hv.(time_) then Ok (e :: l, 1, true)
      else let! (r, n, unique) := insert_back s newtime e (rev l) in Ok (rev r, n + 1, unique)
  end.

(** [insert] up to the test of the threshold. *)
Definition place (s : evs) (q : t) (e : addr) : res t :=
  let! ev := deref (s !! e) in
  let newtime := ev.(time_) in
  let! i := CALENDAR_HASH q newtime in
  let q := if F64.gt q.(cal_clock_) newtime
           then q <| cal_clock_ := newtime |> <| lastbucket_ := i |> else q in
  let! current := bucket q i in
  let! (l, n, unique) := insert_list s newtime e current.(list_) in
  let q := set_bucket (q <| insert_search_ := u64 (q.(insert_search_) + n) |>) i (current <| list_ := l |>) in
  let! q := if unique then count_distinct q i 1 else Ok q in
  let! n := iadd q.(qsize_) 1 in
  Ok (q <| qsize_ := n |>).

(** [e != e->next_ && e->next_->time_ != e->time_] *)
Definition differs (e next : addr) (nv : Event) (time : f64) : bool :=
  negb (bool_decide (e = next)) && negb (F64.eq nv.(time_) time).

Fixpoint insert_front (s : evs) (time : f64) (e : addr) (l : list addr) : res (list addr * bool) :=
  match l with
  | [] => Err Fuel
  | before :: l' =>
      let! bv := deref (s !! before) in
      if F64.gt time bv.(time_)
      then let! (r, unique) := insert_front s time e l' in Ok (before :: r, unique)
      else Ok (e :: l, differs e before bv time)
  end.

Definition insert2_list (s : evs) (time : f64) (e : addr) (l : list addr) : res (list addr * bool) :=
  match l with
  | [] => Ok ([e], true)
  | head :: l' =>
      let! tv := deref (s !! default head (last l')) in
      if F64.gt time tv.(time_)
      then let! hv := deref (s !! head) in Ok (l ++ [e], differs e head hv time)
      else insert_front s time e l
  end.

Definition insert2 (s : evs) (q : t) (e : addr) : res t :=
  let! ev := deref (s !! e) in
  let! i := CALENDAR_HASH q ev.(time_) in
  let! b := bucket q i in
  let! (l, unique) := insert2_list s ev.(time_) e b.(list_) in
  let q := set_bucket q i (b <| list_ := l |>) in
  let! q := if unique then count_distinct q i 1 else Ok q in
  let! n := iadd q.(qsize_) 1 in
  Ok (q <| qsize_ := n |>).

(** ** Resizing *)

(** The index of the fullest bucket, the first of them. *)
Fixpoint fullest (bs : list Bucket) (i : Z) (best : Z * Z) : Z * Z :=
  match bs with
  | [] => best
  | b :: bs => fullest bs (i + 1) (if best.2 <? b.(count_) then (i, b.(count_)) else best)
  end.

Definition newwidth (s : evs) (q : t) (newsize : Z) : res (t * f64) :=
  let adjust := negb (q.(adjust_new_width_interval_) =? 0) in
  let q := if adjust then q <| time_to_newwidth := q.(adjust_new_width_interval_) |> else q in
  if adjust && F64.gt q.(avg_gap_) F64.zero then Ok (q, F64.mul q.(avg_gap_) (F64.of_Z 4))
  else
    let! first := bucket q 0 in
    let (max_bucket, nsamples) := fullest (tail q.(buckets_)) 1 (0, first.(count_)) in
    if nsamples <=? 4 then Ok (q, q.(width_))
    else
      let! b := bucket q max_bucket in
      let! hd := deref (list.head b.(list_)) in
      let! hv := deref (s !! hd) in
      let! tv := deref (s !! default hd (last b.(list_))) in
      let nw := F64.sub tv.(time_) hv.(time_) in
      if F64.gt nw F64.zero then
        let nw := F64.div nw (F64.of_Z (if newsize <? nsamples then newsize else nsamples)) in
        Ok (q, F64.mul nw (F64.of_Z 4))
      else Err Abort.

(** The first part of [resize]: the new width, if there is one. *)
Definition choose_width (s : evs) (q : t) (newsize : Z) : res (t * option f64) :=
  if newsize =? q.(nbuckets_) then
    let bwidth := if q.(head_search_) =? 0 then F64.of_Z 1 else F64.of_Z q.(head_search_) in
    let bwidth := if q.(insert_search_) =? 0 then bwidth else F64.div bwidth (F64.of_Z q.(insert_search_)) in
    let bwidth := F64.mul (SFsqrt F64.prec F64.emax bwidth) q.(width_) in
    if F64.lt bwidth q.(min_bin_width_) then
      if 0 <? q.(time_to_newwidth)
      then Ok (q <| time_to_newwidth := q.(time_to_newwidth) - 1 |> <| head_search_ := 0 |>
                 <| insert_search_ := 0 |> <| round_num_ := 0 |>, None)
      else let! (q, w) := newwidth s q newsize in Ok (q, Some w)
    else Ok (q, Some bwidth)
  else let! (q, w) := newwidth s q newsize in Ok (q, Some w).

(** [insert2] of a list of events. *)
Fixpoint insert2_all (s : evs) (q : t) (l : list addr) : res t :=
  match l with
  | [] => Ok q
  | e :: l => let! q := insert2 s q e in insert2_all s q l
  end.

(** The events in the order the loop of [resize] visits them: each bucket
    from its end. *)
Definition backwards (bs : list Bucket) : list addr := concat (map (fun b => rev b.(list_)) bs).

Definition resize (s : evs) (q : t) (newsize : Z) (start : f64) : res t :=
  let! (q', w) := choose_width s q newsize in
  match w with
  | None => Ok q'
  | Some bwidth =>
      let newsize := if negb (newsize =? q.(nbuckets_)) && (newsize <? 4) then 4 else newsize in
      let oldb := q.(buckets_) in
      let! q := reinit q' newsize bwidth start in
      let! q := insert2_all s q (backwards oldb) in
      Ok (q <| head_search_ := 0 |> <| insert_search_ := 0 |> <| round_num_ := 0 |>)
  end.

Definition insert (s : evs) (q : t) (e : addr) : res t :=
  let! q := place s q e in
  if q.(top_threshold_) <? q.(stat_qsize_)
  then let! n := imul q.(nbuckets_) 2 in resize s q n q.(cal_clock_)
  else Ok q.

(** ** The next event *)

(** The variables of the search of [head]. *)
Record search := Search { i_ : Z; l_ : Z; min_e_ : option addr }.

(** The macro [CAL_DEQUEUE] with limit [diff]: the event found ([inl]), or
    the search goes on. *)
Definition CAL_DEQUEUE (s : evs) (q : t) (diff : f64) (v : search) : res (Z * addr + search) :=
  let! b := bucket q v.(i_) in
  let next := if v.(i_) + 1 =? q.(nbuckets_) then 0 else v.(i_) + 1 in
  match b.(list_) with
  | [] => Ok (inr (Search next v.(l_) v.(min_e_)))
  | e :: _ =>
      let! ev := deref (s !! e) in
      if F64.lt (F64.sub ev.(time_) q.(cal_clock_)) diff then Ok (inl (v.(i_), e))
      else
        let! better := match v.(min_e_) with
                       | None => Ok true
                       | Some m => let! mv := deref (s !! m) in Ok (F64.gt mv.(time_) ev.(time_))
                       end in
        if better then Ok (inr (Search next v.(i_) (Some e))) else Ok (inr (Search next v.(l_) v.(min_e_)))
  end.

(** The buckets after the second; [n] counts the turns. *)
Fixpoint search_rest (fuel : nat) (s : evs) (q : t) (lastbucket_dec : Z) (v : search) (n : Z) :
    res ((Z * addr + search) * Z) :=
  if v.(i_) =? lastbucket_dec then Ok (inr v, n)
  else
    match fuel with
    | O => Err Fuel
    | S fuel =>
        let! r := CAL_DEQUEUE s q q.(diff2_) v in
        match r with
        | inl found => Ok (inl found, n + 1)
        | inr v => search_rest fuel s q lastbucket_dec v (n + 1)
        end
    end.

(** One bucket is left unchecked: take the minimum. *)
Definition search_last (s : evs) (q : t) (v : search) : res (Z * addr) :=
  let! b := bucket q v.(i_) in
  let! take_min := match v.(min_e_), b.(list_) with
                   | None, _ => Ok false
                   | Some _, [] => Ok true
                   | Some m, e :: _ =>
                       let! mv := deref (s !! m) in
                       let! ev := deref (s !! e) in Ok (F64.lt mv.(time_) ev.(time_))
                   end in
  if take_min then let! e := deref v.(min_e_) in if v.(l_) =? -1 then Err Abort else Ok (v.(l_), e)
  else let! e := deref (list.head b.(list_)) in if v.(i_) =? -1 then Err Abort else Ok (v.(i_), e).

(** The event found, its bucket, and the number of buckets looked at. *)
Definition find (s : evs) (q : t) : res (Z * addr * Z) :=
  let v := Search q.(lastbucket_) (-1) None in
  let lastbucket_dec := if q.(lastbucket_) =? 0 then q.(nbuckets_) - 1 else q.(lastbucket_) - 1 in
  let! r := CAL_DEQUEUE s q q.(diff0_) v in
  match r with
  | inl found => Ok (found, 1)
  | inr v =>
      let! r := CAL_DEQUEUE s q q.(diff1_) v in
      match r with
      | inl found => Ok (found, 2)
      | inr v =>
          let! (r, n) := search_rest (Z.to_nat q.(nbuckets_)) s q lastbucket_dec v 2 in
          match r with
          | inl found => Ok (found, n)
          | inr v => let! found := search_last s q v in Ok (found, n)
          end
      end
  end.

Definition head (s : evs) (q : t) : res (t * option addr) :=
  if q.(qsize_) =? 0 then Ok (q, None)
  else
    let! (l, e, n) := find s q in
    let! ev := deref (s !! e) in
    Ok (q <| head_search_ := u64 (q.(head_search_) + n) |> <| lastbucket_ := l |> <| cal_clock_ := ev.(time_) |>,
        Some e).

(** ** Removing *)

(** The statistics of [deque], and whether to resize. *)
Definition sample (q : t) (time : f64) : res (t * bool) :=
  if q.(adjust_new_width_interval_) =? 0 then Ok (q, false)
  else if F64.lt q.(last_time_) F64.zero then Ok (q <| last_time_ := time |>, false)
  else
    let gap_num := q.(gap_num_) + 1 in
    if gap_num =? 2 ^ 63 then Err UB
    else if gap_num <? q.(qsize_) then Ok (q <| gap_num_ := gap_num |>, false)
    else
      let! round_num := iadd q.(round_num_) 1 in
      let q := q <| avg_gap_ := F64.div (F64.sub time q.(last_time_)) (F64.of_Z gap_num) |> <| gap_num_ := 0 |>
                 <| last_time_ := time |> <| round_num_ := round_num |> in
      if (20 <? round_num) &&
         ((u64 (q.(insert_search_) * 2) <? q.(head_search_)) || (u64 (q.(head_search_) * 2) <? q.(insert_search_)))
      then Ok (q, true)
      else if 100 <? round_num
      then Ok (q <| round_num_ := 0 |> <| head_search_ := 0 |> <| insert_search_ := 0 |>, false)
      else Ok (q, false).

(** [deque] takes [e] out of the bucket [lastbucket_], whose first event it
    is.  (Were it not, the code would lose the events of that bucket.) *)
Definition unlink (s : evs) (q : t) (e : addr) : res t :=
  let l := q.(lastbucket_) in
  let! ev := deref (s !! e) in
  let! b := bucket q l in
  match b.(list_) with
  | [] => Err UB
  | e' :: rest =>
      if bool_decide (e' <> e) then Err UB
      else
        let! last_of_time := match rest with
                             | [] => Ok true
                             | next :: _ =>
                                 let! nv := deref (s !! next) in Ok (negb (F64.eq nv.(time_) ev.(time_)))
                             end in
        let! q := if last_of_time then count_distinct q l (-1) else Ok q in
        let! n := isub q.(qsize_) 1 in
        let! b := bucket q l in
        Ok (set_bucket (q <| qsize_ := n |>) l (b <| list_ := rest |>))
  end.

Definition deque (s : evs) (q : t) : res (t * option addr) :=
  let! (q, r) := head s q in
  match r with
  | None => Ok (q, None)
  | Some e =>
      let! ev := deref (s !! e) in
      let! (q, again) := sample q ev.(time_) in
      let! q := if again then let! q := resize s q q.(nbuckets_) q.(cal_clock_) in Ok (q <| round_num_ := 0 |>)
                else Ok q in
      let! q := unlink s q e in
      let! q := if q.(stat_qsize_) <? q.(bot_threshold_)
                then resize s q (Z.shiftr q.(nbuckets_) 1) q.(cal_clock_) else Ok q in
      Ok (q, Some e)
  end.

(** The events before and after [e] in a list. *)
Fixpoint around (e : addr) (l : list addr) : option (list addr * list addr) :=
  match l with
  | [] => None
  | x :: l =>
      if bool_decide (x = e) then Some ([], l)
      else match around e l with Some (l1, l2) => Some (x :: l1, l2) | None => None end
  end.

(** An event that has a uid and is not in its bucket has no neighbours to
    follow. *)
Definition cancel (s : evs) (q : t) (e : addr) : res (evs * t) :=
  let! ev := deref (s !! e) in
  if ev.(uid_) <=? 0 then Ok (s, q)
  else
    let! i := CALENDAR_HASH q ev.(time_) in
    let! b := bucket q i in
    let! (l1, l2) := deref (around e b.(list_)) in
    let! alone := match list.head (l2 ++ l1), last (l2 ++ l1) with
                  | Some next, Some prev =>
                      let! nv := deref (s !! next) in
                      let! pv := deref (s !! prev) in
                      Ok (negb (F64.eq nv.(time_) ev.(time_)) && negb (F64.eq pv.(time_) ev.(time_)))
                  | _, _ => Ok true          (* e->next_ == e *)
                  end in
    let! q := if alone then
                let! q := count_distinct q i (-1) in
                let! b := bucket q i in
                if (q.(stat_qsize_) <? 0) || (b.(count_) <? 0) then Err Abort else Ok q
              else Ok q in
    let! b := bucket q i in
    if (b.(count_) =? 0) && negb (bool_decide (l1 ++ l2 = [])) then Err Abort
    else
      let! n := isub q.(qsize_) 1 in
      Ok (<[e := ev <| uid_ := - ev.(uid_) |>]> s, set_bucket (q <| qsize_ := n |>) i (b <| list_ := l1 ++ l2 |>)).

Fixpoint lookup_list (s : evs) (uid : Z) (l : list addr) : res (option addr) :=
  match l with
  | [] => Ok None
  | p :: l => let! ev := deref (s !! p) in if ev.(uid_) =? uid then Ok (Some p) else lookup_list s uid l
  end.

Fixpoint lookup_buckets (s : evs) (uid : Z) (bs : list Bucket) : res (option addr) :=
  match bs with
  | [] => Ok None
  | b :: bs =>
      let! r := lookup_list s uid b.(list_) in
      match r with Some p => Ok (Some p) | None => lookup_buckets s uid bs end
  end.

Definition lookup (s : evs) (q : t) (uid : Z) : res (t * option addr) :=
  let! r := lookup_buckets s uid q.(buckets_) in Ok (q, r).

End CalendarScheduler.

#[export] Instance CalendarScheduler_queue : EventQueue CalendarScheduler.t := {
  eq_insert := CalendarScheduler.insert;
  eq_cancel := CalendarScheduler.cancel;
  eq_deque := CalendarScheduler.deque;
  eq_head := CalendarScheduler.head;
  eq_lookup := CalendarScheduler.lookup
}.
