(* ===== verification/CalendarFacts.v ===== *)
(** * The calendar scheduler: invariant and operations

    First the lists in the buckets, then the buckets: each holds, in order,
    the queued events whose day is its index modulo the length of the year,
    and the counters count their distinct times.  Every operation of
    [CalendarScheduler] keeps this and acts on the queue as [EventQueue] asks,
    as long as the times fit the width ([CalendarTime.timely]). *)

From Stdlib Require Import ZArith Lia Bool Sorted SpecFloat.
From stdpp Require Import base list gmap.
From S2P Require Import Prelude F64 F64Exact PktQueue Sched ListSched CalendarTime Calendar.

(** ** Sorted lists and the number of their times *)

Module BucketFacts.
Import CalendarScheduler SchedFacts.

Section Lists.
Context (s : evs).
Implicit Types (l : list addr) (a b e : addr).

Definition numbers l : Prop := Forall (fun a => is_Some (s !! a) /\ F64.is_nan (time_of s a) = false) l.

Lemma numbers_elem l a : numbers l -> a ∈ l -> exists ev, s !! a = Some ev /\ time_of s a = ev.(time_) /\ F64.is_nan (time_of s a) = false.
Proof.
  intros Hl Ha. unfold numbers in Hl. rewrite Forall_forall in Hl. destruct (Hl a Ha) as [[ev He] Hn]. exists ev.
  by rewrite (time_of_Some _ _ _ He) in *.
Qed.

Lemma numbers_sub l l' : numbers l -> (forall a, a ∈ l' -> a ∈ l) -> numbers l'.
Proof. unfold numbers. rewrite !Forall_forall. auto. Qed.

Lemma elem_of_rev a l : a ∈ rev l <-> a ∈ l.
Proof. by rewrite !list_elem_of_In, <- in_rev. Qed.

Lemma before_le a b : before s a b -> F64.le (time_of s a) (time_of s b) = true.
Proof. intros [H|[H _]]; [by apply F64.lt_le|by apply F64.eq_le]. Qed.

Lemma sorted_le a l : StronglySorted (before s) (a :: l) -> Forall (fun b => F64.le (time_of s a) (time_of s b) = true) l.
Proof.
  intros [_ H]%StronglySorted_inv. eapply Forall_impl; [exact H|]. intros b Hb. by apply before_le.
Qed.

(** Is there a new time from [a] to [b]? *)
Definition fresh a b : Z := if F64.eq (time_of s a) (time_of s b) then 0 else 1.

Fixpoint distinct l : Z :=
  match l with
  | [] => 0
  | a :: l' => match l' with [] => 1 | b :: _ => fresh a b + distinct l' end
  end.

Lemma distinct_bounds l : 0 <= distinct l <= Z.of_nat (length l) /\ (distinct l = 0 -> l = []).
Proof.
  induction l as [|a l [IH1 IH2]]; [done|]. cbn [distinct length]. destruct l as [|b l]; [done|].
  assert (distinct (b :: l) <> 0) by (intros H; by apply IH2 in H).
  unfold fresh. destruct (F64.eq _ _); split; lia.
Qed.

Lemma distinct_cons a b l : distinct (a :: b :: l) = fresh a b + distinct (b :: l).
Proof. done. Qed.

(** What [e] adds between [p] and [n]. *)
Definition gain (p n : option addr) e : Z :=
  match p, n with
  | Some p, Some n => fresh p e + fresh e n - fresh p n
  | Some p, None => fresh p e
  | None, Some n => fresh e n
  | None, None => 1
  end.

Lemma distinct_gain l1 l2 e : distinct (l1 ++ e :: l2) = distinct (l1 ++ l2) + gain (last l1) (list.head l2) e.
Proof.
  induction l1 as [|a l1 IH]; cbn [app].
  - destruct l2; cbn [distinct last list.head gain]; lia.
  - destruct l1 as [|b l1].
    + destruct l2; cbn [app distinct last list.head gain]; lia.
    + change (last (a :: b :: l1)) with (last (b :: l1)). cbn [app] in *. rewrite !distinct_cons, IH. lia.
Qed.

(** A sorted list splits at a time. *)
Lemma split_at_time (P : addr -> bool) l :
  StronglySorted (before s) l ->
  (forall a b, before s a b -> P b = true -> P a = true) ->
  exists l1 l2, l = l1 ++ l2 /\ Forall (fun a => P a = true) l1 /\ Forall (fun a => P a = false) l2.
Proof.
  intros Hs HP. induction Hs as [|a l Hs (l1 & l2 & -> & H1 & H2) Ha]; [by exists [], []|].
  destruct (P a) eqn:E.
  - exists (a :: l1), l2. split; [done|]. split; [by constructor|done].
  - exists [], (a :: l1 ++ l2). split; [done|]. split; [constructor|]. constructor; [done|].
    rewrite Forall_forall in Ha |- *. intros b Hb. apply not_true_iff_false. intros Hc.
    rewrite (HP a b) in E; [done|by apply Ha|done].
Qed.

Lemma lt_le_trans_not (x y z : f64) : F64.le x y = true -> F64.lt z y = false -> F64.is_nan z = false -> F64.lt z x = false.
Proof.
  intros H1 H2 Hz. apply not_true_iff_false. intros H. rewrite (F64.lt_le_trans z x y) in H2; done.
Qed.

Lemma sorted_app_le l1 a l2 b :
  StronglySorted (before s) (l1 ++ l2) -> a ∈ l1 -> b ∈ l2 -> F64.le (time_of s a) (time_of s b) = true.
Proof.
  intros Hs Ha Hb. apply before_le. induction l1 as [|x l1 IH]; [set_solver|]. cbn in Hs.
  apply StronglySorted_inv in Hs as [Hs Hx]. apply elem_of_cons in Ha as [->|Ha]; [|by apply IH].
  rewrite Forall_forall in Hx. apply Hx. set_solver.
Qed.

(** *** The searches *)

Lemma insert_back_ok e k p m :
  numbers (k ++ [p]) -> F64.lt (time_of s e) (time_of s p) = false ->
  Forall (fun y => F64.lt (time_of s e) (time_of s y) = true) k ->
  insert_back s (time_of s e) e (k ++ p :: m) =
    Ok (k ++ e :: p :: m, Z.of_nat (length k), F64.lt (time_of s p) (time_of s e)).
Proof.
  intros Hn Hp Hk. induction Hk as [|x k Hx _ IH]; cbn [app insert_back] in *.
  - destruct (numbers_elem _ p Hn) as (ev & E & Et & _); [set_solver|]. rewrite E. cbn [deref res_bind].
    by rewrite <- Et, Hp.
  - destruct (numbers_elem _ x Hn) as (ev & E & Et & _); [set_solver|]. rewrite E. cbn [deref res_bind].
    apply Forall_cons in Hn as [_ Hn]. rewrite <- Et, Hx, IH by done. cbn [res_bind length]. do 3 f_equal. lia.
Qed.

Lemma insert_list_ok e l :
  numbers l -> StronglySorted (before s) l -> F64.is_nan (time_of s e) = false ->
  exists n unique, insert_list s (time_of s e) e l = Ok (stable_insert (not_later s) e l, n, unique) /\
    distinct (stable_insert (not_later s) e l) = distinct l + (if unique then 1 else 0).
Proof.
  intros Hn Hs He.
  destruct (split_at_time (fun y => not_later s y e) l Hs) as (l1 & l2 & -> & H1 & H2).
  { intros a b Hab Hb. unfold not_later in *. rewrite negb_true_iff in *.
    by apply (lt_le_trans_not _ (time_of s b)); [by apply before_le| |]. }
  rewrite stable_insert_split; [|done|destruct l2; [done|constructor; [by apply Forall_inv in H2|done]]].
  assert (Forall (fun y => F64.lt (time_of s e) (time_of s y) = true) l2) as H2'.
  { eapply Forall_impl; [exact H2|]. intros y Hy. unfold not_later in Hy. by apply negb_false_iff in Hy. }
  rewrite distinct_gain. destruct (snoc_cases l1) as [->|(l1' & p & ->)].
  - cbn [app last gain]. destruct l2 as [|x l2]; [by exists 0, true|]. cbn [insert_list list.head].
    destruct (numbers_elem _ x Hn) as (ev & E & Et & _); [set_solver|]. rewrite E. cbn [deref res_bind].
    apply Forall_inv in H2' as Hx. rewrite <- Et, Hx. exists 1, true. split; [done|]. unfold fresh.
    destruct (F64.eq _ _) eqn:Eq; [|lia]. apply F64.eq_not_lt in Eq. congruence.
  - rewrite last_snoc. rewrite <- app_assoc in *. cbn [app] in *.
    assert (F64.lt (time_of s e) (time_of s p) = false) as Hp.
    { apply Forall_app in H1 as [_ H1]. apply Forall_inv in H1. unfold not_later in H1. by apply negb_true_iff in H1. }
    assert (exists x l', l1' ++ p :: l2 = x :: l' /\ F64.lt (time_of s e) (time_of s x) = false /\ is_Some (s !! x)) as (x & l' & El & Hx & ev & Ex).
    { destruct l1' as [|x l1']; [exists p, l2|exists x, (l1' ++ p :: l2)]; (split; [done|]); split.
      - done.
      - destruct (numbers_elem _ p Hn) as (ev & E & _); [set_solver|by exists ev].
      - apply Forall_inv in H1. unfold not_later in H1. by apply negb_true_iff in H1.
      - destruct (numbers_elem _ x Hn) as (ev & E & _); [set_solver|by exists ev]. }
    assert (insert_list s (time_of s e) e (l1' ++ p :: l2) =
      let! (r, n, unique) := insert_back s (time_of s e) e (rev (l1' ++ p :: l2)) in Ok (rev r, n + 1, unique)) as ->.
    { rewrite El. cbn [insert_list]. rewrite Ex. cbn [deref res_bind]. by rewrite <- (time_of_Some _ _ _ Ex), Hx. }
    assert (rev (l1' ++ p :: l2) = rev l2 ++ p :: rev l1') as -> by (rewrite rev_app_distr; cbn; by rewrite <- app_assoc).
    rewrite insert_back_ok; [|eapply numbers_sub; [exact Hn|intros a Ha; rewrite elem_of_app, elem_of_rev in Ha; set_solver]
      |done|by apply Forall_rev].
    cbn [res_bind]. rewrite rev_app_distr. cbn [rev]. rewrite !rev_involutive, <- !app_assoc. cbn [app].
    eexists _, _. split; [done|]. f_equal.
    destruct (numbers_elem _ p Hn) as (evp & _ & _ & Hnp); [set_solver|].
    assert (F64.lt (time_of s p) (time_of s e) = negb (F64.eq (time_of s p) (time_of s e))) as ->.
    { apply (F64.le_total _ _ He Hnp) in Hp. rewrite F64.le_lt_or_eq in Hp.
      destruct (F64.eq _ _) eqn:E; [by apply F64.eq_not_lt|]. by rewrite orb_false_r in Hp. }
    destruct l2 as [|x2 l2]; cbn [list.head gain]; unfold fresh.
    { by destruct (F64.eq _ _). }
    apply Forall_inv in H2'. assert (F64.lt (time_of s p) (time_of s x2) = true) as Hpx.
    { apply (F64.le_lt_trans _ (time_of s e)); [|done]. by apply F64.le_total. }
    assert (forall u v, F64.lt u v = true -> F64.eq u v = false) as Hne.
    { intros u v Huv. apply not_true_iff_false. intros Heq. apply F64.eq_not_lt in Heq. congruence. }
    rewrite (Hne _ _ H2'), (Hne _ _ Hpx). by destruct (F64.eq _ _).
Qed.
Lemma sorted_middle l1 e l2 :
  StronglySorted (before s) (l1 ++ l2) ->
  Forall (fun a => before s a e) l1 -> Forall (before s e) l2 -> StronglySorted (before s) (l1 ++ e :: l2).
Proof.
  intros Hs H1 H2. induction H1 as [|a l1 Ha _ IH]; cbn [app] in *.
  - by constructor.
  - apply StronglySorted_inv in Hs as [Hs Hl]. constructor; [by apply IH|].
    apply Forall_app in Hl as [Hl1 Hl2]. apply Forall_app. split; [done|]. by constructor.
Qed.

Lemma insert_front_ok e l1 n nv l2 :
  numbers l1 -> Forall (fun y => F64.lt (time_of s y) (time_of s e) = true) l1 ->
  s !! n = Some nv -> F64.lt (time_of s n) (time_of s e) = false ->
  insert_front s (time_of s e) e (l1 ++ n :: l2) = Ok (l1 ++ e :: n :: l2, differs e n nv (time_of s e)).
Proof.
  intros Hn H1 En Hl. induction H1 as [|x l1 Hx _ IH]; cbn [app insert_front].
  - rewrite En. cbn [deref res_bind]. unfold F64.gt. by rewrite <- (time_of_Some _ _ _ En), Hl.
  - destruct (numbers_elem _ x Hn) as (ev & E & Et & _); [set_solver|]. rewrite E. cbn [deref res_bind].
    apply Forall_cons in Hn as [_ Hn]. unfold F64.gt. by rewrite <- Et, Hx, IH.
Qed.

Lemma lt_neq (x y : f64) : F64.lt x y = true -> F64.eq x y = false /\ F64.eq y x = false.
Proof.
  intros H. split; apply not_true_iff_false; intros E; apply F64.lt_asym in H as H'; [|apply F64.eq_sym in E];
    apply F64.eq_not_lt in E; congruence.
Qed.

Lemma insert2_list_ok e l :
  numbers l -> StronglySorted (before s) l -> F64.is_nan (time_of s e) = false -> e ∉ l ->
  (forall b, b ∈ l -> F64.eq (time_of s e) (time_of s b) = true -> before s e b) ->
  exists l' unique, insert2_list s (time_of s e) e l = Ok (l', unique) /\
    StronglySorted (before s) l' /\ l' ≡ₚ e :: l /\ distinct l' = distinct l + (if unique then 1 else 0).
Proof.
  intros Hn Hs He Hel Heq.
  destruct (split_at_time (fun y => F64.lt (time_of s y) (time_of s e)) l Hs) as (l1 & l2 & -> & H1 & H2).
  { intros a b Hab%before_le Hb. by apply (F64.le_lt_trans _ (time_of s b)). }
  assert (StronglySorted (before s) (l1 ++ e :: l2)) as Hs'.
  { apply sorted_middle; [done|eapply Forall_impl; [exact H1|]; intros a Ha; by left|].
    rewrite Forall_forall in H2 |- *. intros b Hb.
    destruct (numbers_elem _ b Hn) as (ev & _ & _ & Hnb); [set_solver|].
    pose proof (F64.le_total _ _ Hnb He (H2 b Hb)) as Hle. rewrite F64.le_lt_or_eq in Hle.
    apply orb_true_iff in Hle as [Hle|Hle]; [by left|]. apply Heq; [set_solver|done]. }
  exists (l1 ++ e :: l2). destruct l2 as [|n l2].
  - rewrite app_nil_r in *. destruct l1 as [|h l1].
    { exists true. split; [done|]. split; [done|]. split; [done|]. done. }
    assert (exists p, last (h :: l1) = Some p /\ p ∈ h :: l1 /\ default h (last l1) = p) as (p & Ep & Hp & Ed).
    { destruct (last (h :: l1)) as [p|] eqn:E; [|by apply last_None in E]. exists p. split; [done|].
      split; [by apply last_Some_elem_of|]. rewrite last_cons in E. destruct (last l1); cbn; congruence. }
    destruct (numbers_elem _ p Hn Hp) as (pv & Epv & Et & _).
    destruct (numbers_elem _ h Hn) as (hv & Eh & Eth & _); [set_solver|].
    rewrite Forall_forall in H1. pose proof (H1 p Hp) as Hpe. pose proof (H1 h ltac:(set_solver)) as Hhe.
    cbn [insert2_list]. rewrite Ed, Epv. cbn [deref res_bind]. unfold F64.gt. rewrite <- Et, Hpe, Eh. cbn [deref res_bind].
    exists true. split; [|split; [done|split; [solve_perm|]]].
    + unfold differs. rewrite bool_decide_eq_false_2 by (intros ->; set_solver). cbn.
      by rewrite <- Eth, (proj1 (lt_neq _ _ Hhe)).
    + rewrite distinct_gain, app_nil_r, Ep. cbn [list.head gain]. unfold fresh. by rewrite (proj1 (lt_neq _ _ Hpe)).
  - destruct (numbers_elem _ n Hn) as (nv & En & Et & Hnn); [set_solver|].
    assert (insert2_list s (time_of s e) e (l1 ++ n :: l2) = insert_front s (time_of s e) e (l1 ++ n :: l2)) as ->.
    { assert (exists p h l', l1 ++ n :: l2 = h :: l' /\ default h (last l') = p /\ p ∈ n :: l2) as (p & h & l' & El & Ed & Hp).
      { destruct (snoc_cases l2) as [->|(m & p & ->)].
        - exists n. destruct l1 as [|h l1]; [by exists n, []; set_solver|]. exists h, (l1 ++ [n]). rewrite last_snoc. set_solver.
        - exists p. destruct l1 as [|h l1].
          + exists n, (m ++ [p]). rewrite last_snoc. set_solver.
          + exists h, ((l1 ++ n :: m) ++ [p]). rewrite last_snoc, <- app_assoc. set_solver. }
      destruct (numbers_elem _ p Hn) as (pv & Epv & Etp & _); [set_solver|].
      rewrite El. cbn [insert2_list]. rewrite Ed, Epv. cbn [deref res_bind]. unfold F64.gt.
      rewrite Forall_forall in H2. by rewrite <- Etp, (H2 p Hp). }
    rewrite (insert_front_ok e l1 n nv l2); [|eapply numbers_sub; [exact Hn|set_solver]|done|done|by apply Forall_inv in H2].
    eexists. split; [done|]. split; [done|]. split; [solve_perm|]. rewrite distinct_gain. f_equal. cbn [list.head].
    unfold differs. rewrite bool_decide_eq_false_2 by (intros ->; set_solver). cbn [negb andb].
    assert (F64.eq (time_ nv) (time_of s e) = F64.eq (time_of s e) (time_of s n)) as ->.
    { rewrite <- Et. apply eq_true_iff_eq. split; apply F64.eq_sym. }
    destruct (last l1) as [p|] eqn:Ep; cbn [gain]; unfold fresh; [|by destruct (F64.eq _ _)].
    apply last_Some_elem_of in Ep. rewrite Forall_forall in H1. pose proof (H1 p Ep) as Hpe.
    assert (F64.lt (time_of s p) (time_of s n) = true) as Hpn.
    { apply (F64.lt_le_trans _ (time_of s e)); [done|]. apply F64.le_total; [done|done|by apply Forall_inv in H2]. }
    rewrite (proj1 (lt_neq _ _ Hpe)), (proj1 (lt_neq _ _ Hpn)). by destruct (F64.eq _ _).
Qed.

(** Taking an event out: the number of times shrinks when no neighbour in
    the circle has the same time. *)
Lemma gain_around l1 l2 e :
  StronglySorted (before s) (l1 ++ e :: l2) -> numbers (l1 ++ e :: l2) ->
  gain (last l1) (list.head l2) e =
    match list.head (l2 ++ l1), last (l2 ++ l1) with
    | Some n, Some p => if F64.eq (time_of s n) (time_of s e) || F64.eq (time_of s p) (time_of s e) then 0 else 1
    | _, _ => 1
    end.
Proof.
  intros Hs Hn.
  assert (forall a b, F64.eq (time_of s a) (time_of s b) = F64.eq (time_of s b) (time_of s a)) as Hsym.
  { intros a b. apply eq_true_iff_eq. split; apply F64.eq_sym. }
  assert (forall a b, F64.le (time_of s a) (time_of s b) = true -> F64.eq (time_of s a) (time_of s b) = false ->
    F64.lt (time_of s a) (time_of s b) = true) as Hlt.
  { intros a b H1 H2. rewrite F64.le_lt_or_eq, H2, orb_false_r in H1. done. }
  assert (forall a, a ∈ l1 -> F64.le (time_of s a) (time_of s e) = true) as Hb by (intros a Ha; eapply sorted_app_le; [exact Hs|done|set_solver]).
  assert (forall a, a ∈ l2 -> F64.le (time_of s e) (time_of s a) = true) as Ha.
  { intros a Ha. eapply (sorted_app_le (l1 ++ [e])); [rewrite <- app_assoc; exact Hs|set_solver|done]. }
  assert (StronglySorted (before s) l1 /\ StronglySorted (before s) l2) as [Hs1 Hs2].
  { clear -Hs. induction l1 as [|x l1 IH]; cbn in Hs; apply StronglySorted_inv in Hs as [Hs Hx].
    - split; [constructor|done].
    - destruct (IH Hs) as [H1 H2]. split; [|done]. constructor; [done|]. by apply Forall_app in Hx as [Hx _]. }
  destruct l2 as [|n l2]; [|destruct (snoc_cases l1) as [->|(m & p & ->)]].
  - cbn [app list.head]. destruct l1 as [|h l1]; [done|]. cbn [list.head].
    destruct (last (h :: l1)) as [p|] eqn:Ep; [|by apply last_None in Ep]. cbn [gain]. unfold fresh.
    apply last_Some_elem_of in Ep as Hp. destruct (F64.eq (time_of s p) (time_of s e)) eqn:E; [by rewrite orb_true_r|].
    pose proof (Hlt p e (Hb p Hp) E) as Hpe.
    assert (F64.le (time_of s h) (time_of s p) = true) as Hhp.
    { apply elem_of_cons in Hp as [->|Hp]; [apply F64.le_refl; by destruct (numbers_elem _ h Hn) as (? & ? & ? & ?); [set_solver|]|].
      apply sorted_le in Hs1. rewrite Forall_forall in Hs1. by apply Hs1. }
    by rewrite (proj1 (lt_neq _ _ (F64.le_lt_trans _ _ _ Hhp Hpe))).
  - rewrite app_nil_r. cbn [list.head last gain]. destruct (last (n :: l2)) as [z|] eqn:Ez; [|by apply last_None in Ez].
    change (gain None (Some n) e) with (fresh e n). unfold fresh. rewrite (Hsym e n).
    destruct (F64.eq (time_of s n) (time_of s e)) eqn:E; [done|]. rewrite Hsym in E.
    pose proof (Hlt e n (Ha n ltac:(set_solver)) E) as Hen. apply last_Some_elem_of in Ez as Hz.
    assert (F64.le (time_of s n) (time_of s z) = true) as Hnz.
    { apply elem_of_cons in Hz as [->|Hz]; [apply F64.le_refl; by destruct (numbers_elem _ n Hn) as (? & ? & ? & ?); [set_solver|]|].
      apply sorted_le in Hs2. rewrite Forall_forall in Hs2. by apply Hs2. }
    cbn [orb]. by rewrite (proj2 (lt_neq _ _ (F64.lt_le_trans _ _ _ Hen Hnz))).
  - rewrite last_snoc. cbn [app list.head]. rewrite app_comm_cons, app_assoc, last_snoc. cbn [gain]. unfold fresh.
    pose proof (Hb p ltac:(set_solver)) as Hpe. pose proof (Ha n ltac:(set_solver)) as Hen.
    rewrite (Hsym e n). destruct (F64.eq (time_of s n) (time_of s e)) eqn:E1, (F64.eq (time_of s p) (time_of s e)) eqn:E2; cbn [orb].
    + rewrite (F64.eq_trans _ (time_of s e)); [done|done|by rewrite Hsym].
    + by rewrite (proj1 (lt_neq _ _ (F64.lt_le_trans _ _ _ (Hlt _ _ Hpe E2) Hen))).
    + rewrite Hsym in E1. by rewrite (proj1 (lt_neq _ _ (F64.le_lt_trans _ _ _ Hpe (Hlt _ _ Hen E1)))).
    + rewrite Hsym in E1. by rewrite (proj1 (lt_neq _ _ (F64.le_lt_trans _ _ _ Hpe (Hlt _ _ Hen E1)))).
Qed.

Lemma around_ok e l : e ∈ l -> exists l1 l2, around e l = Some (l1, l2) /\ l = l1 ++ e :: l2 /\ e ∉ l1.
Proof.
  induction l as [|x l IH]; intros He; [set_solver|]. cbn [around]. case_bool_decide as E.
  - subst x. exists [], l. set_solver.
  - destruct IH as (l1 & l2 & -> & -> & Hn); [set_solver|]. exists (x :: l1), l2. set_solver.
Qed.
End Lists.
End BucketFacts.
