(* ===== verification/CalendarRep.v ===== *)
(** * The calendar scheduler: invariant and operations

    Each bucket holds, in order, the queued events whose day is its index
    modulo the length of the year, and the counters count their distinct
    times ([calendar]).  Every operation of [CalendarScheduler] keeps this and
    acts on the queue as [EventQueue] asks, as long as the times fit the width
    ([CalendarTime.timely]). *)

From Stdlib Require Import ZArith Lia Bool Sorted SpecFloat.
From stdpp Require Import base list gmap.
From S2P Require Import Prelude F64 F64Exact PktQueue Sched ListSched CalendarTime Calendar CalendarFacts.

Module CalendarRep.
Import CalendarScheduler SchedFacts BucketFacts CalendarTime.
Implicit Types (s : evs) (q : t) (L : list addr) (b : Bucket) (a e : addr).

(** A time a calendar of width [W] can handle. *)
Definition fitting (W : Z) (x : f64) : Prop := exists T, F64Exact.fin x T /\ timely W T.

Definition index (w : f64) (n : Z) (x : f64) : Z := day w x mod n.

Record bucket_ok s (w : f64) (n : Z) L (i : Z) b : Prop := {
  bk_sorted : StronglySorted (before s) b.(list_);
  bk_elem a : a ∈ b.(list_) <-> a ∈ L /\ index w n (time_of s a) = i;
  bk_count : b.(count_) = distinct s b.(list_)
}.

Record calendar s q L (W : Z) : Prop := {
  cl_width : F64Exact.fin q.(width_) W;
  cl_wide : wide W;
  cl_year : year q.(nbuckets_);
  cl_length : Z.of_nat (length q.(buckets_)) = q.(nbuckets_);
  cl_bucket i b : q.(buckets_) !! i = Some b -> bucket_ok s q.(width_) q.(nbuckets_) L (Z.of_nat i) b;
  cl_stat : q.(stat_qsize_) = sum_Z count_ q.(buckets_);
  cl_size : q.(qsize_) = Z.of_nat (length L);
  cl_nodup : NoDup L;
  cl_small : Z.of_nat (length L) < 2 ^ 29;
  cl_times a : a ∈ L -> is_Some (s !! a) /\ fitting W (time_of s a) /\ F64.le q.(cal_clock_) (time_of s a) = true;
  cl_clock : fitting W q.(cal_clock_);
  cl_last : q.(lastbucket_) = index q.(width_) q.(nbuckets_) q.(cal_clock_);
  cl_diff0 : q.(diff0_) = half_year q.(width_) q.(nbuckets_);
  cl_diff1 : q.(diff1_) = F64.add (half_year q.(width_) q.(nbuckets_)) q.(width_);
  cl_diff2 : q.(diff2_) = F64.mul q.(width_) (F64.of_Z q.(nbuckets_));
  cl_top : q.(top_threshold_) = q.(nbuckets_) * 2;
  cl_bot : q.(bot_threshold_) = q.(nbuckets_) / 2 - 2;
  cl_gap : 0 <= q.(gap_num_) < 2 ^ 31;
  cl_round : 0 <= q.(round_num_) <= 101
}.

(** The members that the buckets do not depend on. *)
Definition same_frame q q' : Prop :=
  q' = q <| buckets_ := q'.(buckets_) |> <| stat_qsize_ := q'.(stat_qsize_) |> <| qsize_ := q'.(qsize_) |>.

(** ** Consequences *)

Section Facts.
Context s q L W (C : calendar s q L W).

Lemma calendar_number a : a ∈ L -> F64.is_nan (time_of s a) = false.
Proof. intros Ha. destruct (cl_times _ _ _ _ C a Ha) as (_ & (T & HT & _) & _). by eapply F64Exact.fin_not_nan. Qed.

Lemma index_bounds x : 0 <= index q.(width_) q.(nbuckets_) x < q.(nbuckets_).
Proof. pose proof (year_bounds _ (cl_year _ _ _ _ C)). apply Z.mod_pos_bound. lia. Qed.

Lemma calendar_hash x : fitting W x -> CALENDAR_HASH q x = Ok (index q.(width_) q.(nbuckets_) x).
Proof.
  intros (T & Hx & HT). unfold CALENDAR_HASH. by rewrite (hash_ok _ W (cl_width _ _ _ _ C) (cl_wide _ _ _ _ C) _ x T (cl_year _ _ _ _ C)).
Qed.

Lemma calendar_bucket i :
  0 <= i < q.(nbuckets_) ->
  exists b, bucket q i = Ok b /\ q.(buckets_) !! Z.to_nat i = Some b /\ bucket_ok s q.(width_) q.(nbuckets_) L i b.
Proof.
  intros Hi. destruct (lookup_lt_is_Some_2 q.(buckets_) (Z.to_nat i)) as [b Hb].
  { pose proof (cl_length _ _ _ _ C). lia. }
  exists b. unfold bucket. rewrite (proj2 (Z.ltb_ge i 0)), Hb by lia. split; [done|]. split; [done|].
  pose proof (cl_bucket _ _ _ _ C _ _ Hb) as H. by rewrite Z2Nat.id in H by lia.
Qed.

Lemma bucket_numbers i b : bucket_ok s q.(width_) q.(nbuckets_) L i b -> numbers s b.(list_).
Proof.
  intros Hb. apply Forall_forall. intros a Ha. apply (bk_elem _ _ _ _ _ _ Hb) in Ha as [Ha _].
  split; [by apply (cl_times _ _ _ _ C)|by apply calendar_number].
Qed.

Lemma sorted_nodup l : StronglySorted (before s) l -> NoDup l.
Proof.
  induction 1 as [|a l _ IH Ha]; constructor; [|done].
  intros Hin. rewrite Forall_forall in Ha. by apply (key_before_irrefl (key_of s a)), Ha.
Qed.

(** The buckets hold the queue. *)
Lemma events_of_buckets (bs : list Bucket) k :
  (forall i b, bs !! i = Some b -> bucket_ok s q.(width_) q.(nbuckets_) L (Z.of_nat (k + i)) b) ->
  NoDup (concat (map list_ bs)) /\
  forall a, a ∈ concat (map list_ bs) <->
    a ∈ L /\ Z.of_nat k <= index q.(width_) q.(nbuckets_) (time_of s a) < Z.of_nat (k + length bs).
Proof.
  revert k. induction bs as [|b bs IH]; intros k Hb; cbn [map concat length].
  { split; [constructor|]. intros a. rewrite elem_of_nil. lia. }
  destruct (IH (S k)) as [Hn He].
  { intros i b' Hi. replace (S k + i)%nat with (k + S i)%nat by lia. by apply Hb. }
  pose proof (Hb 0%nat b Logic.eq_refl) as Hb0. rewrite Nat.add_0_r in Hb0. split.
  - apply NoDup_app. split; [|split; [|done]].
    + by apply sorted_nodup, (bk_sorted _ _ _ _ _ _ Hb0).
    + intros a Ha Ha'. apply (bk_elem _ _ _ _ _ _ Hb0) in Ha as [_ Ha]. apply He in Ha' as [_ Ha']. lia.
  - intros a. rewrite elem_of_app, (bk_elem _ _ _ _ _ _ Hb0), He. split; [intros [[? ?]|[? ?]]; (split; [done|lia])|].
    intros [Ha Hr]. destruct (Z.eq_dec (index q.(width_) q.(nbuckets_) (time_of s a)) (Z.of_nat k)); [by left|].
    right. split; [done|]. lia.
Qed.

Lemma calendar_events : concat (map list_ q.(buckets_)) ≡ₚ L.
Proof.
  destruct (events_of_buckets q.(buckets_) 0 (cl_bucket _ _ _ _ C)) as [Hn He].
  apply NoDup_Permutation; [done|apply (cl_nodup _ _ _ _ C)|]. intros a. rewrite He. split; [by intros [? _]|].
  intros Ha. split; [done|]. pose proof (index_bounds (time_of s a)). pose proof (cl_length _ _ _ _ C). lia.
Qed.

Lemma distinct_sum bs :
  (forall i b, bs !! i = Some b -> b.(count_) = distinct s b.(list_)) ->
  0 <= sum_Z count_ bs <= Z.of_nat (length (concat (map list_ bs))).
Proof.
  induction bs as [|b bs IH]; intros Hb; cbn [map concat length]; [done|].
  unfold sum_Z in *. cbn [foldr]. rewrite length_app. pose proof (Hb 0%nat b Logic.eq_refl) as H0.
  pose proof (distinct_bounds s b.(list_)). destruct IH; [intros i b' Hi; by apply (Hb (S i))|]. lia.
Qed.

Lemma calendar_stat : 0 <= q.(stat_qsize_) <= Z.of_nat (length L).
Proof.
  rewrite (cl_stat _ _ _ _ C). rewrite <- (Permutation_length calendar_events). apply distinct_sum.
  intros i b Hi. by apply (bk_count _ _ _ _ _ _ (cl_bucket _ _ _ _ C i b Hi)).
Qed.

Lemma bucket_count i b : bucket_ok s q.(width_) q.(nbuckets_) L i b -> 0 <= b.(count_) <= Z.of_nat (length L).
Proof.
  intros Hb. rewrite (bk_count _ _ _ _ _ _ Hb). pose proof (distinct_bounds s b.(list_)) as [Hd _].
  enough (length b.(list_) <= length L)%nat by lia. apply submseteq_length, NoDup_submseteq.
  - by apply sorted_nodup, (bk_sorted _ _ _ _ _ _ Hb).
  - intros a Ha. by apply (bk_elem _ _ _ _ _ _ Hb) in Ha as [Ha _].
Qed.
End Facts.

Lemma sum_Z_insert {A} (f : A -> Z) (l : list A) i x y : l !! i = Some x -> sum_Z f (<[i:=y]> l) = sum_Z f l - f x + f y.
Proof.
  intros Hi. apply list_elem_of_split_length in Hi as (l1 & l2 & -> & ->).
  rewrite insert_app_r_alt, Nat.sub_diag by lia. change (<[0%nat:=y]> (x :: l2)) with (y :: l2).
  rewrite !sum_Z_app. unfold sum_Z. cbn [foldr]. lia.
Qed.

Lemma calendar_perm s q L L' W : L ≡ₚ L' -> calendar s q L W -> calendar s q L' W.
Proof.
  intros HL []. split; try done.
  - intros i b Hb. destruct (cl_bucket0 i b Hb) as [H1 H2 H3]. split; [done| |done]. intros a. by rewrite <- HL.
  - by rewrite <- HL.
  - by rewrite <- HL.
  - by rewrite <- HL.
  - intros a. rewrite <- HL. auto.
Qed.

Lemma distinct_ext s s' l : (forall a, a ∈ l -> time_of s' a = time_of s a) -> distinct s' l = distinct s l.
Proof.
  induction l as [|a l IH]; intros H; [done|]. destruct l as [|b l]; [done|]. rewrite !distinct_cons, IH by set_solver.
  unfold fresh. by rewrite !H by set_solver.
Qed.

Lemma calendar_ext s s' q L W :
  calendar s q L W -> (forall a, a ∈ L -> s' !! a = s !! a) -> calendar s' q L W.
Proof.
  intros C Hext. assert (forall a, a ∈ L -> time_of s' a = time_of s a /\ key_of s' a = key_of s a) as Ht.
  { intros a Ha. pose proof (key_of_ext s s' a (Hext a Ha)) as Hk. split; [by apply key_of_time|done]. }
  destruct C. split; try done.
  - intros i b Hb. destruct (cl_bucket0 i b Hb) as [H1 H2 H3]. split.
    + eapply StronglySorted_ext; [|exact H1]. intros x y Hx Hy. apply H2 in Hx as [Hx _], Hy as [Hy _].
      unfold before. by rewrite (proj2 (Ht x Hx)), (proj2 (Ht y Hy)).
    + intros a. rewrite H2. split; intros [Ha Hi]; (split; [done|]); by rewrite (proj1 (Ht a Ha)) in *.
    + rewrite H3. symmetry. apply distinct_ext. intros a Ha. apply Ht. by apply H2 in Ha as [Ha _].
  - intros a Ha. rewrite (Hext a Ha), (proj1 (Ht a Ha)). by apply cl_times0.
Qed.

(** The next event of the calendar may be looked for from an earlier day. *)
Lemma calendar_move s q L W c :
  calendar s q L W -> fitting W c -> (forall a, a ∈ L -> F64.le c (time_of s a) = true) ->
  calendar s (q <| cal_clock_ := c |> <| lastbucket_ := index q.(width_) q.(nbuckets_) c |>) L W.
Proof.
  intros [] Hc Hle. split; try done. intros a Ha. destruct (cl_times0 a Ha) as (H1 & H2 & _). auto.
Qed.

(** The statistics of searches do not matter. *)
Lemma calendar_stats s q q' L W :
  calendar s q L W ->
  (exists h i r g t (a : f64) n, q' = q <| head_search_ := h |> <| insert_search_ := i |> <| round_num_ := r |> <| gap_num_ := g |>
     <| last_time_ := t |> <| avg_gap_ := a |> <| time_to_newwidth := n |> /\ 0 <= g < 2 ^ 31 /\ 0 <= r <= 101) ->
  calendar s q' L W.
Proof. intros [] (h & i & r & g & t & a & n & -> & Hg & Hr). by split. Qed.

(** ** One bucket changes *)

Lemma calendar_put s q q' L L' W i b b' :
  calendar s q L W -> same_frame q q' ->
  q.(buckets_) !! Z.to_nat i = Some b -> 0 <= i -> q'.(buckets_) = <[Z.to_nat i := b']> q.(buckets_) ->
  q'.(stat_qsize_) = q.(stat_qsize_) - b.(count_) + b'.(count_) -> q'.(qsize_) = Z.of_nat (length L') ->
  bucket_ok s q.(width_) q.(nbuckets_) L' i b' ->
  (forall a, index q.(width_) q.(nbuckets_) (time_of s a) <> i -> a ∈ L' <-> a ∈ L) ->
  NoDup L' -> Z.of_nat (length L') < 2 ^ 29 ->
  (forall a, a ∈ L' -> is_Some (s !! a) /\ fitting W (time_of s a) /\ F64.le q.(cal_clock_) (time_of s a) = true) ->
  calendar s q' L' W.
Proof.
  intros C -> Hb Hi Eb Es Ez Hok Hother Hn Hsm Ht. destruct C. split; cbn in *; try done.
  - by rewrite Eb, length_insert.
  - intros j x. rewrite Eb. intros Hj. destruct (decide (j = Z.to_nat i)) as [->|Hne].
    + rewrite list_lookup_insert_eq in Hj by (by eapply lookup_lt_Some). injection Hj as <-. by rewrite Z2Nat.id.
    + rewrite list_lookup_insert_ne in Hj by done. destruct (cl_bucket0 j x Hj) as [H1 H2 H3]. split; [done| |done].
      intros a. rewrite H2. split; intros [Ha Hx]; (split; [|done]); apply Hother; (done || lia).
  - rewrite Es, Eb. fold (sum_Z count_ (<[Z.to_nat i:=b']> (buckets_ q))). by rewrite (sum_Z_insert _ _ _ b), cl_stat0.
Qed.

Lemma bucket_set q i b b' : q.(buckets_) !! Z.to_nat i = Some b -> 0 <= i -> bucket (set_bucket q i b') i = Ok b'.
Proof.
  intros Hb Hi. unfold bucket. rewrite (proj2 (Z.ltb_ge i 0)) by lia. cbn.
  by rewrite list_lookup_insert_eq by (by eapply lookup_lt_Some).
Qed.

Lemma count_ok q i b d :
  bucket q i = Ok b -> in_int (q.(stat_qsize_) + d) -> in_int (b.(count_) + d) ->
  count_distinct q i d =
    Ok (set_bucket (q <| stat_qsize_ := q.(stat_qsize_) + d |>) i (b <| count_ := b.(count_) + d |>)).
Proof. intros Hb Hs Hc. unfold count_distinct. rewrite (iadd_ok _ _ Hs), Hb. cbn [res_bind]. by rewrite (iadd_ok _ _ Hc). Qed.

Lemma small_int z : 0 <= z < 2 ^ 29 + 1 -> in_int z /\ in_int (z + -1).
Proof. unfold in_int. lia. Qed.

(** [e] has been put into its bucket; the counters follow. *)
Definition counted q (i : Z) b (l : list addr) (unique : bool) : res t :=
  let q := set_bucket q i (b <| list_ := l |>) in
  let! q := if unique then count_distinct q i 1 else Ok q in
  let! n := iadd q.(qsize_) 1 in
  Ok (q <| qsize_ := n |>).

Lemma calendar_grow_ok s q L W e b (l' : list addr) (unique : bool) :
  calendar s q L W ->
  let i := index q.(width_) q.(nbuckets_) (time_of s e) in
  q.(buckets_) !! Z.to_nat i = Some b -> bucket_ok s q.(width_) q.(nbuckets_) L i b ->
  is_Some (s !! e) -> fitting W (time_of s e) -> F64.le q.(cal_clock_) (time_of s e) = true ->
  e ∉ L -> Z.of_nat (length L) + 1 < 2 ^ 29 ->
  StronglySorted (before s) l' -> l' ≡ₚ e :: b.(list_) -> distinct s l' = distinct s b.(list_) + (if unique then 1 else 0) ->
  exists q', counted q i b l' unique = Ok q' /\ calendar s q' (e :: L) W /\ same_frame q q'.
Proof.
  intros C i Hb Hok He Hfit Hle HeL Hsm Hs Hp Hd.
  pose proof (index_bounds _ _ _ _ C (time_of s e)) as Hi. fold i in Hi.
  pose proof (bucket_count s q L i b Hok) as Hc. pose proof (calendar_stat _ _ _ _ C) as Hst.
  pose proof (cl_size _ _ _ _ C) as Ez. unfold counted.
  set (u := if unique then 1 else 0) in *.
  assert (exists q1, (if unique then count_distinct (set_bucket q i (b <| list_ := l' |>)) i 1
      else Ok (set_bucket q i (b <| list_ := l' |>))) = Ok q1 /\ same_frame q q1 /\
      q1.(buckets_) = <[Z.to_nat i := mkBucket l' (b.(count_) + u)]> q.(buckets_) /\
      q1.(stat_qsize_) = q.(stat_qsize_) + u /\ q1.(qsize_) = q.(qsize_)) as (q1 & -> & F1 & E1 & E2 & E3).
  { subst u. destruct unique.
    - rewrite (count_ok _ _ (b <| list_ := l' |>)); [|apply (bucket_set q i b); [done|lia]|cbn; apply small_int; lia..].
      eexists. split; [done|]. split; [done|]. cbn. by rewrite list_insert_insert_eq.
    - eexists. split; [done|]. split; [done|]. cbn. rewrite !Z.add_0_r. done. }
  cbn [res_bind]. rewrite iadd_ok by (rewrite E3, Ez; apply small_int; lia). eexists. split; [done|].
  assert (same_frame q (q1 <| qsize_ := qsize_ q1 + 1 |>)) as F by (unfold same_frame in F1; rewrite F1; done).
  split; [|exact F].
  apply (calendar_put s q _ L (e :: L) W i b (mkBucket l' (b.(count_) + u)) C F Hb); cbn; try lia.
  - done.
  - destruct Hok as [H1 H2 H3]. split; cbn; [done| |lia]. intros a. rewrite Hp, !elem_of_cons, H2. split.
    + intros [->|[Ha Hx]]; [by split; [left|]|by split; [right|]].
    + intros [[->|Ha] Hx]; [by left|by right].
  - intros a Ha. rewrite elem_of_cons. split; [intros [->|]; [by destruct Ha|done]|by right].
  - constructor; [done|apply (cl_nodup _ _ _ _ C)].
  - intros a Ha. apply elem_of_cons in Ha as [->|Ha]; [done|by apply (cl_times _ _ _ _ C)].
Qed.

Lemma fitting_not_nan W x : fitting W x -> F64.is_nan x = false.
Proof. intros (T & HT & _). by eapply F64Exact.fin_not_nan. Qed.

Lemma calendar_frame_trans q q' q'' : same_frame q q' -> same_frame q' q'' -> same_frame q q''.
Proof. unfold same_frame. intros E ->. rewrite E. by destruct q. Qed.

(** *** Taking out *)

Lemma shrink_ok s q L W e b l' (d : Z) :
  calendar s q L W ->
  let i := index q.(width_) q.(nbuckets_) (time_of s e) in
  q.(buckets_) !! Z.to_nat i = Some b -> bucket_ok s q.(width_) q.(nbuckets_) L i b ->
  e ∈ L -> StronglySorted (before s) l' -> b.(list_) ≡ₚ e :: l' -> distinct s b.(list_) = distinct s l' + d ->
  calendar s (set_bucket (q <| stat_qsize_ := q.(stat_qsize_) - d |> <| qsize_ := q.(qsize_) - 1 |>) i
    (mkBucket l' (b.(count_) - d))) (remove_one e L) W.
Proof.
  intros C i Hb Hok He Hs Hp Hd. pose proof (index_bounds _ _ _ _ C (time_of s e)) as Hi. fold i in Hi.
  pose proof (cl_nodup _ _ _ _ C) as Hn. pose proof (length_remove_one _ _ He) as Hl.
  apply (calendar_put s q _ L _ W i b (mkBucket l' (b.(count_) - d)) C); cbn; try done; try lia.
  - pose proof (cl_size _ _ _ _ C). lia.
  - pose proof (sorted_nodup s _ (bk_sorted _ _ _ _ _ _ Hok)) as Hnb. rewrite Hp in Hnb. apply NoDup_cons in Hnb as [Hel _].
    destruct Hok as [H1 H2 H3]. split; cbn; [done| |lia]. intros a. rewrite elem_of_remove_one by done.
    assert (a ∈ list_ b <-> a = e \/ a ∈ l') as Ha by (rewrite Hp, elem_of_cons; done). rewrite H2 in Ha.
    split; [intros Hal|intros [[Hne HaL] Hx]].
    + split; [split; [intros ->; done|]|]; apply Ha; by right.
    + destruct (proj1 Ha) as [->|]; done.
  - intros a Ha. rewrite elem_of_remove_one by done. split; [by intros [_ ?]|]. intros HaL. split; [intros ->; by destruct Ha|done].
  - by apply NoDup_remove_one.
  - pose proof (cl_small _ _ _ _ C). lia.
  - intros a Ha. apply elem_of_remove_one in Ha as [_ Ha]; [|done]. by apply (cl_times _ _ _ _ C).
Qed.

(** ** Inserting *)

Lemma insert2_ok s q L W e :
  calendar s q L W -> is_Some (s !! e) -> fitting W (time_of s e) -> F64.le q.(cal_clock_) (time_of s e) = true ->
  e ∉ L -> Z.of_nat (length L) + 1 < 2 ^ 29 ->
  (forall a, a ∈ L -> F64.eq (time_of s e) (time_of s a) = true -> before s e a) ->
  exists q', insert2 s q e = Ok q' /\ calendar s q' (e :: L) W /\ same_frame q q'.
Proof.
  intros C He Hfit Hle HeL Hsm Heq. set (i := index q.(width_) q.(nbuckets_) (time_of s e)).
  destruct (calendar_bucket s q L W C i (index_bounds _ _ _ _ C _)) as (b & Eb & Hb & Hok).
  destruct (insert2_list_ok s e b.(list_)) as (l' & unique & El & Hs' & Hp' & Hd').
  - by eapply bucket_numbers.
  - apply (bk_sorted _ _ _ _ _ _ Hok).
  - by eapply fitting_not_nan.
  - intros Hin. by apply (bk_elem _ _ _ _ _ _ Hok) in Hin as [Hin _].
  - intros x Hx. apply (bk_elem _ _ _ _ _ _ Hok) in Hx as [Hx _]. by apply Heq.
  - destruct (calendar_grow_ok s q L W e b l' unique C Hb Hok) as (q' & E & C' & F); try done.
    exists q'. split; [|done]. destruct He as [ev He]. unfold insert2. rewrite He. cbn [deref res_bind].
    rewrite <- (time_of_Some _ _ _ He), (calendar_hash _ _ _ _ C) by done. fold i. cbn [res_bind].
    rewrite Eb. cbn [res_bind]. rewrite El. cbn [res_bind]. exact E.
Qed.

(** [place] puts an event behind those of its time. *)
Lemma place_ok s q L W e :
  calendar s q L W -> queued s L -> is_Some (s !! e) -> fitting W (time_of s e) ->
  (forall a, a ∈ L -> uid_of s a < uid_of s e) -> e ∉ L -> Z.of_nat (length L) + 1 < 2 ^ 29 ->
  exists q', place s q e = Ok q' /\ calendar s q' (stable_insert (not_later s) e L) W /\
    q'.(round_num_) = q.(round_num_).
Proof.
  intros C0 Hq He Hfit Hu HeL Hsm.
  set (i := index q.(width_) q.(nbuckets_) (time_of s e)).
  set (q1 := if F64.gt q.(cal_clock_) (time_of s e) then q <| cal_clock_ := time_of s e |> <| lastbucket_ := i |> else q).
  pose proof (fitting_not_nan _ _ Hfit) as Hnan.
  assert (calendar s q1 L W /\ F64.le q1.(cal_clock_) (time_of s e) = true) as [C Hle].
  { subst q1. unfold F64.gt. destruct (F64.lt (time_of s e) (cal_clock_ q)) eqn:E.
    - split; [|by apply F64.le_refl]. apply calendar_move; [done|done|]. intros a Ha.
      apply (F64.le_trans _ q.(cal_clock_)); [by apply F64.lt_le|]. by apply (cl_times _ _ _ _ C0).
    - split; [done|]. apply F64.le_total; [done|by eapply fitting_not_nan, (cl_clock _ _ _ _ C0)|done]. }
  assert (index q1.(width_) q1.(nbuckets_) (time_of s e) = i) as Ei by (subst q1; by destruct (F64.gt _ _)).
  pose proof (index_bounds _ _ _ _ C (time_of s e)) as Hi. rewrite Ei in Hi.
  destruct (calendar_bucket s q1 L W C i Hi) as (b & Eb & Hb & Hok).
  destruct (insert_list_ok s e b.(list_)) as (n & unique & El & Hd').
  { by eapply bucket_numbers. } { apply (bk_sorted _ _ _ _ _ _ Hok). } { done. }
  set (q2 := q1 <| insert_search_ := u64 (q1.(insert_search_) + n) |>).
  assert (calendar s q2 L W) as C2 by (by destruct C).
  destruct (calendar_grow_ok s q2 L W e b (stable_insert (not_later s) e b.(list_)) unique C2) as (q' & E & C' & F).
  - cbn. by rewrite Ei.
  - cbn. rewrite Ei. done.
  - done.
  - done.
  - done.
  - done.
  - done.
  - apply stable_insert_sorted; [apply (bk_sorted _ _ _ _ _ _ Hok)|]. intros y Hy.
    apply (bk_elem _ _ _ _ _ _ Hok) in Hy as [Hy _]. apply not_later_before; [|done|by apply Hu].
    by apply (queued_valid _ _ Hq y Hy).
  - apply stable_insert_perm.
  - exact Hd'.
  - exists q'. split.
    + destruct He as [ev He]. unfold place. rewrite He. cbn [deref res_bind]. rewrite <- (time_of_Some _ _ _ He).
      rewrite (calendar_hash _ _ _ _ C0) by done. fold i. cbn [res_bind]. fold q1. rewrite Eb. cbn [res_bind].
      rewrite El. cbn [res_bind]. fold q2. cbn in E. rewrite Ei in E. exact E.
    + split; [eapply calendar_perm; [|exact C']; symmetry; apply stable_insert_perm|].
      rewrite F. subst q2 q1. by destruct (F64.gt _ _).
Qed.
End CalendarRep.
