(* ===== verification/CalendarSearch.v ===== *)
(** * The calendar scheduler: the search for the next event

    [head] looks at the buckets from the current one on, and takes the first
    event that is not in a later year, or else the earliest.  It finds the
    first event of the queue: an event rejected in one bucket is in a later
    year than all events accepted in the following ones. *)

From Stdlib Require Import ZArith Lia Bool Sorted SpecFloat.
From stdpp Require Import base list gmap.
From S2P Require Import Prelude F64 F64Exact PktQueue Sched ListSched CalendarTime Calendar CalendarFacts CalendarRep.

Module CalendarSearch.
Import CalendarScheduler SchedFacts BucketFacts CalendarTime CalendarRep.

Section Search.
Context (s : evs) (q : t) (L : list addr) (W : Z) (C : calendar s q L W) (Hq : queued s L).
Implicit Types (a e m : addr) (k : Z) (v : search).

Abbreviation w := q.(width_).
Abbreviation n := q.(nbuckets_).
Abbreviation idx a := (index w n (time_of s a)).

Lemma year_4 : 4 <= n <= 2 ^ 29.
Proof. apply year_bounds, (cl_year _ _ _ _ C). Qed.

Lemma day_le x y : fitting W x -> fitting W y -> F64.le x y = true -> day w x <= day w y.
Proof.
  intros (X & Hx & TX) (Y & Hy & TY) Hle.
  apply (day_mono w W (cl_width _ _ _ _ C) (cl_wide _ _ _ _ C) x y X Y); try done.
  destruct (Z.le_gt_cases X Y) as [|G]; [done|].
  assert (F64.lt y x = true) as Hl by (rewrite (F64Exact.fin_lt _ _ _ _ Hy Hx); by apply Z.ltb_lt).
  apply F64.lt_not_le in Hl. congruence.
Qed.

(** Days from the current one. *)
Definition ahead a : Z := day w (time_of s a) - day w q.(cal_clock_).

Lemma elem_fits a : a ∈ L -> fitting W (time_of s a).
Proof. intros Ha. by apply (cl_times _ _ _ _ C). Qed.

Lemma ahead_nonneg a : a ∈ L -> 0 <= ahead a.
Proof.
  intros Ha. destruct (cl_times _ _ _ _ C a Ha) as (_ & Hf & Hle). unfold ahead.
  pose proof (day_le _ _ (cl_clock _ _ _ _ C) Hf Hle). lia.
Qed.

Lemma ahead_le a e : a ∈ L -> e ∈ L -> F64.le (time_of s a) (time_of s e) = true -> ahead a <= ahead e.
Proof. intros Ha He Hle. pose proof (day_le _ _ (elem_fits a Ha) (elem_fits e He) Hle). unfold ahead. lia. Qed.

(** The bucket tells the day but for whole years. *)
Lemma ahead_mod a k : 0 <= k < n -> idx a = (q.(lastbucket_) + k) mod n -> exists y, ahead a = k + n * y.
Proof.
  pose proof year_4 as Hn. intros Hk E. rewrite (cl_last _ _ _ _ C) in E. unfold index in E. unfold ahead.
  set (x := day w (time_of s a)) in *. set (c := day w (cal_clock_ q)) in *.
  rewrite Z.add_mod_idemp_l in E by lia.
  pose proof (Z.div_mod x n ltac:(lia)) as D1. pose proof (Z.div_mod (c + k) n ltac:(lia)) as D2.
  exists (x / n - (c + k) / n). rewrite <- E in D2. lia.
Qed.

Lemma offset a : exists k, 0 <= k < n /\ idx a = (q.(lastbucket_) + k) mod n.
Proof.
  pose proof year_4 as Hn. exists ((idx a - q.(lastbucket_)) mod n). split; [apply Z.mod_pos_bound; lia|].
  rewrite Z.add_mod_idemp_r by lia. replace (_ + _) with (idx a) by lia. unfold index. by rewrite Z.mod_mod by lia.
Qed.

Lemma offset_unique j k : 0 <= j < n -> 0 <= k < n -> (q.(lastbucket_) + j) mod n = (q.(lastbucket_) + k) mod n -> j = k.
Proof.
  pose proof year_4 as Hn. intros Hj Hk E.
  pose proof (Z.div_mod (lastbucket_ q + j) n ltac:(lia)) as D1. pose proof (Z.div_mod (lastbucket_ q + k) n ltac:(lia)) as D2.
  rewrite E in D1. assert (n * ((lastbucket_ q + j) / n - (lastbucket_ q + k) / n) = j - k) as Ed by lia.
  remember ((lastbucket_ q + j) / n - (lastbucket_ q + k) / n) as z.
  assert (-1 < z /\ z < 1) as [? ?] by (split; apply (Z.mul_lt_mono_pos_l n); lia). assert (z = 0) as -> by lia. lia.
Qed.

(** The limits of the three tests. *)
Definition limit k : f64 := if k =? 0 then q.(diff0_) else if k =? 1 then q.(diff1_) else q.(diff2_).

(** An event is accepted in this year and rejected in later ones. *)
Lemma year_test a k :
  a ∈ L -> 0 <= k < n - 1 -> idx a = (q.(lastbucket_) + k) mod n ->
  if F64.lt (F64.sub (time_of s a) q.(cal_clock_)) (limit k) then ahead a = k else n <= ahead a.
Proof.
  intros Ha Hk E. pose proof year_4 as Hn. destruct (ahead_mod a k ltac:(lia) E) as (y & Hy).
  assert (ahead a = k \/ n + k <= ahead a) as Hcase.
  { pose proof (ahead_nonneg a Ha) as H0. destruct (Z.lt_trichotomy y 0) as [G|[->|G]]; [|lia|]; [|right].
    - assert (n * y <= n * -1) by (apply Z.mul_le_mono_nonneg_l; lia). lia.
    - assert (n * 1 <= n * y) by (apply Z.mul_le_mono_nonneg_l; lia). lia. }
  clear Hy.
  destruct (cl_times _ _ _ _ C a Ha) as (_ & (T & HT & TT) & Hle). destruct (cl_clock _ _ _ _ C) as (B & HB & TB).
  assert (B <= T) as HBT.
  { destruct (Z.le_gt_cases B T) as [|G]; [done|].
    assert (F64.lt (time_of s a) (cal_clock_ q) = true) as Hl by (rewrite (F64Exact.fin_lt _ _ _ _ HT HB); by apply Z.ltb_lt).
    apply F64.lt_not_le in Hl. congruence. }
  unfold limit. pose proof (cl_width _ _ _ _ C) as Hw. pose proof (cl_wide _ _ _ _ C) as HW.
  pose proof (cl_year _ _ _ _ C) as Hyr.
  destruct (Z.eqb_spec k 0) as [->|N0]; [|destruct (Z.eqb_spec k 1) as [->|N1]].
  - rewrite (cl_diff0 _ _ _ _ C). pose proof (test0 w W Hw HW n Hyr _ _ T B HT HB TT TB HBT) as Ht. fold (ahead a) in Ht.
    destruct (F64.lt _ _); lia.
  - rewrite (cl_diff1 _ _ _ _ C). pose proof (test1 w W Hw HW n Hyr _ _ T B HT HB TT TB HBT) as Ht. fold (ahead a) in Ht.
    destruct (F64.lt _ _); lia.
  - rewrite (cl_diff2 _ _ _ _ C). pose proof (test2 w W Hw HW n Hyr _ _ T B HT HB TT TB HBT) as Ht. fold (ahead a) in Ht.
    destruct (F64.lt _ _); lia.
Qed.

(** The first event is the earliest one that is first in its bucket. *)
Lemma first_event e :
  e ∈ L -> (forall a, a ∈ L -> F64.le (time_of s e) (time_of s a) = true) ->
  (forall a, a ∈ L -> idx a = idx e -> a = e \/ before s e a) -> list.head L = Some e.
Proof.
  intros He Hle Hb. assert (exists a l, L = a :: l) as (a & l & EL) by (clear -He; destruct L; [set_solver|eauto]).
  assert (a ∈ L) as Ha by (rewrite EL; set_solver). enough (a = e) as <- by (by rewrite EL).
  destruct (decide (a = e)) as [|Hne]; [done|]. exfalso.
  pose proof Hq as Hq'. rewrite EL in Hq'. apply queued_tail in Hq' as [_ Hf].
  rewrite Forall_forall in Hf. assert (before s a e) as Hae by (apply Hf; rewrite EL in He; set_solver).
  destruct Hae as [Hlt|[Heq Hu]].
  - change (F64.lt (time_of s a) (time_of s e) = true) in Hlt. apply F64.lt_not_le in Hlt.
    rewrite Hle in Hlt; done.
  - change (F64.eq (time_of s a) (time_of s e) = true) in Heq.
    destruct (Hb a Ha) as [|Hea]; [|done|].
    + unfold index. f_equal. apply Z.le_antisymm; apply day_le; try by apply elem_fits.
      * by apply F64.eq_le.
      * by apply F64.eq_le, F64.eq_sym.
    + apply (key_before_irrefl (key_of s a)). transitivity (key_of s e); [by right|done].
Qed.

(** *** The state of the search *)

Definition visited k a : Prop := exists j, 0 <= j < k /\ idx a = (q.(lastbucket_) + j) mod n.

Record searching k v : Prop := {
  sg_index : v.(i_) = (q.(lastbucket_) + k) mod n;
  sg_later a : a ∈ L -> visited k a -> n <= ahead a;
  sg_min : match v.(min_e_) with
           | None => forall a, a ∈ L -> ~ visited k a
           | Some m => m ∈ L /\ v.(l_) = idx m /\ (forall a, a ∈ L -> idx a = idx m -> a = m \/ before s m a) /\
               forall a, a ∈ L -> visited k a -> F64.le (time_of s m) (time_of s a) = true
           end
}.

Lemma next_index k : 0 <= k -> let i := (q.(lastbucket_) + k) mod n in
  (if i + 1 =? n then 0 else i + 1) = (q.(lastbucket_) + (k + 1)) mod n.
Proof.
  intros Hk i. pose proof year_4 as Hn. pose proof (Z.div_mod (lastbucket_ q + k) n ltac:(lia)) as D.
  pose proof (Z.mod_pos_bound (lastbucket_ q + k) n ltac:(lia)) as B. fold i in D, B.
  destruct (Z.eqb_spec (i + 1) n) as [E|E].
  - apply (Z.mod_unique_pos _ _ ((lastbucket_ q + k) / n + 1)); lia.
  - apply (Z.mod_unique_pos _ _ ((lastbucket_ q + k) / n)); lia.
Qed.

Lemma visited_S k a : 0 <= k -> visited (k + 1) a <-> visited k a \/ idx a = (q.(lastbucket_) + k) mod n.
Proof.
  intros Hk. split.
  - intros (j & Hj & E). destruct (Z.eq_dec j k) as [->|]; [by right|left; exists j; split; [lia|done]].
  - intros [(j & Hj & E)|E]; [exists j|exists k]; (split; [lia|done]).
Qed.

Lemma visited_all a : visited n a.
Proof. destruct (offset a) as (k & Hk & E). by exists k. Qed.

(** The first event of a bucket. *)
Lemma bucket_first i b e l :
  bucket_ok s w n L i b -> b.(list_) = e :: l ->
  e ∈ L /\ idx e = i /\ (exists ev, s !! e = Some ev /\ time_of s e = ev.(time_)) /\
  forall a, a ∈ L -> idx a = i -> (a = e \/ before s e a) /\ F64.le (time_of s e) (time_of s a) = true.
Proof.
  intros Hb El. destruct (proj1 (bk_elem _ _ _ _ _ _ Hb e)) as [He Ei]; [rewrite El; set_solver|].
  pose proof (calendar_number _ _ _ _ C e He) as Hne.
  split; [done|]. split; [done|]. split.
  { destruct (cl_times _ _ _ _ C e He) as ([ev Hev] & _). exists ev. split; [done|]. by apply time_of_Some. }
  intros a Ha Hi. assert (a ∈ b.(list_)) as Hin by (by apply (bk_elem _ _ _ _ _ _ Hb)).
  rewrite El in Hin. apply elem_of_cons in Hin as [->|Hin].
  - split; [by left|by apply F64.le_refl].
  - pose proof (bk_sorted _ _ _ _ _ _ Hb) as Hs. rewrite El in Hs. apply StronglySorted_inv in Hs as [_ Hs].
    rewrite Forall_forall in Hs. split; [right; by apply Hs|]. by apply before_le, Hs.
Qed.

(** One bucket. *)
Lemma search_step k v :
  0 <= k < n - 1 -> searching k v ->
  (exists e, CAL_DEQUEUE s q (limit k) v = Ok (inl (idx e, e)) /\ list.head L = Some e) \/
  (exists v', CAL_DEQUEUE s q (limit k) v = Ok (inr v') /\ searching (k + 1) v').
Proof.
  intros Hk [Hi Hlater Hmin]. pose proof year_4 as Hn. unfold CAL_DEQUEUE. rewrite Hi.
  destruct (calendar_bucket _ _ _ _ C ((lastbucket_ q + k) mod n)) as (b & Eb & _ & Hok); [apply Z.mod_pos_bound; lia|].
  rewrite Eb. cbn [res_bind]. rewrite next_index by lia. set (i := (lastbucket_ q + k) mod n) in *.
  destruct (list_ b) as [|e l] eqn:El.
  { right. eexists. split; [done|]. split; cbn [i_ l_ min_e_].
    - done.
    - intros a Ha [Hv|Hv]%visited_S; [by apply Hlater| |lia]. exfalso.
      assert (a ∈ list_ b) as Hin by (by apply (bk_elem _ _ _ _ _ _ Hok)). rewrite El in Hin. set_solver.
    - assert (forall a, a ∈ L -> visited (k + 1) a -> visited k a) as Hback.
      { intros a Ha [Hv|Hv]%visited_S; [done| |lia]. exfalso.
        assert (a ∈ list_ b) as Hin by (by apply (bk_elem _ _ _ _ _ _ Hok)). rewrite El in Hin. set_solver. }
      destruct (min_e_ v) as [m|]; [|intros a Ha Hv; by apply (Hmin a Ha), Hback].
      destruct Hmin as (H1 & H2 & H3 & H4). split; [done|]. split; [done|]. split; [done|].
      intros a Ha Hv. apply H4; auto. }
  destruct (bucket_first i b e l Hok El) as (He & Ei & (ev & Ev & Et) & Hfirst).
  rewrite Ev. cbn [deref res_bind]. rewrite <- Et. pose proof (year_test e k He Hk Ei) as Ht.
  destruct (F64.lt _ _).
  { left. exists e. rewrite Ei. split; [done|]. apply first_event; [done| |].
    - intros a Ha. destruct (F64.lt (time_of s a) (time_of s e)) eqn:Hlt.
      2: { apply F64.le_total; [by apply (calendar_number _ _ _ _ C)..|done]. }
      exfalso. pose proof (ahead_le a e Ha He (F64.lt_le _ _ Hlt)) as Hle.
      destruct (offset a) as (j & Hj & Ej). destruct (ahead_mod a j Hj Ej) as (y & Hy).
      destruct (Z.lt_trichotomy j k) as [G|[->|G]].
      + assert (n <= ahead a); [|lia]. apply Hlater; [done|]. exists j. by split; [lia|].
      + destruct (Hfirst a Ha Ej) as [_ Hf]. apply F64.lt_not_le in Hlt. congruence.
      + pose proof (ahead_nonneg a Ha). assert (0 <= y) by nia. nia.
    - intros a Ha Hia. apply Hfirst; [done|]. by rewrite Hia. }
  right.
  assert (forall a, a ∈ L -> visited (k + 1) a -> n <= ahead a) as Hlater'.
  { intros a Ha [Hv|Hv]%visited_S; [by apply Hlater| |lia].
    destruct (Hfirst a Ha Hv) as [_ Hf]. pose proof (ahead_le e a He Ha Hf). lia. }
  assert (forall a, a ∈ L -> visited (k + 1) a -> visited k a \/ F64.le (time_of s e) (time_of s a) = true) as Hsplit.
  { intros a Ha [Hv|Hv]%visited_S; [by left|right; by apply Hfirst|lia]. }
  assert (forall j, searching (k + 1) (Search ((lastbucket_ q + (k + 1)) mod n) j (Some e)) <->
    j = idx e /\ forall a, a ∈ L -> visited k a -> F64.le (time_of s e) (time_of s a) = true) as Hnew.
  { intros j. split; [intros [_ _ (_ & H2 & _ & H4)]; split; [done|]; intros a Ha Hv; apply H4; [done|apply visited_S; [lia|by left]]|].
    intros [-> Hm]. split; cbn [i_ l_ min_e_]; [done|done|]. split; [done|]. split; [done|]. split.
    - intros a Ha Hia. apply Hfirst; [done|]. by rewrite Hia.
    - intros a Ha Hv. destruct (Hsplit a Ha Hv); auto. }
  destruct (min_e_ v) as [m|].
  - destruct Hmin as (Hm & Hl & Hmb & Hml). destruct (cl_times _ _ _ _ C m Hm) as ([mv Emv] & _). rewrite Emv.
    cbn [deref res_bind]. rewrite <- (time_of_Some _ _ _ Emv). unfold F64.gt.
    destruct (F64.lt (time_of s e) (time_of s m)) eqn:Hlt.
    + eexists. split; [done|]. apply Hnew. split; [by rewrite Ei|]. intros a Ha Hv.
      apply (F64.le_trans _ (time_of s m)); [by apply F64.lt_le|by apply Hml].
    + eexists. split; [done|]. split; cbn [i_ l_ min_e_]; [done|done|]. split; [done|]. split; [done|]. split; [done|].
      intros a Ha Hv. destruct (Hsplit a Ha Hv) as [Hv'|Hv']; [by apply Hml|].
      apply (F64.le_trans _ (time_of s e)); [|done].
      apply F64.le_total; [by apply (calendar_number _ _ _ _ C)..|done].
  - eexists. split; [done|]. apply Hnew. split; [by rewrite Ei|]. intros a Ha Hv. by destruct (Hmin a Ha).
Qed.

(** The buckets after the second. *)
Lemma search_rest_ok fuel k v c :
  2 <= k <= n - 1 -> n - 1 - k <= Z.of_nat fuel -> searching k v ->
  exists r c', search_rest fuel s q ((q.(lastbucket_) + (n - 1)) mod n) v c = Ok (r, c') /\
    match r with
    | inl (l, e) => l = idx e /\ list.head L = Some e
    | inr v' => searching (n - 1) v'
    end.
Proof.
  pose proof year_4 as Hn. revert k v c. induction fuel as [|fuel IH]; intros k v c Hk Hf Hv.
  - assert (k = n - 1) as -> by lia. cbn [search_rest]. rewrite (sg_index _ _ Hv), Z.eqb_refl. by eexists _, _.
  - cbn [search_rest]. destruct (Z.eq_dec k (n - 1)) as [->|Hne].
    { rewrite (sg_index _ _ Hv), Z.eqb_refl. by eexists _, _. }
    destruct (Z.eqb_spec (i_ v) ((lastbucket_ q + (n - 1)) mod n)) as [E|E].
    { rewrite (sg_index _ _ Hv) in E. apply offset_unique in E; lia. }
    assert (limit k = diff2_ q) as <-.
    { unfold limit. by rewrite (proj2 (Z.eqb_neq k 0)), (proj2 (Z.eqb_neq k 1)) by lia. }
    destruct (search_step k v) as [(e & -> & He)|(v' & -> & Hv')]; [lia|done|..]; cbn [res_bind].
    + by eexists _, _.
    + apply (IH (k + 1)); [lia|lia|done].
Qed.

(** What is left is the minimum of the last bucket and the others. *)
Lemma search_last_ok v : searching (n - 1) v -> L <> [] ->
  exists e, search_last s q v = Ok (idx e, e) /\ list.head L = Some e.
Proof.
  intros [Hi _ Hmin] HL. pose proof year_4 as Hn. unfold search_last. rewrite Hi.
  destruct (calendar_bucket _ _ _ _ C ((lastbucket_ q + (n - 1)) mod n)) as (b & Eb & _ & Hok); [apply Z.mod_pos_bound; lia|].
  rewrite Eb. cbn [res_bind]. set (i := (lastbucket_ q + (n - 1)) mod n) in *.
  assert (forall e, (idx e =? -1) = false) as Hidx.
  { intros e. apply Z.eqb_neq. pose proof (index_bounds _ _ _ _ C (time_of s e)). lia. }
  assert ((i =? -1) = false) as Hi1 by (apply Z.eqb_neq; pose proof (Z.mod_pos_bound (lastbucket_ q + (n - 1)) n); lia).
  assert (forall a, a ∈ L -> visited (n - 1) a \/ a ∈ list_ b) as Hall.
  { intros a Ha. assert (visited (n - 1 + 1) a) as Hv by (replace (n - 1 + 1) with n by lia; apply visited_all).
    apply visited_S in Hv as [Hv|Hv]; [by left|right|lia]. by apply (bk_elem _ _ _ _ _ _ Hok). }
  destruct (list_ b) as [|e l] eqn:El.
  - destruct (min_e_ v) as [m|].
    + destruct Hmin as (Hm & Hl & Hmb & Hml). cbn [res_bind deref]. rewrite Hl, Hidx. exists m. split; [done|].
      apply first_event; [done| |done]. intros a Ha. destruct (Hall a Ha); [by apply Hml|set_solver].
    + exfalso. destruct L as [|a L']; [done|]. destruct (Hall a) as [Hv|Hv]; [set_solver| |set_solver].
      apply (Hmin a); [set_solver|done].
  - destruct (bucket_first i b e l Hok El) as (He & Ei & (ev & Ev & Et) & Hfirst).
    assert (forall a, a ∈ L -> visited (n - 1) a \/ F64.le (time_of s e) (time_of s a) = true) as Hall'.
    { intros a Ha. destruct (Hall a Ha) as [Hv|Hv]; [by left|right]. apply Hfirst; [done|].
      rewrite <- El in Hv. by apply (bk_elem _ _ _ _ _ _ Hok) in Hv as [_ Hv]. }
    destruct (min_e_ v) as [m|].
    + destruct Hmin as (Hm & Hl & Hmb & Hml). destruct (cl_times _ _ _ _ C m Hm) as ([mv Emv] & _).
      rewrite Emv, Ev. cbn [res_bind deref list.head]. rewrite <- (time_of_Some _ _ _ Emv), <- Et.
      destruct (F64.lt (time_of s m) (time_of s e)) eqn:Hlt.
      * rewrite Hl, Hidx. exists m. split; [done|]. apply first_event; [done| |done].
        intros a Ha. destruct (Hall' a Ha) as [Hv|Hv]; [by apply Hml|].
        apply (F64.le_trans _ (time_of s e)); [by apply F64.lt_le|done].
      * rewrite Hi1. exists e. rewrite Ei. split; [done|]. apply first_event; [done| |].
        -- intros a Ha. destruct (Hall' a Ha) as [Hv|Hv]; [|done]. apply (F64.le_trans _ (time_of s m)); [|by apply Hml].
           apply F64.le_total; [by apply (calendar_number _ _ _ _ C)..|done].
        -- intros a Ha Hia. apply Hfirst; [done|]. by rewrite Hia.
    + cbn [res_bind deref list.head]. rewrite Hi1. exists e. rewrite Ei. split; [done|]. apply first_event; [done| |].
      * intros a Ha. destruct (Hall' a Ha) as [Hv|Hv]; [|done]. by destruct (Hmin a Ha).
      * intros a Ha Hia. apply Hfirst; [done|]. by rewrite Hia.
Qed.

Lemma find_ok : L <> [] -> exists e c, find s q = Ok (idx e, e, c) /\ list.head L = Some e.
Proof.
  intros HL. pose proof year_4 as Hn. pose proof (index_bounds _ _ _ _ C q.(cal_clock_)) as Hl.
  rewrite <- (cl_last _ _ _ _ C) in Hl.
  assert (searching 0 (Search q.(lastbucket_) (-1) None)) as H0.
  { split; cbn [i_ l_ min_e_].
    - by rewrite Z.add_0_r, Z.mod_small by lia.
    - intros a _ (j & Hj & _). lia.
    - intros a _ (j & Hj & _). lia. }
  unfold find. set (dec := if lastbucket_ q =? 0 then n - 1 else lastbucket_ q - 1).
  assert (dec = (lastbucket_ q + (n - 1)) mod n) as Edec.
  { subst dec. destruct (Z.eqb_spec (lastbucket_ q) 0) as [->|]; [by rewrite Z.mod_small by lia|].
    apply (Z.mod_unique_pos _ _ 1); lia. }
  change (diff0_ q) with (limit 0). change (diff1_ q) with (limit 1).
  destruct (search_step 0 _ ltac:(lia) H0) as [(e & -> & He)|(v1 & -> & H1)]; cbn [res_bind]; [by eexists _, _|].
  destruct (search_step 1 _ ltac:(lia) H1) as [(e & -> & He)|(v2 & -> & H2)]; cbn [res_bind]; [by eexists _, _|].
  rewrite Edec. destruct (search_rest_ok (Z.to_nat n) 2 v2 2) as (r & c & -> & Hr); [lia|lia|exact H2|].
  cbn [res_bind]. destruct r as [[l e]|v].
  - destruct Hr as [-> He]. by eexists _, _.
  - destruct (search_last_ok v Hr HL) as (e & -> & He). cbn [res_bind]. by eexists _, _.
Qed.
End Search.
End CalendarSearch.
