(* ===== verification/CalendarOps.v ===== *)
(** * The calendar scheduler: its operations

    On a calendar that represents a sorted list of events, insert, head,
    deque, cancel and lookup do what [EventQueue] asks, and resizing keeps the
    events in order.  The width a resize chooses depends on the past of the
    simulation; the operations succeed when it suits the queued times
    ([resize_fits]), which can be computed beforehand. *)

From Stdlib Require Import ZArith Lia Bool Sorted SpecFloat.
From stdpp Require Import base list gmap.
From S2P Require Import Prelude F64 F64Exact PktQueue Sched ListSched.
From S2P Require Import CalendarTime Calendar CalendarFacts CalendarRep CalendarSearch.

(** ** Does a width suit the times? *)

Module CalendarFits.
Import CalendarScheduler CalendarTime CalendarRep.

(** A double in units, if it is a finite number. *)
Definition units (x : f64) : option Z :=
  match x with
  | S754_zero _ => Some 0
  | S754_finite s m e =>
      if bounded F64.prec F64.emax m e then Some (F64Exact.signed s (Z.pos m * 2 ^ (e + 1074))) else None
  | _ => None
  end.

Definition wideb (W : Z) : bool := (2 ^ 600 <=? W) && (W <? 2 ^ 1400).

Definition timelyb (W T : Z) : bool :=
  (0 <=? T) && ((T =? 0) || ((2 ^ 600 <=? T) && (T <? 2 ^ 1500))) && (T <=? 2 ^ 48 * W).

Definition fits (w : f64) (ts : list f64) : bool :=
  match units w with
  | Some W => wideb W && forallb (fun x => match units x with Some T => timelyb W T | None => false end) ts
  | None => false
  end.

Lemma units_fin x v : F64Exact.fin x v <-> units x = Some v.
Proof.
  destruct x as [s| | |s m e]; cbn; try (split; done).
  - split; [by intros ->|by intros [= ->]].
  - destruct (bounded _ _ m e); split; try done; [by intros [_ ->]|by intros [= ->]|by intros [? _]].
Qed.

Lemma timelyb_spec W T : timelyb W T = true <-> timely W T.
Proof.
  unfold timelyb, timely, F64Exact.normal. rewrite !andb_true_iff, orb_true_iff, andb_true_iff, !Z.leb_le, Z.ltb_lt, Z.eqb_eq. lia.
Qed.

Lemma fits_spec w ts : fits w ts = true <-> exists W, F64Exact.fin w W /\ wide W /\ forall x, x ∈ ts -> fitting W x.
Proof.
  unfold fits, wide. split.
  - destruct (units w) as [W|] eqn:E; [|done]. intros [HW Ht]%andb_true_iff. exists W.
    unfold wideb in HW. rewrite andb_true_iff, Z.leb_le, Z.ltb_lt in HW. split; [by apply units_fin|]. split; [done|].
    intros x Hx. rewrite forallb_forall in Ht. specialize (Ht x). rewrite <- list_elem_of_In in Ht. specialize (Ht Hx).
    destruct (units x) as [T|] eqn:Ex; [|done]. exists T. split; [by apply units_fin|]. by apply timelyb_spec.
  - intros (W & Hw & HW & Ht). apply units_fin in Hw as ->. apply andb_true_iff. split.
    + unfold wideb. rewrite andb_true_iff, Z.leb_le, Z.ltb_lt. done.
    + apply forallb_forall. intros x Hx. destruct (Ht x) as (T & Hf & HT); [by apply list_elem_of_In|].
      apply units_fin in Hf as ->. by apply timelyb_spec.
Qed.

(** Would a resize to [newsize] choose a width that suits the queue? *)
Definition resize_fits (s : evs) (q : t) (newsize : Z) : bool :=
  match choose_width s q newsize with
  | Ok (_, Some w) => fits w (q.(cal_clock_) :: map (time_of s) (concat (map list_ q.(buckets_))))
  | _ => true
  end.

(** Does [insert] only use widths that suit the times? *)
Definition insert_fits (s : evs) (q : t) (e : addr) : bool :=
  fits q.(width_) [time_of s e] &&
  match place s q e with
  | Ok q => if q.(top_threshold_) <? q.(stat_qsize_) then resize_fits s q (q.(nbuckets_) * 2) else true
  | Err _ => true
  end.

(** Does [deque]? *)
Definition deque_fits (s : evs) (q : t) : bool :=
  match head s q with
  | Ok (q, Some e) =>
      match sample q (time_of s e) with
      | Ok (q, again) =>
          (if again then resize_fits s q q.(nbuckets_) else true) &&
          match (if again then let! q := resize s q q.(nbuckets_) q.(cal_clock_) in Ok (q <| round_num_ := 0 |>) else Ok q) with
          | Ok q =>
              match unlink s q e with
              | Ok q => if q.(stat_qsize_) <? q.(bot_threshold_) then resize_fits s q (Z.shiftr q.(nbuckets_) 1) else true
              | Err _ => true
              end
          | Err _ => true
          end
      | Err _ => true
      end
  | _ => true
  end.
End CalendarFits.

Module CalendarOps.
Import CalendarScheduler SchedFacts BucketFacts CalendarTime CalendarRep CalendarSearch CalendarFits.
Implicit Types (s : evs) (q : t) (L : list addr) (a e : addr) (W : Z).

(** ** The next event *)

Lemma calendar_head_ok s q L W :
  calendar s q L W -> queued s L ->
  match L with
  | [] => head s q = Ok (q, None)
  | a :: _ =>
      exists h q', head s q = Ok (q', Some a) /\ calendar s q' L W /\
        q' = q <| head_search_ := h |> <| lastbucket_ := index q.(width_) q.(nbuckets_) (time_of s a) |>
               <| cal_clock_ := time_of s a |>
  end.
Proof.
  intros C Hq. unfold head. rewrite (cl_size _ _ _ _ C). destruct L as [|a l] eqn:EL; [done|]. rewrite <- EL in *.
  rewrite (proj2 (Z.eqb_neq _ 0)) by (rewrite EL; cbn [length]; lia).
  destruct (find_ok s q L W C Hq) as (e & c & -> & He); [by rewrite EL|]. rewrite EL in He. injection He as <-.
  cbn [res_bind]. assert (a ∈ L) as Ha by (rewrite EL; set_solver).
  destruct (cl_times _ _ _ _ C a Ha) as ([ev Eev] & Hfit & _). rewrite Eev. cbn [deref res_bind].
  rewrite <- (time_of_Some _ _ _ Eev). eexists _, _. split; [done|]. split; [|done].
  pose proof (calendar_move s q L W (time_of s a) C Hfit) as [].
  { intros x Hx. rewrite EL in Hx, Hq. apply elem_of_cons in Hx as [->|Hx].
    - apply F64.le_refl. by eapply fitting_not_nan.
    - apply before_le. apply queued_tail in Hq as [_ Hq]. rewrite Forall_forall in Hq. by apply Hq. }
  by split.
Qed.

Lemma bool_decide_self (a : addr) : bool_decide (a <> a) = false.
Proof. apply bool_decide_eq_false_2. by intros []. Qed.

(** [deque] takes the first event out of the current bucket. *)
Lemma calendar_unlink_ok s q a l W :
  calendar s q (a :: l) W -> queued s (a :: l) -> q.(lastbucket_) = index q.(width_) q.(nbuckets_) (time_of s a) ->
  exists q', unlink s q a = Ok q' /\ calendar s q' l W /\ same_frame q q'.
Proof.
  intros C Hq Hl. unfold unlink. rewrite Hl. set (i := index _ _ _).
  assert (a ∈ a :: l) as Ha by set_solver. destruct (cl_times _ _ _ _ C a Ha) as ([ev Eev] & _). rewrite Eev. cbn [deref res_bind].
  pose proof (index_bounds _ _ _ _ C (time_of s a)) as Hi. fold i in Hi.
  destruct (calendar_bucket _ _ _ _ C i Hi) as (b & Eb & Hb & Hok). rewrite Eb. cbn [res_bind].
  assert (a ∈ list_ b) as Hab by (by apply (bk_elem _ _ _ _ _ _ Hok)).
  assert (exists rest, list_ b = a :: rest) as [rest El].
  { destruct (list_ b) as [|e rest] eqn:El; [set_solver|]. exists rest. f_equal.
    destruct (bucket_first s q _ W C Hq i b e rest Hok El) as (He & Ei & _ & Hf).
    destruct (decide (e = a)) as [|Hne]; [done|]. exfalso.
    destruct (Hf a Ha Logic.eq_refl) as [[->|Hea] _]; [done|]. apply queued_tail in Hq as [_ Hq].
    apply elem_of_cons in He as [->|He]; [done|]. rewrite Forall_forall in Hq. specialize (Hq e He).
    apply (key_before_irrefl (key_of s a)). by transitivity (key_of s e). }
  rewrite El, bool_decide_self. pose proof (distinct_gain s [] rest a) as Hg. cbn [app last] in Hg.
  assert (exists d, (match rest with [] => Ok true
      | next :: _ => let! nv := deref (s !! next) in Ok (negb (F64.eq nv.(time_) ev.(time_))) end) = Ok d /\
      gain s None (list.head rest) a = if d then 1 else 0) as (d & -> & Ed).
  { destruct rest as [|x rest]; [by exists true|]. assert (x ∈ list_ b) as Hx by (rewrite El; set_solver).
    apply (bk_elem _ _ _ _ _ _ Hok) in Hx as [Hx _]. destruct (cl_times _ _ _ _ C x Hx) as ([xv Exv] & _). rewrite Exv.
    cbn [deref res_bind list.head gain]. eexists. split; [done|].
    rewrite <- (time_of_Some _ _ _ Exv), <- (time_of_Some _ _ _ Eev). unfold fresh.
    assert (F64.eq (time_of s x) (time_of s a) = F64.eq (time_of s a) (time_of s x)) as ->
      by (apply eq_true_iff_eq; split; apply F64.eq_sym).
    by destruct (F64.eq _ _). }
  rewrite Ed in Hg. cbn [res_bind]. pose proof (bucket_count s q _ i b Hok) as Hc. pose proof (calendar_stat _ _ _ _ C) as Hst.
  pose proof (cl_small _ _ _ _ C) as Hsm. pose proof (cl_size _ _ _ _ C) as Ez.
  pose proof (shrink_ok s q _ W a b rest (if d then 1 else 0) C Hb Hok Ha) as Hshrink.
  pose proof (bk_sorted _ _ _ _ _ _ Hok) as Hs. rewrite El in Hs. apply StronglySorted_inv in Hs as [Hs _].
  rewrite El in Hshrink. specialize (Hshrink Hs ltac:(done) Hg).
  cbn [remove_one] in Hshrink. rewrite decide_True in Hshrink by done.
  eexists. split; [|split; [exact Hshrink|done]].
  destruct d.
  - rewrite (count_ok _ _ b) by (done || apply small_int; lia). cbn [res_bind].
    rewrite isub_ok by (cbn; rewrite Ez; apply small_int; lia). cbn [res_bind].
    rewrite (bucket_set _ i b) by (done || lia). cbn [res_bind]. f_equal. unfold set_bucket. cbn.
    by rewrite list_insert_insert_eq.
  - cbn [res_bind]. rewrite isub_ok by (rewrite Ez; apply small_int; lia). cbn [res_bind]. rewrite Eb. cbn [res_bind].
    f_equal. unfold set_bucket. cbn. by rewrite !Z.sub_0_r.
Qed.

(** ** Statistics *)

Ltac sampled Hdone :=
  eapply Hdone; [done| |cbn; lia];
  match goal with q : t |- _ => destruct q; cbn in *; eexists _, _, _, _, _, _, _; split; [done|lia] end.

Lemma sample_ok s q L W x :
  calendar s q L W -> q.(round_num_) <= 100 ->
  exists q' again, sample q x = Ok (q', again) /\ calendar s q' L W /\
    (exists h i r g lt ag n, q' = q <| head_search_ := h |> <| insert_search_ := i |> <| round_num_ := r |>
      <| gap_num_ := g |> <| last_time_ := lt |> <| avg_gap_ := ag |> <| time_to_newwidth := n |>) /\
    (again = false -> q'.(round_num_) <= 100).
Proof.
  intros C Hr. pose proof (cl_gap _ _ _ _ C) as Hg. pose proof (cl_round _ _ _ _ C) as Hr0.
  pose proof (cl_small _ _ _ _ C) as Hsm. pose proof (cl_size _ _ _ _ C) as Ez.
  assert (forall q' again, sample q x = Ok (q', again) ->
    (exists h i r g lt ag n, q' = q <| head_search_ := h |> <| insert_search_ := i |> <| round_num_ := r |>
      <| gap_num_ := g |> <| last_time_ := lt |> <| avg_gap_ := ag |> <| time_to_newwidth := n |> /\
      0 <= g < 2 ^ 31 /\ 0 <= r <= 101) -> (again = false -> q'.(round_num_) <= 100) ->
    exists q' again, sample q x = Ok (q', again) /\ calendar s q' L W /\
    (exists h i r g lt ag n, q' = q <| head_search_ := h |> <| insert_search_ := i |> <| round_num_ := r |>
      <| gap_num_ := g |> <| last_time_ := lt |> <| avg_gap_ := ag |> <| time_to_newwidth := n |>) /\
    (again = false -> q'.(round_num_) <= 100)) as Hdone.
  { intros q' again E H Ha. exists q', again. split; [done|]. split; [by eapply calendar_stats|]. split; [|done].
    destruct H as (h & i & r & g & lt & ag & n & -> & _). by eexists _, _, _, _, _, _, _. }
  unfold sample in *. destruct (adjust_new_width_interval_ q =? 0); [sampled Hdone|].
  destruct (F64.lt _ _); [sampled Hdone|].
  rewrite (proj2 (Z.eqb_neq _ (2 ^ 63))) in * by lia.
  destruct (Z.ltb_spec (gap_num_ q + 1) (qsize_ q)) as [Hgq|Hgq]; [sampled Hdone|].
  rewrite iadd_ok in * by (unfold in_int; lia). cbn [res_bind] in *.
  destruct ((20 <? round_num_ q + 1) && _); [sampled Hdone|].
  destruct (Z.ltb_spec 100 (round_num_ q + 1)); sampled Hdone.
Qed.

(** ** Resizing *)

Lemma fullest_ok bs i best r :
  0 <= i -> fullest bs i best = r -> r = best \/ exists b, bs !! Z.to_nat (r.1 - i) = Some b /\ r.2 = b.(count_) /\ i <= r.1.
Proof.
  revert i best r. induction bs as [|b bs IH]; intros i best r Hi E; cbn [fullest] in E; [by left|].
  apply IH in E as [->|(b' & Hb & Er & Hle)]; [|right|lia].
  - destruct (best.2 <? count_ b); [|by left]. right. exists b. cbn. by rewrite Z.sub_diag.
  - exists b'. split; [|split; [done|lia]]. by replace (Z.to_nat (r.1 - i)) with (S (Z.to_nat (r.1 - (i + 1)))) by lia.
Qed.

(** A sorted list with more than one time ends later than it begins. *)
Lemma distinct_spread s a l :
  numbers s (a :: l) -> StronglySorted (before s) (a :: l) -> 1 < distinct s (a :: l) ->
  exists z, last (a :: l) = Some z /\ z ∈ a :: l /\ F64.lt (time_of s a) (time_of s z) = true.
Proof.
  revert a. induction l as [|b l IH]; intros a Hn Hs Hd; [cbn in Hd; lia|]. rewrite distinct_cons in Hd.
  apply StronglySorted_inv in Hs as [Hs Ha]. pose proof Hs as Hs'. rewrite Forall_forall in Ha.
  assert (F64.le (time_of s a) (time_of s b) = true) as Hab by (apply before_le, Ha; set_solver).
  apply Forall_cons in Hn as [_ Hn]. unfold fresh in Hd.
  destruct (F64.eq (time_of s a) (time_of s b)) eqn:E.
  - destruct (IH b Hn Hs ltac:(lia)) as (z & Ez & Hz & Hl). exists z. split; [done|]. split; [set_solver|].
    by apply (F64.le_lt_trans _ (time_of s b)).
  - rewrite F64.le_lt_or_eq, E, orb_false_r in Hab.
    destruct (last (b :: l)) as [z|] eqn:Ez; [|by apply last_None in Ez]. exists z. split; [done|].
    apply last_Some_elem_of in Ez. split; [set_solver|]. apply (F64.lt_le_trans _ (time_of s b)); [done|].
    apply elem_of_cons in Ez as [->|Hz].
    + apply F64.le_refl. by destruct (numbers_elem s _ b Hn) as (? & ? & ? & ?); [set_solver|].
    + apply sorted_le in Hs'. rewrite Forall_forall in Hs'. by apply Hs'.
Qed.

Lemma newwidth_ok s q L W newsize :
  calendar s q L W ->
  exists n w, newwidth s q newsize = Ok (q <| time_to_newwidth := n |>, w).
Proof.
  intros C. unfold newwidth.
  set (q1 := if negb _ then _ else q). assert (exists n, q1 = q <| time_to_newwidth := n |>) as (n & E1).
  { subst q1. destruct (negb _); [by eexists|]. exists (time_to_newwidth q). by destruct q. }
  rewrite E1. destruct (_ && _); [by eexists _, _|]. clear E1 q1.
  assert (calendar s (q <| time_to_newwidth := n |>) L W) as C1 by (by destruct C).
  destruct (calendar_bucket s _ L W C1 0) as (b0 & Eb0 & Hb0 & Hok0).
  { pose proof (year_4 s _ L W C1). cbn in *. lia. }
  rewrite Eb0. cbn [res_bind]. destruct (fullest _ 1 _) as [mb ns] eqn:Ef.
  destruct (Z.leb_spec ns 4) as [|Hns]; [by eexists _, _|].
  assert (exists b, bucket (q <| time_to_newwidth := n |>) mb = Ok b /\ bucket_ok s q.(width_) q.(nbuckets_) L mb b /\ ns = count_ b)
    as (b & Eb & Hok & Ec).
  { apply fullest_ok in Ef as [[= -> ->]|(b & Hb & Er & Hle)]; [by exists b0| |lia]. cbn in Hb, Er, Hle.
    rewrite lookup_tail in Hb. destruct (calendar_bucket s _ L W C1 mb) as (b' & Eb' & Hb' & Hok').
    { apply lookup_lt_Some in Hb. pose proof (cl_length _ _ _ _ C1). cbn in *. lia. }
    exists b'. split; [done|]. split; [done|]. cbn in Hb'.
    replace (S (Z.to_nat (mb - 1))) with (Z.to_nat mb) in Hb by lia. congruence. }
  rewrite Eb. cbn [res_bind]. pose proof (bk_count _ _ _ _ _ _ Hok) as Ed.
  pose proof (bucket_numbers s _ L W C1 mb b Hok) as Hn. pose proof (bk_sorted _ _ _ _ _ _ Hok) as Hs.
  destruct (list_ b) as [|h l] eqn:El; [cbn in Ed; lia|].
  destruct (distinct_spread s h l Hn Hs ltac:(lia)) as (z & Ez & Hz & Hlt).
  destruct (numbers_elem s _ h Hn) as (hv & Eh & Et & _); [set_solver|].
  destruct (numbers_elem s _ z Hn Hz) as (zv & Ezv & Ezt & _).
  cbn [list.head deref res_bind]. rewrite Eh, Ez. change (default h (Some z)) with z. cbn [deref res_bind]. rewrite Ezv. cbn [deref res_bind].
  rewrite <- Et, <- Ezt. rewrite <- El in Hz. assert (h ∈ list_ b) as Hh by (rewrite El; set_solver).
  apply (bk_elem _ _ _ _ _ _ Hok) in Hh as [Hh _], Hz as [Hz _].
  destruct (cl_times _ _ _ _ C h Hh) as (_ & (A & HA & TA) & _), (cl_times _ _ _ _ C z Hz) as (_ & (B & HB & TB) & _).
  rewrite (F64Exact.fin_lt _ _ _ _ HA HB) in Hlt. apply Z.ltb_lt in Hlt.
  destruct (sub_gap W _ _ B A HB HA TB TA ltac:(lia)) as (v & Hv & Hvb).
  assert (F64.gt (F64.sub (time_of s z) (time_of s h)) F64.zero = true) as ->; [|by eexists _, _].
  unfold F64.gt. rewrite (F64Exact.fin_lt F64.zero _ 0 v); [|done|exact Hv]. apply Z.ltb_lt. lia.
Qed.

(** [choose_width] does not fail and changes only statistics. *)
Lemma choose_width_ok s q L W newsize :
  calendar s q L W ->
  exists q' w, choose_width s q newsize = Ok (q', w) /\ calendar s q' L W /\
    q'.(cal_clock_) = q.(cal_clock_) /\ q'.(buckets_) = q.(buckets_) /\ q'.(nbuckets_) = q.(nbuckets_) /\
    (w = None -> q'.(round_num_) = 0).
Proof.
  intros C. destruct (newwidth_ok s q L W newsize C) as (n & w & E). unfold choose_width. rewrite E. cbn [res_bind].
  assert (calendar s (q <| time_to_newwidth := n |>) L W) as C1 by (by destruct C).
  destruct (newsize =? nbuckets_ q); [|by eexists _, _].
  destruct (F64.lt _ _); [|by eexists _, _]. destruct (0 <? _); [|by eexists _, _].
  eexists _, _. split; [done|]. split; [|done]. destruct C. by split.
Qed.

Lemma reinit_ok s q n w W :
  year n -> F64Exact.fin w W -> wide W -> fitting W q.(cal_clock_) -> 0 <= q.(gap_num_) < 2 ^ 31 -> 0 <= q.(round_num_) <= 101 ->
  exists q', reinit q n w q.(cal_clock_) = Ok q' /\ calendar s q' [] W /\ q'.(cal_clock_) = q.(cal_clock_).
Proof.
  intros Hn Hw HW Hc Hg Hr. pose proof (year_bounds n Hn) as Hb. unfold reinit.
  set (q1 := q <| buckets_ := _ |> <| width_ := _ |> <| nbuckets_ := _ |> <| qsize_ := _ |> <| stat_qsize_ := _ |>).
  assert (CALENDAR_HASH q1 (cal_clock_ q) = Ok (index w n (cal_clock_ q))) as ->.
  { destruct Hc as (T & HT & TT). unfold CALENDAR_HASH. subst q1. cbn. by rewrite (hash_ok w W Hw HW n _ T Hn HT TT). }
  cbn [res_bind]. rewrite Z.shiftr_div_pow2 by lia. change (2 ^ 1) with 2.
  assert (2 <= n / 2 <= n) as Hn2 by (split; [apply Z.div_le_lower_bound|apply Z.div_le_upper_bound]; lia).
  rewrite isub_ok by (unfold in_int; lia). cbn [res_bind]. unfold imul. rewrite chk_ok by (unfold in_int; lia).
  cbn [res_bind]. eexists. split; [done|]. split; [|done].
  subst q1. split; cbn; try done.
  - rewrite length_replicate. lia.
  - intros i b Hi. apply lookup_replicate in Hi as [-> _]. split; cbn; [constructor| |done].
    intros a. rewrite !elem_of_nil. tauto.
  - clear. induction (Z.to_nat n) as [|k IH]; [done|]. cbn in IH |- *. by rewrite <- IH.
  - constructor.
  - intros a Ha. by apply elem_of_nil in Ha.
Qed.

(** Of two events of a time, the later one is moved first. *)
Definition moves_later_first s (e x : addr) : Prop :=
  F64.eq (time_of s x) (time_of s e) = true -> before s x e.

Lemma insert2_all_ok s l q L W :
  calendar s q L W -> StronglySorted (moves_later_first s) l ->
  (forall e a, e ∈ l -> a ∈ L -> F64.eq (time_of s e) (time_of s a) = true -> before s e a) ->
  (forall e, e ∈ l -> is_Some (s !! e) /\ fitting W (time_of s e) /\ F64.le q.(cal_clock_) (time_of s e) = true) ->
  NoDup (l ++ L) -> Z.of_nat (length (l ++ L)) < 2 ^ 29 ->
  exists q', insert2_all s q l = Ok q' /\ calendar s q' (rev l ++ L) W /\ same_frame q q'.
Proof.
  revert q L. induction l as [|e l IH]; intros q L C Hs Hold Ht Hn Hsm; cbn [insert2_all rev app].
  { exists q. split; [done|]. split; [done|]. by destruct q. }
  cbn [app length] in Hn, Hsm. apply NoDup_cons in Hn as [He Hn]. rewrite length_app in Hsm.
  apply StronglySorted_inv in Hs as [Hs Hse]. rewrite Forall_forall in Hse.
  destruct (Ht e ltac:(set_solver)) as (H1 & H2 & H3).
  destruct (insert2_ok s q L W e C H1 H2 H3) as (q1 & -> & C1 & F1); [set_solver|lia| |].
  { intros a Ha. apply Hold; [set_solver|done]. }
  cbn [res_bind]. assert (cal_clock_ q1 = cal_clock_ q) as Ec by (by rewrite F1).
  destruct (IH q1 (e :: L) C1 Hs) as (q2 & -> & C2 & F2).
  - intros x a Hx Ha. apply elem_of_cons in Ha as [->|Ha]; [by apply Hse|by apply Hold; [set_solver|]].
  - intros x Hx. rewrite Ec. apply Ht. set_solver.
  - by rewrite <- Permutation_middle; constructor.
  - rewrite length_app. cbn [length]. lia.
  - exists q2. split; [done|]. split; [|by eapply calendar_frame_trans]. by rewrite <- app_assoc.
Qed.

Lemma sorted_reverse {A} (R : A -> A -> Prop) (l : list A) :
  StronglySorted R l -> StronglySorted (fun x y => R y x) (rev l).
Proof. apply StronglySorted_rev. Qed.

(** The events of the buckets, each from its end. *)
Lemma backwards_sorted s q L W (bs : list Bucket) k :
  calendar s q L W ->
  (forall i b, bs !! i = Some b -> bucket_ok s q.(width_) q.(nbuckets_) L (Z.of_nat (k + i)) b) ->
  StronglySorted (moves_later_first s) (backwards bs) /\
  (forall a, a ∈ backwards bs -> a ∈ L /\ Z.of_nat k <= index q.(width_) q.(nbuckets_) (time_of s a)).
Proof.
  intros C. revert k. induction bs as [|b bs IH]; intros k Hb; unfold backwards; cbn [map concat].
  { split; [constructor|]. intros a Ha. by apply elem_of_nil in Ha. }
  destruct (IH (S k)) as [Hs He].
  { intros i b' Hi. replace (S k + i)%nat with (k + S i)%nat by lia. by apply Hb. }
  pose proof (Hb 0%nat b Logic.eq_refl) as Hb0. rewrite Nat.add_0_r in Hb0.
  assert (forall a, a ∈ rev (list_ b) -> a ∈ L /\ index (width_ q) (nbuckets_ q) (time_of s a) = Z.of_nat k) as Hel.
  { intros a Ha. rewrite elem_of_rev in Ha. by apply (bk_elem _ _ _ _ _ _ Hb0) in Ha. }
  split.
  - assert (StronglySorted (moves_later_first s) (rev (list_ b))) as Hr.
    { eapply StronglySorted_ext; [|apply sorted_reverse, (bk_sorted _ _ _ _ _ _ Hb0)]. cbn. intros x y _ _ Hxy _. exact Hxy. }
    fold (backwards bs). clear -Hr Hs Hel He C. induction Hr as [|x l Hr IHr Hx]; cbn [app]; [done|].
    constructor; [apply IHr; intros a Ha; apply Hel; set_solver|]. apply Forall_app. split; [done|].
    apply Forall_forall. intros y Hy Heq. exfalso. apply He in Hy as [HyL Hy].
    destruct (Hel x ltac:(set_solver)) as [HxL Hix].
    assert (index (width_ q) (nbuckets_ q) (time_of s x) = index (width_ q) (nbuckets_ q) (time_of s y)); [|lia].
    unfold index. f_equal. apply Z.le_antisymm; apply (day_le s q L W C); try by apply (cl_times _ _ _ _ C).
    + by apply F64.eq_le, F64.eq_sym.
    + by apply F64.eq_le.
  - intros a Ha. apply elem_of_app in Ha as [Ha|Ha].
    + apply Hel in Ha as [? ->]. done.
    + apply He in Ha as [? ?]. split; [done|lia].
Qed.

Lemma backwards_perm s q L W : calendar s q L W -> backwards q.(buckets_) ≡ₚ L.
Proof.
  intros C. rewrite <- (calendar_events s q L W C). unfold backwards.
  induction (buckets_ q) as [|b bs IH]; cbn; [done|]. rewrite IH, <- Permutation_rev. done.
Qed.

(** A resize that finds a good width keeps the calendar. *)
Lemma resize_ok s q L W newsize :
  calendar s q L W -> (newsize = q.(nbuckets_) \/ year newsize) -> resize_fits s q newsize = true ->
  exists q' W', resize s q newsize q.(cal_clock_) = Ok q' /\ calendar s q' L W' /\
    q'.(cal_clock_) = q.(cal_clock_) /\ q'.(round_num_) = 0.
Proof.
  intros C Hsize Hfits. unfold resize, resize_fits in *.
  destruct (choose_width_ok s q L W newsize C) as (q1 & w & E & C1 & Ec & Eb & En & Hnone). rewrite E in *. cbn [res_bind].
  destruct w as [w|]; [|exists q1, W; by auto].
  assert (year newsize) as Hy by (destruct Hsize as [->|]; [apply (cl_year _ _ _ _ C)|done]).
  assert ((if negb (newsize =? nbuckets_ q) && (newsize <? 4) then 4 else newsize) = newsize) as ->.
  { pose proof (year_bounds _ Hy). rewrite (proj2 (Z.ltb_ge newsize 4)), andb_false_r by lia. done. }
  apply fits_spec in Hfits as (W' & Hw & HW & Ht). rewrite <- Ec.
  destruct (reinit_ok s q1 newsize w W' Hy Hw HW) as (q2 & -> & C2 & Ec2).
  { rewrite Ec. apply Ht. set_solver. } { apply (cl_gap _ _ _ _ C1). } { apply (cl_round _ _ _ _ C1). }
  cbn [res_bind]. pose proof (backwards_perm s q L W C) as Hp.
  destruct (backwards_sorted s q L W q.(buckets_) 0 C (cl_bucket _ _ _ _ C)) as [Hs _].
  destruct (insert2_all_ok s (backwards (buckets_ q)) q2 [] W' C2 Hs) as (q3 & -> & C3 & F3).
  - intros e a _ Ha. by apply elem_of_nil in Ha.
  - intros e He. rewrite Hp in He. destruct (cl_times _ _ _ _ C e He) as (H1 & _ & H3). split; [done|].
    split; [|by rewrite Ec2, Ec]. apply Ht. apply elem_of_cons. right. apply list_elem_of_In, in_map, list_elem_of_In.
    by rewrite (calendar_events s q L W C).
  - rewrite app_nil_r, Hp. apply (cl_nodup _ _ _ _ C).
  - rewrite app_nil_r, Hp. apply (cl_small _ _ _ _ C).
  - cbn [res_bind]. eexists _, W'. split; [done|]. rewrite app_nil_r in C3. split; [|split; [by rewrite <- Ec2, F3|done]].
    apply (calendar_perm _ _ _ L) in C3; [|by rewrite <- Permutation_rev]. destruct C3. by split.
Qed.

(** ** The contract of an event queue *)

Definition represents s q L : Prop := exists W, calendar s q L W /\ q.(round_num_) <= 100.

Lemma fin_unique x v v' : F64Exact.fin x v -> F64Exact.fin x v' -> v = v'.
Proof. intros H%units_fin H'%units_fin. congruence. Qed.

Lemma year_double n : year n -> n < 2 ^ 28 -> year (n * 2).
Proof.
  intros (k & Hk & ->) Hlt. exists (k + 1). split; [|rewrite Z.pow_add_r by lia; done].
  apply Z.pow_lt_mono_r_iff in Hlt; lia.
Qed.

Lemma year_half n : year n -> 4 < n -> year (Z.shiftr n 1).
Proof.
  intros (k & Hk & ->) Hlt. exists (k - 1). change 4 with (2 ^ 2) in Hlt. apply Z.pow_lt_mono_r_iff in Hlt; [|lia..].
  split; [lia|]. rewrite Z.shiftr_div_pow2, <- Z.pow_sub_r by lia. done.
Qed.

Lemma insert_ok s q L e :
  represents s q L -> queued s L -> is_Some (s !! e) -> (forall a, a ∈ L -> uid_of s a < uid_of s e) -> e ∉ L ->
  Z.of_nat (length L) + 1 < 2 ^ 29 -> insert_fits s q e = true ->
  exists q', insert s q e = Ok q' /\ represents s q' (stable_insert (not_later s) e L).
Proof.
  intros (W & C & Hr) Hq He Hu HeL Hsm [Hf Hfits]%andb_true_iff.
  apply fits_spec in Hf as (W' & Hw & _ & Ht). rewrite (fin_unique _ _ _ Hw (cl_width _ _ _ _ C)) in *.
  destruct (place_ok s q L W e C Hq He) as (q1 & E1 & C1 & Er); [by apply Ht; set_solver|done..|].
  unfold insert. rewrite E1 in *. cbn [res_bind].
  destruct (Z.ltb_spec (top_threshold_ q1) (stat_qsize_ q1)) as [G|G].
  - pose proof (calendar_stat _ _ _ _ C1) as Hst. pose proof (cl_small _ _ _ _ C1) as Hs1.
    rewrite (cl_top _ _ _ _ C1) in G. pose proof (year_bounds _ (cl_year _ _ _ _ C1)).
    unfold imul. rewrite chk_ok by (unfold in_int; lia). cbn [res_bind].
    destruct (resize_ok s q1 _ W (nbuckets_ q1 * 2) C1) as (q2 & W2 & -> & C2 & _ & Er2); [|done|].
    { right. apply year_double; [apply (cl_year _ _ _ _ C1)|lia]. }
    exists q2. split; [done|]. exists W2. split; [done|lia].
  - exists q1. split; [done|]. exists W. split; [done|lia].
Qed.

Lemma deque_ok s q L :
  represents s q L -> queued s L -> deque_fits s q = true ->
  exists q', deque s q = Ok (q', list.head L) /\ represents s q' (tail L).
Proof.
  intros (W & C & Hr) Hq Hfits. unfold deque, deque_fits in *. pose proof (calendar_head_ok s q L W C Hq) as Hh.
  destruct L as [|a l]; [rewrite Hh; cbn [res_bind]; exists q; split; [done|by exists W]|].
  destruct Hh as (h & q1 & E & C1 & Eq1). rewrite E in *. cbn [res_bind list.head tail].
  destruct (cl_times _ _ _ _ C1 a ltac:(set_solver)) as ([ev Eev] & _). rewrite Eev. cbn [deref res_bind].
  rewrite <- (time_of_Some _ _ _ Eev).
  destruct (sample_ok s q1 (a :: l) W (time_of s a) C1) as (q2 & again & E2 & C2 & Eq2 & Hr2); [by rewrite Eq1|].
  rewrite E2 in *. cbn [res_bind].
  assert (cal_clock_ q2 = time_of s a) as Hc2.
  { destruct Eq2 as (? & ? & ? & ? & ? & ? & ? & ->). by rewrite Eq1. }
  apply andb_true_iff in Hfits as [Hf1 Hf2].
  assert (exists q3 W3, (if again then let! q := resize s q2 (nbuckets_ q2) (cal_clock_ q2) in Ok (q <| round_num_ := 0 |>)
      else Ok q2) = Ok q3 /\ calendar s q3 (a :: l) W3 /\ cal_clock_ q3 = time_of s a /\ round_num_ q3 <= 100)
    as (q3 & W3 & E3 & C3 & Hc3 & Hr3).
  { destruct again; [|exists q2, W; auto].
    destruct (resize_ok s q2 _ W _ C2 (or_introl Logic.eq_refl) Hf1) as (q3 & W3 & -> & C3 & Hc3 & Hr3). cbn [res_bind].
    eexists _, W3. split; [done|]. split; [destruct C3; by split|]. split; [by rewrite <- Hc2, <- Hc3|done]. }
  rewrite E3 in *. cbn [res_bind].
  destruct (calendar_unlink_ok s q3 a l W3 C3 Hq) as (q4 & E4 & C4 & F4); [by rewrite (cl_last _ _ _ _ C3), Hc3|].
  rewrite E4 in *. cbn [res_bind]. assert (round_num_ q4 = round_num_ q3) as Hr4 by (by rewrite F4).
  destruct (Z.ltb_spec (stat_qsize_ q4) (bot_threshold_ q4)) as [G|G].
  - rewrite (cl_bot _ _ _ _ C4) in G. pose proof (calendar_stat _ _ _ _ C4).
    destruct (resize_ok s q4 l W3 (Z.shiftr (nbuckets_ q4) 1) C4) as (q5 & W5 & -> & C5 & _ & Hr5); [|done|].
    { right. apply year_half; [apply (cl_year _ _ _ _ C4)|]. assert (2 < nbuckets_ q4 / 2) as G2 by lia.
      pose proof (Z.mul_div_le (nbuckets_ q4) 2). lia. }
    cbn [res_bind]. exists q5. split; [done|]. exists W5. split; [done|lia].
  - exists q4. split; [done|]. exists W3. split; [done|lia].
Qed.

Lemma calendar_cancel_ok s q L e :
  represents s q L -> queued s L -> is_Some (s !! e) -> (0 < uid_of s e -> e ∈ L) ->
  exists s' q', cancel s q e = Ok (s', q') /\
    if 0 <? uid_of s e then s' = negate_uid s e /\ represents s' q' (remove_one e L) else s' = s /\ represents s' q' L.
Proof.
  intros (W & C & Hr) Hq [ev Eev] Hin. unfold cancel. rewrite Eev. cbn [deref res_bind].
  rewrite (uid_of_Some _ _ _ Eev) in *. destruct (Z.leb_spec (uid_ ev) 0) as [Hu|Hu].
  { rewrite (proj2 (Z.ltb_ge _ _) Hu). exists s, q. split; [done|]. split; [done|by exists W]. }
  rewrite (proj2 (Z.ltb_lt _ _) Hu). specialize (Hin Hu).
  destruct (cl_times _ _ _ _ C e Hin) as (_ & Hfit & _). rewrite <- (time_of_Some _ _ _ Eev).
  rewrite (calendar_hash _ _ _ _ C _ Hfit). set (i := index _ _ _). cbn [res_bind].
  pose proof (index_bounds _ _ _ _ C (time_of s e)) as Hi. fold i in Hi.
  destruct (calendar_bucket _ _ _ _ C i Hi) as (b & Eb & Hb & Hok). rewrite Eb. cbn [res_bind].
  destruct (around_ok e (list_ b)) as (l1 & l2 & -> & El & _); [by apply (bk_elem _ _ _ _ _ _ Hok)|]. cbn [deref res_bind].
  pose proof (bk_sorted _ _ _ _ _ _ Hok) as Hs. pose proof (bucket_numbers s q L W C i b Hok) as Hn.
  rewrite El in Hs, Hn. pose proof (gain_around s l1 l2 e Hs Hn) as Hg. pose proof (distinct_gain s l1 l2 e) as Hd.
  assert (exists d : bool, (match list.head (l2 ++ l1), last (l2 ++ l1) with
      | Some next, Some prev => let! nv := deref (s !! next) in let! pv := deref (s !! prev) in
          Ok (negb (F64.eq nv.(time_) (time_of s e)) && negb (F64.eq pv.(time_) (time_of s e)))
      | _, _ => Ok true end) = Ok d /\ gain s (last l1) (list.head l2) e = if d then 1 else 0) as (d & -> & Ed).
  { rewrite Hg. destruct (list.head (l2 ++ l1)) as [x|] eqn:Ex, (last (l2 ++ l1)) as [p|] eqn:Ep; try (by exists true).
    destruct (numbers_elem s _ x Hn) as (xv & Exv & -> & _).
    { apply head_Some_elem_of in Ex. set_solver. }
    destruct (numbers_elem s _ p Hn) as (pv & Epv & -> & _).
    { apply last_Some_elem_of in Ep. set_solver. }
    rewrite Exv, Epv. cbn [deref res_bind]. eexists. split; [done|]. destruct (F64.eq (time_ xv) (time_of s e)), (F64.eq (time_ pv) (time_of s e)); reflexivity. }
  rewrite Ed in Hd. cbn [res_bind]. rewrite <- El in Hd.
  assert (StronglySorted (before s) (l1 ++ l2)) as Hs'.
  { clear -Hs. induction l1 as [|x l1 IH]; cbn [app] in *; apply StronglySorted_inv in Hs as [Hs Hx]; [done|].
    constructor; [by apply IH|]. apply Forall_app in Hx as [Hx1 Hx2]. apply Forall_cons in Hx2 as [_ Hx2].
    by apply Forall_app. }
  pose proof (shrink_ok s q L W e b (l1 ++ l2) (if d then 1 else 0) C Hb Hok Hin Hs') as Hshrink.
  specialize (Hshrink ltac:(rewrite El; solve_perm) Hd).
  pose proof (calendar_stat _ _ _ _ Hshrink) as Hst'. cbn in Hst'.
  pose proof (distinct_bounds s (l1 ++ l2)) as [Hdb Hd0]. pose proof (bk_count _ _ _ _ _ _ Hok) as Hc.
  pose proof (bucket_count s q _ i b Hok) as Hc'. pose proof (calendar_stat _ _ _ _ C) as Hst.
  pose proof (cl_small _ _ _ _ C) as Hsm. pose proof (cl_size _ _ _ _ C) as Ez.
  assert (exists q1 b1, (if d then let! q := count_distinct q i (-1) in let! b := bucket q i in
        if (q.(stat_qsize_) <? 0) || (b.(count_) <? 0) then Err Abort else Ok q else Ok q) = Ok q1 /\
      bucket q1 i = Ok b1 /\ count_ b1 = distinct s (l1 ++ l2) /\ qsize_ q1 = qsize_ q /\
      set_bucket (q1 <| qsize_ := qsize_ q - 1 |>) i (b1 <| list_ := l1 ++ l2 |>) =
      set_bucket (q <| stat_qsize_ := stat_qsize_ q - (if d then 1 else 0) |> <| qsize_ := qsize_ q - 1 |>) i
        (mkBucket (l1 ++ l2) (count_ b - (if d then 1 else 0)))) as (q1 & b1 & -> & Eb1 & Ec1 & Ez1 & Eq1).
  { destruct d.
    - rewrite (count_ok _ _ b) by (done || apply small_int; lia). cbn [res_bind].
      rewrite (bucket_set _ i b) by (done || lia). cbn [res_bind].
      assert ((stat_qsize_ (set_bucket (q <| stat_qsize_ := stat_qsize_ q + -1 |>) i (b <| count_ := count_ b + -1 |>)) <? 0)
        || (count_ (b <| count_ := count_ b + -1 |>) <? 0) = false) as ->.
      { apply orb_false_iff. split; apply Z.ltb_ge; cbn; lia. }
      eexists _, _. split; [done|]. split; [apply (bucket_set _ i b); done || lia|]. split; [cbn; lia|]. split; [done|].
      unfold set_bucket. cbn. by rewrite list_insert_insert_eq.
    - exists q, b. split; [done|]. split; [done|]. split; [lia|]. split; [done|]. by rewrite !Z.sub_0_r; destruct q. }
  cbn [res_bind]. rewrite Eb1. cbn [res_bind]. rewrite Ec1.
  assert ((distinct s (l1 ++ l2) =? 0) && negb (bool_decide (l1 ++ l2 = [])) = false) as ->.
  { destruct (Z.eqb_spec (distinct s (l1 ++ l2)) 0) as [E|]; [|done]. by rewrite bool_decide_eq_true_2 by auto. }
  rewrite Ez1, isub_ok by (rewrite Ez; apply small_int; lia). cbn [res_bind]. rewrite Eq1.
  eexists _, _. split; [done|]. rewrite (negate_uid_Some _ _ _ Eev). split; [done|]. exists W. split; [|done].
  eapply calendar_ext; [exact Hshrink|]. intros a Ha. apply elem_of_remove_one in Ha as [Hne _]; [|apply (cl_nodup _ _ _ _ C)].
  by apply lookup_alter_ne.
Qed.

Lemma lookup_list_ok s u l :
  (forall a, a ∈ l -> is_Some (s !! a)) ->
  exists r, lookup_list s u l = Ok r /\
    match r with Some a => a ∈ l /\ uid_of s a = u | None => Forall (fun a => uid_of s a <> u) l end.
Proof.
  induction l as [|p l IH]; intros Hv; cbn; [by exists None|].
  destruct (Hv p) as [ev Hp]; [set_solver|]. rewrite Hp. cbn. rewrite <- (uid_of_Some _ _ _ Hp).
  destruct (Z.eqb_spec (uid_of s p) u) as [E|E]; [exists (Some p); set_solver|].
  destruct IH as (r & -> & Hr); [set_solver|]. exists r. split; [done|]. destruct r; [set_solver|by constructor].
Qed.

Lemma lookup_ok s q L u :
  represents s q L ->
  exists r, lookup s q u = Ok (q, r) /\
    match r with Some a => a ∈ L /\ uid_of s a = u | None => Forall (fun a => uid_of s a <> u) L end.
Proof.
  intros (W & C & _). unfold lookup. pose proof (calendar_events s q L W C) as Hp.
  assert (exists r, lookup_buckets s u (buckets_ q) = Ok r /\ match r with
    | Some a => a ∈ concat (map list_ (buckets_ q)) /\ uid_of s a = u
    | None => Forall (fun a => uid_of s a <> u) (concat (map list_ (buckets_ q))) end) as (r & -> & Hr).
  { assert (forall a, a ∈ concat (map list_ (buckets_ q)) -> is_Some (s !! a)) as Hv
      by (intros a Ha; rewrite Hp in Ha; by apply (cl_times _ _ _ _ C)).
    clear -Hv. induction (buckets_ q) as [|b bs IH]; cbn [map concat lookup_buckets] in *; [by exists None|].
    destruct (lookup_list_ok s u (list_ b)) as (r & -> & Hr); [set_solver|]. cbn [res_bind].
    destruct r as [a|]; [exists (Some a); set_solver|]. destruct IH as (r & -> & Hr'); [set_solver|].
    exists r. split; [done|]. destruct r; [set_solver|]. by apply Forall_app. }
  cbn [res_bind]. exists r. split; [done|]. destruct r; [by rewrite Hp in Hr|by rewrite Hp in Hr].
Qed.

(** The constructor. *)
Lemma create_ok s junk min adjust : adjust <> 0 -> exists q, create junk min adjust = Ok q /\ represents s q [].
Proof.
  intros Ha. unfold create. rewrite (proj2 (Z.eqb_neq _ _) Ha).
  set (q := junk <| cal_clock_ := _ |> <| adjust_new_width_interval_ := _ |> <| min_bin_width_ := _ |> <| avg_gap_ := _ |>
    <| last_time_ := _ |> <| gap_num_ := _ |> <| head_search_ := _ |> <| insert_search_ := _ |> <| round_num_ := _ |>
    <| time_to_newwidth := _ |>).
  destruct (reinit_ok s q 4 (F64.of_Z 1) F64Exact.one) as (q' & E & C & _).
  - by exists 2.
  - rewrite <- (Z.mul_1_l F64Exact.one). by apply (F64Exact.int_of_Z 1).
  - split; [by apply Z.leb_le|by apply Z.ltb_lt].
  - exists 0. split; [done|]. split; [done|]. split; [by left|]. by apply Z.leb_le.
  - done.
  - done.
  - exists q'. split; [exact E|]. exists F64Exact.one. split; [done|].
    pose proof E as E'. unfold reinit in E'.
    apply res_bind_Ok in E' as (x & _ & E'). apply res_bind_Ok in E' as (y & _ & E'). apply res_bind_Ok in E' as (z & _ & E').
    injection E' as <-. done.
Qed.
End CalendarOps.
