(* ===== verification/CalendarProps.v ===== *)
(** * The calendar scheduler: properties

    The calendar finds the first event, and a simulation runs with it as with
    the list scheduler, as long as the widths it chooses suit the times. *)

From Stdlib Require Import ZArith Lia Bool Sorted SpecFloat.
From stdpp Require Import base list gmap.
From S2P Require Import Prelude F64 F64Exact PktQueue Sched ListSched QueueEquiv.
From S2P Require Import CalendarTime Calendar CalendarFacts CalendarRep CalendarSearch CalendarOps.

#[export] Instance CalendarScheduler_laws : QueueEquiv.GuardedLaws CalendarScheduler.t.
Proof.
  exists CalendarOps.represents (fun q n => q.(CalendarScheduler.qsize_) + Z.of_nat n < 2 ^ 29)
    CalendarFits.insert_fits CalendarFits.deque_fits.
  - intros s s' q L (W & C & Hr) Hext. exists W. split; [by apply (CalendarRep.calendar_ext s)|done].
  - intros s q L a n Hr Hq Hroom Ha He _ _ Hu Hfits.
    assert (forall q L, CalendarOps.represents s q L -> CalendarScheduler.qsize_ q = Z.of_nat (length L)) as Hz
      by (intros q1 L1 (W & C & _); apply (CalendarRep.cl_size _ _ _ _ C)).
    pose proof (Hz q L Hr). destruct (CalendarOps.insert_ok s q L a Hr Hq He Hu Ha ltac:(lia) Hfits) as (q' & E & Hr').
    exists q'. split; [exact E|]. split; [exact Hr'|]. rewrite (Hz _ _ Hr'), stable_insert_perm. cbn [length]. lia.
  - intros s q L a Hr Hq He Hin. destruct (CalendarOps.calendar_cancel_ok s q L a Hr Hq He Hin) as (s' & q' & E & Hc).
    exists s', q'. split; [exact E|]. split; [|exact Hc]. intros n.
    destruct Hr as (W & C & _). rewrite (CalendarRep.cl_size _ _ _ _ C).
    destruct (0 <? uid_of s a) eqn:Eu; destruct Hc as [_ (W' & C' & _)]; rewrite (CalendarRep.cl_size _ _ _ _ C'); [|lia].
    apply Z.ltb_lt in Eu. pose proof (length_remove_one _ _ (Hin Eu)). lia.
  - intros s q L Hr Hq Hfits. destruct (CalendarOps.deque_ok s q L Hr Hq Hfits) as (q' & E & Hr').
    exists q'. split; [exact E|]. split; [exact Hr'|]. intros n. destruct Hr as (W & C & _), Hr' as (W' & C' & _).
    rewrite (CalendarRep.cl_size _ _ _ _ C), (CalendarRep.cl_size _ _ _ _ C'). destruct L; cbn; lia.
Defined.

Module CalendarProps.
Import CalendarScheduler CalendarFits CalendarOps CalendarTime.

(** C16: the calendar finds the first event: [head] returns the earliest
    event, of those of its time the one scheduled first, whatever buckets it
    has to look at, and leaves the queue as it is. *)
Theorem calendar_finds_first s (q : CalendarScheduler.t) L :
  CalendarOps.represents s q L -> queued s L ->
  exists q', CalendarScheduler.head s q = Ok (q', list.head L) /\ CalendarOps.represents s q' L.
Proof.
  intros (W & C & Hr) Hq. pose proof (calendar_head_ok s q L W C Hq) as Hh. destruct L as [|a l].
  - exists q. split; [exact Hh|by exists W].
  - destruct Hh as (h & q' & E & C' & Eq). exists q'. split; [exact E|]. exists W. split; [exact C'|by rewrite Eq].
Qed.

(** A resize keeps the queue: when the width it chooses suits the queued
    times, all events are in the new buckets, those of a time in the order
    they were scheduled, and the next one is found. *)
Theorem calendar_resize_keeps s (q : CalendarScheduler.t) L newsize :
  CalendarOps.represents s q L -> (newsize = q.(nbuckets_) \/ year newsize) -> resize_fits s q newsize = true ->
  exists q', CalendarScheduler.resize s q newsize q.(cal_clock_) = Ok q' /\ CalendarOps.represents s q' L.
Proof.
  intros (W & C & _) Hsize Hfits. destruct (resize_ok s q L W newsize C Hsize Hfits) as (q' & W' & E & C' & _ & Hr).
  exists q'. split; [exact E|]. exists W'. split; [exact C'|lia].
Qed.

(** C15: a simulation runs with the calendar scheduler as with the list
    scheduler: if the list scheduler runs a program from the start, and the
    widths the calendar comes to use suit the times, the calendar does not
    fail and dispatches the same events in the same order, to the same clock
    and memory. *)
Theorem calendar_runs_like_list (prog : QueueEquiv.program) fuel (es : evs) junk min_width adjust cs
    (s2 s2' : Scheduler.t ListScheduler.t) ps :
  adjust <> 0 -> QueueEquiv.sane prog -> (forall a, uid_of es a <= 0) -> s2'.(Scheduler.uid) < 2 ^ 29 ->
  Scheduler.exec_all (Scheduler.create es ListScheduler.create) cs = Ok s2 ->
  (forall h e d, Scheduler.Schedule h e d ∈ cs -> F64.is_nan (F64.add F64.zero d) = false) ->
  Scheduler.run (QueueEquiv.handle_of prog) fuel s2 = Ok (s2', ps) ->
  exists q, create junk min_width adjust = Ok q /\
    (QueueEquiv.exec_all_may (Scheduler.create es q) cs = true ->
     (forall s1, Scheduler.exec_all (Scheduler.create es q) cs = Ok s1 -> QueueEquiv.run_may prog fuel s1 = true) ->
     exists s1 s1', Scheduler.exec_all (Scheduler.create es q) cs = Ok s1 /\
       Scheduler.run (QueueEquiv.handle_of prog) fuel s1 = Ok (s1', ps) /\
       s1'.(Scheduler.events) = s2'.(Scheduler.events) /\ s1'.(Scheduler.clock_) = s2'.(Scheduler.clock_) /\
       s1'.(Scheduler.halted_) = s2'.(Scheduler.halted_)).
Proof.
  intros Hadj Hsane Hes Hu E2 Hcs E. destruct (create_ok es junk min_width adjust Hadj) as (q & Eq & Hr).
  exists q. split; [exact Eq|]. intros Hmay Hmay'.
  apply (QueueEquiv.run_from_start prog fuel es q cs s2 s2' ps); try done.
  cbn. destruct Hr as (W & C & _). rewrite (CalendarRep.cl_size _ _ _ _ C). cbn. lia.
Qed.
End CalendarProps.

(** * Witnesses *)

Module CalendarWitness.
Import CalendarScheduler CalendarFits CalendarOps CalendarProps CalendarTime.

(** Memory that held nothing in particular. *)
Definition junk : t :=
  mk F64.zero 7 7 7 7 7 7 F64.zero F64.zero F64.zero F64.zero F64.zero F64.zero 7 7 7 7 7 [] 7 F64.zero.

Definition empty : t :=
  Eval vm_compute in match create junk (F64.ratio 1 (10 ^ 18)) 10 with Ok q => q | Err _ => junk end.

(** Twelve events, some at the same time, out of order: enough to resize. *)
Definition some_time (k : nat) : f64 := F64.ratio (Z.of_nat ((7 * k) mod 11)) 8.

Definition some_events : evs :=
  Eval vm_compute in list_to_map (map (fun k => (Pos.of_nat (S k), mkEvent (Some 1%positive) (some_time k) (Z.of_nat k + 1))) (seq 0 12)).

Fixpoint insert_all (s : evs) (q : t) (l : list addr) : res t :=
  match l with
  | [] => Ok q
  | e :: l => if insert_fits s q e then let! q := insert s q e in insert_all s q l else Err Abort
  end.

Definition inserted (l : list addr) : list addr := fold_left (fun L e => stable_insert (not_later some_events) e L) l [].

Definition ids : list addr := map (fun k => Pos.of_nat (S k)) (seq 0 12).

Definition full : t := Eval vm_compute in match insert_all some_events empty ids with Ok q => q | Err _ => junk end.

Lemma queued_nil s : queued s [].
Proof. split; [intros a Ha; by apply elem_of_nil in Ha|constructor]. Qed.

(** Each event is inserted behind those with smaller uids. *)
Fixpoint growing (s : evs) (l : list addr) (L : list addr) : bool :=
  match l with
  | [] => true
  | e :: l =>
      match s !! e with
      | Some ev => (0 <? uid_ ev) && negb (F64.is_nan (time_ ev)) && forallb (fun a => uid_of s a <? uid_ ev) L &&
          growing s l (stable_insert (not_later s) e L)
      | None => false
      end
  end.

Lemma insert_all_ok s l q L q' :
  represents s q L -> queued s L -> growing s l L = true -> Z.of_nat (length l + length L) + 1 < 2 ^ 29 ->
  insert_all s q l = Ok q' ->
  let L' := fold_left (fun L e => stable_insert (not_later s) e L) l L in represents s q' L' /\ queued s L'.
Proof.
  revert q L. induction l as [|e l IH]; intros q L Hr Hq Hg Hlen E; cbn [insert_all growing fold_left length] in *.
  { injection E as <-. done. }
  destruct (s !! e) as [ev|] eqn:Ee; [|done]. destruct (insert_fits s q e) eqn:Hf; [|done].
  apply andb_true_iff in Hg as [Hg Hg']. apply andb_true_iff in Hg as [Hg Hu]. apply andb_true_iff in Hg as [Hp Hn].
  apply Z.ltb_lt in Hp. apply negb_true_iff in Hn. rewrite forallb_forall in Hu.
  assert (forall a, a ∈ L -> uid_of s a < uid_of s e) as Hu'.
  { intros a Ha. rewrite (uid_of_Some _ _ _ Ee). apply Z.ltb_lt, Hu. by apply list_elem_of_In. }
  destruct (insert_ok s q L e Hr Hq) as (q1 & E1 & Hr1); [by exists ev|done| |lia|done|].
  { intros Ha. apply Hu' in Ha. lia. }
  rewrite E1 in E. cbn [res_bind] in E. apply (IH q1 _ Hr1); [|done|rewrite stable_insert_perm; cbn [length]; lia|done].
  apply SchedFacts.queued_insert; [done|by exists ev|by rewrite (time_of_Some _ _ _ Ee)|by rewrite (uid_of_Some _ _ _ Ee)|done].
Qed.

Lemma full_ok : represents some_events full (inserted ids) /\ queued some_events (inserted ids).
Proof.
  destruct (create_ok some_events junk (F64.ratio 1 (10 ^ 18)) 10 ltac:(lia)) as (q & E & Hr).
  assert (Ok q = Ok empty) as [= ->] by (rewrite <- E; vm_compute; reflexivity).
  pose proof (queued_nil some_events) as Hq.
  assert (growing some_events ids [] = true) as Hg by (vm_compute; reflexivity).
  assert (Z.of_nat (length ids + length (A := addr) []) + 1 < 2 ^ 29) as Hl by (vm_compute; reflexivity).
  assert (insert_all some_events empty ids = Ok full) as Hi by (vm_compute; reflexivity).
  unfold inserted. exact (insert_all_ok some_events ids empty [] full Hr Hq Hg Hl Hi).
Qed.

Lemma calendar_finds_first_witness :
  full.(nbuckets_) = 8 /\
  exists q', head some_events full = Ok (q', list.head (inserted ids)) /\ represents some_events q' (inserted ids).
Proof.
  split; [reflexivity|]. apply (calendar_finds_first some_events full (inserted ids)); apply full_ok.
Defined.

Lemma calendar_resize_keeps_witness :
  exists q', resize some_events full 16 full.(cal_clock_) = Ok q' /\ represents some_events q' (inserted ids).
Proof.
  apply (calendar_resize_keeps some_events full (inserted ids) 16).
  - apply full_ok.
  - right. exists 4. split; [lia|reflexivity].
  - vm_compute. reflexivity.
Defined.

(** A simulation of twenty events, each of which schedules another one. *)
Definition chain_program : QueueEquiv.program := fun h p es c =>
  if F64.is_nan (F64.add c (F64.ratio 5 16)) then [Scheduler.Halt]
  else if F64.lt c (F64.of_Z 1) then [Scheduler.Schedule (Some h) p (F64.ratio 5 16)] else [].

Definition chain_events : evs := Eval vm_compute in list_to_map (map (fun k => (Pos.of_nat (S k), new_event)) (seq 0 20)).

Definition chain_start : list Scheduler.cmd :=
  map (fun k => Scheduler.Schedule (Some 1%positive) (Pos.of_nat (S k)) (F64.ratio (Z.of_nat ((7 * k) mod 19)) 16)) (seq 0 20).

Definition chain_first : Scheduler.t ListScheduler.t :=
  match Scheduler.exec_all (Scheduler.create chain_events ListScheduler.create) chain_start with
  | Ok s => s
  | Err _ => Scheduler.create chain_events ListScheduler.create
  end.

Definition chain_end : Scheduler.t ListScheduler.t * list addr :=
  match Scheduler.run (QueueEquiv.handle_of chain_program) 100 chain_first with Ok r => r | Err _ => (chain_first, []) end.

Definition calendar_first : Scheduler.t t :=
  match Scheduler.exec_all (Scheduler.create chain_events empty) chain_start with
  | Ok s => s
  | Err _ => Scheduler.create chain_events empty
  end.

Lemma is_ok {A} (m : res A) (d : A) :
  match m with Ok _ => true | Err _ => false end = true -> m = Ok (match m with Ok a => a | Err _ => d end).
Proof. by destruct m. Qed.

Lemma calendar_first_ok : Scheduler.exec_all (Scheduler.create chain_events empty) chain_start = Ok calendar_first.
Proof. unfold calendar_first. apply is_ok. vm_compute. reflexivity. Qed.

Lemma calendar_first_may : QueueEquiv.run_may chain_program 100 calendar_first = true.
Proof. vm_compute. reflexivity. Qed.

Lemma calendar_runs_like_list_witness :
  exists s1 s1', Scheduler.exec_all (Scheduler.create chain_events empty) chain_start = Ok s1 /\
    Scheduler.run (QueueEquiv.handle_of chain_program) 100 s1 = Ok (s1', chain_end.2) /\
    s1'.(Scheduler.clock_) = F64.ratio 20 16.
Proof.
  destruct (calendar_runs_like_list chain_program 100 chain_events junk (F64.ratio 1 (10 ^ 18)) 10 chain_start
    chain_first chain_end.1 chain_end.2) as (q & Eq & Hrun).
  - lia.
  - intros h p es c h' e d _. unfold chain_program. destruct (F64.is_nan _) eqn:Hn; [set_solver|].
    destruct (F64.lt _ _); [|set_solver]. intros [= _ _ ->]%list_elem_of_singleton. exact Hn.
  - intros a. apply (ListWitness.uid_of_all chain_events (fun _ u => u <= 0)); [reflexivity|].
    apply (bool_decide_unpack _). vm_compute. exact I.
  - vm_compute. reflexivity.
  - apply is_ok. vm_compute. reflexivity.
  - intros h e d (k & [= _ _ ->] & Hk)%list_elem_of_fmap.
    assert (forallb (fun k => negb (F64.is_nan (F64.add F64.zero (F64.ratio (Z.of_nat ((7 * k) mod 19)) 16)))) (seq 0 20) = true)
      as Hall by (vm_compute; reflexivity).
    rewrite forallb_forall in Hall. apply negb_true_iff, Hall. by apply list_elem_of_In.
  - rewrite <- surjective_pairing. apply is_ok. vm_compute. reflexivity.
  - assert (Ok q = Ok empty) as [= ->] by (rewrite <- Eq; vm_compute; reflexivity).
    destruct Hrun as (s1 & s1' & E1 & Er & _ & Ec & _).
    + vm_compute. reflexivity.
    + intros s1 E1. rewrite calendar_first_ok in E1. apply Ok_inj in E1 as <-. exact calendar_first_may.
    + exists s1, s1'. split; [exact E1|]. split; [exact Er|]. rewrite Ec. vm_compute. reflexivity.
Defined.
End CalendarWitness.
