(* ===== verification/Timer.v ===== *)
(** * Timers

    [TimerHandler] (src/ns2/common/timer-handler.h, timer-handler.cc): a timer
    owns one event and a status.  The client's [expire] is the list of timer
    operations it performs. *)

From Stdlib Require Import ZArith Lia Bool Sorted SpecFloat.
From stdpp Require Import base list gmap.
From S2P Require Import Prelude F64 PktQueue Sched ListSched.

Module TimerHandler.

Inductive TimerStatus := IDLE | PENDING | HANDLING.

#[global] Instance TimerStatus_eq_dec : EqDecision TimerStatus.
Proof. solve_decision. Defined.

(** [this] is the timer in its role as handler. *)
Record t := mk {
  this : positive;
  status_ : TimerStatus;
  event_ : addr
}.

#[global] Instance eta_t : Eta t := fun x => mk (this x) (status_ x) (event_ x).

Definition create (self : positive) (e : addr) : t := mk self IDLE e.

Section Ops.
Context {Q : Type} `{EventQueue Q}.
Implicit Types (x : t) (s : Scheduler.t Q).

Definition sched_ x s (delay : f64) : res (Scheduler.t Q) :=
  Scheduler.schedule s (Some x.(this)) x.(event_) delay.

Definition cancel_ x s : res (Scheduler.t Q) := Scheduler.cancel s x.(event_).

Definition cancel x s : res (t * Scheduler.t Q) :=
  if decide (x.(status_) = PENDING) then
    let! s := cancel_ x s in Ok (x <| status_ := IDLE |>, s)
  else Err Abort.

Definition sched x s (delay : f64) : res (t * Scheduler.t Q) :=
  if decide (x.(status_) = IDLE) then
    let! s := sched_ x s delay in Ok (x <| status_ := PENDING |>, s)
  else Err Abort.

Definition resched x s (delay : f64) : res (t * Scheduler.t Q) :=
  let! s := if decide (x.(status_) = PENDING) then cancel_ x s else Ok s in
  let! s := sched_ x s delay in
  Ok (x <| status_ := PENDING |>, s).

Definition force_cancel x s : res (t * Scheduler.t Q) :=
  if decide (x.(status_) = PENDING) then
    let! s := cancel_ x s in Ok (x <| status_ := IDLE |>, s)
  else Ok (x, s).

(** What [expire] does to its own timer. *)
Inductive cmd := Resched (delay : f64) | ForceCancel.

Definition exec x s (c : cmd) : res (t * Scheduler.t Q) :=
  match c with
  | Resched delay => resched x s delay
  | ForceCancel => force_cancel x s
  end.

Fixpoint expire x s (cs : list cmd) : res (t * Scheduler.t Q) :=
  match cs with
  | [] => Ok (x, s)
  | c :: cs => let! (x, s) := exec x s c in expire x s cs
  end.

Definition handle x s (cs : list cmd) : res (t * Scheduler.t Q) :=
  if decide (x.(status_) = PENDING) then
    let x := x <| status_ := HANDLING |> in
    let! (x, s) := expire x s cs in
    Ok (if decide (x.(status_) = HANDLING) then x <| status_ := IDLE |> else x, s)
  else Err Abort.

End Ops.
End TimerHandler.

(** * Facts *)

Module TimerFacts.
Import TimerHandler SchedFacts.

Section Inv.
Context {Q : Type} `{EL : EventQueueLaws Q}.
Implicit Types (x : t) (s : Scheduler.t Q) (L : list addr) (tr : Scheduler.trace).

(** The timer is pending exactly while its event is queued. *)
Record timer_ok x s L : Prop := {
  timer_event : is_Some (s.(Scheduler.events) !! x.(event_));
  timer_pending : x.(status_) = PENDING <-> x.(event_) ∈ L
}.

(** A delay that does not lead into the past. *)
Definition can_wait (c delay : f64) : Prop := F64.le c (F64.add c delay) = true.

(** The finite counters have room for [n] more events. *)
Definition has_room s (n : nat) : Prop :=
  eq_room s.(Scheduler.queue) n /\ s.(Scheduler.uid) + Z.of_nat n < 2 ^ 63.

(** The timer waits until [delay] from now. *)
Definition waits x s L tr delay n (x' : t) (s' : Scheduler.t Q) : Prop :=
  x' = x <| status_ := PENDING |> /\ s'.(Scheduler.clock_) = s.(Scheduler.clock_) /\ has_room s' n /\
  time_of s'.(Scheduler.events) x.(event_) = F64.add s.(Scheduler.clock_) delay /\
  exists L', sinv s' L' tr /\ timer_ok x' s' L' /\ L' ≡ₚ x.(event_) :: remove_one x.(event_) L.

Lemma sched_waits x s L tr delay n :
  sinv s L tr -> timer_ok x s L -> x.(status_) <> PENDING ->
  can_wait s.(Scheduler.clock_) delay -> has_room s (S n) ->
  exists s', sched_ x s delay = Ok s' /\ waits x s L tr delay n (x <| status_ := PENDING |>) s'.
Proof.
  intros Hi [[ev He] Hp] Hst Hw [Hroom Hu].
  assert (event_ x ∉ L) as HeL by (by rewrite <- Hp).
  pose proof (schedule_ok s L tr (this x) (event_ x) ev delay n Hi He Hroom Hw ltac:(lia)) as Hok.
  pose proof (sinv_free _ _ _ Hi _ HeL) as Hfree. rewrite (uid_of_Some _ _ _ He) in Hfree.
  rewrite (proj2 (Z.ltb_ge _ _) Hfree) in Hok. destruct Hok as (s' & E & Hi' & Hc & Ht & Hu' & Hr' & Hs').
  exists s'. split; [done|]. split; [done|]. split; [done|]. split; [split; [done|lia]|].
  split; [done|]. eexists. split; [exact Hi'|].
  assert (stable_insert (not_later (Scheduler.events s')) (event_ x) L ≡ₚ event_ x :: L) as HP
    by apply stable_insert_perm.
  split; [split; [done|]|by rewrite remove_one_not_in].
  cbn. rewrite HP. split; [intros _; set_solver|done].
Qed.

Lemma cancel_idle x s L tr n :
  sinv s L tr -> timer_ok x s L -> has_room s n ->
  exists s', cancel_ x s = Ok s' /\ sinv s' (remove_one x.(event_) L) tr /\
    timer_ok (x <| status_ := IDLE |>) s' (remove_one x.(event_) L) /\
    s'.(Scheduler.clock_) = s.(Scheduler.clock_) /\ has_room s' n.
Proof.
  intros Hi [He Hp] [Hroom Hu].
  destruct (cancel_ok s L tr (event_ x) Hi He) as (s' & E & Hi' & Hc & Hu' & Hr' & Hs').
  exists s'. split; [done|]. split; [done|]. split; [|split; [done|split; [by apply Hr'|lia]]].
  split; [by apply Hs'|]. cbn. split; [done|]. intros Hin.
  apply elem_of_remove_one in Hin as [Hne _]; [done|]. eapply queued_nodup, (sinv_queued _ _ _ Hi).
Qed.

Lemma resched_waits x s L tr delay n :
  sinv s L tr -> timer_ok x s L -> can_wait s.(Scheduler.clock_) delay -> has_room s (S n) ->
  exists x' s', resched x s delay = Ok (x', s') /\ waits x s L tr delay n x' s'.
Proof.
  intros Hi Ht Hw Hroom. unfold resched. destruct (decide (status_ x = PENDING)) as [Hst|Hst].
  - destruct (cancel_idle x s L tr (S n) Hi Ht Hroom) as (s1 & -> & Hi1 & Ht1 & Hc1 & Hr1).
    rewrite <- Hc1 in Hw.
    destruct (sched_waits _ s1 _ tr delay n Hi1 Ht1 ltac:(done) Hw Hr1)
      as (s2 & E2 & _ & Hc2 & Hr2 & Htime & L2 & Hi2 & Ht2 & HP).
    cbn [res_bind]. change (sched_ x s1 delay) with (sched_ (x <| status_ := IDLE |>) s1 delay).
    rewrite E2. cbn [res_bind]. eexists _, s2. split; [done|]. split; [done|].
    split; [congruence|]. split; [done|]. split; [by rewrite <- Hc1|].
    exists L2. split; [done|]. split; [exact Ht2|]. cbn in HP.
    rewrite (remove_one_not_in (event_ x) (remove_one (event_ x) L)) in HP; [done|].
    rewrite elem_of_remove_one; [tauto|]. eapply queued_nodup, (sinv_queued _ _ _ Hi).
  - cbn [res_bind]. destruct (sched_waits x s L tr delay n Hi Ht Hst Hw Hroom) as (s' & -> & Hwt).
    by eexists _, s'.
Qed.

Lemma force_cancel_ok x s L tr n :
  sinv s L tr -> timer_ok x s L -> has_room s n ->
  exists x' s' L', force_cancel x s = Ok (x', s') /\ sinv s' L' tr /\ timer_ok x' s' L' /\
    s'.(Scheduler.clock_) = s.(Scheduler.clock_) /\ has_room s' n /\ x'.(status_) <> PENDING /\
    x'.(event_) = x.(event_).
Proof.
  intros Hi Ht Hroom. unfold force_cancel. destruct (decide _) as [Hst|Hst].
  - destruct (cancel_idle x s L tr n Hi Ht Hroom) as (s1 & -> & Hi1 & Ht1 & Hc1 & Hr1).
    eexists _, s1, _. split; [done|]. split; [exact Hi1|]. split; [exact Ht1|]. done.
  - by exists x, s, L.
Qed.

(** What [expire] may ask for: delays not into the past. *)
Definition polite (c : f64) (cs : list cmd) : Prop :=
  forall d, Resched d ∈ cs -> can_wait c d.

(** How often [expire] reschedules. *)
Fixpoint rescheds (cs : list cmd) : nat :=
  match cs with
  | [] => 0%nat
  | Resched _ :: cs => S (rescheds cs)
  | ForceCancel :: cs => rescheds cs
  end.

Lemma expire_ok x s L tr cs n :
  sinv s L tr -> timer_ok x s L -> polite s.(Scheduler.clock_) cs -> has_room s (rescheds cs + n) ->
  exists x' s' L', expire x s cs = Ok (x', s') /\ sinv s' L' tr /\ timer_ok x' s' L' /\
    s'.(Scheduler.clock_) = s.(Scheduler.clock_) /\ has_room s' n /\ x'.(event_) = x.(event_).
Proof.
  revert x s L. induction cs as [|c cs IH]; intros x s L Hi Ht Hp Hroom; cbn [expire].
  { by exists x, s, L. }
  assert (exists x1 s1 L1, exec x s c = Ok (x1, s1) /\ sinv s1 L1 tr /\ timer_ok x1 s1 L1 /\
    s1.(Scheduler.clock_) = s.(Scheduler.clock_) /\ has_room s1 (rescheds cs + n) /\
    x1.(event_) = x.(event_))
    as (x1 & s1 & L1 & -> & Hi1 & Ht1 & Hc1 & Hr1 & Ee1).
  { destruct c as [d|]; cbn [exec rescheds Nat.add] in *.
    - destruct (resched_waits x s L tr d (rescheds cs + n) Hi Ht) as (x1 & s1 & E & Ex & Hc1 & Hr1 & _ & L1 & Hi1 & Ht1 & _);
        [apply Hp; set_solver|done|]. exists x1, s1, L1. by rewrite Ex in *.
    - destruct (force_cancel_ok x s L tr (rescheds cs + n) Hi Ht Hroom)
        as (x1 & s1 & L1 & E & Hi1 & Ht1 & Hc1 & Hr1 & _ & Ee).
      by exists x1, s1, L1. }
  cbn [res_bind]. destruct (IH x1 s1 L1 Hi1 Ht1) as (x' & s' & L' & E & Hi' & Ht' & Hc' & Hr' & Ee').
  - intros d Hd. rewrite Hc1. apply Hp. set_solver.
  - done.
  - exists x', s', L'. split; [done|]. split; [done|]. split; [done|]. split; [congruence|]. split; [done|congruence].
Qed.
End Inv.
End TimerFacts.

(** * Properties *)

Module TimerProps.
Import TimerHandler SchedFacts TimerFacts.

Section Props.
Context {Q : Type} `{EL : EventQueueLaws Q}.
Implicit Types (x : t) (s : Scheduler.t Q) (L : list addr) (tr : Scheduler.trace).

(** C35: [resched] never aborts, whatever the status of the timer, and leaves
    exactly one expiry pending, [delay] from now; other events keep their
    places. *)
Theorem timer_resched x s L tr delay :
  sinv s L tr -> timer_ok x s L -> can_wait s.(Scheduler.clock_) delay -> has_room s 1 ->
  exists s' L', resched x s delay = Ok (x <| status_ := PENDING |>, s') /\
    sinv s' L' tr /\ timer_ok (x <| status_ := PENDING |>) s' L' /\
    L' ≡ₚ x.(event_) :: remove_one x.(event_) L /\
    time_of s'.(Scheduler.events) x.(event_) = F64.add s.(Scheduler.clock_) delay.
Proof.
  intros Hi Ht Hw Hr. destruct (resched_waits x s L tr delay 0 Hi Ht Hw Hr)
    as (x' & s' & E & -> & _ & _ & Htime & L' & Hi' & Ht' & HP).
  by exists s', L'.
Qed.

(** C30: [sched] aborts exactly when the timer is not idle, [cancel] exactly
    when it is not pending, [force_cancel] never; after [cancel] and
    [force_cancel] the timer's event is not queued. *)
Theorem timer_guards x s L tr delay :
  sinv s L tr -> timer_ok x s L -> can_wait s.(Scheduler.clock_) delay -> has_room s 1 ->
  (sched x s delay = Err Abort <-> x.(status_) <> IDLE) /\
  (cancel x s = Err Abort <-> x.(status_) <> PENDING) /\
  (forall x' s', cancel x s = Ok (x', s') -> x'.(status_) = IDLE /\
     exists L', sinv s' L' tr /\ timer_ok x' s' L') /\
  exists x' s' L', force_cancel x s = Ok (x', s') /\ sinv s' L' tr /\ timer_ok x' s' L' /\
    x'.(status_) <> PENDING.
Proof.
  intros Hi Ht Hw Hr. unfold sched, cancel.
  destruct (cancel_idle x s L tr 1 Hi Ht Hr) as (s1 & E1 & Hi1 & Ht1 & _). rewrite E1. cbn [res_bind].
  split; [|split; [|split]].
  - destruct (decide (status_ x = IDLE)) as [Hst|Hst]; [|done].
    destruct (sched_waits x s L tr delay 0 Hi Ht ltac:(congruence) Hw Hr) as (s2 & -> & _). done.
  - by destruct (decide (status_ x = PENDING)).
  - intros x' s'. destruct (decide _); [|done]. intros [= <- <-]. split; [done|]. by eexists.
  - destruct (force_cancel_ok x s L tr 1 Hi Ht Hr) as (x' & s' & L' & E & Hi' & Ht' & _ & _ & Hst & _).
    by exists x', s', L'.
Qed.

End Props.
End TimerProps.

(** * Witnesses: the timer owns event 3 of the list scheduler's witnesses,
    idle; then it is made pending. *)

Module TimerWitness.
Import TimerHandler SchedFacts TimerFacts TimerProps ListWitness.

Definition timer : t := create 1%positive 3%positive.

Lemma timer_is_ok : timer_ok timer demo [1%positive; 2%positive].
Proof. split; cbn; [by eexists|]. split; [done|]. intros H. set_solver. Qed.

Lemma demo_room n : Z.of_nat n < 100 -> has_room demo n.
Proof. intros H. split; [done|]. cbn. lia. Qed.

Lemma timer_resched_witness :
  exists s' L', resched timer demo (F64.of_Z 1) = Ok (timer <| status_ := PENDING |>, s') /\
    sinv s' L' [] /\ timer_ok (timer <| status_ := PENDING |>) s' L' /\
    L' ≡ₚ [3; 1; 2]%positive /\
    time_of s'.(Scheduler.events) 3%positive = F64.of_Z 2.
Proof.
  apply (timer_resched timer demo [1%positive; 2%positive] [] (F64.of_Z 1)).
  - exact demo_sinv.
  - exact timer_is_ok.
  - vm_compute. reflexivity.
  - by apply demo_room.
Defined.

Lemma timer_guards_witness :
  (sched timer demo (F64.of_Z 1) = Err Abort <-> timer.(status_) <> IDLE) /\
  (cancel timer demo = Err Abort <-> timer.(status_) <> PENDING) /\
  (forall x' s', cancel timer demo = Ok (x', s') -> x'.(status_) = IDLE /\
     exists L', sinv s' L' [] /\ timer_ok x' s' L') /\
  exists x' s' L', force_cancel timer demo = Ok (x', s') /\ sinv s' L' [] /\ timer_ok x' s' L' /\
    x'.(status_) <> PENDING.
Proof.
  apply (timer_guards timer demo [1%positive; 2%positive] [] (F64.of_Z 1)).
  - exact demo_sinv.
  - exact timer_is_ok.
  - vm_compute. reflexivity.
  - by apply demo_room.
Defined.

(** A timer that owns event 1, which is due next; [expire] waits for 3 more. *)
Definition due : t := mk 1%positive PENDING 1%positive.

End TimerWitness.
