(* ===== verification/Rq.v ===== *)
(** * The TCP reassembly queue

    [ReassemblyQueue] (src/ns2/tcp/rq.h, rq.cc) keeps received segments twice:
    in sequence order (FIFO) and, newest first, in the order of their last
    change (LIFO, for SACK blocks).  The doubly linked FIFO is the list of its
    nodes, the LIFO the list of its nodes' addresses; [next_] and [prev_] are
    the neighbours in the list, and using a node that is not in its list is
    undefined behaviour. *)

From Stdlib Require Import ZArith Lia Bool Sorted.
From stdpp Require Import base list gmap.
From S2P Require Import Prelude PktQueue.

Module ReassemblyQueue.

(** [self] is the address of the node. *)
Record seginfo := mkSeg {
  self : addr;
  startseq_ : Z;      (* starting seq *)
  endseq_ : Z;        (* ending seq + 1 *)
  pflags_ : Z;        (* flags derived from tcp hdr *)
  rqflags_ : Z;       (* book-keeping flags *)
  cnt_ : Z            (* refs to this block *)
}.

#[global] Instance eta_seginfo : Eta seginfo := fun s =>
  mkSeg (self s) (startseq_ s) (endseq_ s) (pflags_ s) (rqflags_ s) (cnt_ s).

#[global] Instance seginfo_eq_dec : EqDecision seginfo.
Proof. solve_decision. Defined.

(** [fresh] is the next address [new] returns. *)
Record t := mk {
  fifo : list seginfo;
  lifo : list addr;
  hint_ : option addr;
  total_ : Z;
  rcv_nxt_ : Z;
  freelist_ : list addr;
  fresh : addr
}.

#[global] Instance eta_t : Eta t := fun q =>
  mk (fifo q) (lifo q) (hint_ q) (total_ q) (rcv_nxt_ q) (freelist_ q) (fresh q).

Definition create (rcvnxt : Z) : t := mk [] [] None 0 rcvnxt [] 1%positive.

(** ** Pointers *)

Definition ptr (s : seginfo) : addr := self s.

Definition head_ (q : t) : option addr := self <$> head q.(fifo).
Definition tail_ (q : t) : option addr := self <$> last q.(fifo).

(** The node at an address. *)
Fixpoint find (l : list seginfo) (a : addr) : option seginfo :=
  match l with
  | [] => None
  | s :: l' => if decide (s.(self) = a) then Some s else find l' a
  end.

(** The nodes behind [a], and from [a] on. *)
Fixpoint after (l : list seginfo) (a : addr) : list seginfo :=
  match l with
  | [] => []
  | s :: l' => if decide (s.(self) = a) then l' else after l' a
  end.

Fixpoint from (l : list seginfo) (a : addr) : list seginfo :=
  match l with
  | [] => []
  | s :: l' => if decide (s.(self) = a) then l else from l' a
  end.

(** The nodes up to and including [a], and in front of [a]. *)
Fixpoint upto (l : list seginfo) (a : addr) : list seginfo :=
  match l with
  | [] => []
  | s :: l' => if decide (s.(self) = a) then [s] else s :: upto l' a
  end.

Fixpoint before_node (l : list seginfo) (a : addr) : list seginfo :=
  match l with
  | [] => []
  | s :: l' => if decide (s.(self) = a) then [] else s :: before_node l' a
  end.

Definition next_ (q : t) (a : addr) : option addr := self <$> head (after q.(fifo) a).
Definition prev_ (q : t) (a : addr) : option addr := self <$> last (before_node q.(fifo) a).

Definition get (q : t) (a : addr) : res seginfo := deref (find q.(fifo) a).

(** A write through the pointer [a]. *)
Fixpoint alter_node (l : list seginfo) (a : addr) (f : seginfo -> seginfo) : list seginfo :=
  match l with
  | [] => []
  | s :: l' => if decide (s.(self) = a) then f s :: l' else s :: alter_node l' a f
  end.

Definition update (q : t) (a : addr) (f : seginfo -> seginfo) : res t :=
  let! _ := get q a in
  Ok (q <| fifo := alter_node q.(fifo) a f |>).

(** ** Nodes *)

Definition newseginfo (q : t) : t * addr :=
  match q.(freelist_) with
  | s :: l => (q <| freelist_ := l |>, s)
  | [] => (q <| fresh := Pos.succ q.(fresh) |>, q.(fresh))
  end.

Definition deleteseginfo (q : t) (s : addr) : t := q <| freelist_ := s :: q.(freelist_) |>.

Definition clear_hint (q : t) (p : addr) : t :=
  if decide (q.(hint_) = Some p) then q <| hint_ := None |> else q.

Definition fremove (q : t) (p : addr) : t :=
  let q := clear_hint q p in
  q <| fifo := before_node q.(fifo) p ++ after q.(fifo) p |>.

Definition sremove (q : t) (p : addr) : t :=
  let q := clear_hint q p in
  q <| lifo := remove_one p q.(lifo) |>.

Definition push (q : t) (p : addr) : t := q <| lifo := p :: q.(lifo) |>.

(** ** Simple operations *)

Definition empty (q : t) : bool := match q.(fifo) with [] => true | _ => false end.

Definition maxseq (q : t) : Z := match last q.(fifo) with Some s => s.(endseq_) | None => -1 end.
Definition minseq (q : t) : Z := match head q.(fifo) with Some s => s.(startseq_) | None => -1 end.

(** Number of blocks and bytes. *)
Fixpoint cnts (l : list seginfo) : Z * Z :=
  match l with
  | [] => (0, 0)
  | p :: l' => let (blks, bytes) := cnts l' in (blks + 1, bytes + (p.(endseq_) - p.(startseq_)))
  end.

Definition clear (q : t) : t :=
  q <| lifo := [] |> <| hint_ := None |>
    <| freelist_ := rev (self <$> q.(fifo)) ++ q.(freelist_) |>
    <| fifo := [] |> <| total_ := 0 |>.

Definition init (q : t) (rcvnxt : Z) : t := clear (q <| rcv_nxt_ := rcvnxt |>).

(** The loop of [clearto] over the nodes from the head; the rest of the list
    and the flags. *)
Fixpoint clearto_loop (q : t) (l : list seginfo) (seq flag : Z) : t * list seginfo * Z :=
  match l with
  | [] => (q, [], flag)
  | p :: l' =>
      if p.(endseq_) <=? seq then
        let flag := Z.lor flag p.(pflags_) in
        let q := q <| total_ := q.(total_) - (p.(endseq_) - p.(startseq_)) |> in
        let q := sremove q p.(self) in
        let q := fremove q p.(self) in
        let q := deleteseginfo q p.(self) in
        clearto_loop q l' seq flag
      else (q, l, flag)
  end.

Definition clearto (q : t) (seq : Z) : res (t * Z) :=
  let '(q, l, flag) := clearto_loop q q.(fifo) seq 0 in
  match l with
  | [] => Ok (q, flag)
  | p :: _ =>
      (* we might be trimming in the middle *)
      if (p.(startseq_) <=? seq) && (seq <? p.(endseq_)) then
        let q := q <| total_ := q.(total_) - (seq - p.(startseq_)) |> in
        let! q := update q p.(self) (fun s => s <| startseq_ := seq |>) in
        Ok (q, Z.lor flag p.(pflags_))
      else Ok (q, flag)
  end.

Definition cleartonxt (q : t) : res (t * Z) := clearto q q.(rcv_nxt_).

(** The blocks written into the caller's buffer. *)
Fixpoint gensack_loop (q : t) (l : list addr) (maxsblock : Z) : res (list (Z * Z)) :=
  match l with
  | [] => Ok []
  | a :: l' =>
      if maxsblock =? 0 then Ok []
      else
        let! p := get q a in
        let! r := gensack_loop q l' (maxsblock - 1) in
        Ok ((p.(startseq_), p.(endseq_)) :: r)
  end.

Definition gensack (q : t) (maxsblock : Z) : res (list (Z * Z)) := gensack_loop q q.(lifo) maxsblock.

(** The next hole, with [nxtcnt] and [nxtbytes]. *)
Fixpoint nexthole_loop (l : list seginfo) (seq : Z) : Z * Z * Z :=
  match l with
  | [] => (-1, -1, -1)
  | p :: l' =>
      if seq <? p.(startseq_) then let (n, b) := cnts l in (seq, n, b)
      else if (p.(startseq_) <=? seq) && (seq <=? p.(endseq_)) then
        match l' with
        | [] => (p.(endseq_), -1, -1)
        | _ => let (n, b) := cnts l' in (p.(endseq_), n, b)
        end
      else nexthole_loop l' seq
  end.

Definition nexthole (q : t) (seq : Z) : t * (Z * Z * Z) :=
  (q <| hint_ := head_ q |>, nexthole_loop q.(fifo) seq).

(** ** Adding a segment *)

(** [coalesce (p, n, q)]. *)
Definition get_opt (q : t) (a : option addr) : res (option seginfo) :=
  match a with
  | None => Ok None
  | Some a => let! s := get q a in Ok (Some s)
  end.

Definition unlink (q : t) (a : addr) : t := fremove (sremove q a) a.

(** The new block [n] fills the hole between [p] and [q]: [p] takes over. *)
Definition fill_hole (rq : t) (p n q : seginfo) : res (t * option addr * Z) :=
  let rq := unlink (unlink rq n.(self)) q.(self) in
  let flags := Z.lor p.(pflags_) n.(pflags_) in
  let! rq := update rq p.(self) (fun s =>
    s <| endseq_ := q.(endseq_) |> <| cnt_ := s.(cnt_) + (n.(cnt_) + q.(cnt_)) |> <| pflags_ := flags |>) in
  Ok (deleteseginfo (deleteseginfo rq n.(self)) q.(self), Some p.(self), flags).

(** The new block joins [p], but not [q]. *)
Definition join_left (rq : t) (p n : seginfo) : res (t * option addr * Z) :=
  let rq := unlink rq n.(self) in
  let flags := Z.lor p.(pflags_) n.(pflags_) in
  let! rq := update rq p.(self) (fun s =>
    s <| endseq_ := n.(endseq_) |> <| pflags_ := flags |> <| cnt_ := s.(cnt_) + n.(cnt_) |>) in
  Ok (deleteseginfo rq n.(self), Some p.(self), flags).

(** The new block joins [q], but not [p]. *)
Definition join_right (rq : t) (n q : seginfo) : res (t * option addr * Z) :=
  let rq := unlink rq n.(self) in
  let flags := Z.lor q.(pflags_) n.(pflags_) in
  let! rq := update rq q.(self) (fun s =>
    s <| startseq_ := n.(startseq_) |> <| pflags_ := flags |> <| cnt_ := s.(cnt_) + n.(cnt_) |>) in
  Ok (deleteseginfo rq n.(self), Some q.(self), flags).

Definition coalesce (rq : t) (p : option addr) (n : addr) (q : option addr) : res (t * Z) :=
  let! pv := get_opt rq p in
  let! nv := get rq n in
  let! qv := get_opt rq q in
  let left := match pv with
              | Some pv => if pv.(endseq_) =? nv.(startseq_) then Some pv else None
              | None => None
              end in
  let right := match qv with
               | Some qv => if nv.(endseq_) =? qv.(startseq_) then Some qv else None
               | None => None
               end in
  let! (rq, p, flags) :=
    match left, right with
    | Some pv, Some qv => fill_hole rq pv nv qv
    | Some pv, None => join_left rq pv nv
    | None, Some qv => join_right rq nv qv
    | None, None => Ok (rq, p, 0)
    end in
  let! p := deref p in
  let! s := get rq p in
  Ok (if s.(startseq_) <=? rq.(rcv_nxt_) then rq <| rcv_nxt_ := s.(endseq_) |> else rq, flags).

(** The new node between [p] and [q]: its links, and theirs. *)
Definition link_between (rq : t) (p : option addr) (n : seginfo) (q : option addr) : res t :=
  let! _ := get_opt rq p in
  let! _ := get_opt rq q in
  Ok (rq <| fifo := match p with Some p => upto rq.(fifo) p | None => [] end ++ n ::
                    match q with Some q => from rq.(fifo) q | None => [] end |>).

(** The label [endfast]. *)
Definition endfast (rq : t) (p q : option addr) (start end_ tiflags rqflags initcnt : Z)
    (needmerge : bool) : res (t * Z) :=
  let (rq, n) := newseginfo rq in
  let rq := push rq n in
  let! rq := link_between rq p (mkSeg n start end_ tiflags rqflags initcnt) q in
  let rq := rq <| total_ := rq.(total_) + (end_ - start) |> in
  if needmerge then coalesce rq p n q
  else Ok (if start <=? rq.(rcv_nxt_) then rq <| rcv_nxt_ := end_ |> else rq, tiflags).

(** The first node that starts at [end_] or later. *)
Fixpoint search_q (l : list seginfo) (end_ : Z) : option addr :=
  match l with
  | [] => None
  | s :: l' => if s.(startseq_) <? end_ then search_q l' end_ else Some s.(self)
  end.

(** The last node that ends at [start] or earlier; [l] is the list from the
    tail. *)
Fixpoint search_p (l : list seginfo) (start : Z) : option addr :=
  match l with
  | [] => None
  | s :: l' => if start <? s.(endseq_) then search_p l' start else Some s.(self)
  end.

(** The loop that kills overlapped nodes; [l] are the nodes from [r] on. *)
Inductive killed :=
| Exact (rq : t) (flags : Z)
| Done (rq : t) (tiflags initcnt : Z) (altered : bool).

Fixpoint kill_loop (rq : t) (l : list seginfo) (q : option addr)
    (start end_ tiflags initcnt : Z) (altered : bool) : res killed :=
  match l with
  | [] => Ok (Done rq tiflags initcnt altered)
  | r :: l' =>
      if decide (q = Some r.(self)) then Ok (Done rq tiflags initcnt altered)
      else if (start =? r.(startseq_)) && (end_ =? r.(endseq_)) then
        (* exact overlap *)
        let flags := Z.lor r.(pflags_) tiflags in
        let! rq := update rq r.(self) (fun s => s <| pflags_ := flags |>) in
        Ok (Exact rq flags)
      else if (start <=? r.(startseq_)) && (r.(endseq_) <=? end_) then
        (* complete overlap, not exact *)
        let rq := rq <| total_ := rq.(total_) - (r.(endseq_) - r.(startseq_)) |> in
        let rq := deleteseginfo (sremove (fremove rq r.(self)) r.(self)) r.(self) in
        kill_loop rq l' q start end_ (Z.lor tiflags r.(pflags_)) (initcnt + r.(cnt_)) true
      else kill_loop rq l' q start end_ tiflags initcnt altered
  end.

(** Left-side merge: the new [start], [p], [initcnt] and [needmerge]. *)
Definition merge_left (rq : t) (p : option addr) (start tiflags initcnt : Z)
    : res (t * option addr * Z * Z * bool) :=
  let! merge :=
    match p with
    | None => Ok true
    | Some a => let! n := deref (next_ rq a) in let! s := get rq n in Ok (s.(startseq_) <? start)
    end in
  if merge then
    let! p := deref (match p with None => head_ rq | Some a => next_ rq a end) in
    let! s := get rq p in
    let! rq :=
      if start <? s.(startseq_) then
        let rq := rq <| total_ := rq.(total_) + (s.(startseq_) - start) |> in
        update rq p (fun s => s <| startseq_ := start |>)
      else Ok rq in
    let! rq := update rq p (fun s => s <| pflags_ := Z.lor s.(pflags_) tiflags |> <| cnt_ := s.(cnt_) + 1 |>) in
    Ok (rq, Some p, s.(endseq_), initcnt - 1, true)
  else Ok (rq, p, start, initcnt, false).

(** Right-side merge: the new [end], [q] and [needmerge]. *)
Definition merge_right (rq : t) (q : option addr) (end_ tiflags : Z) (needmerge : bool)
    : res (t * option addr * Z * bool) :=
  let! merge :=
    match q with
    | None => Ok true
    | Some a => let! n := deref (prev_ rq a) in let! s := get rq n in Ok (end_ <? s.(endseq_))
    end in
  if merge then
    let! q := deref (match q with None => tail_ rq | Some a => prev_ rq a end) in
    let! s := get rq q in
    let! rq :=
      if s.(endseq_) <? end_ then
        let rq := rq <| total_ := rq.(total_) + (end_ - s.(endseq_)) |> in
        update rq q (fun s => s <| endseq_ := end_ |>)
      else Ok rq in
    let! rq := update rq q (fun s => s <| pflags_ := Z.lor s.(pflags_) tiflags |>) in
    Ok (rq, Some q, s.(startseq_), true)
  else Ok (rq, q, end_, needmerge).

(** [add] when nothing is overlapped completely: the segment is merged with
    the ones it overlaps, and what is left of it inserted. *)
Definition merge_insert (rq : t) (p q : option addr) (start end_ tiflags rqflags initcnt : Z)
    : res (t * Z) :=
  let! (rq, p, start, initcnt, needmerge) := merge_left rq p start tiflags initcnt in
  let! (rq, q, end_, needmerge) := merge_right rq q end_ tiflags needmerge in
  if end_ <=? start then
    let! h := deref (head rq.(fifo)) in
    Ok (if h.(startseq_) <=? rq.(rcv_nxt_) then rq <| rcv_nxt_ := h.(endseq_) |> else rq, tiflags)
  else
    let! needmerge :=
      if needmerge then Ok true
      else
        let! p := deref p in
        let! ps := get rq p in
        if decide (next_ rq p = q) then
          let! q := deref q in
          let! qs := get rq q in
          Ok ((ps.(endseq_) <=? start) && (end_ <=? qs.(startseq_)) &&
              ((ps.(endseq_) =? start) || (qs.(startseq_) =? end_)))
        else Ok false in
    endfast rq p q start end_ tiflags rqflags initcnt needmerge.

(** The label [again2]; the list is not empty. *)
Fixpoint again2 (fuel : nat) (rq : t) (start end_ tiflags rqflags initcnt : Z) {struct fuel} : res (t * Z) :=
  let! tl := deref (last rq.(fifo)) in
  let! hd := deref (head rq.(fifo)) in
  if tl.(endseq_) <=? start then
    (* at tail, no overlap *)
    endfast rq (Some tl.(self)) None start end_ tiflags rqflags initcnt (start =? tl.(endseq_))
  else if end_ <=? hd.(startseq_) then
    (* at head, no overlap *)
    endfast rq None (Some hd.(self)) start end_ tiflags rqflags initcnt (end_ =? hd.(startseq_))
  else
    let q := search_q rq.(fifo) end_ in
    let p := search_p (rev rq.(fifo)) start in
    let r := match p with Some a => from rq.(fifo) a | None => rq.(fifo) end in
    let! k := kill_loop rq r q start end_ tiflags initcnt false in
    match k with
    | Exact rq flags => Ok (rq, flags)
    | Done rq tiflags initcnt altered =>
        if empty rq then endfast rq p q start end_ tiflags rqflags initcnt false
        else if altered then
          match fuel with
          | O => Err Fuel
          | S fuel => again2 fuel rq start end_ tiflags rqflags initcnt
          end
        else merge_insert rq p q start end_ tiflags rqflags initcnt
    end.

Definition add (rq : t) (start end_ tiflags rqflags : Z) : res (t * Z) :=
  if end_ <? start then Err Abort
  else if empty rq then
    match rq.(lifo) with
    | _ :: _ => Err Abort                     (* FIFO empty, LIFO not *)
    | [] =>
        let (rq, n) := newseginfo rq in
        let rq := rq <| fifo := [mkSeg n start end_ tiflags rqflags 1] |> <| lifo := [n] |>
                     <| total_ := end_ - start |> in
        Ok (if start <=? rq.(rcv_nxt_) then rq <| rcv_nxt_ := end_ |> else rq, tiflags)
    end
  else again2 (length rq.(fifo)) rq start end_ tiflags rqflags 1.

End ReassemblyQueue.

(** The examples of the test program at the end of rq.cc: first and last
    sequence number and count of each block. *)
Module RqExamples.
Import ReassemblyQueue.

Fixpoint adds (q : t) (l : list (Z * Z)) : res t :=
  match l with
  | [] => Ok q
  | (a, b) :: l => let! (q, _) := add q a b 0 0 in adds q l
  end.

Definition blocks (l : list (Z * Z)) : res (list (Z * Z * Z)) :=
  let! q := adds (create 1) l in
  Ok ((fun s => (s.(startseq_), s.(endseq_), s.(cnt_))) <$> q.(fifo)).

Example merges : blocks [(2, 4); (6, 8); (1, 2); (8, 10); (4, 6)] = Ok [(1, 10, 5)].
Proof. reflexivity. Qed.

Example duplicate : blocks [(5, 10); (11, 20); (30, 40); (11, 20)] = Ok [(5, 10, 1); (11, 20, 1); (30, 40, 1)].
Proof. reflexivity. Qed.

Example overlap_left : blocks [(2, 4); (1, 3)] = Ok [(1, 4, 2)].
Proof. reflexivity. Qed.

Example overlap_ends : blocks [(2, 4); (6, 8); (1, 9)] = Ok [(1, 9, 3)].
Proof. reflexivity. Qed.

Example overlap_double : blocks [(1, 2); (3, 5); (6, 8); (9, 10); (4, 7)] = Ok [(1, 2, 1); (3, 8, 3); (9, 10, 1)].
Proof. reflexivity. Qed.

Example overlap_middle : blocks [(1, 2); (3, 5); (10, 12); (20, 30); (4, 8)] =
  Ok [(1, 2, 1); (3, 8, 2); (10, 12, 1); (20, 30, 1)].
Proof. reflexivity. Qed.
End RqExamples.

(** * Facts *)

Module RqFacts.
Import ReassemblyQueue.

Implicit Types (q rq : t) (l k A M B P : list seginfo) (s : seginfo) (a : addr) (D : list addr).

Definition ids l : list addr := self <$> l.
Arguments ids : simpl never.

Lemma ids_cons s l : ids (s :: l) = s.(self) :: ids l.
Proof. done. Qed.

(** Memory: the nodes of both lists are the same, and none of them is free or
    one of the nodes [D] in neither. *)
Record mem_ok D q : Prop := {
  mo_nodup : NoDup (ids q.(fifo) ++ D ++ q.(freelist_));
  mo_fresh : Forall (fun a => (a < q.(fresh))%positive) (ids q.(fifo) ++ D ++ q.(freelist_));
  mo_lifo : q.(lifo) ≡ₚ ids q.(fifo)
}.

(** Non-empty segments, in order, with a gap between any two. *)
Definition sep l : Prop :=
  StronglySorted (fun x y => x.(endseq_) < y.(startseq_)) l /\
  Forall (fun s => s.(startseq_) < s.(endseq_)) l.

Definition bytes l : Z := sum_Z (fun s => s.(endseq_) - s.(startseq_)) l.

Arguments bytes : simpl never.

Record rq_inv q : Prop := {
  ri_mem : mem_ok [] q;
  ri_sep : sep q.(fifo);
  ri_total : q.(total_) = bytes q.(fifo)
}.

(** The bytes held. *)
Definition covered l (x : Z) : Prop := exists s, s ∈ l /\ s.(startseq_) <= x < s.(endseq_).

Lemma covered_app l k x : covered (l ++ k) x <-> covered l x \/ covered k x.
Proof. unfold covered. set_solver. Qed.

Lemma covered_cons s l x : covered (s :: l) x <-> s.(startseq_) <= x < s.(endseq_) \/ covered l x.
Proof.
  unfold covered. split.
  - intros (s' & [->|Hs]%elem_of_cons & Hx); [by left|right; by exists s'].
  - intros [Hx|(s' & Hs & Hx)]; [exists s; set_solver|exists s'; set_solver].
Qed.

Lemma covered_nil x : covered [] x <-> False.
Proof. unfold covered. set_solver. Qed.

(** ** Nodes by address *)

Lemma ids_app l k : ids (l ++ k) = ids l ++ ids k.
Proof. apply fmap_app. Qed.

Lemma ids_rev l : ids (rev l) = rev (ids l).
Proof. unfold ids. induction l as [|s l IH]; [done|]. cbn. by rewrite fmap_app, IH. Qed.

Lemma at_split l s k (f : seginfo -> seginfo) :
  s.(self) ∉ ids l ->
  find (l ++ s :: k) s.(self) = Some s /\ after (l ++ s :: k) s.(self) = k /\
  from (l ++ s :: k) s.(self) = s :: k /\ upto (l ++ s :: k) s.(self) = l ++ [s] /\
  before_node (l ++ s :: k) s.(self) = l /\ alter_node (l ++ s :: k) s.(self) f = l ++ f s :: k.
Proof.
  unfold ids. induction l as [|x l IH]; cbn; intros Hn.
  - by rewrite !decide_True by done.
  - assert (self x <> self s) as Hx by (intros Hx; apply Hn; rewrite Hx; apply elem_of_cons; by left).
    rewrite !decide_False by done. destruct IH as (-> & -> & -> & -> & -> & ->); [|done].
    intros Hs. apply Hn, elem_of_cons. by right.
Qed.

Lemma mem_ids D q l s k : mem_ok D q -> q.(fifo) = l ++ s :: k -> (s.(self) ∉ ids l) /\ (s.(self) ∉ ids k).
Proof.
  intros [Hd _ _] E. rewrite E, ids_app, ids_cons in Hd.
  apply NoDup_app in Hd as (Hd & _ & _). apply NoDup_app in Hd as (_ & Hl & Hk).
  apply NoDup_cons in Hk as [Hk _]. split; [|done].
  intros Hs. by apply (Hl _ Hs), elem_of_cons; left.
Qed.

Lemma get_at D q l s k : mem_ok D q -> q.(fifo) = l ++ s :: k -> get q s.(self) = Ok s.
Proof.
  intros Hm E. unfold get. rewrite E.
  by destruct (at_split l s k id (proj1 (mem_ids _ _ _ _ _ Hm E))) as (-> & _).
Qed.

Lemma update_at D q l s k f :
  mem_ok D q -> q.(fifo) = l ++ s :: k -> update q s.(self) f = Ok (q <| fifo := l ++ f s :: k |>).
Proof.
  intros Hm E. unfold update. rewrite (get_at _ _ _ _ _ Hm E). cbn. rewrite E.
  by destruct (at_split l s k f (proj1 (mem_ids _ _ _ _ _ Hm E))) as (_ & _ & _ & _ & _ & ->).
Qed.

Lemma next_at D q l s k : mem_ok D q -> q.(fifo) = l ++ s :: k -> next_ q s.(self) = self <$> head k.
Proof.
  intros Hm E. unfold next_. rewrite E.
  by destruct (at_split l s k id (proj1 (mem_ids _ _ _ _ _ Hm E))) as (_ & -> & _).
Qed.

Lemma prev_at D q l s k : mem_ok D q -> q.(fifo) = l ++ s :: k -> prev_ q s.(self) = self <$> last l.
Proof.
  intros Hm E. unfold prev_. rewrite E.
  by destruct (at_split l s k id (proj1 (mem_ids _ _ _ _ _ Hm E))) as (_ & _ & _ & _ & -> & _).
Qed.

(** A write that keeps the address of the node. *)
Lemma mem_update D q l : mem_ok D q -> ids l = ids q.(fifo) -> mem_ok D (q <| fifo := l |>).
Proof. intros [Hd Hf Hl] E. split; cbn; by rewrite E. Qed.

(** Fields that do not matter. *)
Lemma mem_same D q q' :
  mem_ok D q -> q'.(fifo) = q.(fifo) -> q'.(lifo) = q.(lifo) -> q'.(freelist_) = q.(freelist_) ->
  q'.(fresh) = q.(fresh) -> mem_ok D q'.
Proof. intros [Hd Hf Hl] E1 E2 E3 E4. split; by rewrite ?E1, ?E2, ?E3, ?E4. Qed.

(** A node taken out of both lists. *)
Lemma unlink_at D q l s k :
  mem_ok D q -> q.(fifo) = l ++ s :: k ->
  exists h, unlink q s.(self) =
    q <| fifo := l ++ k |> <| lifo := remove_one s.(self) q.(lifo) |> <| hint_ := h |>.
Proof.
  intros Hm E. destruct (at_split l s k id (proj1 (mem_ids _ _ _ _ _ Hm E))) as (_ & Ha & _ & _ & Hb & _).
  unfold unlink, sremove, fremove, clear_hint.
  destruct (decide (hint_ q = Some (self s))) as [H1|H1]; cbn;
    repeat (destruct (decide _); cbn); rewrite E, Ha, Hb; eexists; destruct q; reflexivity.
Qed.

Lemma fs_remove_at D q l s k :
  mem_ok D q -> q.(fifo) = l ++ s :: k ->
  exists h, sremove (fremove q s.(self)) s.(self) =
    q <| fifo := l ++ k |> <| lifo := remove_one s.(self) q.(lifo) |> <| hint_ := h |>.
Proof.
  intros Hm E. destruct (at_split l s k id (proj1 (mem_ids _ _ _ _ _ Hm E))) as (_ & Ha & _ & _ & Hb & _).
  unfold sremove, fremove, clear_hint.
  destruct (decide (hint_ q = Some (self s))) as [H1|H1]; cbn;
    repeat (destruct (decide _); cbn); rewrite E, Ha, Hb; eexists; destruct q; reflexivity.
Qed.

Lemma mem_unlink D q l s k :
  mem_ok D q -> q.(fifo) = l ++ s :: k ->
  mem_ok (s.(self) :: D) (q <| fifo := l ++ k |> <| lifo := remove_one s.(self) q.(lifo) |>).
Proof.
  intros [Hd Hf Hl] E. rewrite E in *. rewrite ids_app, ids_cons in *.
  assert ((ids l ++ self s :: ids k) ++ D ++ freelist_ q ≡ₚ (ids l ++ ids k) ++ (self s :: D) ++ freelist_ q)
    as HP by solve_perm.
  split; cbn; rewrite ?ids_app.
  - by rewrite <- HP.
  - by rewrite <- HP.
  - rewrite remove_one_perm with (x := self s) in Hl; [solve_perm|]. rewrite Hl. set_solver.
Qed.

Lemma mem_delete D q a : mem_ok (a :: D) q -> mem_ok D (deleteseginfo q a).
Proof.
  intros [Hd Hf Hl].
  assert (ids (fifo q) ++ (a :: D) ++ freelist_ q ≡ₚ ids (fifo q) ++ D ++ a :: freelist_ q) as HP by solve_perm.
  split; cbn; by rewrite <- ?HP.
Qed.

(** A new node between the nodes [P] and [B]. *)
Lemma mem_new D q P B :
  mem_ok D q -> q.(fifo) = P ++ B ->
  exists q1 n, newseginfo q = (q1, n) /\ q1.(total_) = q.(total_) /\ q1.(rcv_nxt_) = q.(rcv_nxt_) /\
    q1.(fifo) = q.(fifo) /\
    forall s, s.(self) = n -> mem_ok D ((push q1 n) <| fifo := P ++ s :: B |>).
Proof.
  intros [Hd Hf Hl] E. rewrite E, ids_app in *. unfold newseginfo.
  assert (forall x fl, (ids P ++ x :: ids B) ++ D ++ fl ≡ₚ (ids P ++ ids B) ++ D ++ x :: fl) as HP
    by (intros; solve_perm).
  destruct (freelist_ q) as [|x fl] eqn:Ef; eexists _, _; (split; [done|]); cbn; rewrite E;
    (split; [done|]); (split; [done|]); (split; [done|]); intros s Es; split; cbn;
    rewrite ?ids_app, ?ids_cons, ?Ef, ?Es, ?HP; try done.
  - rewrite app_nil_r in *. rewrite app_assoc. apply NoDup_app. split; [done|]. split; [|apply NoDup_singleton].
    intros y Hy ->%list_elem_of_singleton. rewrite Forall_forall in Hf. specialize (Hf _ Hy). cbn in Hf. lia.
  - rewrite app_nil_r in *. rewrite app_assoc. apply Forall_app. split; [|constructor; [lia|constructor]].
    eapply Forall_impl; [done|]. cbn. lia.
  - rewrite Hl. solve_perm.
  - rewrite Hl. solve_perm.
Qed.

(** ** Segments *)

Lemma sep_app l k :
  sep (l ++ k) <-> sep l /\ sep k /\ forall x y, x ∈ l -> y ∈ k -> x.(endseq_) < y.(startseq_).
Proof.
  unfold sep. rewrite Forall_app. split.
  - intros [Hs [Hl Hk]]. induction l as [|x l IH]; cbn in Hs.
    { split; [split; constructor|]. split; [done|]. set_solver. }
    apply StronglySorted_inv in Hs as [Hs Hx]. apply Forall_cons in Hl as [Hx' Hl].
    apply Forall_app in Hx as [Hx1 Hx2]. destruct (IH Hs Hl) as ([IH1 _] & _ & IH3).
    split; [split; [by constructor|by constructor]|]. split.
    + split; [|done]. clear -Hs. induction l as [|z l IH]; [done|]. apply StronglySorted_inv in Hs as [Hs _]. auto.
    + intros a b [->|Ha]%elem_of_cons Hb; [|by apply IH3]. rewrite Forall_forall in Hx2. by apply Hx2.
  - intros ([Hs1 Hl] & [Hs2 Hk] & Hlk). split; [|done].
    induction Hs1 as [|x l Hs1 IH Hx]; [done|]. apply Forall_cons in Hl as [Hx' Hl]. constructor.
    + apply IH; [done|]. intros a b Ha Hb. apply Hlk; set_solver.
    + apply Forall_app. split; [done|]. apply Forall_forall. intros b Hb. apply Hlk; set_solver.
Qed.

Lemma sep_nil : sep [].
Proof. split; constructor. Qed.

Lemma sep_cons s l :
  sep (s :: l) <-> s.(startseq_) < s.(endseq_) /\ sep l /\ forall y, y ∈ l -> s.(endseq_) < y.(startseq_).
Proof.
  change (s :: l) with ([s] ++ l). rewrite sep_app. split.
  - intros ([_ Hs] & Hl & H). apply Forall_cons in Hs as [Hs _]. split; [done|]. split; [done|].
    intros y Hy. apply H; set_solver.
  - intros (Hs & Hl & H). split; [split; repeat constructor; done|]. split; [done|].
    intros x y ->%list_elem_of_singleton. apply H.
Qed.

Lemma bytes_app l k : bytes (l ++ k) = bytes l + bytes k.
Proof. apply sum_Z_app. Qed.

Lemma bytes_cons s l : bytes (s :: l) = (s.(endseq_) - s.(startseq_)) + bytes l.
Proof. done. Qed.

(** ** Merging the new node with its neighbours *)

(** [q'] is [q] with the segments [l], among them [s]. *)
Definition resized q q' l s (a : addr) (b e : Z) : Prop :=
  mem_ok [] q' /\ q'.(fifo) = l /\ s.(self) = a /\ s.(startseq_) = b /\ s.(endseq_) = e /\
  q'.(total_) = q.(total_) /\ q'.(rcv_nxt_) = q.(rcv_nxt_).

Lemma unlink_ok D q l s k :
  mem_ok D q -> q.(fifo) = l ++ s :: k ->
  exists q', unlink q s.(self) = q' /\ mem_ok (s.(self) :: D) q' /\ q'.(fifo) = l ++ k /\
    q'.(total_) = q.(total_) /\ q'.(rcv_nxt_) = q.(rcv_nxt_).
Proof.
  intros Hm E. destruct (unlink_at D q l s k Hm E) as [h Eu].
  eexists. split; [exact Eu|]. split; [|done].
  eapply mem_same; [by eapply mem_unlink|done..].
Qed.

Lemma join_left_ok q P p n B :
  mem_ok [] q -> q.(fifo) = P ++ p :: n :: B ->
  exists q' s f, join_left q p n = Ok (q', Some p.(self), f) /\
    resized q q' (P ++ s :: B) s p.(self) p.(startseq_) n.(endseq_).
Proof.
  intros Hm E. assert (q.(fifo) = (P ++ [p]) ++ n :: B) as E' by (by rewrite <- app_assoc).
  unfold join_left. destruct (unlink_ok _ _ _ _ _ Hm E') as (q1 & -> & Hm1 & E1 & T1 & R1).
  rewrite <- app_assoc in E1. rewrite (update_at _ _ _ _ _ _ Hm1 E1). cbn [res_bind].
  eexists _, _, _. split; [done|]. split; [|by repeat split].
  apply mem_delete. eapply mem_update; [exact Hm1|]. by rewrite E1, !ids_app, !ids_cons.
Qed.

Lemma join_right_ok q P n b B :
  mem_ok [] q -> q.(fifo) = P ++ n :: b :: B ->
  exists q' s f, join_right q n b = Ok (q', Some b.(self), f) /\
    resized q q' (P ++ s :: B) s b.(self) n.(startseq_) b.(endseq_).
Proof.
  intros Hm E. unfold join_right. destruct (unlink_ok _ _ _ _ _ Hm E) as (q1 & -> & Hm1 & E1 & T1 & R1).
  rewrite (update_at _ _ _ _ _ _ Hm1 E1). cbn [res_bind].
  eexists _, _, _. split; [done|]. split; [|by repeat split].
  apply mem_delete. eapply mem_update; [exact Hm1|]. by rewrite E1, !ids_app, !ids_cons.
Qed.

Lemma fill_hole_ok q P p n b B :
  mem_ok [] q -> q.(fifo) = P ++ p :: n :: b :: B ->
  exists q' s f, fill_hole q p n b = Ok (q', Some p.(self), f) /\
    resized q q' (P ++ s :: B) s p.(self) p.(startseq_) b.(endseq_).
Proof.
  intros Hm E. assert (q.(fifo) = (P ++ [p]) ++ n :: b :: B) as E' by (by rewrite <- app_assoc).
  unfold fill_hole. destruct (unlink_ok _ _ _ _ _ Hm E') as (q1 & -> & Hm1 & E1 & T1 & R1).
  destruct (unlink_ok _ _ _ _ _ Hm1 E1) as (q2 & -> & Hm2 & E2 & T2 & R2).
  rewrite <- app_assoc in E2. rewrite (update_at _ _ _ _ _ _ Hm2 E2). cbn [res_bind].
  eexists _, _, _. split; [done|]. split; [|repeat split; cbn; congruence].
  apply mem_delete, mem_delete. eapply mem_same with (q := q2 <| fifo := _ |>); [|done..].
  destruct Hm2 as [Hd Hf Hl].
  assert (ids (fifo q2) ++ [self b; self n] ++ freelist_ q2 ≡ₚ
    ids (fifo q2) ++ [self n; self b] ++ freelist_ q2) as HP by solve_perm.
  eapply mem_update; [split; [by rewrite <- HP|by rewrite <- HP|done]|].
  by rewrite E2, !ids_app, !ids_cons.
Qed.

(** The new segment touches a neighbour. *)
Definition touches P B (start end_ : Z) : bool :=
  match last P with Some p => p.(endseq_) =? start | None => false end ||
  match head B with Some b => end_ =? b.(startseq_) | None => false end.

(** The segment [[start, end_)] was added to [q]. *)
Definition added q q' (start end_ : Z) : Prop :=
  rq_inv q' /\
  (forall x, covered q'.(fifo) x <-> covered q.(fifo) x \/ start <= x < end_) /\
  ((forall s, s ∈ q.(fifo) -> q.(rcv_nxt_) < s.(startseq_)) ->
   exists s, s ∈ q'.(fifo) /\
    (s.(startseq_) <= start /\ end_ <= s.(endseq_) \/ head q'.(fifo) = Some s) /\
    q'.(rcv_nxt_) = if s.(startseq_) <=? q.(rcv_nxt_) then s.(endseq_) else q.(rcv_nxt_)).

(** Neighbours of a place for [[start, end_)]. *)
Definition place P B (start end_ : Z) : Prop :=
  sep (P ++ B) /\ (forall x, x ∈ P -> x.(endseq_) <= start) /\ (forall x, x ∈ B -> end_ <= x.(startseq_)).

Lemma link_ok D q q1 P B n :
  mem_ok D q -> q.(fifo) = P ++ B -> q1.(fifo) = q.(fifo) ->
  link_between q1 (self <$> last P) n (self <$> head B) = Ok (q1 <| fifo := P ++ n :: B |>).
Proof.
  intros Hm E E1. unfold link_between.
  assert (forall o, get_opt q1 o = get_opt q o) as Hg
    by (intros [a|]; [|done]; cbn; unfold get; by rewrite E1).
  rewrite !Hg, E1. destruct (snoc_cases P) as [->|(P' & p & ->)].
  - destruct B as [|b B]; cbn; [done|]. cbn in E. rewrite (get_at _ _ [] _ _ Hm E), E. cbn.
    by rewrite decide_True.
  - rewrite last_snoc. cbn. rewrite <- app_assoc in E. cbn in E. rewrite (get_at _ _ _ _ _ Hm E). cbn.
    destruct (at_split P' p B id (proj1 (mem_ids _ _ _ _ _ Hm E))) as (_ & _ & _ & Eu & _).
    destruct B as [|b B]; cbn; [by rewrite E, Eu|].
    assert (q.(fifo) = (P' ++ [p]) ++ b :: B) as E' by (by rewrite <- app_assoc).
    rewrite (get_at _ _ _ _ _ Hm E'). cbn. rewrite E, Eu, <- E, E'.
    by destruct (at_split (P' ++ [p]) b B id (proj1 (mem_ids _ _ _ _ _ Hm E'))) as (_ & _ & -> & _).
Qed.

(** What the new segment becomes: on each side it stands alone or swallows the
    neighbour it touches. *)
Definition spans_left P (b : Z) P0 (st : Z) : Prop :=
  P = P0 /\ st = b /\ (forall x, x ∈ P -> x.(endseq_) < b) \/
  exists p, P = P0 ++ [p] /\ p.(endseq_) = b /\ st = p.(startseq_).

Definition spans_right B (e : Z) B0 (en : Z) : Prop :=
  B = B0 /\ en = e /\ (forall x, x ∈ B -> e < x.(startseq_)) \/
  exists x, B = x :: B0 /\ x.(startseq_) = e /\ en = x.(endseq_).

Lemma spans_left_alone P B b e :
  place P B b e -> match last P with Some p => p.(endseq_) =? b | None => false end = false ->
  spans_left P b P b.
Proof.
  intros (Hs & HP & _) Ht. left. split; [done|]. split; [done|]. intros x Hx.
  destruct (snoc_cases P) as [->|(P' & p & ->)]; [set_solver|].
  rewrite last_snoc in Ht. apply Z.eqb_neq in Ht. pose proof (HP p ltac:(set_solver)) as Hp.
  apply sep_app in Hs as (Hs & _ & _). apply sep_app in Hs as (_ & Hs1 & Hs).
  apply sep_cons in Hs1 as (Hpp & _). apply elem_of_app in Hx as [Hx| ->%list_elem_of_singleton]; [|lia].
  specialize (Hs x p Hx ltac:(set_solver)). lia.
Qed.

Lemma spans_right_alone P B b e :
  place P B b e -> match head B with Some x => e =? x.(startseq_) | None => false end = false ->
  spans_right B e B e.
Proof.
  intros (Hs & _ & HB) Ht. left. split; [done|]. split; [done|]. intros x Hx.
  destruct B as [|y B]; [set_solver|]. cbn in Ht. apply Z.eqb_neq in Ht.
  pose proof (HB y ltac:(set_solver)) as Hy. apply sep_app in Hs as (_ & Hs & _).
  apply sep_cons in Hs as (Hyy & _ & Hs). apply elem_of_cons in Hx as [->|Hx]; [lia|].
  specialize (Hs x Hx). lia.
Qed.

Lemma spans_ok P B b e P0 s B0 :
  b < e -> place P B b e -> spans_left P b P0 s.(startseq_) -> spans_right B e B0 s.(endseq_) ->
  sep (P0 ++ s :: B0) /\ bytes (P0 ++ s :: B0) = bytes (P ++ B) + (e - b) /\
  (forall x, covered (P0 ++ s :: B0) x <-> covered (P ++ B) x \/ b <= x < e) /\
  s.(startseq_) <= b /\ e <= s.(endseq_).
Proof.
  intros Hbe (Hs & HP & HB) HL HR.
  assert (sep P0 /\ s.(startseq_) <= b /\ (forall x, x ∈ P0 -> x.(endseq_) < s.(startseq_)) /\
    bytes P = bytes P0 + (b - s.(startseq_)) /\
    (forall x, x < b -> covered P x <-> covered P0 x \/ s.(startseq_) <= x) /\
    (forall x, covered P x -> x < b)) as (HsP & Hsb & HP0 & EbP & EcP & HcP).
  { apply sep_app in Hs as (Hs & _ & _). destruct HL as [(-> & -> & HL)|(p & -> & Hp & ->)].
    - split; [done|]. split; [lia|]. split; [done|]. split; [lia|]. split.
      + intros x Hx. split; [by left|intros [?|?]; [done|lia]].
      + intros x (y & Hy & Hx). specialize (HL y Hy). lia.
    - apply sep_app in Hs as (Hs1 & Hs2 & Hs3). apply sep_cons in Hs2 as (Hpp & _).
      split; [done|]. split; [lia|]. split; [intros x Hx; apply Hs3; set_solver|].
      split; [rewrite bytes_app, bytes_cons; change (bytes []) with 0; lia|]. split.
      + intros x Hx. rewrite covered_app, covered_cons, covered_nil. intuition lia.
      + intros x (y & Hy & Hx). specialize (HP y Hy). lia. }
  assert (sep B0 /\ e <= s.(endseq_) /\ (forall x, x ∈ B0 -> s.(endseq_) < x.(startseq_)) /\
    bytes B = bytes B0 + (s.(endseq_) - e) /\
    (forall x, e <= x -> covered B x <-> covered B0 x \/ x < s.(endseq_)) /\
    (forall x, covered B x -> e <= x)) as (HsB & Hse & HB0 & EbB & EcB & HcB).
  { apply sep_app in Hs as (_ & Hs & _). destruct HR as [(-> & -> & HR)|(y & -> & Hy & ->)].
    - split; [done|]. split; [lia|]. split; [done|]. split; [lia|]. split.
      + intros x Hx. split; [by left|intros [?|?]; [done|lia]].
      + intros x (y & Hy & Hx). specialize (HR y Hy). lia.
    - apply sep_cons in Hs as (Hyy & Hs2 & Hs3).
      split; [done|]. split; [lia|]. split; [done|].
      split; [rewrite bytes_cons; lia|]. split.
      + intros x Hx. rewrite covered_cons. intuition lia.
      + intros x (z & Hz & Hx). specialize (HB z Hz). lia. }
  split; [|split; [rewrite !bytes_app, bytes_cons; lia|split; [|done]]].
  - apply sep_app. split; [done|]. split; [apply sep_cons; split; [lia|done]|].
    intros x y Hx [->|Hy]%elem_of_cons; [by apply HP0|]. specialize (HP0 x Hx). specialize (HB0 y Hy). lia.
  - intros x. rewrite !covered_app, covered_cons.
    assert (covered P0 x -> x < s.(startseq_)) as HcP0 by (intros (y & Hy & Hx); specialize (HP0 y Hy); lia).
    assert (covered B0 x -> s.(endseq_) <= x) as HcB0 by (intros (y & Hy & Hx); specialize (HB0 y Hy); lia).
    specialize (EcP x). specialize (EcB x). specialize (HcP x). specialize (HcB x).
    destruct (Z.lt_ge_cases x b); destruct (Z.lt_ge_cases x e); intuition lia.
Qed.

Lemma get_opt_last q P s k :
  mem_ok [] q -> q.(fifo) = P ++ s :: k -> get_opt q (self <$> last P) = Ok (last P).
Proof.
  intros Hm E. destruct (snoc_cases P) as [->|(P' & p & ->)]; [done|]. rewrite last_snoc. cbn.
  rewrite <- app_assoc in E. by rewrite (get_at _ _ _ _ _ Hm E).
Qed.

Lemma get_opt_head q P B : mem_ok [] q -> q.(fifo) = P ++ B -> get_opt q (self <$> head B) = Ok (head B).
Proof. intros Hm E. destruct B as [|b B]; [done|]. cbn. by rewrite (get_at _ _ _ _ _ Hm E). Qed.

(** [coalesce] merges the new node with the neighbours it touches. *)
Lemma coalesce_ok q P n B :
  mem_ok [] q -> q.(fifo) = P ++ n :: B -> place P B n.(startseq_) n.(endseq_) ->
  touches P B n.(startseq_) n.(endseq_) = true ->
  exists q' f s P0 B0, coalesce q (self <$> last P) n.(self) (self <$> head B) = Ok (q', f) /\
    mem_ok [] q' /\ q'.(fifo) = P0 ++ s :: B0 /\ q'.(total_) = q.(total_) /\
    spans_left P n.(startseq_) P0 s.(startseq_) /\ spans_right B n.(endseq_) B0 s.(endseq_) /\
    q'.(rcv_nxt_) = if s.(startseq_) <=? q.(rcv_nxt_) then s.(endseq_) else q.(rcv_nxt_).
Proof.
  intros Hm E Hpl Ht. unfold coalesce. rewrite (get_opt_last _ _ _ _ Hm E), (get_at _ _ _ _ _ Hm E).
  assert (q.(fifo) = (P ++ [n]) ++ B) as E' by (by rewrite <- app_assoc).
  rewrite (get_opt_head _ _ _ Hm E'). cbn [res_bind].
  pose proof (spans_left_alone P B _ _ Hpl) as HL. pose proof (spans_right_alone P B _ _ Hpl) as HR.
  unfold touches in Ht.
  set (fin := fun '(rq, p, flags) => let! p := deref p in let! s := get rq p in
    Ok (if s.(startseq_) <=? rq.(rcv_nxt_) then rq <| rcv_nxt_ := s.(endseq_) |> else rq, flags) : res (t * Z)).
  assert (forall q1 s a b e f P0 B0, resized q q1 (P0 ++ s :: B0) s a b e ->
    spans_left P n.(startseq_) P0 b -> spans_right B n.(endseq_) B0 e ->
    exists q' f' s P0 B0, fin (q1, Some a, f) = Ok (q', f') /\
    mem_ok [] q' /\ q'.(fifo) = P0 ++ s :: B0 /\ q'.(total_) = q.(total_) /\
    spans_left P n.(startseq_) P0 s.(startseq_) /\ spans_right B n.(endseq_) B0 s.(endseq_) /\
    q'.(rcv_nxt_) = if s.(startseq_) <=? q.(rcv_nxt_) then s.(endseq_) else q.(rcv_nxt_)) as Hfin.
  { intros q1 s a b e f P0 B0 (Hm1 & E1 & Ea & Eb & Ee & T1 & R1) HsL HsR. subst a b e.
    unfold fin. cbn [deref res_bind]. rewrite (get_at _ _ _ _ _ Hm1 E1). cbn [res_bind].
    eexists _, _, s, P0, B0. split; [done|]. rewrite R1.
    destruct (_ <=? _); (split; [by eapply mem_same|]); by repeat split. }
  destruct (match last P with Some p => _ | None => _ end) eqn:EL in Ht;
    destruct (match head B with Some b => _ | None => _ end) eqn:ER in Ht; try done.
  - destruct (snoc_cases P) as [->|(P' & p & ->)]; [done|]. destruct B as [|b B]; [done|].
    rewrite last_snoc in *. cbn [head] in *. rewrite EL, ER. apply Z.eqb_eq in EL, ER.
    rewrite <- app_assoc in E. destruct (fill_hole_ok _ _ _ _ _ _ Hm E) as (q1 & s & f & -> & Hq1).
    cbn [res_bind]. eapply (Hfin q1 s _ _ _ f P' B Hq1); right; [by exists p|by exists b].
  - destruct (snoc_cases P) as [->|(P' & p & ->)]; [done|]. rewrite last_snoc in *. rewrite EL.
    apply Z.eqb_eq in EL. rewrite <- app_assoc in E.
    destruct (join_left_ok _ _ _ _ _ Hm E) as (q1 & s & f & E1 & Hq1).
    destruct B as [|b B]; cbn [head] in *; rewrite ?ER, E1; cbn [res_bind];
      (eapply (Hfin q1 s _ _ _ f P' _ Hq1); [right; by exists p|by apply HR]).
  - destruct B as [|b B]; [done|]. cbn [head] in *. rewrite ER. apply Z.eqb_eq in ER.
    destruct (join_right_ok _ _ _ _ _ Hm E) as (q1 & s & f & E1 & Hq1).
    destruct (snoc_cases P) as [->|(P' & p & ->)]; [|rewrite last_snoc in *]; cbn in EL; rewrite ?EL, E1; cbn [res_bind last];
      (eapply (Hfin q1 s _ _ _ f _ B Hq1); [by apply HL|right; by exists b]).
Qed.

Lemma endfast_ok q P B start end_ fl rf cnt :
  mem_ok [] q -> q.(fifo) = P ++ B -> q.(total_) = bytes q.(fifo) -> start < end_ ->
  place P B start end_ ->
  exists q' f, endfast q (self <$> last P) (self <$> head B) start end_ fl rf cnt
      (touches P B start end_) = Ok (q', f) /\ added q q' start end_.
Proof.
  intros Hm E Ht Hlt Hpl. unfold endfast.
  destruct (mem_new [] q P B Hm E) as (q1 & n & -> & T1 & R1 & F1 & Hm1).
  rewrite (link_ok [] q (push q1 n) P B _ Hm E F1). cbn [res_bind].
  set (nv := mkSeg n start end_ fl rf cnt). specialize (Hm1 nv eq_refl).
  set (q2 := (push q1 n) <| fifo := P ++ nv :: B |>) in *.
  set (q3 := q2 <| total_ := q2.(total_) + (end_ - start) |>).
  assert (mem_ok [] q3) as Hm3 by (by eapply mem_same).
  assert (exists q' f s P0 B0, (if touches P B start end_ then coalesce q3 (self <$> last P) n (self <$> head B)
      else Ok (if start <=? q3.(rcv_nxt_) then q3 <| rcv_nxt_ := end_ |> else q3, fl)) = Ok (q', f) /\
    mem_ok [] q' /\ q'.(fifo) = P0 ++ s :: B0 /\ q'.(total_) = q3.(total_) /\
    spans_left P start P0 s.(startseq_) /\ spans_right B end_ B0 s.(endseq_) /\
    q'.(rcv_nxt_) = if s.(startseq_) <=? q.(rcv_nxt_) then s.(endseq_) else q.(rcv_nxt_))
    as (q' & f & s & P0 & B0 & Eq & Hm' & E' & T' & HL & HR & R').
  { destruct (touches P B start end_) eqn:Et.
    - destruct (coalesce_ok q3 P nv B Hm3 eq_refl Hpl Et) as (q' & f & s & P0 & B0 & H).
      exists q', f, s, P0, B0. rewrite <- R1. exact H.
    - unfold touches in Et. apply orb_false_iff in Et as [Et1 Et2].
      eexists _, _, nv, P, B. split; [done|]. rewrite <- R1.
      pose proof (spans_left_alone P B start end_ Hpl Et1). pose proof (spans_right_alone P B start end_ Hpl Et2).
      change (rcv_nxt_ q3) with (rcv_nxt_ q1). cbn [startseq_ endseq_ nv].
      destruct (start <=? rcv_nxt_ q1); (split; [by eapply mem_same|]); by repeat split. }
  exists q', f. split; [exact Eq|].
  destruct (spans_ok P B start end_ P0 s B0 Hlt Hpl HL HR) as (Hsep & Hb & Hc & Hs1 & Hs2).
  split; [|split].
  - split; [done|by rewrite E'|]. rewrite T', E', Hb. change (total_ q3) with (total_ q1 + (end_ - start)).
    by rewrite T1, Ht, E.
  - intros x. by rewrite E', E.
  - intros _. exists s. rewrite E'. split; [set_solver|]. split; [by left|done].
Qed.

(** ** The search and the overlapped segments *)

(** The segments before, overlapping and behind [[start, end_)]. *)
Definition split3 l A M B (start end_ : Z) : Prop :=
  l = A ++ M ++ B /\ (forall x, x ∈ A -> x.(endseq_) <= start) /\
  (forall x, x ∈ M -> start < x.(endseq_) /\ x.(startseq_) < end_) /\
  (forall x, x ∈ B -> end_ <= x.(startseq_)).

Lemma split3_ex l start end_ : sep l -> start < end_ -> exists A M B, split3 l A M B start end_.
Proof.
  intros Hs Hlt. induction l as [|s l IH].
  { exists [], [], []. split; [done|]. set_solver. }
  apply sep_cons in Hs as (Hss & Hs & Hsl). destruct (IH Hs) as (A & M & B & -> & HA & HM & HB).
  destruct (Z.le_gt_cases (endseq_ s) start) as [H1|H1].
  - exists (s :: A), M, B. split; [done|]. split; [|done]. intros x [->|Hx]%elem_of_cons; auto.
  - assert (A = []) as ->.
    { destruct A as [|a A]; [done|]. specialize (HA a ltac:(set_solver)).
      specialize (Hsl a ltac:(set_solver)).
      apply sep_app in Hs as (Hs & _). apply sep_cons in Hs as (? & _). lia. }
    destruct (Z.lt_ge_cases (startseq_ s) end_) as [H2|H2].
    + exists [], (s :: M), B. split; [done|]. split; [set_solver|]. split; [|done].
      intros x [->|Hx]%elem_of_cons; auto.
    + assert (M = []) as ->.
      { destruct M as [|a M]; [done|]. specialize (HM a ltac:(set_solver)).
        specialize (Hsl a ltac:(set_solver)). lia. }
      exists [], [], (s :: B). split; [done|]. split; [set_solver|]. split; [set_solver|].
      intros x [->|Hx]%elem_of_cons; auto.
Qed.

Lemma search_q_ok l k end_ :
  (forall x, x ∈ l -> x.(startseq_) < end_) -> (forall x, x ∈ k -> end_ <= x.(startseq_)) ->
  search_q (l ++ k) end_ = self <$> head k.
Proof.
  intros Hl Hk. induction l as [|s l IH]; cbn.
  - destruct k as [|s k]; [done|]. cbn. specialize (Hk s ltac:(set_solver)).
    by rewrite (proj2 (Z.ltb_ge _ _) Hk).
  - rewrite (proj2 (Z.ltb_lt _ _) (Hl s ltac:(set_solver))). apply IH. set_solver.
Qed.

Lemma search_p_ok l k start :
  (forall x, x ∈ l -> x.(endseq_) <= start) -> (forall x, x ∈ k -> start < x.(endseq_)) ->
  search_p (rev (l ++ k)) start = self <$> last l.
Proof.
  intros Hl Hk. induction k as [|s k IH] using rev_ind.
  - rewrite app_nil_r. destruct (snoc_cases l) as [->|(l' & s & ->)]; [done|].
    rewrite rev_app_distr, last_snoc. cbn. specialize (Hl s ltac:(set_solver)).
    by rewrite (proj2 (Z.ltb_ge _ _) Hl).
  - rewrite app_assoc, rev_app_distr. cbn. rewrite (proj2 (Z.ltb_lt _ _) (Hk s ltac:(set_solver))).
    apply IH. set_solver.
Qed.

(** Completely overlapped, and the exact duplicate. *)
Definition contained (start end_ : Z) s : Prop := start <= s.(startseq_) /\ s.(endseq_) <= end_.
Definition exact (start end_ : Z) s : Prop := start = s.(startseq_) /\ end_ = s.(endseq_).

#[local] Instance contained_dec start end_ s : Decision (contained start end_ s).
Proof. apply and_dec; apply _. Defined.

Lemma containedb start end_ s :
  (start <=? s.(startseq_)) && (s.(endseq_) <=? end_) = bool_decide (contained start end_ s).
Proof.
  unfold contained. destruct (bool_decide_reflect (start <= startseq_ s /\ endseq_ s <= end_)) as [H|H].
  - rewrite andb_true_iff, !Z.leb_le. done.
  - apply not_true_iff_false. by rewrite andb_true_iff, !Z.leb_le.
Qed.

Lemma kill_loop_ok rq K M B start end_ fl cnt alt :
  mem_ok [] rq -> rq.(fifo) = K ++ M ++ B -> rq.(total_) = bytes rq.(fifo) ->
  (forall x, x ∈ M -> ~ exact start end_ x) ->
  exists rq' fl' cnt', kill_loop rq (M ++ B) (self <$> head B) start end_ fl cnt alt =
      Ok (Done rq' fl' cnt' (alt || bool_decide (Exists (contained start end_) M))) /\
    mem_ok [] rq' /\ rq'.(fifo) = K ++ filter (fun s => ~ contained start end_ s) M ++ B /\
    rq'.(total_) = bytes rq'.(fifo) /\ rq'.(rcv_nxt_) = rq.(rcv_nxt_).
Proof.
  revert rq K fl cnt alt. induction M as [|s M IH]; intros rq K fl cnt alt Hm E Ht Hex; cbn [app kill_loop].
  - exists rq, fl, cnt. rewrite bool_decide_false by (by intros H; inversion H). rewrite orb_false_r.
    split; [|done]. destruct B as [|b B]; [done|]. cbn [kill_loop head]. by rewrite decide_True.
  - assert (forall b, head B = Some b -> self b <> self s) as Hne.
    { intros b Hb Heq. destruct B as [|b' B]; [done|]. injection Hb as ->. cbn in E.
      apply (proj2 (mem_ids _ _ _ _ _ Hm E)). rewrite <- Heq, ids_app, ids_cons. set_solver. }
    rewrite decide_False by (destruct B as [|b B]; [done|]; cbn; intros [= Hb]; by apply (Hne b)).
    assert ((start =? startseq_ s) && (end_ =? endseq_ s) = false) as ->.
    { apply not_true_iff_false. rewrite andb_true_iff, !Z.eqb_eq. apply (Hex s). set_solver. }
    rewrite containedb. destruct (bool_decide_reflect (contained start end_ s)) as [Hc|Hc].
    + set (rq0 := rq <| total_ := _ |>).
      assert (mem_ok [] rq0) as Hm0 by (by eapply mem_same).
      destruct (fs_remove_at [] rq0 K s (M ++ B) Hm0 E) as [h ->].
      set (rq1 := deleteseginfo _ _).
      assert (mem_ok [] rq1) as Hm1.
      { apply mem_delete. eapply mem_same; [by eapply (mem_unlink [] rq0)|done..]. }
      destruct (IH rq1 K (Z.lor fl (pflags_ s)) (cnt + cnt_ s) true Hm1 eq_refl) as (rq' & fl' & cnt' & Ek & H).
      { cbn. rewrite Ht, E, !bytes_app, ?bytes_cons, ?bytes_app. lia. }
      { intros x Hx. apply Hex. set_solver. }
      exists rq', fl', cnt'. rewrite filter_cons_False by tauto.
      rewrite (bool_decide_true (Exists _ (s :: M))) by (by left). rewrite orb_true_r. done.
    + destruct (IH rq (K ++ [s]) fl cnt alt Hm) as (rq' & fl' & cnt' & Ek & Hm' & E' & H).
      { by rewrite <- app_assoc. }
      { done. }
      { intros x Hx. apply Hex. set_solver. }
      exists rq', fl', cnt'. rewrite filter_cons_True by done. rewrite Ek.
      rewrite <- app_assoc in E'. split; [|done]. do 2 f_equal. f_equal. apply bool_decide_ext.
      rewrite Exists_cons. tauto.
Qed.

(** ** Merging with partly overlapped segments *)

(** [q] with the segment [x] grown to [x']. *)
Definition grown q q' l x x' k : Prop :=
  mem_ok [] q' /\ q'.(fifo) = l ++ x' :: k /\ x'.(self) = x.(self) /\ q'.(rcv_nxt_) = q.(rcv_nxt_) /\
  q'.(total_) = q.(total_) + (x.(startseq_) - x'.(startseq_)) + (x'.(endseq_) - x.(endseq_)).

Lemma grow q l x k (g : seginfo -> seginfo) z :
  mem_ok [] q -> q.(fifo) = l ++ x :: k -> (g x).(self) = x.(self) ->
  z = q.(total_) + (x.(startseq_) - (g x).(startseq_)) + ((g x).(endseq_) - x.(endseq_)) ->
  exists q', update (q <| total_ := z |>) x.(self) g = Ok q' /\ grown q q' l x (g x) k.
Proof.
  intros Hm E Hg Hz. assert (mem_ok [] (q <| total_ := z |>)) as Hm' by (by eapply mem_same).
  rewrite (update_at _ _ l x k g Hm' E). eexists. split; [done|]. split; [|done].
  eapply mem_update; [done|]. cbn. by rewrite E, !ids_app, !ids_cons, Hg.
Qed.

Lemma grown_trans q q1 q2 l x x1 x2 k :
  grown q q1 l x x1 k -> grown q1 q2 l x1 x2 k -> grown q q2 l x x2 k.
Proof.
  intros (H1 & H2 & H3 & H4 & H5) (G1 & G2 & G3 & G4 & G5).
  split; [done|]. split; [done|]. split; [congruence|]. split; [congruence|lia].
Qed.

Lemma grown_refl q l x k : mem_ok [] q -> q.(fifo) = l ++ x :: k -> grown q q l x x k.
Proof. intros Hm E. split; [done|]. split; [done|]. split; [done|]. split; [done|lia]. Qed.

Lemma total_id q : q <| total_ := q.(total_) |> = q.
Proof. by destruct q. Qed.

(** A write that does not change the bounds of a segment. *)
Lemma grow_same q l x k (g : seginfo -> seginfo) :
  mem_ok [] q -> q.(fifo) = l ++ x :: k -> (g x).(self) = x.(self) ->
  (g x).(startseq_) = x.(startseq_) -> (g x).(endseq_) = x.(endseq_) ->
  exists q', update q x.(self) g = Ok q' /\ grown q q' l x (g x) k.
Proof.
  intros Hm E Hg H1 H2. destruct (grow q l x k g q.(total_) Hm E Hg) as (q' & Eu & Hq'); [lia|].
  rewrite total_id in Eu. by exists q'.
Qed.

Lemma merge_left_hit q A x k start fl cnt :
  mem_ok [] q -> q.(fifo) = A ++ x :: k -> A = [] \/ x.(startseq_) < start ->
  exists q' x', merge_left q (self <$> last A) start fl cnt =
      Ok (q', Some x.(self), x.(endseq_), cnt - 1, true) /\ grown q q' A x x' k /\
    x'.(startseq_) = Z.min start x.(startseq_) /\ x'.(endseq_) = x.(endseq_).
Proof.
  intros Hm E Hor. unfold merge_left.
  assert (match self <$> last A with
    | None => Ok true
    | Some a => let! n := deref (next_ q a) in let! s := get q n in Ok (s.(startseq_) <? start)
    end = Ok true) as ->.
  { destruct (snoc_cases A) as [->|(A' & a & ->)]; [done|]. rewrite last_snoc. cbn.
    rewrite <- app_assoc in E. rewrite (next_at _ _ _ _ _ Hm E). cbn.
    assert (fifo q = (A' ++ [a]) ++ x :: k) as E' by (by rewrite <- app_assoc).
    rewrite (get_at _ _ _ _ _ Hm E'). cbn. destruct Hor as [H|H]; [by destruct A'|].
    by rewrite (proj2 (Z.ltb_lt _ _) H). }
  assert (match self <$> last A with None => head_ q | Some a => next_ q a end = Some x.(self)) as ->.
  { destruct (snoc_cases A) as [->|(A' & a & ->)]; [unfold head_; by rewrite E|]. rewrite last_snoc. cbn.
    rewrite <- app_assoc in E. by rewrite (next_at _ _ _ _ _ Hm E). }
  cbn [res_bind deref]. rewrite (get_at _ _ _ _ _ Hm E). cbn [res_bind].
  assert (exists q1 x1, (if start <? x.(startseq_) then
      update (q <| total_ := q.(total_) + (x.(startseq_) - start) |>) x.(self) (fun s => s <| startseq_ := start |>)
      else Ok q) = Ok q1 /\ grown q q1 A x x1 k /\
      x1.(startseq_) = Z.min start x.(startseq_) /\ x1.(endseq_) = x.(endseq_)) as (q1 & x1 & E1 & G1 & S1 & S2).
  { destruct (Z.ltb_spec start x.(startseq_)) as [Hlt|Hge].
    - edestruct (grow q A x k (fun s => s <| startseq_ := start |>)) as (q1 & Eu & Hq1); [done|done|done|shelve|].
      exists q1, (x <| startseq_ := start |>). split; [exact Eu|]. split; [done|]. cbn. split; [lia|done].
      Unshelve. cbn. lia.
    - exists q, x. split; [done|]. split; [by apply grown_refl|]. split; [lia|done]. }
  lazymatch goal with |- context [if _ then update ?a ?b ?c else Ok ?d] =>
    change (if start <? startseq_ x then update a b c else Ok d) with
      (if start <? startseq_ x then update (q <| total_ := q.(total_) + (x.(startseq_) - start) |>) x.(self)
         (fun s => s <| startseq_ := start |>) else Ok q) end.
  rewrite E1. cbn [res_bind]. pose proof G1 as (Hm1 & F1 & Es1 & _). rewrite <- Es1.
  destruct (grow_same q1 A x1 k (fun s => s <| pflags_ := Z.lor s.(pflags_) fl |> <| cnt_ := s.(cnt_) + 1 |>) Hm1 F1)
    as (q2 & E2 & G2); [done..|].
  rewrite E2. cbn [res_bind]. eexists q2, _. split; [done|]. split; [by eapply grown_trans|done].
Qed.

Lemma merge_left_miss q A x k start fl cnt :
  mem_ok [] q -> q.(fifo) = A ++ x :: k -> A <> [] -> start <= x.(startseq_) ->
  merge_left q (self <$> last A) start fl cnt = Ok (q, self <$> last A, start, cnt, false).
Proof.
  intros Hm E HA Hx. unfold merge_left. destruct (snoc_cases A) as [->|(A' & a & ->)]; [done|].
  rewrite last_snoc. cbn. rewrite <- app_assoc in E. rewrite (next_at _ _ _ _ _ Hm E). cbn.
  assert (fifo q = (A' ++ [a]) ++ x :: k) as E' by (by rewrite <- app_assoc).
  rewrite (get_at _ _ _ _ _ Hm E'). cbn. by rewrite (proj2 (Z.ltb_ge _ _) Hx).
Qed.

Lemma merge_right_hit q l y B end_ fl nm :
  mem_ok [] q -> q.(fifo) = l ++ y :: B -> B = [] \/ end_ < y.(endseq_) ->
  exists q' y', merge_right q (self <$> head B) end_ fl nm =
      Ok (q', Some y.(self), y.(startseq_), true) /\ grown q q' l y y' B /\
    y'.(endseq_) = Z.max end_ y.(endseq_) /\ y'.(startseq_) = y.(startseq_).
Proof.
  intros Hm E Hor. unfold merge_right.
  assert (fifo q = (l ++ [y]) ++ B) as E' by (by rewrite <- app_assoc).
  assert (match self <$> head B with
    | None => Ok true
    | Some a => let! n := deref (prev_ q a) in let! s := get q n in Ok (end_ <? s.(endseq_))
    end = Ok true) as ->.
  { destruct B as [|b B]; [done|]. cbn. rewrite (prev_at _ _ _ _ _ Hm E'), last_snoc. cbn.
    rewrite (get_at _ _ _ _ _ Hm E). cbn. destruct Hor as [H|H]; [done|].
    by rewrite (proj2 (Z.ltb_lt _ _) H). }
  assert (match self <$> head B with None => tail_ q | Some a => prev_ q a end = Some y.(self)) as ->.
  { destruct B as [|b B]; cbn; [unfold tail_; by rewrite E, last_snoc|].
    by rewrite (prev_at _ _ _ _ _ Hm E'), last_snoc. }
  cbn [res_bind deref]. rewrite (get_at _ _ _ _ _ Hm E). cbn [res_bind].
  assert (exists q1 y1, (if y.(endseq_) <? end_ then
      update (q <| total_ := q.(total_) + (end_ - y.(endseq_)) |>) y.(self) (fun s => s <| endseq_ := end_ |>)
      else Ok q) = Ok q1 /\ grown q q1 l y y1 B /\
      y1.(endseq_) = Z.max end_ y.(endseq_) /\ y1.(startseq_) = y.(startseq_)) as (q1 & y1 & E1 & G1 & S1 & S2).
  { destruct (Z.ltb_spec y.(endseq_) end_) as [Hlt|Hge].
    - edestruct (grow q l y B (fun s => s <| endseq_ := end_ |>)) as (q1 & Eu & Hq1); [done|done|done|shelve|].
      exists q1, (y <| endseq_ := end_ |>). split; [exact Eu|]. split; [done|]. cbn. split; [lia|done].
      Unshelve. cbn. lia.
    - exists q, y. split; [done|]. split; [by apply grown_refl|]. split; [lia|done]. }
  lazymatch goal with |- context [if _ then update ?a ?b ?c else Ok ?d] =>
    change (if endseq_ y <? end_ then update a b c else Ok d) with
      (if endseq_ y <? end_ then update (q <| total_ := q.(total_) + (end_ - y.(endseq_)) |>) y.(self)
         (fun s => s <| endseq_ := end_ |>) else Ok q) end.
  rewrite E1. cbn [res_bind]. pose proof G1 as (Hm1 & F1 & Es1 & _). rewrite <- Es1.
  destruct (grow_same q1 l y1 B (fun s => s <| pflags_ := Z.lor s.(pflags_) fl |>) Hm1 F1)
    as (q2 & E2 & G2); [done..|].
  rewrite E2. cbn [res_bind]. eexists q2, _. split; [done|]. split; [by eapply grown_trans|done].
Qed.

Lemma merge_right_miss q l y B end_ fl nm :
  mem_ok [] q -> q.(fifo) = l ++ y :: B -> B <> [] -> y.(endseq_) <= end_ ->
  merge_right q (self <$> head B) end_ fl nm = Ok (q, self <$> head B, end_, nm).
Proof.
  intros Hm E HB Hy. unfold merge_right. destruct B as [|b B]; [done|].
  assert (fifo q = (l ++ [y]) ++ b :: B) as E' by (by rewrite <- app_assoc).
  cbn. rewrite (prev_at _ _ _ _ _ Hm E'), last_snoc. cbn.
  rewrite (get_at _ _ _ _ _ Hm E). cbn. by rewrite (proj2 (Z.ltb_ge _ _) Hy).
Qed.

(** At most one segment sticks out on each side. *)
Lemma overlap_cases A M B start end_ :
  sep (A ++ M ++ B) -> start < end_ -> split3 (A ++ M ++ B) A M B start end_ ->
  (forall x, x ∈ M -> ~ contained start end_ x) ->
  M = [] \/ (exists x, M = [x]) \/
  exists x y, M = [x; y] /\ x.(startseq_) < start /\ end_ < y.(endseq_) /\ x.(endseq_) < y.(startseq_).
Proof.
  intros Hs Hlt (_ & _ & HM & _) Hc. apply sep_app in Hs as (_ & Hs & _). apply sep_app in Hs as (Hs & _ & _).
  unfold contained in Hc. destruct M as [|x M]; [by left|]. right. destruct M as [|y M]; [left; by exists x|].
  right. apply sep_cons in Hs as (Hx & Hs & Hxy). pose proof (Hxy y ltac:(set_solver)).
  pose proof (Hc x ltac:(set_solver)). pose proof (Hc y ltac:(set_solver)).
  pose proof (HM x ltac:(set_solver)). pose proof (HM y ltac:(set_solver)).
  apply sep_cons in Hs as (Hy & Hs & Hyz). exists x, y. destruct M as [|z M].
  - split; [done|]. lia.
  - exfalso. pose proof (Hyz z ltac:(set_solver)). pose proof (HM z ltac:(set_solver)).
    apply sep_cons in Hs as (Hz & _). lia.
Qed.

(** A segment whose bounds did not change. *)
Lemma grown_same q q' l x x' k :
  grown q q' l x x' k -> q.(fifo) = l ++ x :: k ->
  x'.(startseq_) = x.(startseq_) -> x'.(endseq_) = x.(endseq_) ->
  q'.(total_) = q.(total_) /\ bytes q'.(fifo) = bytes q.(fifo) /\ (sep q.(fifo) -> sep q'.(fifo)) /\
  (forall z, covered q'.(fifo) z <-> covered q.(fifo) z) /\
  ((forall s, s ∈ q.(fifo) -> q.(rcv_nxt_) < s.(startseq_)) ->
   forall s, s ∈ q'.(fifo) -> q'.(rcv_nxt_) < s.(startseq_)).
Proof.
  intros (Hm & E' & _ & R & T) E S1 S2. rewrite E, E', R. split; [lia|].
  split; [rewrite !bytes_app, !bytes_cons; lia|]. split.
  - rewrite !sep_app, !sep_cons, S1, S2. intros (H1 & (H2 & H3 & H4) & H5).
    split; [done|]. split; [done|]. intros a b Ha [->|Hb]%elem_of_cons; [|apply H5; set_solver].
    rewrite S1. apply H5; set_solver.
  - split.
    + intros z. by rewrite !covered_app, !covered_cons, S1, S2.
    + intros H s Hs. apply elem_of_app in Hs as [Hs|[->|Hs]%elem_of_cons]; [apply H; set_solver| |apply H; set_solver].
      rewrite S1. apply H. set_solver.
Qed.

(** A block that meets a covered interval contains it. *)
Lemma block_contains l s b e :
  sep l -> s ∈ l -> (forall x, b <= x < e -> covered l x) ->
  s.(startseq_) < e -> b < s.(endseq_) -> s.(startseq_) <= b /\ e <= s.(endseq_).
Proof.
  intros Hs Hin Hc H1 H2. apply list_elem_of_split in Hin as (l1 & l2 & ->).
  apply sep_app in Hs as (Hs1 & Hs2 & Hs3). apply sep_cons in Hs2 as (Hss & Hs2 & Hs4). split.
  - destruct (Z.le_gt_cases s.(startseq_) b) as [|Hlt]; [done|]. exfalso.
    destruct (Hc (s.(startseq_) - 1)) as (y & Hy & Hyx); [lia|].
    apply elem_of_app in Hy as [Hy|[->|Hy]%elem_of_cons]; [|lia|specialize (Hs4 y Hy); lia].
    specialize (Hs3 y s Hy ltac:(set_solver)). lia.
  - destruct (Z.le_gt_cases e s.(endseq_)) as [|Hlt]; [done|]. exfalso.
    destruct (Hc s.(endseq_)) as (y & Hy & Hyx); [lia|].
    apply elem_of_app in Hy as [Hy|[->|Hy]%elem_of_cons]; [|lia|specialize (Hs4 y Hy); lia].
    specialize (Hs3 y s Hy ltac:(set_solver)). lia.
Qed.

(** Adding the part of a segment that is missing adds the segment. *)
Lemma added_part q q1 q' b e b' e' :
  (forall x, covered q1.(fifo) x <-> covered q.(fifo) x) ->
  ((forall s, s ∈ q.(fifo) -> q.(rcv_nxt_) < s.(startseq_)) ->
   forall s, s ∈ q1.(fifo) -> q1.(rcv_nxt_) < s.(startseq_)) ->
  q1.(rcv_nxt_) = q.(rcv_nxt_) -> b <= b' -> b' < e' -> e' <= e ->
  (forall x, b <= x < e -> covered q.(fifo) x \/ b' <= x < e') ->
  added q1 q' b' e' -> added q q' b e.
Proof.
  intros Hc Hr R H1 H2 H3 Hpart (Hi & Hc' & Hs). split; [done|].
  assert (forall x, covered (fifo q') x <-> covered (fifo q) x \/ b <= x < e) as Hcov.
  { intros x. rewrite Hc', Hc. specialize (Hpart x). intuition lia. }
  split; [done|]. intros H. destruct (Hs (Hr H)) as (s & Hin & Hor & Hrcv).
  exists s. split; [done|]. rewrite R in Hrcv. split; [|done]. destruct Hor as [Hor|Hor]; [left|by right].
  apply (block_contains q'.(fifo)); [apply Hi|done| |lia|lia]. intros x Hx. apply Hcov. by right.
Qed.

(** The segment is swallowed by the block [x], which grows. *)
Lemma added_swallow q q' q'' A x x' B start end_ :
  sep q.(fifo) -> q.(total_) = bytes q.(fifo) -> q.(fifo) = A ++ x :: B -> grown q q' A x x' B ->
  (forall z, z ∈ A -> z.(endseq_) < x'.(startseq_)) -> (forall z, z ∈ B -> x'.(endseq_) < z.(startseq_)) ->
  x'.(startseq_) = Z.min start x.(startseq_) -> x'.(endseq_) = Z.max end_ x.(endseq_) ->
  start < x.(endseq_) -> x.(startseq_) < end_ ->
  (exists h, head q'.(fifo) = Some h /\
     q'' = if h.(startseq_) <=? q'.(rcv_nxt_) then q' <| rcv_nxt_ := h.(endseq_) |> else q') ->
  added q q'' start end_.
Proof.
  intros Hs Ht E (Hm & E' & _ & R & T) HA HB S1 S2 Ho1 Ho2 (h & Hh & ->).
  assert (forall z : t, (if h.(startseq_) <=? q'.(rcv_nxt_) then z <| rcv_nxt_ := h.(endseq_) |> else z) =
    z <| rcv_nxt_ := if h.(startseq_) <=? q'.(rcv_nxt_) then h.(endseq_) else z.(rcv_nxt_) |>) as Hif
    by (intros z; destruct (_ <=? _); destruct z; done).
  rewrite Hif. rewrite E in Hs. apply sep_app in Hs as (Hs1 & Hs2 & Hs3). apply sep_cons in Hs2 as (Hx & Hs2 & Hs4).
  split; [split|split].
  - by eapply mem_same.
  - cbn. rewrite E', sep_app, sep_cons. split; [done|]. split; [split; [lia|done]|].
    intros a b Ha [->|Hb]%elem_of_cons; [by apply HA|apply Hs3; set_solver].
  - cbn. rewrite T, Ht, E, E', !bytes_app, !bytes_cons. lia.
  - intros z. cbn. rewrite E, E', !covered_app, !covered_cons, S1, S2. intuition lia.
  - intros _. exists h. cbn. split; [|split; [by right|by rewrite R]].
    rewrite E' in Hh |- *. destruct A; injection Hh as ->; set_solver.
Qed.

Lemma split3_place A M B start end_ : sep (A ++ M ++ B) -> split3 (A ++ M ++ B) A M B start end_ ->
  sep A /\ sep B /\ (forall x, x ∈ A -> x.(endseq_) <= start) /\ (forall x, x ∈ B -> end_ <= x.(startseq_)).
Proof.
  intros Hs (_ & HA & _ & HB). apply sep_app in Hs as (H1 & Hs & _). apply sep_app in Hs as (_ & H2 & _). done.
Qed.

Lemma merge_insert_none q A B start end_ fl rf cnt :
  rq_inv q -> q.(fifo) = A ++ B -> start < end_ -> split3 (A ++ [] ++ B) A [] B start end_ ->
  A <> [] -> B <> [] ->
  exists q' f, merge_insert q (self <$> last A) (self <$> head B) start end_ fl rf cnt = Ok (q', f) /\
    added q q' start end_.
Proof.
  intros [Hm Hs Ht] E Hlt (_ & HA & _ & HB) HAn HBn. unfold merge_insert.
  destruct (snoc_cases A) as [->|(A' & a & ->)]; [done|]. destruct B as [|b B]; [done|].
  pose proof (HB b ltac:(set_solver)) as Hb. pose proof (HA a ltac:(set_solver)) as Ha.
  rewrite (merge_left_miss q (A' ++ [a]) b B) by (done || lia). cbn [res_bind].
  assert (fifo q = A' ++ a :: b :: B) as E' by (by rewrite <- app_assoc in E).
  rewrite (merge_right_miss q A' a (b :: B)) by (done || lia). cbn [res_bind].
  rewrite (proj2 (Z.leb_gt _ _) Hlt). rewrite last_snoc. cbn [head fmap option_fmap option_map deref res_bind].
  rewrite (get_at _ _ _ _ _ Hm E'). cbn [res_bind]. rewrite (next_at _ _ _ _ _ Hm E').
  rewrite decide_True by done. cbn [deref res_bind]. rewrite (get_at _ _ _ _ _ Hm E). cbn [res_bind].
  rewrite (proj2 (Z.leb_le _ _) Ha), (proj2 (Z.leb_le _ _) Hb). cbn [andb].
  destruct (endfast_ok q (A' ++ [a]) (b :: B) start end_ fl rf cnt Hm E Ht Hlt) as (q' & f & Ee & Had).
  { split; [by rewrite <- E|done]. }
  unfold touches in Ee. rewrite last_snoc in Ee. cbn [head] in Ee.
  rewrite (Z.eqb_sym (startseq_ b) end_). exists q', f. split; [exact Ee|done].
Qed.

Lemma merge_insert_two q A x y B start end_ fl rf cnt :
  rq_inv q -> q.(fifo) = A ++ x :: y :: B -> start < end_ ->
  split3 (A ++ [x; y] ++ B) A [x; y] B start end_ ->
  x.(startseq_) < start -> end_ < y.(endseq_) -> x.(endseq_) < y.(startseq_) ->
  exists q' f, merge_insert q (self <$> last A) (self <$> head B) start end_ fl rf cnt = Ok (q', f) /\
    added q q' start end_.
Proof.
  intros [Hm Hs Ht] E Hlt Hsp Hx Hy Hxy. unfold merge_insert.
  pose proof Hsp as (_ & HA & HM & HB). pose proof (HM x ltac:(set_solver)). pose proof (HM y ltac:(set_solver)).
  destruct (merge_left_hit q A x (y :: B) start fl cnt Hm E (or_intror Hx)) as (q1 & x1 & -> & G1 & S1 & S2).
  cbn [res_bind]. destruct (grown_same _ _ _ _ _ _ G1 E ltac:(lia) S2) as (T1 & B1 & Hs1 & C1 & F1).
  pose proof G1 as (Hm1 & E1 & I1 & R1 & _).
  assert (fifo q1 = (A ++ [x1]) ++ y :: B) as E1' by (by rewrite <- app_assoc).
  destruct (merge_right_hit q1 (A ++ [x1]) y B end_ fl true Hm1 E1' (or_intror Hy)) as (q2 & y2 & -> & G2 & S3 & S4).
  cbn [res_bind]. destruct (grown_same _ _ _ _ _ _ G2 E1' S4 ltac:(lia)) as (T2 & B2 & Hs2 & C2 & F2).
  pose proof G2 as (Hm2 & E2 & I2 & R2 & _).
  rewrite (proj2 (Z.leb_gt _ _)) by lia. cbn [res_bind].
  destruct (endfast_ok q2 (A ++ [x1]) (y2 :: B) x.(endseq_) y.(startseq_) fl rf (cnt - 1) Hm2 E2)
    as (q' & f & Ee & Had); [congruence|lia| |].
  { pose proof (Hs2 (Hs1 Hs)) as Hsep. rewrite E2 in Hsep. split; [done|].
    apply sep_app in Hsep as (Hsl & Hsr & _). apply sep_app in Hsl as (_ & Hsx & Hax).
    apply sep_cons in Hsr as (_ & _ & Hyb). split.
    - intros z Hz. apply elem_of_app in Hz as [Hz| ->%list_elem_of_singleton]; [|lia].
      specialize (Hax z x1 Hz ltac:(set_solver)). lia.
    - intros z [->|Hz]%elem_of_cons; [lia|]. specialize (Hyb z Hz). lia. }
  unfold touches in Ee. rewrite last_snoc in Ee. cbn in Ee. rewrite S2, Z.eqb_refl, I1, I2 in Ee.
  exists q', f. split; [exact Ee|].
  apply (added_part q q2 q' start end_ (endseq_ x) (startseq_ y)); [..|done].
  - intros z. by rewrite C2.
  - intros H1. by apply F2, F1.
  - congruence.
  - lia.
  - lia.
  - lia.
  - intros z Hz. rewrite E, covered_app, !covered_cons. lia.
Qed.

Lemma one_sep q A x B :
  sep q.(fifo) -> q.(fifo) = A ++ x :: B ->
  sep A /\ sep B /\ (forall z, z ∈ A -> z.(endseq_) < x.(startseq_)) /\
  (forall z, z ∈ B -> x.(endseq_) < z.(startseq_)) /\ x.(startseq_) < x.(endseq_).
Proof.
  intros Hs E. rewrite E in Hs. apply sep_app in Hs as (HsA & HsB & HAB). apply sep_cons in HsB as (Hxx & HsB & HxB).
  repeat (split; [done|]). split; [|done]. intros z Hz. apply HAB; set_solver.
Qed.

(** One overlapped segment, merged on the left. *)
Lemma merge_insert_left q A x B start end_ fl rf cnt :
  rq_inv q -> q.(fifo) = A ++ x :: B -> start < end_ ->
  split3 (A ++ [x] ++ B) A [x] B start end_ -> ~ contained start end_ x ->
  A = [] \/ x.(startseq_) < start ->
  exists q' f, merge_insert q (self <$> last A) (self <$> head B) start end_ fl rf cnt = Ok (q', f) /\
    added q q' start end_.
Proof.
  intros [Hm Hs Ht] E Hlt Hsp Hc HL. unfold merge_insert, contained in *.
  pose proof Hsp as (_ & HA & HM & HB). destruct (HM x ltac:(set_solver)) as [Ho1 Ho2].
  destruct (one_sep _ _ _ _ Hs E) as (HsA & HsB & HAx & HxB & Hxx).
  assert ((B = [] \/ end_ < x.(endseq_)) \/ B <> [] /\ x.(endseq_) <= end_) as HR
    by (destruct B; [by left; left|]; destruct (Z.lt_ge_cases end_ x.(endseq_)); [by left; right|by right]).
  destruct (merge_left_hit q A x B start fl cnt Hm E HL) as (q1 & x1 & -> & G1 & S1 & S2).
  cbn [res_bind]. pose proof G1 as (Hm1 & E1 & I1 & R1 & _).
  assert (forall z, z ∈ A -> z.(endseq_) < x1.(startseq_)) as HA1.
  { intros z Hz. destruct HL as [->|HL]; [set_solver|]. specialize (HAx z Hz). lia. }
  destruct HR as [HR|[HBn HR]].
  + destruct (merge_right_hit q1 A x1 B end_ fl true Hm1 E1) as (q2 & x2 & -> & G2 & S3 & S4);
      [rewrite S2; exact HR|].
    cbn [res_bind]. rewrite (proj2 (Z.leb_le _ _)) by lia. pose proof G2 as (_ & E2 & _).
    destruct (head (fifo q2)) as [h|] eqn:Eh; [|by rewrite E2 in Eh; destruct A].
    cbn [deref res_bind]. eexists _, _. split; [done|].
    eapply (added_swallow q q2 _ A x x2 B); try done; [by eapply grown_trans| | |lia|lia|by exists h].
    * intros z Hz. rewrite S4. by apply HA1.
    * intros z Hz. destruct HR as [->|HR]; [set_solver|]. specialize (HxB z Hz). lia.
  + rewrite (merge_right_miss q1 A x1 B) by (done || lia). cbn [res_bind].
    destruct (Z.leb_spec end_ x.(endseq_)) as [He|He].
    * destruct (head (fifo q1)) as [h|] eqn:Eh; [|by rewrite E1 in Eh; destruct A].
      cbn [deref res_bind]. eexists _, _. split; [done|].
      eapply (added_swallow q q1 _ A x x1 B); try done; [|lia|by exists h].
      intros z Hz. specialize (HxB z Hz). lia.
    * cbn [res_bind]. destruct (grown_same _ _ _ _ _ _ G1 E ltac:(lia) S2) as (T1 & B1 & Hs1 & C1 & F1).
      assert (fifo q1 = (A ++ [x1]) ++ B) as E1' by (by rewrite <- app_assoc).
      destruct (endfast_ok q1 (A ++ [x1]) B x.(endseq_) end_ fl rf (cnt - 1) Hm1 E1')
        as (q' & f & Ee & Had); [congruence|lia| |].
      { split; [rewrite <- E1'; by apply Hs1|]. split; [|done].
        intros z Hz. apply elem_of_app in Hz as [Hz| ->%list_elem_of_singleton]; [|lia].
        specialize (HAx z Hz). lia. }
      unfold touches in Ee. rewrite last_snoc in Ee. cbn in Ee. rewrite S2, Z.eqb_refl, I1 in Ee.
      exists q', f. split; [exact Ee|].
      apply (added_part q q1 q' start end_ (endseq_ x) end_); try done; [lia|].
      intros z Hz. rewrite E, covered_app, !covered_cons. lia.
Qed.

(** One overlapped segment; the new one starts in the hole before it. *)
Lemma merge_insert_hole q A x B start end_ fl rf cnt :
  rq_inv q -> q.(fifo) = A ++ x :: B -> start < end_ ->
  split3 (A ++ [x] ++ B) A [x] B start end_ -> ~ contained start end_ x ->
  A <> [] -> start <= x.(startseq_) ->
  exists q' f, merge_insert q (self <$> last A) (self <$> head B) start end_ fl rf cnt = Ok (q', f) /\
    added q q' start end_.
Proof.
  intros [Hm Hs Ht] E Hlt Hsp Hc HAn HL. unfold merge_insert, contained in *.
  pose proof Hsp as (_ & HA & HM & HB). destruct (HM x ltac:(set_solver)) as [Ho1 Ho2].
  destruct (one_sep _ _ _ _ Hs E) as (HsA & HsB & HAx & HxB & Hxx).
  rewrite (merge_left_miss q A x B) by done. cbn [res_bind].
  assert (end_ < x.(endseq_)) as Hex by lia.
  destruct (merge_right_hit q A x B end_ fl false Hm E (or_intror Hex)) as (q1 & x1 & -> & G1 & S1 & S2).
  cbn [res_bind]. pose proof G1 as (Hm1 & E1 & I1 & R1 & _).
  destruct (Z.leb_spec x.(startseq_) start) as [He|He].
  + destruct (head (fifo q1)) as [h|] eqn:Eh; [|by rewrite E1 in Eh; destruct A].
    cbn [deref res_bind]. eexists _, _. split; [done|].
    eapply (added_swallow q q1 _ A x x1 B); try done; [| |lia|by exists h].
    * intros z Hz. rewrite S2. by apply HAx.
    * intros z Hz. specialize (HxB z Hz). lia.
  + cbn [res_bind]. destruct (grown_same _ _ _ _ _ _ G1 E S2 ltac:(lia)) as (T1 & B1 & Hs1 & C1 & F1).
    destruct (endfast_ok q1 A (x1 :: B) start x.(startseq_) fl rf cnt Hm1 E1)
      as (q' & f & Ee & Had); [congruence|lia| |].
    { split; [rewrite <- E1; by apply Hs1|]. split; [done|].
      intros z [->|Hz]%elem_of_cons; [lia|]. specialize (HxB z Hz). lia. }
    unfold touches in Ee. cbn [head] in Ee. rewrite S2, Z.eqb_refl, orb_true_r in Ee.
    cbn in Ee. rewrite I1 in Ee. exists q', f. split; [exact Ee|].
    apply (added_part q q1 q' start end_ start (startseq_ x)); try done; [lia..|].
    intros z Hz. rewrite E, covered_app, !covered_cons. lia.
Qed.

Lemma merge_insert_one q A x B start end_ fl rf cnt :
  rq_inv q -> q.(fifo) = A ++ x :: B -> start < end_ ->
  split3 (A ++ [x] ++ B) A [x] B start end_ -> ~ contained start end_ x ->
  exists q' f, merge_insert q (self <$> last A) (self <$> head B) start end_ fl rf cnt = Ok (q', f) /\
    added q q' start end_.
Proof.
  intros Hi E Hlt Hsp Hc. destruct A as [|a A]; [by apply (merge_insert_left q [] x B); try left|].
  destruct (Z.lt_ge_cases x.(startseq_) start); [|by apply (merge_insert_hole q (a :: A) x B)].
  apply (merge_insert_left q (a :: A) x B); try done. by right.
Qed.

(** Adding after overlapped segments have been removed. *)
Lemma added_kill q q1 q' start end_ A M B :
  q.(fifo) = A ++ M ++ B -> q1.(fifo) = A ++ filter (fun s => ~ contained start end_ s) M ++ B ->
  q1.(rcv_nxt_) = q.(rcv_nxt_) -> added q1 q' start end_ -> added q q' start end_.
Proof.
  intros E E1 R (Hi & Hc & Hs). split; [done|]. split.
  - intros x. rewrite Hc, E, E1, !covered_app.
    assert (covered M x -> covered (filter (fun s => ~ contained start end_ s) M) x \/ start <= x < end_) as H1.
    { intros (s & Hs' & Hx). destruct (decide (contained start end_ s)) as [Hd|Hd].
      - right. unfold contained in Hd. lia.
      - left. exists s. by rewrite list_elem_of_filter. }
    assert (covered (filter (fun s => ~ contained start end_ s) M) x -> covered M x) as H2.
    { intros (s & Hs' & Hx). apply list_elem_of_filter in Hs' as [_ Hs']. by exists s. }
    tauto.
  - intros H. rewrite <- R. apply Hs. rewrite R. intros s Hin. apply H. rewrite E, E1 in *.
    rewrite !elem_of_app, list_elem_of_filter in *. tauto.
Qed.

Lemma sep_filter (Pr : seginfo -> Prop) `{forall s, Decision (Pr s)} A M B :
  sep (A ++ M ++ B) -> sep (A ++ filter Pr M ++ B).
Proof.
  rewrite !sep_app. intros (HA & (HM & HB & HMB) & HAMB). split; [done|]. split; [split; [|split; [done|]]|].
  - clear -HM. induction M as [|s M IH]; [done|]. apply sep_cons in HM as (Hs & HM & HsM).
    rewrite filter_cons. destruct (decide _); [|by apply IH]. apply sep_cons. split; [done|]. split; [by apply IH|].
    intros y Hy. apply list_elem_of_filter in Hy as [_ Hy]. by apply HsM.
  - intros x y Hx Hy. apply list_elem_of_filter in Hx as [_ Hx]. by apply HMB.
  - intros x y Hx Hy. apply HAMB; [done|]. rewrite elem_of_app, list_elem_of_filter in *. tauto.
Qed.

(** The node before the overlapped ones is left alone. *)
Lemma from_last q A k (a : seginfo) :
  mem_ok [] q -> q.(fifo) = (A ++ [a]) ++ k ->
  from q.(fifo) a.(self) = a :: k.
Proof.
  intros Hm E. rewrite <- app_assoc in E. cbn in E. rewrite E.
  by destruct (at_split A a k id (proj1 (mem_ids _ _ _ _ _ Hm E))) as (_ & _ & -> & _).
Qed.

Lemma kill_skip rq (a : seginfo) k (q : option addr) start end_ fl cnt alt :
  q <> Some a.(self) -> a.(startseq_) < a.(endseq_) -> a.(endseq_) <= start -> start < end_ ->
  kill_loop rq (a :: k) q start end_ fl cnt alt = kill_loop rq k q start end_ fl cnt alt.
Proof.
  intros Hq H1 H2 H3. cbn [kill_loop]. rewrite decide_False by done.
  rewrite (proj2 (Z.eqb_neq start _)), (proj2 (Z.leb_gt start _)) by lia. done.
Qed.

(** What the loop starts from. *)
Lemma kill_start rq A k (q : option addr) start end_ fl cnt alt :
  mem_ok [] rq -> rq.(fifo) = A ++ k -> sep A -> start < end_ ->
  (forall x, x ∈ A -> x.(endseq_) <= start) -> (forall x, x ∈ A -> q <> Some x.(self)) ->
  kill_loop rq (match self <$> last A with Some a => from rq.(fifo) a | None => rq.(fifo) end)
    q start end_ fl cnt alt = kill_loop rq k q start end_ fl cnt alt.
Proof.
  intros Hm E Hs Hlt HA Hq. destruct (snoc_cases A) as [->|(A' & a & ->)]; [by rewrite E|].
  rewrite last_snoc. cbn [fmap option_fmap option_map]. rewrite (from_last _ _ _ _ Hm E).
  apply sep_app in Hs as (_ & Hs & _). apply sep_cons in Hs as (Ha & _).
  apply kill_skip; [apply Hq; set_solver|done|apply HA; set_solver|done].
Qed.

(** An exact duplicate changes no sequence number. *)
Lemma kill_exact rq A x B start end_ fl cnt :
  rq_inv rq -> rq.(fifo) = A ++ x :: B -> self <$> head B <> Some x.(self) -> exact start end_ x -> start < end_ ->
  exists rq' f, kill_loop rq (x :: B) (self <$> head B) start end_ fl cnt false = Ok (Exact rq' f) /\
    added rq rq' start end_.
Proof.
  intros [Hm Hs Ht] E Hne [H1 H2] Hlt. cbn [kill_loop]. rewrite decide_False by done.
  rewrite (proj2 (Z.eqb_eq _ _) H1), (proj2 (Z.eqb_eq _ _) H2). cbn [andb].
  destruct (grow_same rq A x B (fun s => s <| pflags_ := Z.lor (pflags_ x) fl |>) Hm E)
    as (q1 & Eu & G); [done..|].
  rewrite Eu. cbn [res_bind]. eexists q1, _. split; [done|].
  destruct (grown_same _ _ _ _ _ _ G E) as (T1 & B1 & S1 & C1 & F1); [done..|].
  pose proof G as (Hm1 & E1 & _ & R1 & _). split; [split; [done|by apply S1|congruence]|]. split.
  - intros z. rewrite C1. split; [by left|intros [?|?]; [done|]]. exists x. rewrite E. split; [set_solver|lia].
  - intros H. eexists. split; [rewrite E1; apply elem_of_app; right; by apply elem_of_cons; left|].
    cbn. split; [left; lia|]. rewrite (proj2 (Z.leb_gt _ _)); [done|]. apply H. rewrite E. set_solver.
Qed.

Lemma exact_alone A M B start end_ x :
  sep (A ++ M ++ B) -> split3 (A ++ M ++ B) A M B start end_ -> start < end_ ->
  x ∈ M -> exact start end_ x -> M = [x].
Proof.
  intros Hs (_ & _ & HM & _) Hlt Hx [H1 H2]. apply sep_app in Hs as (_ & Hs & _). apply sep_app in Hs as (Hs & _ & _).
  apply list_elem_of_split in Hx as (l & k & ->). apply sep_app in Hs as (Hl & Hk & Hlk).
  apply sep_cons in Hk as (_ & Hk & Hxk). f_equal.
  assert (l = []) as ->; [|assert (k = []) as ->; [|done]].
  - destruct l as [|y l]; [done|]. specialize (Hlk y x ltac:(set_solver) ltac:(set_solver)).
    specialize (HM y ltac:(set_solver)). lia.
  - destruct k as [|y k]; [done|]. specialize (Hxk y ltac:(set_solver)).
    specialize (HM y ltac:(set_solver)). lia.
Qed.

Lemma sep_last l s x : sep (l ++ [s]) -> x ∈ l ++ [s] -> x.(endseq_) <= s.(endseq_).
Proof.
  intros Hs Hx. apply sep_app in Hs as (_ & Hs & Hls). apply sep_cons in Hs as (Hss & _).
  apply elem_of_app in Hx as [Hx| ->%list_elem_of_singleton]; [|lia].
  specialize (Hls x s Hx ltac:(set_solver)). lia.
Qed.

Lemma sep_head s l x : sep (s :: l) -> x ∈ s :: l -> s.(startseq_) <= x.(startseq_).
Proof.
  intros Hs Hx. apply sep_cons in Hs as (Hss & _ & Hsl).
  apply elem_of_cons in Hx as [->|Hx]; [lia|]. specialize (Hsl x Hx). lia.
Qed.

(** [add] in front of everything or behind it. *)
Lemma tail_ok q l s start end_ fl rf cnt :
  rq_inv q -> q.(fifo) = l ++ [s] -> s.(endseq_) <= start -> start < end_ ->
  exists q' f, endfast q (Some s.(self)) None start end_ fl rf cnt (start =? s.(endseq_)) = Ok (q', f) /\
    added q q' start end_.
Proof.
  intros [Hm Hs Ht] E He Hlt. assert (fifo q = fifo q ++ []) as E' by (by rewrite app_nil_r).
  destruct (endfast_ok q (fifo q) [] start end_ fl rf cnt Hm E' Ht Hlt) as (q' & f & Ee & Had).
  { split; [by rewrite <- E'|]. split; [|set_solver]. intros x Hx.
    rewrite E in Hs, Hx. pose proof (sep_last _ _ _ Hs Hx). lia. }
  unfold touches in Ee. rewrite E, last_snoc in Ee. cbn in Ee. rewrite orb_false_r, Z.eqb_sym in Ee.
  by exists q', f.
Qed.

Lemma head_ok q l s start end_ fl rf cnt :
  rq_inv q -> q.(fifo) = s :: l -> end_ <= s.(startseq_) -> start < end_ ->
  exists q' f, endfast q None (Some s.(self)) start end_ fl rf cnt (end_ =? s.(startseq_)) = Ok (q', f) /\
    added q q' start end_.
Proof.
  intros [Hm Hs Ht] E He Hlt.
  destruct (endfast_ok q [] (s :: l) start end_ fl rf cnt Hm E Ht Hlt) as (q' & f & Ee & Had); [|by exists q', f].
  split; [by rewrite E in Hs|]. split; [set_solver|]. intros x Hx.
  rewrite E in Hs. pose proof (sep_head _ _ _ Hs Hx). lia.
Qed.

Lemma merge_insert_ok q A M B start end_ fl rf cnt :
  rq_inv q -> start < end_ -> q.(fifo) = A ++ M ++ B -> split3 (A ++ M ++ B) A M B start end_ ->
  (forall x, x ∈ M -> ~ contained start end_ x) -> (M = [] -> A <> [] /\ B <> []) ->
  exists q' f, merge_insert q (self <$> last A) (self <$> head B) start end_ fl rf cnt = Ok (q', f) /\
    added q q' start end_.
Proof.
  intros Hi Hlt E Hsp Hc Hnil. pose proof (ri_sep _ Hi) as Hs. rewrite E in Hs.
  destruct (overlap_cases A M B start end_ Hs Hlt Hsp Hc) as [->|[(x & ->)|(x & y & -> & H1 & H2 & H3)]].
  - destruct (Hnil eq_refl). by apply merge_insert_none.
  - apply (merge_insert_one q A x B); try done. apply Hc. set_solver.
  - by apply (merge_insert_two q A x y B).
Qed.

Lemma again2_ok fuel q start end_ fl rf cnt :
  rq_inv q -> start < end_ -> q.(fifo) <> [] -> (length q.(fifo) <= fuel)%nat ->
  exists q' f, again2 fuel q start end_ fl rf cnt = Ok (q', f) /\ added q q' start end_.
Proof.
  revert q fl cnt. induction fuel as [|fuel IH]; intros q fl cnt Hi Hlt Hne Hf;
    [by destruct (fifo q); cbn in Hf; [|lia]|].
  cbn [again2]. pose proof Hi as [Hm Hs Ht].
  destruct (snoc_cases (fifo q)) as [E|(l & tl & Etl)]; [done|]. 
  assert (last (fifo q) = Some tl) as -> by (by rewrite Etl, last_snoc). cbn [deref res_bind].
  assert (exists hd l', fifo q = hd :: l') as (hd & l' & Ehd) by (destruct (fifo q); [done|by eexists _, _]).
  assert (head (fifo q) = Some hd) as -> by (by rewrite Ehd). cbn [deref res_bind].
  destruct (Z.leb_spec tl.(endseq_) start) as [H1|H1]; [by apply (tail_ok q l tl)|].
  destruct (Z.leb_spec end_ hd.(startseq_)) as [H2|H2]; [by apply (head_ok q l' hd)|].
  destruct (split3_ex (fifo q) start end_ Hs Hlt) as (A & M & B & Hsp). pose proof Hsp as (E & HA & HM & HB).
  rewrite E in Hsp, Hs.
  assert (search_q (fifo q) end_ = self <$> head B) as ->.
  { rewrite E, app_assoc. apply search_q_ok; [|done]. intros x Hx.
    apply elem_of_app in Hx as [Hx|Hx]; [|by apply HM]. specialize (HA x Hx).
    apply sep_app in Hs as ([_ Hs] & _). rewrite Forall_forall in Hs. specialize (Hs x Hx). lia. }
  assert (search_p (rev (fifo q)) start = self <$> last A) as ->.
  { rewrite E. apply search_p_ok; [done|]. intros x Hx.
    apply elem_of_app in Hx as [Hx|Hx]; [by apply HM|]. specialize (HB x Hx).
    apply sep_app in Hs as (_ & Hs & _). apply sep_app in Hs as (_ & [_ Hs] & _).
    rewrite Forall_forall in Hs. specialize (Hs x Hx). lia. }
  assert (forall x, x ∈ A ++ M -> self <$> head B <> Some x.(self)) as HqB.
  { intros x Hx Hb. destruct B as [|b B]; [done|]. injection Hb as Hb. rewrite app_assoc in E.
    apply (proj1 (mem_ids _ _ _ _ _ Hm E)). rewrite Hb. by apply list_elem_of_fmap_2. }
  rewrite (kill_start q A (M ++ B)); [|done|done|by apply sep_app in Hs as (Hs & _)|done|done|by intros x Hx; apply HqB; set_solver].
  destruct (decide (Exists (exact start end_) M)) as [Hex|Hex].
  { apply Exists_exists in Hex as (x & Hx & Hex).
    pose proof (exact_alone _ _ _ _ _ _ Hs Hsp Hlt Hx Hex) as ->.
    destruct (kill_exact q A x B start end_ fl cnt Hi E) as (q' & f & Ek & Had); [apply HqB; set_solver|done|done|].
    change ([x] ++ B) with (x :: B). rewrite Ek. cbn [res_bind]. by exists q', f. }
  destruct (kill_loop_ok q A M B start end_ fl cnt false Hm E Ht) as (q1 & fl1 & cnt1 & -> & Hm1 & E1 & Ht1 & R1).
  { intros x Hx Hx'. apply Hex, Exists_exists. by exists x. }
  cbn [res_bind orb].
  assert (rq_inv q1) as Hi1 by (split; [done|rewrite E1; by apply sep_filter|done]).
  destruct (empty q1) eqn:Eem.
  { unfold empty in Eem. destruct (fifo q1) eqn:Eq1; [|done].
    symmetry in E1. apply app_eq_nil in E1 as [-> E1]. apply app_eq_nil in E1 as [EM ->].
    destruct (endfast_ok q1 [] [] start end_ fl1 rf cnt1 Hm1 Eq1) as (q' & f & Ee & Had);
      [by rewrite Eq1|done|split; [apply sep_nil|set_solver]|].
    exists q', f. split; [exact Ee|]. apply (added_kill q q1 q' start end_ [] M []); [done|by rewrite Eq1, EM|done|done]. }
  destruct (bool_decide_reflect (Exists (contained start end_) M)) as [Hk|Hk].
  - destruct (IH q1 fl1 cnt1 Hi1 Hlt) as (q' & f & Ea & Had).
    + by intros Eq1; unfold empty in Eem; rewrite Eq1 in Eem.
    + apply Exists_exists in Hk as (x & Hx & Hk). rewrite E, !length_app in Hf. rewrite E1, !length_app.
      pose proof (length_filter_lt (fun s => ~ contained start end_ s) M x Hx ltac:(tauto)). lia.
    + exists q', f. split; [done|]. by apply (added_kill q q1 q' start end_ A M B).
  - assert (forall x, x ∈ M -> ~ contained start end_ x) as Hnc.
    { intros x Hx Hc. apply Hk, Exists_exists. by exists x. }
    rewrite filter_all in E1 by (by apply Forall_forall).
    destruct (merge_insert_ok q1 A M B start end_ fl1 rf cnt1 Hi1 Hlt E1 Hsp Hnc) as (q' & f & Ea & Had).
    + intros ->. cbn in E. split; intros ->.
      * cbn in E. assert (hd ∈ B) by (rewrite <- E, Ehd; set_solver). specialize (HB hd ltac:(done)). lia.
      * rewrite app_nil_r in E. assert (tl ∈ A) by (rewrite <- E, Etl; set_solver).
        specialize (HA tl ltac:(done)). lia.
    + exists q', f. split; [exact Ea|]. apply (added_kill q q1 q' start end_ A M B); try done.
      by rewrite filter_all by (by apply Forall_forall).
Qed.

Lemma add_ok q start end_ fl rf :
  rq_inv q -> start < end_ ->
  exists q' f, add q start end_ fl rf = Ok (q', f) /\ added q q' start end_.
Proof.
  intros Hi Hlt. unfold add. rewrite (proj2 (Z.ltb_ge _ _)) by lia. unfold empty.
  destruct (fifo q) as [|s l] eqn:E; [|apply again2_ok; [done|done|by rewrite E|by rewrite E]].
  pose proof Hi as [Hm Hs Ht]. pose proof (mo_lifo _ _ Hm) as Hl. rewrite E in Hl.
  change (ids []) with (@nil addr) in Hl. apply Permutation_nil_r in Hl. rewrite Hl.
  destruct (mem_new [] q [] [] Hm E) as (q1 & n & -> & T1 & R1 & F1 & Hm1).
  specialize (Hm1 (mkSeg n start end_ fl rf 1) eq_refl). eexists _, fl. split; [done|].
  set (s := mkSeg n start end_ fl rf 1) in *.
  set (q2 := q1 <| fifo := [s] |> <| lifo := [n] |> <| total_ := end_ - start |>).
  assert (lifo q1 = []) as Hl1.
  { destruct Hm1 as [_ _ Hl1]. cbn in Hl1. apply Permutation_length in Hl1. by destruct (lifo q1). }
  assert (mem_ok [] q2) as Hm2 by (eapply mem_same; [exact Hm1|done|cbn; by rewrite Hl1|done|done]).
  change (rcv_nxt_ q2) with (rcv_nxt_ q1). rewrite R1.
  assert (sep [s]) as Hsep by (apply sep_cons; split; [done|split; [apply sep_nil|set_solver]]).
  split; [|split].
  - destruct (start <=? _); (split; [by eapply mem_same|exact Hsep|cbn; unfold bytes; cbn; lia]).
  - intros x. rewrite E, covered_nil. destruct (start <=? _); cbn; rewrite covered_cons, covered_nil; cbn; tauto.
  - intros _. exists s. rewrite <- R1. change (startseq_ s) with start. change (endseq_ s) with end_.
    destruct (start <=? _); cbn; (split; [set_solver|]); (split; [by right|done]).
Qed.

Lemma add_advances q start end_ tiflags rqflags :
  rq_inv q -> start < end_ -> q.(rcv_nxt_) <= start ->
  (forall s, s ∈ q.(fifo) -> q.(rcv_nxt_) < s.(startseq_)) ->
  exists q' f, add q start end_ tiflags rqflags = Ok (q', f) /\ q.(rcv_nxt_) <= q'.(rcv_nxt_) /\
    (forall x, q.(rcv_nxt_) <= x < q'.(rcv_nxt_) -> covered q'.(fifo) x) /\
    ~ covered q'.(fifo) q'.(rcv_nxt_).
Proof.
  intros Hi Hlt Hst Hr. destruct (add_ok q start end_ tiflags rqflags Hi Hlt) as (q' & f & E & [Hm' Hs' Ht'] & Hc & Hadv).
  exists q', f. split; [done|]. destruct (Hadv Hr) as (s & Hin & Hor & Hrcv).
  assert (forall y, y ∈ q'.(fifo) -> q.(rcv_nxt_) <= y.(startseq_)) as Hlow.
  { intros y Hy. assert (startseq_ y < endseq_ y) as Hyy
      by (destruct Hs' as [_ Hs']; rewrite Forall_forall in Hs'; by apply Hs').
    destruct (proj1 (Hc (startseq_ y))) as [(z & Hz & Hzx)|Hx]; [exists y; split; [done|lia]| |lia].
    specialize (Hr z Hz). lia. }
  assert (forall y, y ∈ q'.(fifo) -> y <> s -> endseq_ s < startseq_ y \/ endseq_ y < startseq_ s) as Hsep.
  { intros y Hy Hne. apply list_elem_of_split in Hin as (l1 & l2 & El). rewrite El in Hs', Hy.
    apply sep_app in Hs' as (_ & Hs2 & Hs3). apply sep_cons in Hs2 as (_ & _ & Hs2).
    apply elem_of_app in Hy as [Hy|[->|Hy]%elem_of_cons]; [right; apply Hs3; set_solver|done|left; by apply Hs2]. }
  pose proof (Hlow s Hin) as Hls.
  assert (startseq_ s < endseq_ s) as Hss
    by (destruct Hs' as [_ Hs'']; rewrite Forall_forall in Hs''; by apply Hs'').
  destruct (Z.leb_spec (startseq_ s) (rcv_nxt_ q)) as [Hle|Hgt]; rewrite Hrcv.
  - split; [lia|]. split; [intros x Hx; exists s; split; [done|lia]|].
    intros (y & Hy & Hyx). destruct (decide (y = s)) as [->|Hne]; [lia|]. destruct (Hsep y Hy Hne); lia.
  - split; [lia|]. split; [intros x Hx; lia|]. intros (y & Hy & Hyx). specialize (Hlow y Hy).
    destruct (proj1 (Hc (rcv_nxt_ q))) as [(z & Hz & Hzx)|Hx]; [exists y; split; [done|lia]| |].
    + specialize (Hr z Hz). lia.
    + (* the segment starts at [rcv_nxt_], so its block is the first one *)
      destruct Hor as [Hor|Hor]; [lia|]. destruct (decide (y = s)) as [->|Hne]; [lia|].
      destruct (fifo q') as [|h l]; [done|]. injection Hor as ->. pose proof (sep_head _ _ _ Hs' Hy). lia.
Qed.

(** ** Clearing *)

Lemma clearto_loop_ok l q k seq fl :
  mem_ok [] q -> sep q.(fifo) -> q.(total_) = bytes q.(fifo) -> q.(fifo) = l ->
  (forall x, x ∈ k -> x.(endseq_) <= seq) ->
  exists q' l' f, clearto_loop q l seq fl = (q', l', f) /\ rq_inv q' /\ q'.(fifo) = l' /\
    q'.(rcv_nxt_) = q.(rcv_nxt_) /\
    (forall x, covered l' x /\ seq <= x <-> covered l x /\ seq <= x) /\
    match l' with [] => True | p :: _ => seq < p.(endseq_) end.
Proof.
  revert q fl. induction l as [|p l IH]; intros q fl Hm Hs Ht E Hk; cbn [clearto_loop].
  - exists q, [], fl. repeat (split; [done|]). done.
  - destruct (Z.leb_spec p.(endseq_) seq) as [Hle|Hgt].
    2: { exists q, (p :: l), fl. repeat (split; [done|]). lia. }
    set (q0 := q <| total_ := _ |>).
    assert (mem_ok [] q0) as Hm0 by (by eapply mem_same).
    destruct (unlink_ok [] q0 [] p l Hm0 E) as (q1 & Eu & Hm1 & E1 & T1 & R1). unfold unlink in Eu. rewrite Eu.
    apply mem_delete in Hm1. rewrite E in Hs, Ht. apply sep_cons in Hs as (Hp & Hs & Hpl).
    destruct (IH (deleteseginfo q1 (self p)) (Z.lor fl (pflags_ p)) Hm1)
      as (q' & l' & f & Ec & Hi' & E' & R' & Hc & Hl'); [by cbn; rewrite E1| |done|done|].
    { cbn. rewrite E1, T1. cbn. rewrite Ht, bytes_cons. lia. }
    exists q', l', f. split; [exact Ec|]. split; [done|]. split; [done|].
    split; [by rewrite R'; cbn; rewrite R1|]. split; [|done]. intros x. rewrite Hc, covered_cons.
    split; [tauto|]. intros [[Hx|Hx] Hsx]; [lia|tauto].
Qed.

Lemma clearto_ok q seq :
  rq_inv q ->
  exists q' f, clearto q seq = Ok (q', f) /\ rq_inv q' /\ q'.(rcv_nxt_) = q.(rcv_nxt_) /\
    (forall x, covered q'.(fifo) x <-> covered q.(fifo) x /\ seq <= x).
Proof.
  intros [Hm Hs Ht]. unfold clearto.
  destruct (clearto_loop_ok (fifo q) q [] seq 0 Hm Hs Ht eq_refl ltac:(set_solver))
    as (q1 & l' & f & -> & Hi1 & E1 & R1 & Hc & Hl'). pose proof Hi1 as [Hm1 Hs1 Ht1].
  destruct l' as [|p l'].
  { exists q1, f. repeat (split; [done|]). intros x. rewrite <- Hc, E1, covered_nil. tauto. }
  assert (forall x, covered (p :: l') x -> p.(startseq_) <= x) as Hlow.
  { intros x. rewrite E1 in Hs1. apply sep_cons in Hs1 as (Hp & _ & Hpl). rewrite covered_cons.
    intros [Hx|(y & Hy & Hx)]; [lia|]. specialize (Hpl y Hy). lia. }
  destruct (Z.leb_spec p.(startseq_) seq) as [H1|H1]; cbn [andb].
  2: { exists q1, f. repeat (split; [done|]). intros x. rewrite <- Hc, E1. split; [|tauto].
    intros Hx. split; [done|]. specialize (Hlow x Hx). lia. }
  rewrite (proj2 (Z.ltb_lt _ _) Hl').
  set (g := fun s : seginfo => s <| startseq_ := seq |>).
  destruct (grow q1 [] p l' g (total_ q1 - (seq - startseq_ p)) Hm1 E1 eq_refl)
    as (q2 & Eu & G); [cbn; lia|].
  rewrite Eu. cbn [res_bind]. destruct G as (Hm2 & E2 & _ & R2 & T2). cbn in T2, E2.
  eexists _, _. split; [done|]. rewrite E1 in Hs1. apply sep_cons in Hs1 as (Hp & Hs1 & Hpl).
  split; [split; [done| |]|split; [congruence|]].
  - rewrite E2. apply sep_cons. cbn. split; [lia|done].
  - rewrite E2, T2, bytes_cons. cbn. rewrite E1, bytes_cons in Ht1. lia.
  - intros x. rewrite E2, <- Hc, !covered_cons. cbn. split.
    + intros [Hx|Hx]; [lia|]. split; [by right|]. destruct Hx as (y & Hy & Hx). specialize (Hpl y Hy). lia.
    + intros [[Hx|Hx] Hsx]; [left; lia|by right].
Qed.

(** ** Blocks *)

(** [[b, e)] is a whole block of the queue. *)
Definition block l (b e : Z) : Prop :=
  b < e /\ (forall x, b <= x < e -> covered l x) /\ ~ covered l (b - 1) /\ ~ covered l e.

Lemma sep_block l s : sep l -> s ∈ l -> block l s.(startseq_) s.(endseq_).
Proof.
  intros Hs Hin. pose proof Hs as [_ Hp]. rewrite Forall_forall in Hp. pose proof (Hp s Hin).
  split; [done|]. split; [intros x Hx; by exists s|].
  apply list_elem_of_split in Hin as (l1 & l2 & ->).
  apply sep_app in Hs as (_ & Hs2 & Hs1). apply sep_cons in Hs2 as (_ & _ & Hs2).
  split; intros (y & [Hy|[->|Hy]%elem_of_cons]%elem_of_app & Hyx); try lia;
    first [specialize (Hs1 y s Hy ltac:(set_solver)); lia|specialize (Hs2 y Hy); lia].
Qed.

Lemma gensack_loop_ok q (k : list addr) max :
  mem_ok [] q -> (forall a, a ∈ k -> a ∈ ids q.(fifo)) -> 0 <= max ->
  exists r, gensack_loop q k max = Ok r /\ length r = Nat.min (Z.to_nat max) (length k) /\
    (forall be, be ∈ r -> exists s, s ∈ q.(fifo) /\ be = (s.(startseq_), s.(endseq_))) /\
    (Z.of_nat (length k) <= max -> forall s, s ∈ q.(fifo) -> s.(self) ∈ k -> (s.(startseq_), s.(endseq_)) ∈ r).
Proof.
  intros Hm Hk. revert max. induction k as [|a k IH]; intros max Hmax; cbn [gensack_loop].
  { exists []. split; [done|]. split; [by rewrite Nat.min_0_r|]. split; [set_solver|].
    intros _ s _ Hs. inversion Hs. }
  destruct (Z.eqb_spec max 0) as [->|Hne].
  { exists []. split; [done|]. split; [done|]. split; [set_solver|]. cbn. lia. }
  assert (a ∈ ids (fifo q)) as Ha by (apply Hk; set_solver).
  apply list_elem_of_fmap in Ha as (s & -> & Hs). pose proof Hs as Hin.
  apply list_elem_of_split in Hs as (l1 & l2 & E). rewrite (get_at _ _ _ _ _ Hm E). cbn [res_bind].
  destruct (IH ltac:(intros; apply Hk; set_solver) (max - 1) ltac:(lia)) as (r & -> & Hlen & Hr & Hall).
  cbn [res_bind]. eexists. split; [done|]. split; [cbn [length]; lia|]. split.
  - intros be [->|Hbe]%elem_of_cons; [by exists s|by apply Hr].
  - intros Hlk y Hy Hyk. cbn [length] in Hlk. apply elem_of_cons in Hyk as [Hys|Hyk].
    + assert (y = s) as ->; [|by apply elem_of_cons; left].
      destruct (decide (y = s)) as [|Hys']; [done|]. exfalso. rewrite E in Hy.
      destruct (mem_ids _ _ _ _ _ Hm E) as [H1 H2].
      apply elem_of_app in Hy as [Hy|[Hy|Hy]%elem_of_cons]; [apply H1|done|apply H2];
        rewrite <- Hys; by apply list_elem_of_fmap_2.
    + apply elem_of_cons. right. apply Hall; [lia|done..].
Qed.

(** Blocks and bytes from a list of nodes. *)
Lemma cnts_ok l : cnts l = (Z.of_nat (length l), bytes l).
Proof. induction l as [|s l IH]; [done|]. cbn [cnts]. rewrite IH, bytes_cons. cbn [length]. f_equal; lia. Qed.

(** The blocks above [h] and their bytes; -1 when there is none. *)
Definition above l (h : Z) : Z * Z :=
  match filter (fun s => h < s.(startseq_)) l with
  | [] => (-1, -1)
  | k => (Z.of_nat (length k), bytes k)
  end.

Lemma above_all l h : (forall x, x ∈ l -> h < x.(startseq_)) -> l <> [] -> above l h = cnts l.
Proof.
  intros Hl Hne. unfold above. rewrite filter_all by (by apply Forall_forall). rewrite cnts_ok. by destruct l.
Qed.

Lemma above_skip s l h : s.(startseq_) <= h -> above (s :: l) h = above l h.
Proof. intros Hs. unfold above. by rewrite filter_cons_False by lia. Qed.

Lemma nexthole_loop_ok l seq :
  sep l -> Exists (fun s => seq <= s.(endseq_)) l ->
  exists h, nexthole_loop l seq = (h, fst (above l h), snd (above l h)) /\ seq <= h /\
    (forall x, seq <= x < h -> covered l x) /\ ~ covered l h.
Proof.
  intros Hs Hex. induction l as [|p l IH]; [inversion Hex|]. pose proof Hs as Hs0.
  apply sep_cons in Hs as (Hp & Hs & Hpl). cbn [nexthole_loop].
  destruct (Z.ltb_spec seq (startseq_ p)) as [H1|H1].
  - exists seq. rewrite above_all; [|intros x Hx; pose proof (sep_head _ _ _ Hs0 Hx); lia|done].
    destruct (cnts (p :: l)) as [n b]. split; [done|]. split; [lia|]. split; [lia|].
    intros (x & Hx & Hxx). pose proof (sep_head _ _ _ Hs0 Hx). lia.
  - rewrite (proj2 (Z.leb_le _ _) H1). cbn [andb]. destruct (Z.leb_spec seq (endseq_ p)) as [H2|H2].
    + exists (endseq_ p). rewrite above_skip by lia. split; [|split; [done|split]].
      * destruct l as [|y l]; [done|]. rewrite above_all by done. by destruct (cnts (y :: l)).
      * intros x Hx. exists p. split; [set_solver|lia].
      * rewrite covered_cons. intros [Hx|(x & Hx & Hxx)]; [lia|]. specialize (Hpl x Hx). lia.
    + apply Exists_cons in Hex as [Hex|Hex]; [lia|].
      destruct (IH Hs Hex) as (h & E & Hh & Hc & Hn). exists h. rewrite above_skip by lia.
      split; [done|]. split; [done|]. split.
      * intros x Hx. apply covered_cons. right. by apply Hc.
      * rewrite covered_cons. intros [Hx|Hx]; [lia|done].
Qed.

Lemma nexthole_loop_none l seq :
  Forall (fun s => s.(startseq_) < s.(endseq_) < seq) l -> nexthole_loop l seq = (-1, -1, -1).
Proof.
  induction 1 as [|p l Hp _ IH]; [done|]. cbn [nexthole_loop].
  rewrite (proj2 (Z.ltb_ge _ _)), (proj2 (Z.leb_gt seq _)), andb_false_r by lia. done.
Qed.
End RqFacts.

(** * Properties *)

Module RqProps.
Import ReassemblyQueue RqFacts.

Implicit Types (q : t) (s : seginfo).

(** C8: [add] puts exactly the bytes of the segment into the queue, however it
    overlaps what is there: afterwards the queue holds the old bytes and the
    new ones, in non-empty blocks in sequence order with a hole between any
    two, each block once in the LIFO, and [total_] is the number of bytes
    held. *)
Theorem rq_add_exact q start end_ tiflags rqflags :
  rq_inv q -> start < end_ ->
  exists q' f, add q start end_ tiflags rqflags = Ok (q', f) /\ rq_inv q' /\
    forall x, covered q'.(fifo) x <-> covered q.(fifo) x \/ start <= x < end_.
Proof.
  intros Hi Hlt. destruct (add_ok q start end_ tiflags rqflags Hi Hlt) as (q' & f & E & Hi' & Hc & _).
  by exists q', f.
Qed.


(** C37: [clearto] drops exactly the bytes below the given number, trims the
    block they end in, and keeps the queue well-formed. *)
Theorem rq_clearto q seq :
  rq_inv q ->
  exists q' f, clearto q seq = Ok (q', f) /\ rq_inv q' /\ q'.(rcv_nxt_) = q.(rcv_nxt_) /\
    (forall x, covered q'.(fifo) x <-> covered q.(fifo) x /\ seq <= x).
Proof. apply clearto_ok. Qed.

(** C35: [gensack] writes as many blocks as fit, each a maximal run of bytes
    held; if there is room for all, every byte held is reported. *)
Theorem rq_gensack q maxsblock :
  rq_inv q -> 0 <= maxsblock ->
  exists r, gensack q maxsblock = Ok r /\
    Z.of_nat (length r) = Z.min maxsblock (Z.of_nat (length q.(fifo))) /\
    Forall (fun be => block q.(fifo) be.1 be.2) r /\
    (Z.of_nat (length q.(fifo)) <= maxsblock ->
     forall x, covered q.(fifo) x -> exists be, be ∈ r /\ be.1 <= x < be.2).
Proof.
  intros [Hm Hs _] Hmax. pose proof (mo_lifo _ _ Hm) as Hl.
  assert (length (lifo q) = length (fifo q)) as Hlen
    by (rewrite (Permutation_length Hl); apply length_fmap).
  destruct (gensack_loop_ok q (lifo q) maxsblock Hm ltac:(intros a; by rewrite Hl) Hmax)
    as (r & E & Hr & Hin & Hall).
  exists r. split; [done|]. split; [lia|]. split.
  - apply Forall_forall. intros be Hbe. destruct (Hin be Hbe) as (s & Hs' & ->). by apply sep_block.
  - intros Hfit x (s & Hs' & Hx). exists (startseq_ s, endseq_ s). split; [|done].
    apply Hall; [lia|done|]. rewrite Hl. by apply list_elem_of_fmap_2.
Qed.

(** C23: [nexthole] finds the next hole: unless the number is beyond all
    blocks, it returns the first byte at or above it that is not held, with
    the number of blocks above that hole and their bytes (-1 if there is
    none). *)
Theorem rq_nexthole q seq :
  rq_inv q -> Exists (fun s => seq <= s.(endseq_)) q.(fifo) ->
  exists h, nexthole q seq = (q <| hint_ := head_ q |>, (h, fst (above q.(fifo) h), snd (above q.(fifo) h))) /\
    seq <= h /\ (forall x, seq <= x < h -> covered q.(fifo) x) /\ ~ covered q.(fifo) h.
Proof.
  intros [_ Hs _] Hex. unfold nexthole. destruct (nexthole_loop_ok _ seq Hs Hex) as (h & -> & H).
  by exists h.
Qed.

Lemma bytes_bound l lo hi :
  sep l -> (forall x, covered l x -> lo <= x < hi) -> lo <= hi -> 0 <= bytes l <= hi - lo.
Proof.
  revert lo. induction l as [|s l IH]; intros lo Hs Hc Hlh; [unfold bytes; cbn; lia|].
  apply sep_cons in Hs as (Hss & Hs & Hsl). rewrite bytes_cons.
  pose proof (Hc (startseq_ s) ltac:(apply covered_cons; left; lia)).
  pose proof (Hc (endseq_ s - 1) ltac:(apply covered_cons; left; lia)).
  destruct (IH (endseq_ s) Hs) as [H1 H2]; [|lia|lia].
  intros x Hx. split; [destruct Hx as (y & Hy & Hx); specialize (Hsl y Hy); lia|].
  apply Hc, covered_cons. by right.
Qed.

(** No counter overflows: while all sequence numbers are between [lo] and
    [hi], so are the ones of all blocks, and [total_] is at most [hi - lo]. *)
Theorem rq_bounds q start end_ tiflags rqflags lo hi :
  rq_inv q -> start < end_ -> lo <= start -> end_ <= hi ->
  (forall x, covered q.(fifo) x -> lo <= x < hi) ->
  exists q' f, add q start end_ tiflags rqflags = Ok (q', f) /\
    (forall s, s ∈ q'.(fifo) -> lo <= s.(startseq_) /\ s.(endseq_) <= hi) /\
    0 <= q'.(total_) <= hi - lo.
Proof.
  intros Hi Hlt Hlo Hhi Hcov.
  destruct (add_ok q start end_ tiflags rqflags Hi Hlt) as (q' & f & E & [Hm' Hs' Ht'] & Hc & _).
  exists q', f. split; [done|].
  assert (forall x, covered (fifo q') x -> lo <= x < hi) as Hcov'.
  { intros x [Hx|Hx]%Hc; [by apply Hcov|lia]. }
  split; [|rewrite Ht'; apply bytes_bound; [done|done|lia]]. intros s Hs.
  assert (startseq_ s < endseq_ s) as Hss by (destruct Hs' as [_ Hs']; rewrite Forall_forall in Hs'; by apply Hs').
  pose proof (Hcov' (startseq_ s) ltac:(exists s; split; [done|lia])).
  pose proof (Hcov' (endseq_ s - 1) ltac:(exists s; split; [done|lia])). lia.
Qed.

(** The flags of the block behind a filled hole are lost: a FIN (flag 1)
    queued out of order is not among the flags collected when the queue
    becomes contiguous. *)
Lemma rq_loses_fin :
  (let! (q, _) := add (create 1) 10 20 0 0 in
   let! (q, _) := add q 30 40 1 0 in
   let! (q, _) := add q 20 30 0 0 in
   let! (q, f1) := add q 1 10 0 0 in
   let! (q, f2) := cleartonxt q in
   Ok (q.(rcv_nxt_), Z.lor f1 f2)) = Ok (40, 0).
Proof. reflexivity. Qed.

(** An empty segment (a lone FIN) and everything behind it overlapped: the
    new node is linked to a freed one. *)
Lemma rq_dangling :
  (let! (q, _) := add (create 1) 5 5 1 0 in
   let! (q, _) := add q 10 20 0 0 in
   add q 5 30 0 0) = Err UB.
Proof. reflexivity. Qed.
End RqProps.

(** * Witnesses *)

Module RqWitness.
Import ReassemblyQueue RqFacts RqProps.

(** Bytes 3 to 4 and 6 to 7, from two nodes; a third node is free. *)
Definition demo : t :=
  mk [mkSeg 1 3 5 0 0 1; mkSeg 2 6 8 0 0 1] [2; 1]%positive None 4 1 [3]%positive 4%positive.

Lemma demo_inv : rq_inv demo.
Proof.
  split; [split|split|].
  - apply (bool_decide_unpack _). reflexivity.
  - apply (bool_decide_unpack _). reflexivity.
  - apply Permutation_swap.
  - repeat constructor.
  - repeat constructor.
  - reflexivity.
Qed.

Lemma demo_above s : s ∈ demo.(fifo) -> 1 < s.(startseq_).
Proof. revert s. apply Forall_forall. repeat constructor. Qed.

Lemma rq_add_exact_witness :
  exists q' f, add demo 4 7 0 0 = Ok (q', f) /\ rq_inv q' /\
    forall x, covered q'.(fifo) x <-> covered demo.(fifo) x \/ 4 <= x < 7.
Proof. apply (rq_add_exact demo 4 7 0 0); [exact demo_inv|reflexivity]. Defined.


Lemma rq_clearto_witness :
  exists q' f, clearto demo 7 = Ok (q', f) /\ rq_inv q' /\ q'.(rcv_nxt_) = 1 /\
    (forall x, covered q'.(fifo) x <-> covered demo.(fifo) x /\ 7 <= x).
Proof. apply (rq_clearto demo 7). exact demo_inv. Defined.

Lemma rq_gensack_witness :
  exists r, gensack demo 3 = Ok r /\ Z.of_nat (length r) = 2 /\
    Forall (fun be => block demo.(fifo) be.1 be.2) r /\
    (2 <= 3 -> forall x, covered demo.(fifo) x -> exists be, be ∈ r /\ be.1 <= x < be.2).
Proof. apply (rq_gensack demo 3); [exact demo_inv|discriminate]. Defined.

Lemma rq_nexthole_witness :
  exists h, nexthole demo 4 = (demo <| hint_ := Some 1%positive |>,
      (h, fst (above demo.(fifo) h), snd (above demo.(fifo) h))) /\
    4 <= h /\ (forall x, 4 <= x < h -> covered demo.(fifo) x) /\ ~ covered demo.(fifo) h.
Proof.
  apply (rq_nexthole demo 4); [exact demo_inv|]. left. discriminate.
Defined.

Lemma rq_bounds_witness :
  exists q' f, add demo 4 7 0 0 = Ok (q', f) /\
    (forall s, s ∈ q'.(fifo) -> 1 <= s.(startseq_) /\ s.(endseq_) <= 100) /\
    0 <= q'.(total_) <= 100 - 1.
Proof.
  apply (rq_bounds demo 4 7 0 0 1 100); [exact demo_inv|reflexivity|discriminate|discriminate|].
  intros x (s & Hs & Hx). revert s Hs Hx.
  apply (proj1 (Forall_forall (fun s => startseq_ s <= x < endseq_ s -> 1 <= x < 100) (fifo demo))).
  repeat (apply Forall_cons; split; [cbn; lia|]). apply Forall_nil. exact I.
Defined.
End RqWitness.
