(* ===== verification/Ecn.v ===== *)
(** * Congestion notification: headers, trackers and the processor

    The header flags of a packet ([hdr_flags], src/ns2/common/flags.h), the
    receiver side of congestion notification (src/ns2/tcp/ecn/common.h,
    tcp-full-receivers.h, tcp-full-receivers.cc), the state of the sender side
    (src/ns2/tcp/ecn/senders.h) and the members of [TcpAgent::EcnProcessor]
    and [FullTcpAgent::EcnProcessor] (src/ns2/tcp/tcp.h, tcp-full.h) with the
    functions that do not touch the agent.

    The virtual functions of [ReceiverCETracker] are the class of that name;
    the three derived classes are its instances.  [ExactTracker] is the
    contract of a tracker that echoes the marks of the packets it is given. *)

From Stdlib Require Import ZArith Lia Bool SpecFloat.
From stdpp Require Import base list gmap.
From S2P Require Import Prelude F64 PktQueue.

(** C++'s conversions between integers and [bool]. *)
Definition tt (z : Z) : bool := negb (z =? 0).
Definition b2z (b : bool) : Z := if b then 1 else 0.

(** ** Header flags (enum TcpFlags) *)

Module TcpFlags.
Definition FIN : Z := 1.
Definition SYN : Z := 2.
Definition PUSH : Z := 8.
Definition ACK : Z := 16.
Definition ECE : Z := 64.
Definition CWR : Z := 128.

Definition contains_all (me what : Z) : bool := Z.land me what =? what.
Definition contains_any (me what : Z) : bool := negb (Z.land me what =? 0).

(** [flags |= f] and [flags &= ~f]. *)
Definition set_flags (flags f : Z) : Z := Z.lor flags f.
Definition clear_flags (flags f : Z) : Z := Z.land flags (Z.lnot f).
End TcpFlags.

(** ** Packet flags *)

(** [cwr ()] is another name of [cong_action ()]. *)
Record hdr_flags := mkFlags {
  ecnecho : Z;          (* ecn_: ECN Echo *)
  ecn_low_prio : Z;     (* priority information for the CE packet *)
  ce : Z;               (* ecn_to_echo_: congestion experienced *)
  ect : Z;              (* ecn_capable_ *)
  cong_action : Z       (* congestion action *)
}.

#[export] Instance eta_hdr_flags : Eta hdr_flags := fun h =>
  mkFlags (ecnecho h) (ecn_low_prio h) (ce h) (ect h) (cong_action h).

Definition cwr (h : hdr_flags) : Z := cong_action h.

Definition no_flags : hdr_flags := mkFlags 0 0 0 0 0.

(** [FullTcpAgent::get_lowest_priority]. *)
Definition get_lowest_priority : Z := Z.shiftl 1 30.

Lemma lowest : get_lowest_priority = 2 ^ 30.
Proof. reflexivity. Qed.

(** ** Receivers *)

Class ReceiverCETracker (T : Type) := {
  on_new_packet : T -> hdr_flags -> Z -> bool -> T;   (* flags, priority, has_data *)
  on_syn_ack : T -> hdr_flags -> T;
  need_ce_echo : T -> bool;
  has_pending : T -> bool;
  ce_set_packet_echo : T -> hdr_flags -> hdr_flags;
  flip_ce : T -> T
}.

Module NormalReceiverCETracker.
Record t := mk { recent_ce_ : bool }.

Definition create : t := mk false.

Definition update_ce (x : t) : t := mk true.
Definition update_no_ce (x : t) : t := mk false.

Definition on_new_packet (x : t) (fh : hdr_flags) (prio : Z) (has_data : bool) : t :=
  if tt (ce fh) && tt (ect fh) then update_ce x
  else if tt (cwr fh) then update_no_ce x
  else x.

Definition on_syn_ack (x : t) (fh : hdr_flags) : t :=
  if tt (ecnecho fh) && negb (tt (cong_action fh)) && tt (ce fh) then mk true else x.

#[global] Instance tracker : ReceiverCETracker t := {
  on_new_packet := on_new_packet;
  on_syn_ack := on_syn_ack;
  need_ce_echo := recent_ce_;
  has_pending := fun _ => false;
  ce_set_packet_echo := fun _ fh => fh <| ecnecho := 1 |>;
  flip_ce := fun x => mk (negb x.(recent_ce_))
}.
End NormalReceiverCETracker.

Module EcnhatReceiverCETracker.
Record t := mk { recent_ce_ : bool; ce_transition_ : bool }.

#[global] Instance eta_t : Eta t := fun x => mk (recent_ce_ x) (ce_transition_ x).

Definition create : t := mk false false.

Definition is_transition (x : t) (new_ce : bool) : bool := negb (eqb x.(recent_ce_) new_ce).

Definition update (x : t) (new_ce : bool) : t :=
  let x := x <| ce_transition_ := is_transition x new_ce |> in
  x <| recent_ce_ := new_ce |>.

Definition on_new_packet (x : t) (fh : hdr_flags) (prio : Z) (has_data : bool) : t :=
  if tt (ce fh) && tt (ect fh) then update x true
  else if has_data && negb (tt (ce fh)) && tt (ect fh) then update x false
  else x.

Definition on_syn_ack (x : t) (fh : hdr_flags) : t :=
  if tt (ecnecho fh) && negb (tt (cong_action fh)) && tt (ce fh) then x <| recent_ce_ := true |> else x.

#[global] Instance tracker : ReceiverCETracker t := {
  on_new_packet := on_new_packet;
  on_syn_ack := on_syn_ack;
  need_ce_echo := recent_ce_;
  has_pending := ce_transition_;
  ce_set_packet_echo := fun _ fh => fh <| ecnecho := 1 |>;
  flip_ce := fun x => x <| recent_ce_ := negb x.(recent_ce_) |>
}.
End EcnhatReceiverCETracker.

Module AFabricReceiverCETracker.
Record t := mk { recent_ce_ : bool; is_low_prio_ : bool; ce_transition_ : bool }.

#[global] Instance eta_t : Eta t := fun x => mk (recent_ce_ x) (is_low_prio_ x) (ce_transition_ x).

Definition create : t := mk false true false.

Definition is_lowest (prio : Z) : bool := prio =? get_lowest_priority.

Definition is_priority_valid (x : t) (prio : Z) : bool := x.(is_low_prio_) || negb (is_lowest prio).

Definition is_transition (x : t) (new_ce : bool) (prio : Z) : bool :=
  (is_priority_valid x prio && negb (eqb x.(recent_ce_) new_ce)) ||
  (x.(is_low_prio_) && negb (is_lowest prio)).

Definition update_priority (x : t) (prio : Z) : t :=
  x <| is_low_prio_ := x.(is_low_prio_) && is_lowest prio |>.

Definition update (x : t) (new_ce : bool) (prio : Z) : t :=
  let x := x <| ce_transition_ := is_transition x new_ce prio |> in
  let x := update_priority x prio in
  x <| recent_ce_ := new_ce && is_priority_valid x prio |>.

Definition on_new_packet (x : t) (fh : hdr_flags) (prio : Z) (has_data : bool) : t :=
  if tt (ce fh) && tt (ect fh) then update x true prio
  else if has_data && negb (tt (ce fh)) && tt (ect fh) then update x false prio
  else x.

Definition on_syn_ack (x : t) (fh : hdr_flags) : t :=
  if tt (ecnecho fh) && negb (tt (cong_action fh)) && tt (ce fh) then x <| recent_ce_ := true |> else x.

Definition ce_set_packet_echo (x : t) (fh : hdr_flags) : hdr_flags :=
  fh <| ecnecho := 1 |> <| ecn_low_prio := b2z x.(is_low_prio_) |>.

#[global] Instance tracker : ReceiverCETracker t := {
  on_new_packet := on_new_packet;
  on_syn_ack := on_syn_ack;
  need_ce_echo := recent_ce_;
  has_pending := ce_transition_;
  ce_set_packet_echo := ce_set_packet_echo;
  flip_ce := fun x => x <| recent_ce_ := negb x.(recent_ce_) |>
}.
End AFabricReceiverCETracker.

(** The contract of an exact tracker: while in [good] states it is given
    data packets of priorities [ok], it needs to echo exactly the mark of the
    last one, and has a change pending exactly when that mark differs from the
    one before. *)
Class ExactTracker (T : Type) `{ReceiverCETracker T} (good : T -> Prop) (ok : Z -> Prop) := {
  exact_good : forall x fh prio, good x -> ok prio -> good (on_new_packet x fh prio true);
  exact_mark : forall x fh prio, good x -> ok prio -> ect fh <> 0 ->
    need_ce_echo (on_new_packet x fh prio true) = tt (ce fh);
  exact_change : forall x fh prio, good x -> ok prio -> ect fh <> 0 ->
    has_pending (on_new_packet x fh prio true) = negb (eqb (need_ce_echo x) (tt (ce fh)));
  exact_flip : forall x, need_ce_echo (flip_ce x) = negb (need_ce_echo x);
  exact_flip2 : forall x, flip_ce (flip_ce x) = x;
  exact_echo : forall x fh, ecnecho (ce_set_packet_echo x fh) = 1
}.

#[export] Instance ecnhat_exact :
  ExactTracker EcnhatReceiverCETracker.t (fun _ => True) (fun _ => True).
Proof.
  split; cbn; unfold EcnhatReceiverCETracker.on_new_packet, tt; try done.
  1,2: intros x fh prio _ _ He; rewrite (proj2 (Z.eqb_neq _ _) He); by destruct (ce fh =? 0).
  intros []. cbn. unfold field_update. cbn. by rewrite negb_involutive.
Qed.

Lemma is_lowest_spec prio : AFabricReceiverCETracker.is_lowest prio = true <-> prio = get_lowest_priority.
Proof. apply Z.eqb_eq. Qed.

Lemma afabric_flip2 (x : AFabricReceiverCETracker.t) : flip_ce (flip_ce x) = x.
Proof. destruct x. cbn. unfold field_update. cbn. by rewrite negb_involutive. Qed.

(** A receiver that has seen low-priority packets only and gets no other. *)
#[export] Instance afabric_exact_low :
  ExactTracker AFabricReceiverCETracker.t
    (fun x => AFabricReceiverCETracker.is_low_prio_ x = true) (fun prio => prio = get_lowest_priority).
Proof.
  split; cbn -[get_lowest_priority]; try done; [..|apply afabric_flip2];
    intros [r l c] fh prio Hl ->; cbn in Hl; subst l;
    unfold AFabricReceiverCETracker.on_new_packet, tt; intros;
    rewrite ?(proj2 (Z.eqb_neq (ect fh) 0)) by done; destruct (ce fh =? 0), (ect fh =? 0), r; done.
Qed.

(** A receiver that has seen another packet and gets no low-priority ones. *)
#[export] Instance afabric_exact_high :
  ExactTracker AFabricReceiverCETracker.t
    (fun x => AFabricReceiverCETracker.is_low_prio_ x = false) (fun prio => prio <> get_lowest_priority).
Proof.
  split; cbn -[get_lowest_priority]; try done; [..|apply afabric_flip2];
    intros [r l c] fh prio Hl Hp; cbn in Hl; subst l;
    (assert (AFabricReceiverCETracker.is_lowest prio = false) as Hf
      by (apply not_true_iff_false; by rewrite is_lowest_spec));
    unfold AFabricReceiverCETracker.on_new_packet, AFabricReceiverCETracker.update,
      AFabricReceiverCETracker.update_priority, AFabricReceiverCETracker.is_transition,
      AFabricReceiverCETracker.is_priority_valid, tt; intros; cbn; rewrite ?Hf;
    rewrite ?(proj2 (Z.eqb_neq (ect fh) 0)) by done; destruct (ce fh =? 0), (ect fh =? 0), r; done.
Qed.

(** ** Senders *)

Module EcnhatSenderCETracker.
Record t := mk {
  ecnhat_recalc_seq_ : Z;
  ecnhat_maxseq_ : Z;
  ecnhat_num_marked_ : Z;
  ecnhat_smooth_alpha_ : bool;
  ecnhat_g_ : f64;
  ecnhat_alpha_ : f64;
  ecnhat_total : Z
}.

#[global] Instance eta_t : Eta t := fun x =>
  mk (ecnhat_recalc_seq_ x) (ecnhat_maxseq_ x) (ecnhat_num_marked_ x) (ecnhat_smooth_alpha_ x)
    (ecnhat_g_ x) (ecnhat_alpha_ x) (ecnhat_total x).

Definition create : t := mk 0 0 0 true (F64.div (F64.of_Z 1) (F64.of_Z 8)) F64.zero 0.

(** [t_seqno] is the agent's [t_seqno_]. *)
Definition on_timeout (x : t) (t_seqno : Z) : t :=
  let x := x <| ecnhat_recalc_seq_ := t_seqno |> in
  x <| ecnhat_maxseq_ := x.(ecnhat_recalc_seq_) |>.

Definition on_foutput (x : t) (highest : Z) : t :=
  if x.(ecnhat_maxseq_) <? highest then x <| ecnhat_maxseq_ := highest |> else x.

Definition get_dctcp_alpha (x : t) : f64 := x.(ecnhat_alpha_).

(** [(1 - g) * alpha + g * v]. *)
Definition smooth (x : t) (v : f64) : f64 :=
  F64.add (F64.mul (F64.sub (F64.of_Z 1) x.(ecnhat_g_)) x.(ecnhat_alpha_)) (F64.mul x.(ecnhat_g_) v).

Definition acked_bytes (ackno highest_ack size : Z) : res Z :=
  let! acked := isub ackno highest_ack in
  Ok (if acked <=? 0 then size else acked).

(** The estimate is renewed when the window it measures is acknowledged. *)
Definition end_of_window (x : t) (ackno : Z) : t :=
  if x.(ecnhat_recalc_seq_) <? ackno then
    let x := x <| ecnhat_recalc_seq_ := x.(ecnhat_maxseq_) |> in
    let temp_alpha :=
      if 0 <? x.(ecnhat_total)
      then F64.div (F64.of_Z x.(ecnhat_num_marked_)) (F64.of_Z x.(ecnhat_total))
      else F64.zero in
    let x := x <| ecnhat_alpha_ := smooth x temp_alpha |> in
    let x := x <| ecnhat_num_marked_ := 0 |> in
    x <| ecnhat_total := 0 |>
  else x.

(** [ecnbit]: the packet carries an active congestion echo; [highest_ack] and
    [size] are the agent's.  The flag returned says that the processor's
    [ecnhat_beta_] is set to 1. *)
Definition update_ecnhat_alpha (x : t) (ecnbit : bool) (ackno highest_ack size : Z) : res (t * bool) :=
  if negb x.(ecnhat_smooth_alpha_) then
    Ok (x <| ecnhat_alpha_ := smooth x (F64.of_Z (b2z ecnbit)) |>, false)
  else
    let! acked := acked_bytes ackno highest_ack size in
    let! total := iadd x.(ecnhat_total) acked in
    let x := x <| ecnhat_total := total |> in
    let! marked := if ecnbit then iadd x.(ecnhat_num_marked_) acked else Ok x.(ecnhat_num_marked_) in
    let x := x <| ecnhat_num_marked_ := marked |> in
    Ok (end_of_window x ackno, ecnbit).
End EcnhatSenderCETracker.

(** [TcpFriendlyEcnhatSenderCETracker] adds two members. *)
Module TcpFriendly.
Record t := mk {
  super : EcnhatSenderCETracker.t;
  ecnhat_tcp_friendly_increase_ : f64;
  target_wnd_ : f64
}.

#[global] Instance eta_t : Eta t := fun x =>
  mk (super x) (ecnhat_tcp_friendly_increase_ x) (target_wnd_ x).
End TcpFriendly.

(** ** The processor *)

Module EcnProcessor.
Import TcpFlags.

Inductive EcnSynAckAction := WINDOW_OF_ONE | WAIT | RETRY.
Inductive EcnDecision := CONGESTION | NO_CONGESTION | CONGESTION_DROP.

#[global] Instance EcnSynAckAction_eq_dec : EqDecision EcnSynAckAction.
Proof. solve_decision. Defined.

Record t := mk {
  (* TcpAgent::EcnProcessor *)
  old_ecn_ : bool;
  ecn_ : bool;
  ect_ : bool;
  ecnhat_ : bool;
  ecn_backoff_ : bool;
  ecnhat_enable_beta_ : bool;
  ecnhat_beta_ : f64;
  ecnhat_tcp_friendly_ : bool;
  ecn_burst_ : bool;
  cong_action_ : bool;
  use_rtt_ : bool;
  SetCWRonRetransmit_ : bool;
  necnresponses_ : Z;
  ecnhat_send_ : EcnhatSenderCETracker.t;
  tcp_friendly_ecnhat_send_ : TcpFriendly.t;
  (* FullTcpAgent::EcnProcessor *)
  ecn_syn_ : bool;
  ecn_syn_next_ : bool;
  informpacer_ : bool;
  ecn_syn_wait_ : EcnSynAckAction;
  afabric_ecn_enabled_ : bool;
  normal_recv_ : NormalReceiverCETracker.t;
  ecnhat_recv_ : EcnhatReceiverCETracker.t;
  afabric_recv_ : AFabricReceiverCETracker.t;
  afabric_send_ : EcnhatSenderCETracker.t
}.

#[global] Instance eta_t : Eta t := fun p =>
  mk (old_ecn_ p) (ecn_ p) (ect_ p) (ecnhat_ p) (ecn_backoff_ p) (ecnhat_enable_beta_ p)
    (ecnhat_beta_ p) (ecnhat_tcp_friendly_ p) (ecn_burst_ p) (cong_action_ p) (use_rtt_ p)
    (SetCWRonRetransmit_ p) (necnresponses_ p) (ecnhat_send_ p) (tcp_friendly_ecnhat_send_ p)
    (ecn_syn_ p) (ecn_syn_next_ p) (informpacer_ p) (ecn_syn_wait_ p) (afabric_ecn_enabled_ p)
    (normal_recv_ p) (ecnhat_recv_ p) (afabric_recv_ p) (afabric_send_ p).

(** The constructors and [delay_bind_init_all]; [f] is the member the
    constructor of [TcpFriendlyEcnhatSenderCETracker] leaves uninitialised. *)
Definition create (f : f64) : t :=
  mk false false false false false false F64.zero false false false false true 0
    EcnhatSenderCETracker.create (TcpFriendly.mk EcnhatSenderCETracker.create f F64.zero)
    false false false WINDOW_OF_ONE false NormalReceiverCETracker.create
    EcnhatReceiverCETracker.create AFabricReceiverCETracker.create EcnhatSenderCETracker.create.

Definition is_enabled (p : t) : bool := p.(ecn_).
Definition is_active (p : t) : bool := p.(ect_).

(** *** The receiver in use *)

(** A call through [get_recv_tracker ()] that reads, and one that changes it. *)
Definition get_recv_tracker {A} (p : t) (f : forall T, ReceiverCETracker T -> T -> A) : A :=
  if p.(ecnhat_) then
    if p.(afabric_ecn_enabled_) then f _ _ p.(afabric_recv_) else f _ _ p.(ecnhat_recv_)
  else f _ _ p.(normal_recv_).

Definition set_recv_tracker (p : t) (f : forall T, ReceiverCETracker T -> T -> T) : t :=
  if p.(ecnhat_) then
    if p.(afabric_ecn_enabled_) then p <| afabric_recv_ := f _ _ p.(afabric_recv_) |>
    else p <| ecnhat_recv_ := f _ _ p.(ecnhat_recv_) |>
  else p <| normal_recv_ := f _ _ p.(normal_recv_) |>.

Definition recv_need_ce_echo (p : t) : bool := get_recv_tracker p (@need_ce_echo).
Definition recv_has_pending (p : t) : bool := get_recv_tracker p (@has_pending).
Definition recv_flip_ce (p : t) : t := set_recv_tracker p (@flip_ce).

(** *** Outgoing packets *)

Definition is_some_syn (pflags : Z) : bool := contains_all pflags SYN.
Definition is_syn_ack (pflags : Z) : bool := contains_all pflags (Z.lor SYN ACK).
Definition is_syn (pflags : Z) : bool := is_some_syn pflags && negb (is_syn_ack pflags).

Definition set_ce_if_needed (p : t) (pflags : Z) : Z :=
  if is_enabled p && is_active p && recv_need_ce_echo p then set_flags pflags ECE else pflags.

Definition need_to_attach_cong_action (p : t) (is_retransmit : bool) : bool :=
  p.(cong_action_) && (negb is_retransmit || p.(SetCWRonRetransmit_)).

Definition modify_pflags_on_foutput (p : t) (pflags : Z) (is_retransmit : bool) : t * Z :=
  if negb (is_enabled p) then (p, pflags)
  else
    let '(p, pflags) :=
      if is_some_syn pflags then
        if is_syn pflags then (p, set_flags (set_flags pflags ECE) CWR)
        else if is_syn_ack pflags then (p, clear_flags (set_flags pflags ECE) CWR)
        else (p, pflags)
      else if is_active p && need_to_attach_cong_action p is_retransmit then
        (p <| cong_action_ := false |>, set_flags pflags CWR)
      else (p, pflags) in
    (p, set_ce_if_needed p pflags).

(** The sender in use. *)
Inductive sender := NormalSend | EcnhatSend | TcpFriendlySend | AfabricSend.

#[global] Instance sender_eq_dec : EqDecision sender.
Proof. solve_decision. Defined.

Definition get_send_tracker (p : t) : sender :=
  if p.(afabric_ecn_enabled_) then AfabricSend
  else if p.(ecnhat_) then if p.(ecnhat_tcp_friendly_) then TcpFriendlySend else EcnhatSend
  else NormalSend.

Definition always_report_ect (p : t) : bool := negb (bool_decide (get_send_tracker p = NormalSend)).

Definition get_next_packet_ect (p : t) (has_data is_syn_ack : bool) : bool :=
  if always_report_ect p then p.(ect_)
  else if negb (is_enabled p) then false
  else if has_data || (p.(ecn_syn_) && p.(ecn_syn_next_) && is_syn_ack) then p.(ect_)
  else false.

Definition copy_to_hdr_flags (p : t) (pflags : Z) (fh : hdr_flags) : hdr_flags :=
  let fh :=
    if contains_all pflags ECE
    then get_recv_tracker p (fun T _ x => ce_set_packet_echo x fh)
    else fh <| ecnecho := 0 |> in
  if contains_all pflags CWR then fh <| cong_action := 1 |> else fh <| cong_action := 0 |>.

(** Returns the flags, the packet's flags and, for a data packet, its
    [gotecnecho]. *)
Definition on_sendpacket (p : t) (pflags : Z) (fh : hdr_flags) (has_data : bool)
    : t * Z * hdr_flags * option Z :=
  let fh := fh <| ect := b2z (get_next_packet_ect p has_data (is_syn_ack pflags)) |> in
  let pflags := set_ce_if_needed p pflags in
  let fh := copy_to_hdr_flags p pflags fh in
  if has_data then (p <| informpacer_ := false |>, pflags, fh, Some (b2z p.(informpacer_)))
  else (p, pflags, fh, None).

(** *** Incoming packets *)

Definition update_state_new_packet (p : t) (fh : hdr_flags) (prio : Z) (has_data : bool) : t :=
  if is_enabled p then set_recv_tracker p (fun T _ x => on_new_packet x fh prio has_data) else p.

(** The warning about an unexpected echo is only printed. *)
Definition on_receive_ack_pre (p : t) (fh : hdr_flags) (prio : Z) (has_data : bool) : t :=
  update_state_new_packet p fh prio has_data.

Definition on_receive_predict_ok (p : t) (fh : hdr_flags) (prio : Z) (has_data : bool) : t :=
  update_state_new_packet p fh prio has_data.

Definition on_receive_syn (p : t) (fh : hdr_flags) : t :=
  if negb (is_enabled p) then p
  else if tt (ecnecho fh) && tt (cong_action fh) then p <| ect_ := true |> else p.

Definition on_receive_syn_ack (p : t) (fh : hdr_flags) : t :=
  if negb (is_enabled p) then p
  else
    let p := set_recv_tracker p (fun T _ x => on_syn_ack x fh) in
    if tt (ecnecho fh) && negb (tt (cong_action fh)) then p <| ect_ := true |> else p.

Definition reset (p : t) : t :=
  if p.(ecn_syn_) then p <| ecn_syn_next_ := true |> else p <| ecn_syn_next_ := false |>.

(** [signal] is the agent's [signal_on_empty_]. *)
Definition is_ecn_active (p : t) (signal : bool) (fh : hdr_flags) : bool :=
  match get_send_tracker p with
  | AfabricSend => tt (ecnecho fh) && (negb (tt (ecn_low_prio fh)) || negb signal)
  | _ => tt (ecnecho fh)
  end.

Definition predict_ok (p : t) (signal : bool) (fh : hdr_flags) : bool :=
  negb (is_enabled p) || negb (is_ecn_active p signal fh).

Definition update_ecn_burst (p : t) (signal : bool) (fh : hdr_flags) : t :=
  if negb p.(ecn_burst_) && is_ecn_active p signal fh then p <| ecn_burst_ := true |>
  else if p.(ecn_burst_) && negb (is_ecn_active p signal fh) then p <| ecn_burst_ := false |>
  else p.

Definition on_receive_newack (p : t) (signal : bool) (fh : hdr_flags) : t :=
  if p.(ect_) then update_ecn_burst p signal fh else p.

Definition can_open_cwnd (p : t) (signal : bool) (fh : hdr_flags) : bool :=
  (negb p.(ect_) || negb (is_ecn_active p signal fh) || (p.(old_ecn_) && p.(ecn_burst_))) ||
  (p.(ecn_burst_) && negb p.(old_ecn_)).

Definition can_reset_rto_backoff_tcp (p : t) (signal : bool) (fh : hdr_flags) : bool :=
  negb p.(ect_) || negb p.(ecn_backoff_) || negb (is_ecn_active p signal fh).

Definition reset_rto_backoff_tcp (p : t) : t := p <| ecn_backoff_ := false |>.

(** *** Calls to the sender in use *)

Definition set_send_tracker (p : t) (f : EcnhatSenderCETracker.t -> EcnhatSenderCETracker.t) : t :=
  match get_send_tracker p with
  | NormalSend => p
  | EcnhatSend => p <| ecnhat_send_ := f p.(ecnhat_send_) |>
  | TcpFriendlySend =>
      let x := p.(tcp_friendly_ecnhat_send_) in
      p <| tcp_friendly_ecnhat_send_ := x <| TcpFriendly.super := f (TcpFriendly.super x) |> |>
  | AfabricSend => p <| afabric_send_ := f p.(afabric_send_) |>
  end.

Definition send_tracker (p : t) : option EcnhatSenderCETracker.t :=
  match get_send_tracker p with
  | NormalSend => None
  | EcnhatSend => Some p.(ecnhat_send_)
  | TcpFriendlySend => Some (TcpFriendly.super p.(tcp_friendly_ecnhat_send_))
  | AfabricSend => Some p.(afabric_send_)
  end.

Definition on_foutput (p : t) (highest : Z) : t :=
  set_send_tracker p (fun x => EcnhatSenderCETracker.on_foutput x highest).

Definition on_timeout (p : t) (t_seqno : Z) : t :=
  set_send_tracker p (fun x => EcnhatSenderCETracker.on_timeout x t_seqno).

Definition get_dctcp_alpha (p : t) : f64 :=
  from_option EcnhatSenderCETracker.get_dctcp_alpha (F64.of_Z 1) (send_tracker p).

Definition should_slowdown_on_dup_ack (p : t) : bool :=
  negb (bool_decide (get_send_tracker p = NormalSend)).

(** [FullTcpAgent::EcnProcessor::on_receive]; [tiflags], [ackno]: of the
    packet, [signal], [highest_ack] and [size]: of the agent. *)
Definition on_receive (p : t) (signal : bool) (fh : hdr_flags) (tiflags ackno highest_ack size : Z)
    : res t :=
  let! p := match send_tracker p with
    | Some x =>
        let! (x, beta) :=
          EcnhatSenderCETracker.update_ecnhat_alpha x (is_ecn_active p signal fh) ackno highest_ack size in
        let p := set_send_tracker p (fun _ => x) in
        Ok (if beta then p <| ecnhat_beta_ := F64.of_Z 1 |> else p)
    | None => Ok p
    end in
  Ok (if negb (is_some_syn tiflags) && is_ecn_active p signal fh
      then p <| informpacer_ := true |> else p).
End EcnProcessor.
