(* ===== verification/TcpAgent.v ===== *)
(** * The base class of the TCP agents

    [TcpAgent] (src/ns2/tcp/tcp.h, tcp.cc): its window, congestion-control and
    round-trip-time state as one record, with the computation of the window,
    the reduction of the window on congestion ([slowdown]), its growth on new
    acknowledgements ([opencwnd]) and the retransmission-timeout estimator.

    [pow], [exp] and [log] of the C library are parameters ([Libm]), without
    hypotheses. *)

From Stdlib Require Import ZArith Lia Bool SpecFloat.
From stdpp Require Import base list gmap.
From S2P Require Import Prelude F64 PktQueue Ecn.

(** How to change the window (enum TcpSlowdownFlags). *)
Module TcpSlowdownFlags.
Definition SSTHRESH_HALF : Z := 1.
Definition CWND_HALF : Z := 2.
Definition CWND_RESTART : Z := 4.
Definition CWND_INIT : Z := 8.
Definition CWND_ONE : Z := 16.
Definition SSTHRESH_THREE_QUATER : Z := 128.
Definition CWND_HALF_WAY : Z := 256.
Definition CWND_HALF_WITH_MIN : Z := 512.
Definition TCP_IDLE : Z := 1024.
Definition NO_OUTSTANDING_DATA : Z := 2048.
Definition SSTHRESH_ECNHAT : Z := 4096.
Definition CWND_ECNHAT : Z := 8192.

(** [how & flag]. *)
Definition has (how flag : Z) : bool := negb (Z.land how flag =? 0).
End TcpSlowdownFlags.

Inductive CongestionWindowAdjustmentReason := NONE | DUPACK | TIMEOUT | ECN | EXITED.

#[export] Instance reason_eq_dec : EqDecision CongestionWindowAdjustmentReason.
Proof. solve_decision. Defined.

Module TcpAgent.

Record hstcp := mkHstcp {
  dec1 : f64; dec2 : f64; p1 : f64; p2 : f64; cwnd_last_ : f64; increase_last_ : f64
}.

#[global] Instance eta_hstcp : Eta hstcp := fun h =>
  mkHstcp (dec1 h) (dec2 h) (p1 h) (p2 h) (cwnd_last_ h) (increase_last_ h).

Record t := mk {
  (* window and sequence numbers *)
  wnd_ : f64;             (* bound on the window *)
  cwnd_ : f64;            (* congestion window, in packets *)
  ssthresh_ : Z;
  frto_ : Z;
  recover_ : Z;           (* highest seqno sent when recovery started *)
  t_seqno_ : Z;           (* next seqno to send *)
  curseq_ : Z;            (* highest seqno produced by the application *)
  highest_ack_ : Z;
  maxseq_ : Z;            (* highest seqno sent *)
  dupacks_ : Z;
  size_ : Z;
  last_cwnd_action_ : CongestionWindowAdjustmentReason;
  (* congestion control *)
  count_ : Z;
  fcnt_ : f64;
  awnd_ : f64;
  wnd_const_ : f64;
  wnd_init_ : f64;
  wnd_restart_ : f64;
  wnd_option_ : Z;
  decrease_num_ : f64;
  increase_num_ : f64;
  k_parameter_ : f64;
  l_parameter_ : f64;
  precision_reduce_ : bool;
  first_decrease_ : Z;
  max_ssthresh_ : Z;
  maxcwnd_ : Z;
  low_window_ : Z;
  cwnd_range_ : Z;
  W_used : Z;
  hstcp_ : hstcp;
  ncwndcuts_ : Z;
  ncwndcuts1_ : Z;
  ndatabytes_ : Z;
  lldct_ : bool;
  lldct_w_min_ : f64;
  lldct_w_max_ : f64;
  lldct_size_min_ : f64;
  lldct_size_max_ : f64;
  lldct_w_c_ : f64;
  (* round-trip time, in ticks; the smoothed values are scaled *)
  tcp_tick_ : f64;
  boot_time_ : f64;
  ts_option_ : bool;
  rfc2988_ : bool;
  t_rtt_ : Z;
  t_srtt_ : Z;
  t_rttvar_ : Z;
  t_backoff_ : Z;
  T_SRTT_BITS : Z;
  T_RTTVAR_BITS : Z;
  srtt_init_ : Z;
  rttvar_init_ : Z;
  rttvar_exp_ : Z;
  t_rtxcur_ : f64;
  rtxcur_init_ : f64;
  maxrto_ : f64;
  minrto_ : f64;
  ecn_processor_ : EcnProcessor.t
}.

#[global] Instance eta_t : Eta t := fun s =>
  mk (wnd_ s) (cwnd_ s) (ssthresh_ s) (frto_ s) (recover_ s) (t_seqno_ s) (curseq_ s)
    (highest_ack_ s) (maxseq_ s) (dupacks_ s) (size_ s) (last_cwnd_action_ s) (count_ s) (fcnt_ s)
    (awnd_ s) (wnd_const_ s) (wnd_init_ s) (wnd_restart_ s) (wnd_option_ s) (decrease_num_ s)
    (increase_num_ s) (k_parameter_ s) (l_parameter_ s) (precision_reduce_ s) (first_decrease_ s)
    (max_ssthresh_ s) (maxcwnd_ s) (low_window_ s) (cwnd_range_ s) (W_used s) (hstcp_ s)
    (ncwndcuts_ s) (ncwndcuts1_ s) (ndatabytes_ s) (lldct_ s) (lldct_w_min_ s) (lldct_w_max_ s)
    (lldct_size_min_ s) (lldct_size_max_ s) (lldct_w_c_ s) (tcp_tick_ s) (boot_time_ s)
    (ts_option_ s) (rfc2988_ s) (t_rtt_ s) (t_srtt_ s) (t_rttvar_ s) (t_backoff_ s)
    (T_SRTT_BITS s) (T_RTTVAR_BITS s) (srtt_init_ s) (rttvar_init_ s) (rttvar_exp_ s)
    (t_rtxcur_ s) (rtxcur_init_ s) (maxrto_ s) (minrto_ s) (ecn_processor_ s).

Implicit Types (s : t).

(** ** The window *)

Definition force_wnd s (num : Z) : res Z :=
  let! r := iadd s.(recover_) num in isub r s.(highest_ack_).

Definition window s : res Z :=
  if s.(frto_) =? 2 then
    let! f := force_wnd s 2 in
    if F64.lt (F64.of_Z f) s.(wnd_) then Ok f else F64.to_int s.(wnd_)
  else if F64.lt s.(cwnd_) s.(wnd_) then F64.to_int s.(cwnd_) else F64.to_int s.(wnd_).

Definition windowd s : f64 :=
  if F64.lt s.(cwnd_) s.(wnd_) then s.(cwnd_) else s.(wnd_).

(** ** Parameters of the window rules *)

Definition limited_slow_start (cwnd : f64) (max_ssthresh : Z) (increment : f64) : res f64 :=
  if max_ssthresh <=? 0 then Ok increment
  else
    let! round := F64.to_int (F64.div cwnd (F64.div (F64.of_Z max_ssthresh) (F64.of_Z 2))) in
    let increment1 := if 0 <? round then F64.div (F64.of_Z 1) (F64.of_Z round) else F64.zero in
    Ok (if F64.lt increment increment1 then increment1 else increment).

(** The weight of a flow under LLDCT, from the bytes it has sent. *)
Definition lldct_weight s : f64 :=
  let n := F64.of_Z s.(ndatabytes_) in
  if F64.le n s.(lldct_size_min_) then s.(lldct_w_max_)
  else if F64.ge n s.(lldct_size_max_) then s.(lldct_w_min_)
  else F64.sub s.(lldct_w_max_)
    (F64.div (F64.mul (F64.sub n s.(lldct_size_min_)) (F64.sub s.(lldct_w_max_) s.(lldct_w_min_)))
       (F64.sub s.(lldct_size_max_) s.(lldct_size_min_))).

Section WithLibm.
Context `{Libm}.

Definition decrease_param s : f64 :=
  F64.add s.(hstcp_).(dec1) (F64.mul (log s.(cwnd_)) s.(hstcp_).(dec2)).

Definition increase_param s : t * f64 :=
  let h := s.(hstcp_) in
  if F64.le s.(cwnd_) (F64.of_Z s.(low_window_)) then (s, F64.div (F64.of_Z 1) s.(cwnd_))
  else if F64.ge s.(cwnd_) h.(cwnd_last_) &&
          F64.lt s.(cwnd_) (F64.add h.(cwnd_last_) (F64.of_Z s.(cwnd_range_)))
  then (s, F64.div h.(increase_last_) s.(cwnd_))
  else
    let p := exp (F64.add h.(p1) (F64.mul (log s.(cwnd_)) h.(p2))) in
    let decrease := decrease_param s in
    let increase :=
      F64.div (F64.mul (F64.mul s.(cwnd_) s.(cwnd_)) p)
        (F64.sub (F64.div (F64.of_Z 1) decrease) (F64.ratio 1 2)) in
    let answer := F64.div increase s.(cwnd_) in
    let h := h <| cwnd_last_ := s.(cwnd_) |> in
    let h := h <| increase_last_ := increase |> in
    (s <| hstcp_ := h |>, answer).

(** ** Reducing the window *)

Import TcpSlowdownFlags.

(** [halfwin], [decreasewin] and [win] of [slowdown]; the high-speed option
    also sets [decrease_num_]. *)
Definition slowdown_windows s : res (t * f64 * f64 * f64) :=
  let high := (s.(wnd_option_) =? 8) && F64.gt s.(cwnd_) (F64.of_Z s.(low_window_)) in
  let binomial w := F64.sub w (F64.mul (F64.sub (F64.of_Z 1) s.(decrease_num_)) (pow w s.(l_parameter_))) in
  if s.(precision_reduce_) then
    let w := windowd s in
    let halfwin := F64.div w (F64.of_Z 2) in
    if s.(wnd_option_) =? 6 then Ok (s, halfwin, binomial w, w)
    else if high then
      let decrease := decrease_param s in
      Ok (s <| decrease_num_ := decrease |>, halfwin, F64.sub w (F64.mul decrease w), w)
    else Ok (s, halfwin, F64.mul s.(decrease_num_) w, w)
  else
    let! w := window s in
    let halfwin := F64.of_Z (Z.quot w 2) in
    let! (s, temp) :=
      if s.(wnd_option_) =? 6 then
        let! temp := F64.to_int (binomial (F64.of_Z w)) in Ok (s, temp)
      else if high then
        let decrease := decrease_param s in
        let! temp := F64.to_int (F64.sub (windowd s) (F64.mul decrease (windowd s))) in
        Ok (s <| decrease_num_ := decrease |>, temp)
      else let! temp := F64.to_int (F64.mul s.(decrease_num_) (F64.of_Z w)) in Ok (s, temp) in
    Ok (s, halfwin, F64.of_Z temp, F64.of_Z w).

(** [(1 - b/2.0) * windowd ()]. *)
Definition ecnhat_window s (b : f64) : f64 :=
  F64.mul (F64.sub (F64.of_Z 1) (F64.div b (F64.of_Z 2))) (windowd s).

Definition slowdown_ssthresh s (how : Z) (b halfwin decreasewin : f64) (slowstart : bool) : res t :=
  if has how SSTHRESH_HALF then
    let! v := F64.to_int
      (if (s.(first_decrease_) =? 1) || slowstart || bool_decide (s.(last_cwnd_action_) = TIMEOUT)
       then halfwin else decreasewin) in
    Ok (s <| ssthresh_ := v |>)
  else if has how SSTHRESH_ECNHAT then
    let! v := F64.to_int (ecnhat_window s b) in Ok (s <| ssthresh_ := v |>)
  else if has how SSTHRESH_THREE_QUATER then
    let v := F64.div (F64.mul (F64.of_Z 3) s.(cwnd_)) (F64.of_Z 4) in
    if F64.lt (F64.of_Z s.(ssthresh_)) v then let! v := F64.to_int v in Ok (s <| ssthresh_ := v |>)
    else Ok s
  else Ok s.

Definition at_least_one (x : f64) : f64 := if F64.lt x (F64.of_Z 1) then F64.of_Z 1 else x.

Definition slowdown_cwnd s (how : Z) (b halfwin decreasewin win : f64) (slowstart : bool) : res t :=
  if has how CWND_HALF then
    Ok (s <| cwnd_ :=
      if (s.(first_decrease_) =? 1) || slowstart || F64.eq s.(decrease_num_) (F64.ratio 1 2)
      then halfwin else decreasewin |>)
  else if has how CWND_ECNHAT then Ok (s <| cwnd_ := at_least_one (ecnhat_window s b) |>)
  else if has how CWND_HALF_WITH_MIN then Ok (s <| cwnd_ := at_least_one decreasewin |>)
  else if has how CWND_RESTART then
    let! v := F64.to_int s.(wnd_restart_) in Ok (s <| cwnd_ := F64.of_Z v |>)
  else if has how CWND_INIT then
    let! v := F64.to_int s.(wnd_init_) in Ok (s <| cwnd_ := F64.of_Z v |>)
  else if has how CWND_ONE then Ok (s <| cwnd_ := F64.of_Z 1 |>)
  else if has how CWND_HALF_WAY then
    let u := F64.of_Z s.(W_used) in
    Ok (s <| cwnd_ := at_least_one (F64.add u (F64.mul s.(decrease_num_) (F64.sub win u))) |>)
  else Ok s.

Definition notify_sender_responded_to_congestion s : t :=
  s <| ecn_processor_ := s.(ecn_processor_) <| EcnProcessor.cong_action_ := true |> |>.

(** The end of [slowdown]: the floors, the notification of the processor and
    the counters. *)
Definition slowdown_finish s (how : Z) : t :=
  let s := if s.(ssthresh_) <? 2 then s <| ssthresh_ := 2 |> else s in
  let s := s <| cwnd_ := at_least_one s.(cwnd_) |> in
  let s :=
    if has how (Z.lor (Z.lor (Z.lor (Z.lor CWND_HALF CWND_RESTART) CWND_INIT) CWND_ONE) CWND_ECNHAT)
    then notify_sender_responded_to_congestion s else s in
  let s := s <| count_ := 0 |> in
  let s := s <| fcnt_ := F64.zero |> in
  if s.(first_decrease_) =? 1 then s <| first_decrease_ := 0 |> else s.

(** The reduction itself, [b] being the marked fraction it works with. *)
Definition slowdown_with s (how : Z) (b : f64) : res t :=
  let slowstart := F64.lt s.(cwnd_) (F64.of_Z s.(ssthresh_)) in
  let! (s, halfwin, decreasewin, win) := slowdown_windows s in
  let! s := slowdown_ssthresh s how b halfwin decreasewin slowstart in
  let! s := slowdown_cwnd s how b halfwin decreasewin win slowstart in
  Ok (slowdown_finish s how).

Definition count_cut s (how : Z) : res t :=
  let! n := iadd s.(ncwndcuts_) 1 in
  let s := s <| ncwndcuts_ := n |> in
  if negb (has how TCP_IDLE) && negb (has how NO_OUTSTANDING_DATA) then
    let! n := iadd s.(ncwndcuts1_) 1 in Ok (s <| ncwndcuts1_ := n |>)
  else Ok s.

(** Tracing is left out. *)
Definition slowdown s (how : Z) : res t :=
  let! s := count_cut s how in
  let b := EcnProcessor.get_dctcp_alpha s.(ecn_processor_) in
  if s.(lldct_) then
    let s := s <| lldct_w_c_ := lldct_weight s |> in
    slowdown_with s how (pow b s.(lldct_w_c_))
  else slowdown_with s how b.

(** ** Growing the window *)

(** [EcnProcessor::opencwnd_multiplier]: only the TCP-friendly sender has one
    of its own; the others throw. *)
Definition opencwnd_multiplier s : res (t * f64) :=
  let p := s.(ecn_processor_) in
  if p.(EcnProcessor.ecnhat_enable_beta_) then Ok (s, p.(EcnProcessor.ecnhat_beta_))
  else
    match EcnProcessor.get_send_tracker p with
    | EcnProcessor.TcpFriendlySend =>
        let rtt := F64.mul (F64.of_Z (Z.shiftr s.(t_srtt_) s.(T_SRTT_BITS))) s.(tcp_tick_) in
        let inc := F64.div rtt (F64.ratio 4 10000) in
        let x := p.(EcnProcessor.tcp_friendly_ecnhat_send_) in
        let x := x <| TcpFriendly.ecnhat_tcp_friendly_increase_ := inc |> in
        let p := p <| EcnProcessor.tcp_friendly_ecnhat_send_ := x |> in
        Ok (s <| ecn_processor_ := p |>, inc)
    | _ => Err Throw
    end.

Definition is_opencwnd_adjustment_enabled s : bool :=
  let p := s.(ecn_processor_) in
  p.(EcnProcessor.ecnhat_enable_beta_) ||
  bool_decide (EcnProcessor.get_send_tracker p = EcnProcessor.TcpFriendlySend).

Definition incr_cwnd s (d : f64) : t := s <| cwnd_ := F64.add s.(cwnd_) d |>.

(** The window is limited after slow-start-like phases only. *)
Definition limit_slow_start s (increment : f64) : res f64 :=
  if (bool_decide (s.(last_cwnd_action_) = NONE) || bool_decide (s.(last_cwnd_action_) = TIMEOUT)) &&
     (0 <? s.(max_ssthresh_))
  then limited_slow_start s.(cwnd_) s.(max_ssthresh_) increment
  else Ok increment.

(** The rules 2 to 5 accumulate [f] in [fcnt_]. *)
Definition accumulate s (f : f64) : t :=
  let f := F64.add f s.(fcnt_) in
  if F64.gt f s.(cwnd_) then incr_cwnd (s <| fcnt_ := F64.zero |>) (F64.of_Z 1)
  else s <| fcnt_ := f |>.

Definition srtt_seconds s : f64 :=
  F64.mul (F64.of_Z (Z.shiftr s.(t_srtt_) s.(T_SRTT_BITS))) s.(tcp_tick_).

(** Rule 0; with LLDCT enabled [count_] is incremented again when the first
    test fails. *)
Definition opencwnd_count s : res t :=
  let one_more s := incr_cwnd (s <| count_ := 0 |>) (F64.of_Z 1) in
  let plain s :=
    let! n := iadd s.(count_) 1 in
    let s := s <| count_ := n |> in
    Ok (if F64.ge (F64.of_Z n) s.(cwnd_) then one_more s else s) in
  if s.(lldct_) then
    let! n := iadd s.(count_) 1 in
    let s := s <| count_ := n |> in
    if F64.ge (F64.div (F64.mul (F64.of_Z n) s.(lldct_w_c_)) s.(lldct_w_max_)) s.(cwnd_)
    then Ok (one_more s) else plain s
  else plain s.

Definition opencwnd_linear s : res t :=
  match s.(wnd_option_) with
  | 0 => opencwnd_count s
  | 1 =>
      let! (s, increment) :=
        if is_opencwnd_adjustment_enabled s then
          let! (s, m) := opencwnd_multiplier s in Ok (s, F64.div m s.(cwnd_))
        else Ok (s, F64.div s.(increase_num_) s.(cwnd_)) in
      let! increment := limit_slow_start s increment in
      Ok (incr_cwnd s increment)
  | 2 =>
      let f := srtt_seconds s in
      Ok (accumulate s (F64.mul (F64.mul f f) s.(wnd_const_)))
  | 3 => Ok (accumulate s (F64.mul (F64.mul s.(awnd_) s.(awnd_)) s.(wnd_const_)))
  | 4 => Ok (accumulate s (F64.mul s.(awnd_) s.(wnd_const_)))
  | 5 => Ok (accumulate s (F64.mul (srtt_seconds s) s.(wnd_const_)))
  | 6 => Ok (incr_cwnd s (F64.div s.(increase_num_) (F64.mul s.(cwnd_) (pow s.(cwnd_) s.(k_parameter_)))))
  | 8 =>
      let '(s, increment) := increase_param s in
      let! increment := limit_slow_start s increment in
      Ok (incr_cwnd s increment)
  | _ => Err Abort
  end.

Definition cap_cwnd s : res t :=
  if s.(maxcwnd_) =? 0 then Ok s
  else
    let! w := F64.to_int s.(cwnd_) in
    Ok (if s.(maxcwnd_) <? w then s <| cwnd_ := F64.of_Z s.(maxcwnd_) |> else s).

Definition opencwnd s : res t :=
  let! s :=
    if F64.lt s.(cwnd_) (F64.of_Z s.(ssthresh_)) then
      let p := s.(ecn_processor_) in
      if p.(EcnProcessor.ecnhat_enable_beta_)
      then Ok (incr_cwnd s (F64.div p.(EcnProcessor.ecnhat_beta_) s.(cwnd_)))
      else Ok (incr_cwnd s (F64.of_Z 1))
    else
      let s :=
        if s.(lldct_) then
          let s := s <| lldct_w_c_ := lldct_weight s |> in
          s <| increase_num_ := F64.div s.(lldct_w_c_) s.(lldct_w_max_) |>
        else s in
      opencwnd_linear s in
  cap_cwnd s.
End WithLibm.

(** ** The retransmission timeout *)

(** [int << bits]: undefined behaviour when a bit is lost. *)
Definition shl (a bits : Z) : res Z := chk (Z.shiftl a bits).

Definition rtt_init s : res t :=
  let! a := F64.to_int (F64.div (F64.of_Z s.(srtt_init_)) s.(tcp_tick_)) in
  let! a := shl a s.(T_SRTT_BITS) in
  let! v := F64.to_int (F64.div (F64.of_Z s.(rttvar_init_)) s.(tcp_tick_)) in
  let! v := shl v s.(T_RTTVAR_BITS) in
  let s := s <| t_rtt_ := 0 |> in
  let s := s <| t_srtt_ := a |> in
  let s := s <| t_rttvar_ := v |> in
  let s := s <| t_rtxcur_ := s.(rtxcur_init_) |> in
  Ok (s <| t_backoff_ := 1 |>).

(** The timeout before its lower bound of two ticks. *)
Definition rtt_timeout_base s : f64 :=
  let use_rtt := s.(ecn_processor_).(EcnProcessor.use_rtt_) in
  let backoff := F64.of_Z s.(t_backoff_) in
  let timeout :=
    if s.(rfc2988_) then
      if F64.lt s.(t_rtxcur_) s.(minrto_) && negb use_rtt
      then F64.mul s.(minrto_) backoff else F64.mul s.(t_rtxcur_) backoff
    else
      let timeout := F64.mul s.(t_rtxcur_) backoff in
      if F64.lt timeout s.(minrto_) then s.(minrto_) else timeout in
  if F64.gt timeout s.(maxrto_) then s.(maxrto_) else timeout.

Definition stop_using_rtt_for_timeout s : t :=
  s <| ecn_processor_ := s.(ecn_processor_) <| EcnProcessor.use_rtt_ := false |> |>.

Definition rtt_timeout s : res (t * f64) :=
  let two_ticks := F64.mul (F64.of_Z 2) s.(tcp_tick_) in
  let timeout := rtt_timeout_base s in
  let! timeout :=
    if F64.lt timeout two_ticks then
      if F64.lt timeout F64.zero then Err Abort
      else if s.(ecn_processor_).(EcnProcessor.use_rtt_) && F64.lt timeout s.(tcp_tick_)
      then Ok s.(tcp_tick_) else Ok two_ticks
    else Ok timeout in
  Ok (stop_using_rtt_for_timeout s, timeout).

(** Conversion to [short]. *)
Definition short (z : Z) : Z := (z + 2 ^ 15) mod 2 ^ 16 - 2 ^ 15.

(** The update of the smoothed values from the sample [t_rtt_]. *)
Definition rtt_smooth s : res t :=
  if negb (s.(t_srtt_) =? 0) then
    let! d := isub s.(t_rtt_) (Z.shiftr s.(t_srtt_) s.(T_SRTT_BITS)) in
    let delta := short d in
    let! a := iadd s.(t_srtt_) delta in
    let s := s <| t_srtt_ := if a <=? 0 then 1 else a |> in
    let delta := if delta <? 0 then short (- delta) else delta in
    let! d := isub delta (Z.shiftr s.(t_rttvar_) s.(T_RTTVAR_BITS)) in
    let delta := short d in
    let! v := iadd s.(t_rttvar_) delta in
    Ok (s <| t_rttvar_ := if v <=? 0 then 1 else v |>)
  else
    let! a := shl s.(t_rtt_) s.(T_SRTT_BITS) in
    let! v := shl s.(t_rtt_) (s.(T_RTTVAR_BITS) - 1) in
    let s := s <| t_srtt_ := a |> in
    Ok (s <| t_rttvar_ := v |>).

Definition rtt_sample s (now tao : f64) : res Z :=
  let! r :=
    if s.(ts_option_) then F64.to_int (F64.add (F64.div tao s.(tcp_tick_)) (F64.ratio 1 2))
    else
      let sendtime := F64.add (F64.sub now tao) s.(boot_time_) in
      let tickoff := F64.fmod sendtime s.(tcp_tick_) in
      F64.to_int (F64.div (F64.add tao tickoff) s.(tcp_tick_)) in
  Ok (if r <? 1 then 1 else r).

Definition rtt_update s (now tao : f64) : res t :=
  let! r := rtt_sample s now tao in
  let s := s <| t_rtt_ := r |> in
  let! s := rtt_smooth s in
  let! v := shl s.(t_rttvar_) (s.(rttvar_exp_) + (s.(T_SRTT_BITS) - s.(T_RTTVAR_BITS))) in
  let! v := iadd v s.(t_srtt_) in
  Ok (s <| t_rtxcur_ := F64.mul (F64.of_Z (Z.shiftr v s.(T_SRTT_BITS))) s.(tcp_tick_) |>).

(** The virtual [rtt_timeout] is called, with its effect on the processor,
    only under RFC 2988 and from a backoff of 64 on. *)
Definition rtt_backoff (rtt_timeout : t -> res (t * f64)) s : res t :=
  let! (s, double) :=
    if s.(t_backoff_) <? 64 then Ok (s, true)
    else if s.(rfc2988_) then
      let! (s, timeout) := rtt_timeout s in Ok (s, F64.lt timeout s.(maxrto_))
    else Ok (s, false) in
  let! s := if double : bool then let! b := shl s.(t_backoff_) 1 in Ok (s <| t_backoff_ := b |>) else Ok s in
  if 8 <? s.(t_backoff_) then
    let! v := iadd s.(t_rttvar_) (Z.shiftr s.(t_srtt_) s.(T_SRTT_BITS)) in
    let s := s <| t_rttvar_ := v |> in
    Ok (s <| t_srtt_ := 0 |>)
  else Ok s.
End TcpAgent.

(** * Facts *)

Module TcpAgentFacts.
Import TcpAgent TcpSlowdownFlags.

Implicit Types (s : t).

Section WithLibm.
Context `{Libm}.

(** The fields no reduction of the window changes. *)
Definition flow s :=
  (wnd_ s, recover_ s, t_seqno_ s, curseq_ s, highest_ack_ s, maxseq_ s, last_cwnd_action_ s, t_backoff_ s,
   size_ s).

Lemma slowdown_windows_flow s s' h d w :
  slowdown_windows s = Ok (s', h, d, w) ->
  flow s' = flow s /\ ncwndcuts_ s' = ncwndcuts_ s /\ ecn_processor_ s' = ecn_processor_ s.
Proof. unfold slowdown_windows. intros E. bool_cases; inv_res; bool_cases; inv_res; done. Qed.

Lemma slowdown_ssthresh_flow s s' how b h d ss :
  slowdown_ssthresh s how b h d ss = Ok s' ->
  flow s' = flow s /\ ncwndcuts_ s' = ncwndcuts_ s /\ ecn_processor_ s' = ecn_processor_ s.
Proof. unfold slowdown_ssthresh. intros E. bool_cases; inv_res; done. Qed.

Lemma slowdown_cwnd_flow s s' how b h d w ss :
  slowdown_cwnd s how b h d w ss = Ok s' ->
  flow s' = flow s /\ ncwndcuts_ s' = ncwndcuts_ s /\ ecn_processor_ s' = ecn_processor_ s.
Proof. unfold slowdown_cwnd. intros E. bool_cases; inv_res; done. Qed.

Lemma one_floor x : F64.lt (at_least_one x) (F64.of_Z 1) = false.
Proof. unfold at_least_one. destruct (F64.lt x _) eqn:E; [apply F64.lt_irrefl|done]. Qed.

Lemma slowdown_finish_spec s how :
  let s' := slowdown_finish s how in
  flow s' = flow s /\ ncwndcuts_ s' = ncwndcuts_ s /\ ssthresh_ s' = Z.max 2 (ssthresh_ s) /\
  cwnd_ s' = at_least_one (cwnd_ s) /\ count_ s' = 0 /\ fcnt_ s' = F64.zero /\ first_decrease_ s' <> 1.
Proof.
  unfold slowdown_finish. set (mask := Z.lor _ _). cbn zeta.
  destruct (Z.ltb_spec (ssthresh_ s) 2) as [H1|H1], (has how mask); cbn;
    (destruct (Z.eqb_spec (first_decrease_ s) 1) as [H2|H2]; cbn;
      repeat (split; [first [done|lia]|]); first [done|lia]).
Qed.

Lemma slowdown_with_flow s s' how b :
  slowdown_with s how b = Ok s' ->
  flow s' = flow s /\ ncwndcuts_ s' = ncwndcuts_ s /\ 2 <= ssthresh_ s' /\
  F64.lt (cwnd_ s') (F64.of_Z 1) = false /\ count_ s' = 0 /\ fcnt_ s' = F64.zero /\ first_decrease_ s' <> 1.
Proof.
  unfold slowdown_with. intros E. apply res_bind_Ok in E as ([[[s1 h] d] w] & E1 & E).
  apply res_bind_Ok in E as (s2 & E2 & E). apply res_bind_Ok in E as (s3 & E3 & [= <-]).
  apply slowdown_windows_flow in E1 as (F1 & N1 & _). apply slowdown_ssthresh_flow in E2 as (F2 & N2 & _).
  apply slowdown_cwnd_flow in E3 as (F3 & N3 & _).
  destruct (slowdown_finish_spec s3 how) as (F4 & N4 & S4 & C4 & K4 & Z4 & D4).
  split; [congruence|]. split; [congruence|]. split; [lia|].
  split; [rewrite C4; apply one_floor|done].
Qed.

Lemma slowdown_flow s s' how :
  slowdown s how = Ok s' ->
  flow s' = flow s /\ ncwndcuts_ s' = ncwndcuts_ s + 1 /\ 2 <= ssthresh_ s' /\
  F64.lt (cwnd_ s') (F64.of_Z 1) = false /\ count_ s' = 0 /\ fcnt_ s' = F64.zero /\ first_decrease_ s' <> 1.
Proof.
  unfold slowdown. intros E. apply res_bind_Ok in E as (s1 & E1 & E).
  assert (flow s1 = flow s /\ ncwndcuts_ s1 = ncwndcuts_ s + 1) as [F1 N1].
  { unfold count_cut in E1. bool_cases; inv_res;
      repeat match goal with H : iadd _ _ = Ok _ |- _ => apply chk_inv in H as [-> _] end; done. }
  destruct (lldct_ s1); apply slowdown_with_flow in E as (F & N & E); cbn in N.
  - split; [rewrite F, <- F1; done|]. split; [lia|done].
  - split; [congruence|]. split; [lia|done].
Qed.

(** The DCTCP reduction, with windows kept in full precision. *)
Lemma slowdown_dctcp_ok s b w :
  let how := Z.lor CWND_ECNHAT SSTHRESH_ECNHAT in
  precision_reduce_ s = true -> F64.to_int (ecnhat_window s b) = Ok w ->
  exists s', slowdown_with s how b = Ok s' /\ cwnd_ s' = at_least_one (ecnhat_window s b) /\
    ssthresh_ s' = Z.max 2 w /\ EcnProcessor.cong_action_ (ecn_processor_ s') = true.
Proof.
  intros how Hp Hw. unfold slowdown_with.
  assert (exists s1 h d v, slowdown_windows s = Ok (s1, h, d, v) /\ cwnd_ s1 = cwnd_ s /\ wnd_ s1 = wnd_ s)
    as (s1 & h & d & v & -> & C1 & W1).
  { unfold slowdown_windows. rewrite Hp. bool_cases; do 4 eexists; done. }
  assert (ecnhat_window s1 b = ecnhat_window s b) as Ew by (unfold ecnhat_window, windowd; by rewrite C1, W1).
  cbn [res_bind]. unfold slowdown_ssthresh. change (has how SSTHRESH_HALF) with false.
  change (has how SSTHRESH_ECNHAT) with true. cbn iota. rewrite Ew, Hw. cbn [res_bind].
  unfold slowdown_cwnd. change (has how CWND_HALF) with false. change (has how CWND_ECNHAT) with true.
  cbn iota. cbn [res_bind].
  eexists. split; [reflexivity|].
  match goal with |- context [slowdown_finish ?x _] => set (s2 := x) end.
  destruct (slowdown_finish_spec s2 how) as (_ & _ & S4 & C4 & _).
  rewrite S4, C4. split; [|split; [done|]].
  - assert (cwnd_ s2 = at_least_one (ecnhat_window s b)) as ->.
    { subst s2. cbn. f_equal. exact Ew. }
    unfold at_least_one. destruct (F64.lt (ecnhat_window s b) _) eqn:E; [done|by rewrite E].
  - unfold slowdown_finish. set (mask := Z.lor _ _). change (has how mask) with true. cbn.
    bool_cases; done.
Qed.
End WithLibm.

(** ** Growth *)

Lemma res_err {A B} (m : res A) (k : A -> res B) e :
  res_bind m k = Err e -> m = Err e \/ exists a, m = Ok a /\ k a = Err e.
Proof. destruct m as [a|e']; cbn; [|by intros [= ->]; left]. intros E. right. by exists a. Qed.

Lemma chk_err z e : chk z = Err e -> e = UB.
Proof. unfold chk. destruct (in_intb z); [done|]. by intros [= <-]. Qed.

Lemma to_int_err x e : F64.to_int x = Err e -> e = UB.
Proof.
  unfold F64.to_int. intros [E|(z & _ & E)]%res_err; [|by eapply chk_err].
  destruct (F64.trunc x); [done|]. by injection E.
Qed.

(** Failures of a step are undefined behaviour, apart from [P]. *)
Definition only_ub {A} (m : res A) (P : Prop) : Prop :=
  forall e, m = Err e -> e = UB \/ e = Abort /\ P.

Lemma only_ub_bind {A B} (m : res A) (k : A -> res B) P :
  only_ub m P -> (forall a, m = Ok a -> only_ub (k a) P) -> only_ub (res_bind m k) P.
Proof. intros Hm Hk e [E|(a & Ea & E)]%res_err; [by apply Hm|by eapply Hk]. Qed.

Lemma only_ub_ok {A} (a : A) P : only_ub (Ok a) P.
Proof. intros e [=]. Qed.

Lemma only_ub_int x P : only_ub (F64.to_int x) P.
Proof. intros e E. left. by eapply to_int_err. Qed.

Lemma only_ub_iadd a b P : only_ub (iadd a b) P.
Proof. intros e E. left. by eapply chk_err. Qed.

Section Growth.
Context `{Libm}.

Lemma limited_ub c m i P : only_ub (limited_slow_start c m i) P.
Proof.
  unfold limited_slow_start. destruct (m <=? 0); [apply only_ub_ok|].
  apply only_ub_bind; [apply only_ub_int|]. intros. apply only_ub_ok.
Qed.

Lemma limit_ub s i P : only_ub (limit_slow_start s i) P.
Proof. unfold limit_slow_start. destruct (_ && _); [apply limited_ub|apply only_ub_ok]. Qed.

Lemma multiplier_ok s :
  is_opencwnd_adjustment_enabled s = true ->
  exists s' m, opencwnd_multiplier s = Ok (s', m) /\ maxcwnd_ s' = maxcwnd_ s.
Proof.
  unfold is_opencwnd_adjustment_enabled, opencwnd_multiplier.
  destruct (EcnProcessor.ecnhat_enable_beta_ _); [by do 2 eexists|]. cbn [orb].
  intros E%bool_decide_eq_true. rewrite E. by do 2 eexists.
Qed.

Lemma opencwnd_count_ub s P : only_ub (opencwnd_count s) P.
Proof.
  unfold opencwnd_count. destruct (lldct_ s).
  - apply only_ub_bind; [apply only_ub_iadd|]. intros n _. destruct (F64.ge _ _); [apply only_ub_ok|].
    apply only_ub_bind; [apply only_ub_iadd|]. intros. apply only_ub_ok.
  - apply only_ub_bind; [apply only_ub_iadd|]. intros. apply only_ub_ok.
Qed.

Lemma opencwnd_linear_ub s : only_ub (opencwnd_linear s) (~ (0 <= wnd_option_ s <= 6 \/ wnd_option_ s = 8)).
Proof.
  unfold opencwnd_linear. set (P := ~ _).
  assert (only_ub (opencwnd_count s) P) as Hc by apply opencwnd_count_ub.
  assert (only_ub (@Err t Abort) P -> only_ub (@Err t Abort) P) as _ by done.
  destruct (Z.eq_dec (wnd_option_ s) 0) as [->|]; [done|].
  destruct (Z.eq_dec (wnd_option_ s) 1) as [->|].
  { apply only_ub_bind.
    - destruct (is_opencwnd_adjustment_enabled s) eqn:E; [|apply only_ub_ok].
      destruct (multiplier_ok s E) as (s' & m & -> & _). apply only_ub_ok.
    - intros [s' i] _. apply only_ub_bind; [apply limit_ub|]. intros. apply only_ub_ok. }
  destruct (Z.eq_dec (wnd_option_ s) 8) as [->|].
  { destruct (increase_param s) as [s' i]. apply only_ub_bind; [apply limit_ub|]. intros. apply only_ub_ok. }
  destruct (Z.eq_dec (wnd_option_ s) 2) as [->|]; [apply only_ub_ok|].
  destruct (Z.eq_dec (wnd_option_ s) 3) as [->|]; [apply only_ub_ok|].
  destruct (Z.eq_dec (wnd_option_ s) 4) as [->|]; [apply only_ub_ok|].
  destruct (Z.eq_dec (wnd_option_ s) 5) as [->|]; [apply only_ub_ok|].
  destruct (Z.eq_dec (wnd_option_ s) 6) as [->|]; [apply only_ub_ok|].
  assert (P) as HP by (unfold P; lia).
  assert (only_ub (@Err t Abort) P) as Ha by (intros e [= <-]; by right).
  clearbody P. destruct (wnd_option_ s) as [|[[[|[]|]|[|[]|]|]|[[|[]|]|[|[]|]|]|]|];
    first [exact Ha|exfalso; congruence].
Qed.

Lemma increase_param_max s s' i : increase_param s = (s', i) -> maxcwnd_ s' = maxcwnd_ s.
Proof. unfold increase_param. intros E. bool_cases; by injection E as <- _. Qed.

Lemma accumulate_max s f : maxcwnd_ (accumulate s f) = maxcwnd_ s.
Proof. unfold accumulate. by destruct (F64.gt _ _). Qed.

Lemma opencwnd_count_max s s' : opencwnd_count s = Ok s' -> maxcwnd_ s' = maxcwnd_ s.
Proof.
  unfold opencwnd_count.
  destruct (lldct_ s); intros E; apply res_bind_Ok in E as (n & _ & E);
    repeat first [destruct (F64.ge _ _) | apply res_bind_Ok in E as (? & _ & E)]; by injection E as <-.
Qed.

Lemma opencwnd_linear_max s s' : opencwnd_linear s = Ok s' -> maxcwnd_ s' = maxcwnd_ s.
Proof.
  intros E. unfold opencwnd_linear in E.
  assert (forall s1 i, (let! i := limit_slow_start s1 i in Ok (incr_cwnd s1 i)) = Ok s' -> maxcwnd_ s' = maxcwnd_ s1) as Hl.
  { intros s1 i (j & _ & E1)%res_bind_Ok. by injection E1 as <-. }
  repeat match type of E with
  | match ?x with _ => _ end = _ => destruct x eqn:?; try discriminate E
  end; try (injection E as <-; first [reflexivity|apply accumulate_max]);
    try (by apply opencwnd_count_max); try (apply Hl in E as ->; by eapply increase_param_max).
  apply res_bind_Ok in E as ([s1 i] & E1 & ->%Hl). destruct (is_opencwnd_adjustment_enabled s) eqn:En.
  - destruct (multiplier_ok s En) as (s2 & m & E2 & M). rewrite E2 in E1. by injection E1 as <- _.
  - by injection E1 as <- _.
Qed.
End Growth.

(** ** Round-trip time *)

Lemma short_small z : - 2 ^ 15 <= z < 2 ^ 15 -> short z = z.
Proof. intros Hz. unfold short. rewrite Z.mod_small by lia. lia. Qed.

(** A smoothed estimate scaled by 8 whose value is between [lo] and [hi]. *)
Definition srtt_within s (lo hi : Z) : Prop :=
  T_SRTT_BITS s = 3 /\ T_RTTVAR_BITS s = 2 /\ t_srtt_ s <> 0 /\
  8 * lo <= t_srtt_ s < 8 * (hi + 1) /\ 1 <= t_rttvar_ s <= 4 * (hi - lo) + 3.

Lemma rtt_smooth_ok s lo hi :
  srtt_within s lo hi -> lo <= t_rtt_ s <= hi -> 1 <= lo -> hi - lo < 2 ^ 15 -> hi < 2 ^ 27 ->
  exists s', rtt_smooth s = Ok s' /\ srtt_within s' lo hi /\
    t_srtt_ s' = t_srtt_ s + (t_rtt_ s - t_srtt_ s / 8) /\
    t_rttvar_ s' = t_rttvar_ s + (Z.abs (t_rtt_ s - t_srtt_ s / 8) - t_rttvar_ s / 4).
Proof.
  intros (Hb & Hv & Hne & Hs & Hr) Hm Hlo Hd Hhi. unfold rtt_smooth.
  rewrite (proj2 (Z.eqb_neq _ _) Hne). cbn [negb]. rewrite Hb, Z.shiftr_div_pow2 by lia. change (2 ^ 3) with 8.
  assert (lo <= t_srtt_ s / 8 <= hi) as Hq by (split; [apply Z.div_le_lower_bound|apply Z.lt_succ_r, Z.div_lt_upper_bound]; lia).
  pose proof (Z_div_mod_eq_full (t_srtt_ s) 8) as He. pose proof (Z.mod_pos_bound (t_srtt_ s) 8 ltac:(lia)) as Hrem.
  pose proof (Z_div_mod_eq_full (t_rttvar_ s) 4) as He4. pose proof (Z.mod_pos_bound (t_rttvar_ s) 4 ltac:(lia)) as Hrem4.
  set (q := t_srtt_ s / 8) in *. set (m := t_rtt_ s) in *.
  rewrite isub_ok by (unfold in_int; lia). cbn [res_bind]. rewrite short_small by lia.
  rewrite iadd_ok by (unfold in_int; lia). cbn [res_bind].
  rewrite (proj2 (Z.leb_gt (t_srtt_ s + (m - q)) 0)) by lia.
  set (s1 := s <| t_srtt_ := _ |>). change (t_rttvar_ s1) with (t_rttvar_ s).
  change (T_RTTVAR_BITS s1) with (T_RTTVAR_BITS s). rewrite Hv, Z.shiftr_div_pow2 by lia. change (2 ^ 2) with 4.
  assert ((if m - q <? 0 then short (- (m - q)) else m - q) = Z.abs (m - q)) as ->.
  { destruct (Z.ltb_spec (m - q) 0); [rewrite short_small by lia|]; lia. }
  set (u := t_rttvar_ s / 4) in *.
  rewrite isub_ok by (unfold in_int; lia). cbn [res_bind]. rewrite short_small by lia.
  rewrite iadd_ok by (unfold in_int; lia). cbn [res_bind].
  rewrite (proj2 (Z.leb_gt (t_rttvar_ s + (Z.abs (m - q) - u)) 0)) by lia.
  eexists. split; [reflexivity|]. subst s1. cbn. split; [|done].
  unfold srtt_within. cbn. repeat split; try done; lia.
Qed.
End TcpAgentFacts.

(** * Theorems *)

Module TcpAgentProps.
Import TcpAgent TcpAgentFacts TcpSlowdownFlags.

Implicit Types (s : t).

(** Whatever the reason and the options, a reduction of the window leaves
    [ssthresh_] at least 2 and [cwnd_] not below 1, restarts the counters of
    the growth rules, is counted, and changes neither a sequence number nor
    the state of recovery. *)
Theorem slowdown_floors `{Libm} s s' how :
  slowdown s how = Ok s' ->
  2 <= ssthresh_ s' /\ F64.lt (cwnd_ s') (F64.of_Z 1) = false /\
  count_ s' = 0 /\ fcnt_ s' = F64.zero /\ ncwndcuts_ s' = ncwndcuts_ s + 1 /\ flow s' = flow s.
Proof. intros E. apply slowdown_flow in E. tauto. Qed.


(** A growth step never throws for want of a multiplier, aborts exactly
    for an undefined rule outside slow start, and ends with the window at most
    [maxcwnd_] where that limit is set. *)
Theorem opencwnd_limits `{Libm} s :
  0 <= maxcwnd_ s < 2 ^ 31 ->
  match opencwnd s with
  | Ok s' => maxcwnd_ s <> 0 -> exists w, F64.to_int (cwnd_ s') = Ok w /\ w <= maxcwnd_ s
  | Err e => e <> Throw /\
      (e = Abort -> F64.lt (cwnd_ s) (F64.of_Z (ssthresh_ s)) = false /\
        ~ (0 <= wnd_option_ s <= 6 \/ wnd_option_ s = 8))
  end.
Proof.
  intros Hm.
  assert (exists m, opencwnd s = res_bind m cap_cwnd /\
    only_ub m (F64.lt (cwnd_ s) (F64.of_Z (ssthresh_ s)) = false /\
      ~ (0 <= wnd_option_ s <= 6 \/ wnd_option_ s = 8)) /\
    (forall s1, m = Ok s1 -> maxcwnd_ s1 = maxcwnd_ s)) as (m & -> & Hub & Hmax).
  { eexists. split; [reflexivity|]. cbn zeta. destruct (F64.lt (cwnd_ s) _).
    { destruct (EcnProcessor.ecnhat_enable_beta_ (ecn_processor_ s)); (split; [apply only_ub_ok|by intros ? [= <-]]). }
    match goal with |- only_ub (opencwnd_linear ?x) _ /\ _ => set (s0 := x) end.
    assert (wnd_option_ s0 = wnd_option_ s /\ maxcwnd_ s0 = maxcwnd_ s) as [Eo Em] by (subst s0; by destruct (lldct_ s)).
    split; [|intros s1 E; rewrite <- Em; by apply opencwnd_linear_max].
    intros e E. pose proof (opencwnd_linear_ub s0 e E) as Hu. rewrite Eo in Hu. tauto. }
  destruct m as [s1|e]; cbn [res_bind].
  2: { specialize (Hub e eq_refl) as [->|[-> Hub]]; (split; [done|]); [done|by intros _]. }
  specialize (Hmax s1 eq_refl). unfold cap_cwnd. rewrite Hmax.
  destruct (Z.eqb_spec (maxcwnd_ s) 0) as [H0|H0]; [done|].
  destruct (F64.to_int (cwnd_ s1)) as [w|e] eqn:E; cbn [res_bind].
  2: { apply to_int_err in E as ->. done. }
  intros _. destruct (Z.ltb_spec (maxcwnd_ s) w) as [Hw|Hw]; [|by exists w].
  exists (maxcwnd_ s). split; [|lia]. cbn. apply F64.to_int_of_Z. unfold in_int. lia.
Qed.

(** The smoothed round-trip time never leaves the range of the samples:
    if the estimate, in ticks, and the new sample are between [lo] and [hi],
    less than 2^15 ticks apart, the update computes the usual averages with
    gains 1/8 and 1/4 without overflow and the estimate stays between [lo]
    and [hi], the deviation positive. *)
Theorem rtt_stays_in_range s lo hi :
  srtt_within s lo hi -> lo <= t_rtt_ s <= hi -> 1 <= lo -> hi - lo < 2 ^ 15 -> hi < 2 ^ 27 ->
  exists s', rtt_smooth s = Ok s' /\ srtt_within s' lo hi /\
    t_srtt_ s' = t_srtt_ s + (t_rtt_ s - t_srtt_ s / 8) /\
    t_rttvar_ s' = t_rttvar_ s + (Z.abs (t_rtt_ s - t_srtt_ s / 8) - t_rttvar_ s / 4).
Proof. apply rtt_smooth_ok. Qed.

(** The retransmission timeout is at least two ticks (one tick while the
    plain round-trip time is to be used) and more than [maxrto_] only when
    that lower bound is; the computation aborts exactly when the timeout would
    be negative. *)
Theorem rto_bounds s :
  let tick := tcp_tick_ s in
  let two_ticks := F64.mul (F64.of_Z 2) tick in
  let use_rtt := EcnProcessor.use_rtt_ (ecn_processor_ s) in
  F64.lt tick two_ticks = true ->
  match rtt_timeout s with
  | Ok (s', r) => F64.lt r tick = false /\ (use_rtt = false -> F64.lt r two_ticks = false) /\
      (F64.gt r (maxrto_ s) = true -> r = two_ticks \/ r = tick) /\
      EcnProcessor.use_rtt_ (ecn_processor_ s') = false
  | Err e => e = Abort /\ F64.lt (rtt_timeout_base s) F64.zero = true
  end.
Proof.
  intros tick two use Ht. unfold rtt_timeout. fold tick two use.
  assert (F64.gt (rtt_timeout_base s) (maxrto_ s) = false) as Hmax.
  { unfold rtt_timeout_base. cbn zeta. set (x := if rfc2988_ s then _ else _).
    destruct (F64.gt x (maxrto_ s)) eqn:E; [apply F64.lt_irrefl|exact E]. }
  destruct (F64.lt (rtt_timeout_base s) two) eqn:E1; cbn [res_bind].
  - destruct (F64.lt (rtt_timeout_base s) F64.zero) eqn:E2; [done|].
    destruct (use && F64.lt _ tick) eqn:E3; cbn [res_bind].
    + apply andb_true_iff in E3 as [E3 _]. split; [apply F64.lt_irrefl|].
      split; [congruence|]. split; [by right|done].
    + split; [by apply F64.lt_asym|]. split; [intros _; apply F64.lt_irrefl|]. split; [by left|done].
  - split; [|split; [done|split; [congruence|done]]].
    destruct (F64.lt (rtt_timeout_base s) tick) eqn:E4; [|done].
    by rewrite (F64.lt_trans _ _ _ E4 Ht) in E1.
Qed.

(** A round-trip time that jumps by 2^15 ticks or more wraps the [short] and
    collapses the estimate instead of raising it. *)
Lemma rtt_short_wraps s :
  T_SRTT_BITS s = 3 -> t_srtt_ s = 80 -> t_rtt_ s = 40010 -> t_rttvar_ s = 8 -> T_RTTVAR_BITS s = 2 ->
  exists s', rtt_smooth s = Ok s' /\ t_srtt_ s' = 1.
Proof.
  intros Hb Hs Hr Hv Hw. unfold rtt_smooth. rewrite Hs, Hb, Hr.
  change (isub 40010 (Z.shiftr 80 3)) with (@Ok Z 40000). cbn [Z.eqb negb res_bind].
  change (iadd 80 (short 40000)) with (@Ok Z (-25456)). cbn [res_bind].
  set (s1 := s <| t_srtt_ := _ |>). change (t_rttvar_ s1) with (t_rttvar_ s).
  change (T_RTTVAR_BITS s1) with (T_RTTVAR_BITS s). rewrite Hv, Hw.
  eexists. split; reflexivity.
Qed.
End TcpAgentProps.

(** * Witnesses *)

Module TcpAgentWitness.
Import TcpAgent TcpAgentFacts TcpAgentProps TcpSlowdownFlags.

#[local] Instance some_libm : Libm := {| pow := fun x _ => x; exp := fun x => x; log := fun x => x |}.

(** A processor in DCTCP mode with alpha = 1/2. *)
Definition processor : EcnProcessor.t :=
  (EcnProcessor.create F64.zero) <| EcnProcessor.ecnhat_ := true |>
    <| EcnProcessor.ecnhat_send_ :=
         EcnhatSenderCETracker.create <| EcnhatSenderCETracker.ecnhat_alpha_ := F64.ratio 1 2 |> |>.

(** Window 10, limits 20 packets, round-trip time about 10 ticks. *)
Definition demo (ssthresh maxcwnd : Z) : t :=
  mk (F64.of_Z 20) (F64.of_Z 10) ssthresh 0 (-1) 10 100 1 10 0 1460 NONE
    0 F64.zero F64.zero F64.zero (F64.of_Z 2) (F64.of_Z 1) 1 (F64.ratio 1 2) (F64.of_Z 1)
    F64.zero F64.zero true 0 0 maxcwnd 38 10 0
    (mkHstcp F64.zero F64.zero F64.zero F64.zero F64.zero F64.zero) 0 0 0
    false F64.zero F64.zero F64.zero F64.zero F64.zero
    (F64.ratio 1 1000) F64.zero true true 12 85 8 1 3 2 0 12 2 (F64.of_Z 1) (F64.of_Z 3)
    (F64.of_Z 60) (F64.ratio 1 5) processor.

Definition result {A} (m : res A) (d : A) : A := match m with Ok a => a | Err _ => d end.

Lemma slowdown_floors_witness :
  let s := demo 20 0 in
  let s' := result (slowdown s (Z.lor SSTHRESH_HALF CWND_HALF)) s in
  2 <= ssthresh_ s' /\ F64.lt (cwnd_ s') (F64.of_Z 1) = false /\
  count_ s' = 0 /\ fcnt_ s' = F64.zero /\ ncwndcuts_ s' = 0 + 1 /\ flow s' = flow s.
Proof.
  apply (slowdown_floors (demo 20 0) _ (Z.lor SSTHRESH_HALF CWND_HALF)). vm_compute. reflexivity.
Defined.


Lemma opencwnd_limits_witness :
  exists s', opencwnd (demo 5 10) = Ok s' /\
    (10 <> 0 -> exists w, F64.to_int (cwnd_ s') = Ok w /\ w <= 10).
Proof.
  pose proof (opencwnd_limits (demo 5 10) ltac:(split; [discriminate|reflexivity])) as H.
  exists (result (opencwnd (demo 5 10)) (demo 5 10)). split; [vm_compute; reflexivity|exact H].
Defined.

Lemma rtt_stays_in_range_witness :
  exists s', rtt_smooth (demo 5 0) = Ok s' /\ srtt_within s' 9 13 /\
    t_srtt_ s' = 85 + (12 - 85 / 8) /\ t_rttvar_ s' = 8 + (Z.abs (12 - 85 / 8) - 8 / 4).
Proof.
  apply (rtt_stays_in_range (demo 5 0) 9 13); cbn; unfold srtt_within; cbn; lia.
Defined.

Lemma rto_bounds_witness :
  let s := demo 5 0 in
  exists s' r, rtt_timeout s = Ok (s', r) /\ F64.lt r (tcp_tick_ s) = false /\
    (false = false -> F64.lt r (F64.mul (F64.of_Z 2) (tcp_tick_ s)) = false) /\
    (F64.gt r (maxrto_ s) = true -> r = F64.mul (F64.of_Z 2) (tcp_tick_ s) \/ r = tcp_tick_ s) /\
    EcnProcessor.use_rtt_ (ecn_processor_ s') = false.
Proof.
  pose proof (rto_bounds (demo 5 0) ltac:(vm_compute; reflexivity)) as H.
  exists (result (rtt_timeout (demo 5 0)) (demo 5 0, F64.zero)).1,
    (result (rtt_timeout (demo 5 0)) (demo 5 0, F64.zero)).2.
  split; [vm_compute; reflexivity|exact H].
Defined.
End TcpAgentWitness.
