(* ===== verification/Tcp.v ===== *)
(** * The full TCP agents: state

    The members of [FullTcpAgent] and [SackFullTcpAgent]
    (src/ns2/tcp/tcp-full.h) that the priority assignment, the reaction to
    congestion and the SACK sender use, in one record over the base class
    [TcpAgent]; [cls] is the dynamic class and selects the overriding
    function.  Also the connection states with the flags sent in them and the
    headers of a packet. *)

From Stdlib Require Import ZArith Lia Bool SpecFloat String.
From stdpp Require Import base list gmap.
From S2P Require Import Prelude F64 PktQueue Rq Ecn TcpAgent.

Module Tcp.

Import TcpFlags.

(** ** Connection states *)

Inductive TcpState :=
  CLOSED | LISTEN | SYN_SENT | SYN_RECEIVED | ESTABLISHED | CLOSE_WAIT
| FIN_WAIT_1 | CLOSING | LAST_ACK | FIN_WAIT_2.

#[global] Instance TcpState_eq_dec : EqDecision TcpState.
Proof. solve_decision. Defined.

Definition state_num (s : TcpState) : Z :=
  match s with
  | CLOSED => 0 | LISTEN => 1 | SYN_SENT => 2 | SYN_RECEIVED => 3 | ESTABLISHED => 4
  | CLOSE_WAIT => 5 | FIN_WAIT_1 => 6 | CLOSING => 7 | LAST_ACK => 8 | FIN_WAIT_2 => 9
  end.

Definition have_received_FIN (s : TcpState) : bool :=
  bool_decide (s = CLOSING) || bool_decide (s = CLOSED) || bool_decide (s = CLOSE_WAIT).

Definition have_received_SYN (s : TcpState) : bool := state_num SYN_RECEIVED <=? state_num s.

(** The flags of the next packet sent in a state. *)
Definition outflags (s : TcpState) : Z :=
  match s with
  | CLOSED => ACK
  | LISTEN => 0
  | SYN_SENT => SYN
  | SYN_RECEIVED => Z.lor SYN ACK
  | ESTABLISHED => ACK
  | CLOSE_WAIT => ACK
  | FIN_WAIT_1 => Z.lor FIN ACK
  | CLOSING => Z.lor FIN ACK
  | LAST_ACK => Z.lor FIN ACK
  | FIN_WAIT_2 => ACK
  end.

(** ** Names of flags *)

Definition flagstrs : list string := [
  "<null>"; "<FIN>"; "<SYN>"; "<SYN,FIN>";
  "<?>"; "<?,FIN>"; "<?,SYN>"; "<?,SYN,FIN>";
  "<PSH>"; "<PSH,FIN>"; "<PSH,SYN>"; "<PSH,SYN,FIN>";
  "<?>"; "<?,FIN>"; "<?,SYN>"; "<?,SYN,FIN>";
  "<ACK>"; "<ACK,FIN>"; "<ACK,SYN>"; "<ACK,SYN,FIN>";
  "<ACK>"; "<ACK,FIN>"; "<ACK,SYN>"; "<ACK,SYN,FIN>";
  "<PSH,ACK>"; "<PSH,ACK,FIN>"; "<PSH,ACK,SYN>"; "<PSH,ACK,SYN,FIN>"]%string.

(** Reading the table outside its 28 entries is undefined behaviour. *)
Definition flagstr (hflags : Z) : res string :=
  if (hflags <? 0) || (28 <? hflags) then
    Ok (if hflags =? 72 then "<ECE,PSH>"%string
        else if hflags =? 80 then "<ECE,ACK>"%string
        else if hflags =? 88 then "<ECE,PSH,ACK>"%string
        else if hflags =? 152 then "<CWR,PSH,ACK>"%string
        else if hflags =? 153 then "<CWR,PSH,ACK,FIN>"%string
        else "<invalid>"%string)
  else deref (flagstrs !! Z.to_nat hflags).

(** The guard of [flagstr] lets the first index behind the table through. *)
Lemma flagstr_overruns h : flagstr h = Err UB <-> h = 28.
Proof.
  unfold flagstr. split; [|by intros ->].
  destruct (Z.ltb_spec h 0) as [H1|H1]; [done|]. cbn [orb].
  destruct (Z.ltb_spec 28 h) as [H2|H2]; [done|]. intros H.
  destruct (Z.eq_dec h 28) as [->|Hne]; [done|]. exfalso.
  destruct (flagstrs !! Z.to_nat h) eqn:E; [done|]. apply lookup_ge_None in E. cbn in E. lia.
Qed.

(** ** Packet headers *)

(** Why a packet is sent. *)
Module TcpXmissionReason.
Inductive t := NORMAL | TIMEOUT | DUPACK | RBP | PARTIALACK | SACK.

#[global] Instance t_eq_dec : EqDecision t.
Proof. solve_decision. Defined.
End TcpXmissionReason.

(** The headers of a TCP packet the model uses ([hdr_tcp], [hdr_cmn],
    [hdr_flags], [hdr_ip]); [sack_area_] holds the blocks written,
    [sa_length ()] of them. *)
Record packet := mkPkt {
  seqno : Z;
  ackno : Z;
  flags : Z;
  reason : TcpXmissionReason.t;
  hlen : Z;               (* header bytes *)
  size : Z;               (* header and payload bytes *)
  ts : f64;               (* time the packet was generated at the source *)
  ts_echo : f64;
  sack_area_ : list (Z * Z);
  fh : hdr_flags;
  no_ts_ : bool;
  flowid : Z;
  prio : Z;
  gotecnecho : Z
}.

#[global] Instance eta_packet : Eta packet := fun p =>
  mkPkt (seqno p) (ackno p) (flags p) (reason p) (hlen p) (size p) (ts p) (ts_echo p) (sack_area_ p) (fh p)
    (no_ts_ p) (flowid p) (prio p) (gotecnecho p).

Definition sa_length (p : packet) : Z := Z.of_nat (length p.(sack_area_)).

(** ** Agents *)

Inductive agent_class := Full | NewReno | Tahoe | Sack | MinTcp | DDTcp.

#[global] Instance agent_class_eq_dec : EqDecision agent_class.
Proof. solve_decision. Defined.

(** The classes derived from [SackFullTcpAgent]. *)
Definition is_sack (c : agent_class) : bool :=
  match c with Sack | MinTcp | DDTcp => true | _ => false end.

Inductive PrioScheme :=
  CAPPED_BYTES_SENT | FLOW_SIZE | REMAINING_SIZE | BYTES_SENT | BATCHED_REMAINING_SIZE
| UNKNOWN | LAZY_REMAINING_SIZE | LAZY_REMAINING_SIZE_BYTES_SENT.

#[global] Instance PrioScheme_eq_dec : EqDecision PrioScheme.
Proof. solve_decision. Defined.

Record t := mk {
  cls : agent_class;
  super : TcpAgent.t;
  (* FullTcpAgent *)
  maxseg_ : Z;            (* segment size *)
  state_ : TcpState;
  iss_ : Z;
  infinite_send_ : bool;
  signal_on_empty_ : bool;   (* the application has no more data *)
  prob_mode_ : bool;
  prob_cap_ : Z;
  prob_count_ : Z;
  pipectrl_ : bool;
  pipe_ : Z;
  rtxbytes_ : Z;
  fastrecov_ : bool;
  reno_fastrecov_ : bool;
  last_sqtotal_ : Z;
  cur_sqtotal_ : Z;
  (* priorities *)
  prio_scheme_ : PrioScheme;
  prio_num_ : Z;
  prio_cap_ : list Z;
  enable_pias_ : bool;
  pias_prio_num_ : Z;
  pias_thresh_ : list Z;
  startseq_ : Z;
  last_prio_ : Z;
  seq_bound_ : Z;
  use_deadline : bool;
  deadline : Z;           (* in microseconds *)
  start_time : f64;
  link_rate_ : Z;         (* in Gbps *)
  true_flow_size_ : Z;
  use_true_remaining_size_ : bool;
  (* SackFullTcpAgent *)
  sq_ : ReassemblyQueue.t;   (* scoreboard; its rcv_nxt_ is sack_min_ *)
  h_seqno_ : Z;           (* next seqno to fill holes with *)
  clear_on_timeout_ : bool;
  max_sack_blocks_ : Z;
  sack_rtx_bthresh_ : Z;
  sack_rtx_cthresh_ : Z;
  sack_rtx_threshmode_ : Z
}.

#[global] Instance eta_t : Eta t := fun s =>
  mk (cls s) (super s) (maxseg_ s) (state_ s) (iss_ s) (infinite_send_ s) (signal_on_empty_ s)
    (prob_mode_ s) (prob_cap_ s) (prob_count_ s) (pipectrl_ s) (pipe_ s) (rtxbytes_ s)
    (fastrecov_ s) (reno_fastrecov_ s) (last_sqtotal_ s) (cur_sqtotal_ s) (prio_scheme_ s)
    (prio_num_ s) (prio_cap_ s) (enable_pias_ s) (pias_prio_num_ s) (pias_thresh_ s) (startseq_ s)
    (last_prio_ s) (seq_bound_ s) (use_deadline s) (deadline s) (start_time s) (link_rate_ s)
    (true_flow_size_ s) (use_true_remaining_size_ s) (sq_ s) (h_seqno_ s) (clear_on_timeout_ s)
    (max_sack_blocks_ s) (sack_rtx_bthresh_ s) (sack_rtx_cthresh_ s) (sack_rtx_threshmode_ s).

(** Inherited members. *)
Definition wnd_ (s : t) : f64 := TcpAgent.wnd_ (super s).
Definition cwnd_ (s : t) : f64 := TcpAgent.cwnd_ (super s).
Definition recover_ (s : t) : Z := TcpAgent.recover_ (super s).
Definition t_seqno_ (s : t) : Z := TcpAgent.t_seqno_ (super s).
Definition curseq_ (s : t) : Z := TcpAgent.curseq_ (super s).
Definition highest_ack_ (s : t) : Z := TcpAgent.highest_ack_ (super s).
Definition maxseq_ (s : t) : Z := TcpAgent.maxseq_ (super s).
Definition dupacks_ (s : t) : Z := TcpAgent.dupacks_ (super s).
Definition ecn_processor_ (s : t) : EcnProcessor.t := TcpAgent.ecn_processor_ (super s).
Definition window (s : t) : res Z := TcpAgent.window (super s).

(** [sack_min_], to which the scoreboard holds a reference. *)
Definition sack_min_ (s : t) : Z := (sq_ s).(ReassemblyQueue.rcv_nxt_).
End Tcp.
