(* ===== verification/TcpPrio.v ===== *)
(** * The priority of a TCP packet

    How [FullTcpAgent::sendpacket] (src/ns2/tcp/tcp-full.cc) chooses the
    priority of a data packet: by PIAS demotion thresholds, by deadline, or by
    the configured scheme (remaining size, bytes sent, flow size, the lazy
    schemes of aFabric), the latter optionally mapped to a small number of
    classes.  Low numbers are high priority; [get_lowest_priority] and above
    is what [DropTail.is_bad_prio] calls bad.

    A deadline is compared through the clock, the argument [now]. *)

From Stdlib Require Import ZArith Lia Bool SpecFloat.
From stdpp Require Import base list gmap.
From S2P Require Import Prelude F64 PktQueue QueueBase DropTail Rq Ecn TcpAgent Tcp.

Module TcpPrio.
Import Tcp.

Implicit Types (s : t) (now : f64).

(** 100 segments of 1460 bytes. *)
Definition max : Z := 100 * 1460.

(** ** FullTcpAgent *)

Module FullTcpAgent.

Definition get_num_bytes_remaining s : res Z :=
  let! d := isub (curseq_ s) (highest_ack_ s) in
  let! w := window s in
  let! b := imul w s.(maxseg_) in
  isub d b.

Definition calc_unbounded_no_deadline_priority s (seq maxseq : Z) : res (t * Z) :=
  match s.(prio_scheme_) with
  | CAPPED_BYTES_SENT =>
      let! d := isub seq s.(startseq_) in
      Ok (s, if max <? d then max else d)
  | REMAINING_SIZE => let! d := isub maxseq seq in Ok (s, d)
  | LAZY_REMAINING_SIZE =>
      if s.(signal_on_empty_) then let! d := isub maxseq seq in Ok (s, d)
      else Ok (s, get_lowest_priority)
  | LAZY_REMAINING_SIZE_BYTES_SENT =>
      if s.(signal_on_empty_) then let! d := isub maxseq seq in Ok (s, d)
      else
        let! l := iadd get_lowest_priority seq in
        let! d := isub l s.(startseq_) in
        Ok (s, d)
  | FLOW_SIZE => let! d := isub maxseq s.(startseq_) in Ok (s, d)
  | BYTES_SENT => let! d := isub seq s.(startseq_) in Ok (s, d)
  | BATCHED_REMAINING_SIZE =>
      if s.(seq_bound_) <=? seq then
        let s := s <| seq_bound_ := (maxseq_ s) |> in
        let! d := isub maxseq seq in
        let! d := iadd d 10 in
        let s := s <| last_prio_ := if d <? 0 then 0 else d |> in
        Ok (s, s.(last_prio_))
      else Ok (s, s.(last_prio_))
  | UNKNOWN => Err Abort
  end.
End FullTcpAgent.

(** ** SackFullTcpAgent *)

Module SackFullTcpAgent.

Definition get_num_bytes_remaining s : res Z :=
  let! d := isub (curseq_ s) (highest_ack_ s) in
  let! d := isub d s.(sq_).(ReassemblyQueue.total_) in
  let! w := window s in
  let! b := imul w s.(maxseg_) in
  isub d b.

(** [maxseq - int(highest_ack_) - sq_.total() + 10], at least 0. *)
Definition remaining_plus_10 s (maxseq : Z) : res Z :=
  let! d := isub maxseq (highest_ack_ s) in
  let! d := isub d s.(sq_).(ReassemblyQueue.total_) in
  let! d := iadd d 10 in
  Ok (if d <? 0 then 0 else d).

Definition calc_unbounded_no_deadline_priority s (seq maxseq : Z) : res (t * Z) :=
  match s.(prio_scheme_) with
  | CAPPED_BYTES_SENT =>
      let! d := isub seq s.(startseq_) in
      Ok (s, if max <? d then max else d)
  | REMAINING_SIZE => let! d := remaining_plus_10 s maxseq in Ok (s, d)
  | LAZY_REMAINING_SIZE_BYTES_SENT =>
      if negb s.(signal_on_empty_) then
        let! l := iadd get_lowest_priority seq in
        let! d := isub l s.(startseq_) in
        Ok (s, d)
      else let! d := remaining_plus_10 s maxseq in Ok (s, d)
  | LAZY_REMAINING_SIZE =>
      if negb s.(signal_on_empty_) then Ok (s, get_lowest_priority)
      else let! d := remaining_plus_10 s maxseq in Ok (s, d)
  | FLOW_SIZE => let! d := isub maxseq s.(startseq_) in Ok (s, d)
  | BYTES_SENT => let! d := isub seq s.(startseq_) in Ok (s, d)
  | BATCHED_REMAINING_SIZE =>
      if s.(seq_bound_) <=? (highest_ack_ s) then
        let s := s <| seq_bound_ := (maxseq_ s) |> in
        let! d := remaining_plus_10 s maxseq in
        let s := s <| last_prio_ := d |> in
        Ok (s, s.(last_prio_))
      else Ok (s, s.(last_prio_))
  | UNKNOWN => Err Abort
  end.
End SackFullTcpAgent.

(** ** DDTcpAgent *)

Module DDTcpAgent.

Definition get_num_bytes_remaining s : res Z :=
  let! d := isub (curseq_ s) (highest_ack_ s) in
  isub d s.(sq_).(ReassemblyQueue.total_).

Definition calc_unbounded_no_deadline_priority s (seq maxseq : Z) : res (t * Z) :=
  if negb (bool_decide (s.(prio_scheme_) = UNKNOWN)) then Ok (s, get_lowest_priority)
  else SackFullTcpAgent.calc_unbounded_no_deadline_priority s seq maxseq.
End DDTcpAgent.

(** ** Virtual calls *)

Definition get_num_bytes_remaining s : res Z :=
  match s.(cls) with
  | DDTcp => DDTcpAgent.get_num_bytes_remaining s
  | Sack | MinTcp => SackFullTcpAgent.get_num_bytes_remaining s
  | _ => FullTcpAgent.get_num_bytes_remaining s
  end.

Definition calc_unbounded_no_deadline_priority s (seq maxseq : Z) : res (t * Z) :=
  match s.(cls) with
  | DDTcp => DDTcpAgent.calc_unbounded_no_deadline_priority s seq maxseq
  | Sack | MinTcp => SackFullTcpAgent.calc_unbounded_no_deadline_priority s seq maxseq
  | _ => FullTcpAgent.calc_unbounded_no_deadline_priority s seq maxseq
  end.

(** ** Bounded priorities *)

(** The loop over [i], [n] iterations before [prio_num_]. *)
Fixpoint bounded_loop s (prio : Z) (i : Z) (n : nat) : res Z :=
  match n with
  | O => Ok (s.(prio_num_) - 1)
  | S n =>
      let! cap := deref (s.(prio_cap_) !! Z.to_nat (i * 8 / s.(prio_num_) - 1)) in
      if prio <=? cap then Ok (i - 1) else bounded_loop s prio (i + 1) n
  end.

Definition into_bounded_priority s (prio : Z) : res Z :=
  if negb (s.(prio_num_) =? 2) && negb (s.(prio_num_) =? 4) && negb (s.(prio_num_) =? 8)
  then Ok 0
  else bounded_loop s prio 1 (Z.to_nat (s.(prio_num_) - 1)).

Definition calc_no_deadline_priority s (seq maxseq : Z) : res (t * Z) :=
  let! (s, priority) := calc_unbounded_no_deadline_priority s seq maxseq in
  if s.(prio_num_) =? 0 then Ok (s, priority)
  else let! p := into_bounded_priority s priority in Ok (s, p).

(** ** PIAS *)

Fixpoint pias_loop s (bytes_sent : Z) (i : Z) (n : nat) : res Z :=
  match n with
  | O => Ok (s.(pias_prio_num_) - 1)
  | S n =>
      let! th := deref (s.(pias_thresh_) !! Z.to_nat i) in
      if bytes_sent <=? th then Ok i else pias_loop s bytes_sent (i + 1) n
  end.

Definition piasPrio s (bytes_sent : Z) : res (t * Z) :=
  if s.(enable_pias_) && (1 <=? s.(pias_prio_num_)) then
    let s := s <| pias_prio_num_ := Z.min s.(pias_prio_num_) 8 |> in
    let! p := pias_loop s bytes_sent 0 (Z.to_nat (s.(pias_prio_num_) - 1)) in
    Ok (s, p)
  else Ok (s, 0).

Definition calc_pias_priority s (seqno datalen : Z) : res (t * Z) :=
  if 0 <? datalen then
    let! d := isub seqno s.(startseq_) in
    piasPrio s d
  else Ok (s, 0).

(** ** Deadlines *)

Definition million : f64 := F64.of_Z 1000000.

Definition get_expiration_time_us s : res Z :=
  let! b := F64.to_int (F64.mul s.(start_time) million) in
  iadd s.(deadline) b.

Definition calc_deadline_priority s now : res Z :=
  let! e := F64.to_int (F64.mul (F64.sub now s.(start_time)) million) in
  let! tleft_us := isub s.(deadline) e in
  let! priority := get_expiration_time_us s in
  if tleft_us <? 0 then Ok get_lowest_priority
  else
    let! r := get_num_bytes_remaining s in
    let rate := F64.mul (F64.of_Z s.(link_rate_)) (F64.ratio 1000000000 1000000) in
    if F64.gt (F64.div (F64.mul (F64.of_Z r) (F64.of_Z 8)) rate) (F64.of_Z tleft_us)
    then Ok get_lowest_priority
    else Ok priority.

(** The end of the flow as the scheme sees it. *)
Definition max_seq s : res Z :=
  if s.(use_true_remaining_size_) && (0 <=? s.(true_flow_size_))
  then iadd s.(startseq_) s.(true_flow_size_) else Ok (curseq_ s).

(** ** The priority [sendpacket] writes into a packet

    [iph_prio] is the priority the packet was allocated with. *)
Definition packet_prio s now (seqno datalen iph_prio : Z) : res (t * Z) :=
  if s.(enable_pias_) then calc_pias_priority s seqno datalen
  else if 0 <? datalen then
    if negb (s.(deadline) =? 0) && s.(use_deadline) then
      let! p := calc_deadline_priority s now in Ok (s, p)
    else
      let! max_seq := max_seq s in
      calc_no_deadline_priority s seqno max_seq
  else Ok (s, iph_prio).
End TcpPrio.

(** * Facts *)

Module TcpPrioFacts.
Import Tcp TcpPrio.

Implicit Types (s : t) (now : f64).

(** The number of leading thresholds below [x]. *)
Fixpoint rank (x : Z) (ths : list Z) : Z :=
  match ths with
  | [] => 0
  | th :: ths => if x <=? th then 0 else 1 + rank x ths
  end.

Lemma rank_range x ths : 0 <= rank x ths <= Z.of_nat (length ths).
Proof. induction ths as [|th ths IH]; cbn; [lia|]. destruct (x <=? th); lia. Qed.

Lemma rank_mono x y ths : x <= y -> rank x ths <= rank y ths.
Proof.
  intros Hxy. induction ths as [|th ths IH]; cbn; [lia|]. pose proof (rank_range y ths).
  destruct (Z.leb_spec x th), (Z.leb_spec y th); lia.
Qed.

(** [rank] is the first index whose threshold is not below [x]. *)
Lemma rank_spec x ths k :
  rank x ths = Z.of_nat k <->
  (k <= length ths)%nat /\ Forall (fun th => th < x) (take k ths) /\ (forall th, ths !! k = Some th -> x <= th).
Proof.
  revert k. induction ths as [|th ths IH]; intros k; cbn [rank length].
  - split; [|intros [? _]; lia]. intros E. assert (k = 0%nat) as -> by lia. by repeat split.
  - pose proof (rank_range x ths). destruct (Z.leb_spec x th) as [H1|H1], k as [|k].
    + split; [|done]. intros _. split; [lia|]. split; [by constructor|]. by intros ? [= <-].
    + split; [lia|]. intros (_ & Hk & _). cbn in Hk. apply Forall_cons in Hk as [Hk _]. lia.
    + split; [lia|]. intros (_ & _ & Hk). specialize (Hk th eq_refl). lia.
    + cbn [take lookup list_lookup]. rewrite Forall_cons.
      assert (1 + rank x ths = Z.of_nat (S k) <-> rank x ths = Z.of_nat k) as -> by lia.
      rewrite IH. intuition lia.
Qed.

(** Both loops compute a rank. *)
Lemma bounded_loop_rank s p i ths :
  i + Z.of_nat (length ths) = s.(prio_num_) ->
  (forall j th, ths !! j = Some th ->
     s.(prio_cap_) !! Z.to_nat ((i + Z.of_nat j) * 8 / s.(prio_num_) - 1) = Some th) ->
  bounded_loop s p i (length ths) = Ok (i - 1 + rank p ths).
Proof.
  revert i. induction ths as [|th ths IH]; intros i Hi Hth; cbn [length bounded_loop rank].
  - cbn in Hi. f_equal. lia.
  - pose proof (Hth 0%nat th eq_refl) as H0. rewrite Z.add_0_r in H0. rewrite H0. cbn [deref res_bind].
    destruct (p <=? th); [f_equal; lia|].
    rewrite IH; [f_equal; lia|cbn in Hi; lia|]. intros j th' Hj. rewrite <- (Hth (S j) th' Hj).
    do 4 f_equal. lia.
Qed.

Lemma pias_loop_rank s b i ths :
  i + Z.of_nat (length ths) = s.(pias_prio_num_) - 1 -> 0 <= i ->
  (forall j th, ths !! j = Some th -> s.(pias_thresh_) !! (Z.to_nat i + j)%nat = Some th) ->
  pias_loop s b i (length ths) = Ok (i + rank b ths).
Proof.
  revert i. induction ths as [|th ths IH]; intros i Hi H0 Hth; cbn [length pias_loop rank].
  - cbn in Hi. f_equal. lia.
  - pose proof (Hth 0%nat th eq_refl) as E. rewrite Nat.add_0_r in E. rewrite E. cbn [deref res_bind].
    destruct (b <=? th); [f_equal; lia|].
    rewrite IH; [f_equal; lia|cbn in Hi; lia|lia|]. intros j th' Hj. rewrite <- (Hth (S j) th' Hj).
    f_equal. lia.
Qed.

(** The thresholds in use when the seven are [c0 .. c6]. *)
Inductive class_thresholds : list Z -> Z -> list Z -> Prop :=
| classes_2 c0 c1 c2 c3 c4 c5 c6 : class_thresholds [c0; c1; c2; c3; c4; c5; c6] 2 [c3]
| classes_4 c0 c1 c2 c3 c4 c5 c6 : class_thresholds [c0; c1; c2; c3; c4; c5; c6] 4 [c1; c3; c5]
| classes_8 c0 c1 c2 c3 c4 c5 c6 :
    class_thresholds [c0; c1; c2; c3; c4; c5; c6] 8 [c0; c1; c2; c3; c4; c5; c6].

Lemma into_bounded_rank s p ths :
  class_thresholds s.(prio_cap_) s.(prio_num_) ths ->
  into_bounded_priority s p = Ok (rank p ths) /\ Z.of_nat (length ths) = s.(prio_num_) - 1.
Proof.
  intros H. remember (prio_cap_ s) as caps eqn:Ec. remember (prio_num_ s) as n eqn:En.
  unfold into_bounded_priority. rewrite <- En.
  destruct H; cbn [Z.eqb Pos.eqb negb andb length]; (split; [|lia]);
    match goal with |- bounded_loop _ _ _ ?k = Ok (rank _ ?l) => change k with (length l) end;
    rewrite bounded_loop_rank by
      (rewrite <- ?En; solve [reflexivity|
         rewrite <- Ec; intros j th Hj; repeat (destruct j as [|j]; [injection Hj as <-; vm_compute; reflexivity|]); discriminate Hj]);
    done.
Qed.

Lemma piasPrio_rank s b :
  s.(enable_pias_) = true -> 1 <= s.(pias_prio_num_) -> length s.(pias_thresh_) = 7%nat ->
  let n := Z.min s.(pias_prio_num_) 8 in
  piasPrio s b = Ok (s <| pias_prio_num_ := n |>, rank b (take (Z.to_nat (n - 1)) s.(pias_thresh_))).
Proof.
  intros He Hn Hl n. unfold piasPrio. rewrite He, (proj2 (Z.leb_le _ _) Hn). cbn [andb].
  set (s' := s <| pias_prio_num_ := _ |>).
  assert (length (take (Z.to_nat (n - 1)) (pias_thresh_ s)) = Z.to_nat (n - 1)) as Hlen
    by (rewrite length_take; lia).
  change (pias_prio_num_ s') with n. rewrite <- Hlen at 1. rewrite pias_loop_rank.
  - done.
  - change (pias_prio_num_ s') with n. lia.
  - lia.
  - intros j th Hj. change (pias_thresh_ s') with (pias_thresh_ s). cbn.
    rewrite lookup_take in Hj. by destruct (decide _).
Qed.

(** ** Bytes and coverage *)

Import ReassemblyQueue RqFacts.

Definition coveredb (l : list seginfo) (x : Z) : bool :=
  existsb (fun g => (g.(startseq_) <=? x) && (x <? g.(endseq_))) l.

Lemma coveredb_spec l x : coveredb l x = true <-> covered l x.
Proof.
  unfold coveredb, covered. rewrite existsb_exists. split.
  - intros (g & Hg & Hx). bool_prop. exists g. split; [by apply list_elem_of_In|lia].
  - intros (g & Hg & Hx). exists g. split; [by apply list_elem_of_In|].
    apply andb_true_iff. split; [apply Z.leb_le|apply Z.ltb_lt]; lia.
Qed.

(** The bytes from [lo] (inclusive) to [hi] (exclusive) that are not held. *)
Definition missing (l : list seginfo) (lo hi : Z) : list Z :=
  filter (fun x => coveredb l x = false) (seqZ lo (hi - lo)).

Lemma elem_of_missing l lo hi x : x ∈ missing l lo hi <-> lo <= x < hi /\ ~ covered l x.
Proof.
  unfold missing. rewrite list_elem_of_filter, elem_of_seqZ, <- coveredb_spec, not_true_iff_false.
  intuition lia.
Qed.

Lemma missing_split l lo mid hi :
  lo <= mid <= hi -> missing l lo hi = missing l lo mid ++ missing l mid hi.
Proof.
  intros H. unfold missing. rewrite <- filter_app. f_equal.
  replace (hi - lo) with ((mid - lo) + (hi - mid)) by lia.
  rewrite seqZ_app by lia. do 2 f_equal. lia.
Qed.

Lemma missing_all l lo hi : (forall x, lo <= x < hi -> covered l x) -> missing l lo hi = [].
Proof.
  intros H. apply filter_none, Forall_forall. intros x Hx%elem_of_seqZ.
  apply not_false_iff_true, coveredb_spec, H. lia.
Qed.

Lemma missing_none l lo hi : (forall x, lo <= x < hi -> ~ covered l x) -> missing l lo hi = seqZ lo (hi - lo).
Proof.
  intros H. apply filter_all, Forall_forall. intros x Hx%elem_of_seqZ.
  apply not_true_iff_false. rewrite coveredb_spec. apply H. lia.
Qed.

Lemma missing_ext l k lo hi :
  (forall x, lo <= x < hi -> covered l x <-> covered k x) -> missing l lo hi = missing k lo hi.
Proof.
  intros H. unfold missing. apply filter_ext_elem. intros x Hx%elem_of_seqZ.
  specialize (H x ltac:(lia)). rewrite <- !coveredb_spec in H.
  destruct (coveredb l x), (coveredb k x); intuition congruence.
Qed.

(** Held and missing bytes add up. *)
Lemma bytes_missing l lo hi :
  sep l -> lo <= hi -> (forall x, covered l x -> lo <= x < hi) ->
  bytes l + Z.of_nat (length (missing l lo hi)) = hi - lo.
Proof.
  revert lo. induction l as [|g l IH]; intros lo Hs Hlh Hc.
  { rewrite missing_none by (intros x _ []%covered_nil). rewrite length_seqZ. unfold bytes. cbn. lia. }
  apply sep_cons in Hs as (Hg & Hs & Hgl). rewrite bytes_cons.
  pose proof (Hc (startseq_ g) ltac:(apply covered_cons; left; lia)) as H1.
  pose proof (Hc (endseq_ g - 1) ltac:(apply covered_cons; left; lia)) as H2.
  assert (forall x, covered l x -> endseq_ g <= x) as Hl.
  { intros x (y & Hy & Hx). specialize (Hgl y Hy). lia. }
  rewrite (missing_split _ lo (startseq_ g) hi), (missing_split _ (startseq_ g) (endseq_ g) hi) by lia.
  rewrite (missing_none _ lo), (missing_all _ (startseq_ g)).
  2: { intros x Hx. apply covered_cons. left. lia. }
  2: { intros x Hx. rewrite covered_cons. intros [?|?%Hl]; lia. }
  rewrite (missing_ext _ l (endseq_ g) hi).
  2: { intros x Hx. rewrite covered_cons. intuition lia. }
  rewrite !length_app, length_seqZ. cbn [length].
  assert (forall x, covered l x -> endseq_ g <= x < hi) as Hc'.
  { intros x Hx. split; [by apply Hl|]. apply Hc, covered_cons. by right. }
  specialize (IH (endseq_ g) Hs ltac:(lia) Hc'). lia.
Qed.

(** A data packet without PIAS, deadline and priority classes. *)
Definition by_scheme s (datalen : Z) : Prop :=
  s.(enable_pias_) = false /\ 0 < datalen /\ (s.(deadline) = 0 \/ s.(use_deadline) = false) /\
  s.(prio_num_) = 0.

Lemma packet_prio_scheme s now seqno datalen p e :
  by_scheme s datalen -> max_seq s = Ok e ->
  packet_prio s now seqno datalen p = calc_unbounded_no_deadline_priority s seqno e.
Proof.
  intros (Hp & Hd & Hdl & Hn) He. unfold packet_prio. rewrite Hp, (proj2 (Z.ltb_lt _ _) Hd).
  assert (negb (deadline s =? 0) && use_deadline s = false) as ->.
  { destruct Hdl as [-> | ->]; [done|apply andb_false_r]. }
  rewrite He. cbn [res_bind]. unfold calc_no_deadline_priority.
  destruct (calc_unbounded_no_deadline_priority s seqno e) as [[s' k]|] eqn:E; [|done]. cbn [res_bind].
  assert (prio_num_ s' = 0) as ->; [|done]. rewrite <- Hn. clear -E.
  unfold calc_unbounded_no_deadline_priority, DDTcpAgent.calc_unbounded_no_deadline_priority,
    SackFullTcpAgent.calc_unbounded_no_deadline_priority,
    FullTcpAgent.calc_unbounded_no_deadline_priority in E.
  destruct (cls s), (prio_scheme_ s); cbn in E; bool_cases; inv_res; done.
Qed.

Lemma remaining_ok s e :
  -1 <= (highest_ack_ s) <= 2 ^ 30 -> 0 <= e <= 2 ^ 30 -> 0 <= s.(sq_).(total_) <= 2 ^ 30 ->
  SackFullTcpAgent.remaining_plus_10 s e =
    Ok (Z.max 0 (e - (highest_ack_ s) - s.(sq_).(total_) + 10)).
Proof.
  intros Hh He Ht. unfold SackFullTcpAgent.remaining_plus_10.
  rewrite isub_ok by (unfold in_int; lia). cbn [res_bind].
  rewrite isub_ok by (unfold in_int; lia). cbn [res_bind].
  rewrite iadd_ok by (unfold in_int; lia). cbn [res_bind].
  f_equal. destruct (Z.ltb_spec (e - highest_ack_ s - total_ (sq_ s) + 10) 0); lia.
Qed.
End TcpPrioFacts.

(** * Theorems *)

Module TcpPrioProps.
Import ReassemblyQueue RqFacts Tcp TcpPrio TcpPrioFacts.

Implicit Types (s : t) (now : f64).

(** The priority classes are the intervals between the thresholds: a
    priority is put in the first class whose cap is not below it, the last
    class takes the rest, no read leaves [prio_cap_], and a numerically larger
    priority is never put in a smaller class. *)
Theorem prio_classes s p p' ths :
  class_thresholds s.(prio_cap_) s.(prio_num_) ths -> p <= p' ->
  exists k k', into_bounded_priority s p = Ok (Z.of_nat k) /\
    into_bounded_priority s p' = Ok (Z.of_nat k') /\
    Z.of_nat k <= Z.of_nat k' < s.(prio_num_) /\
    Forall (fun th => th < p) (take k ths) /\ (forall th, ths !! k = Some th -> p <= th).
Proof.
  intros Hc Hp. destruct (into_bounded_rank s p ths Hc) as [-> Hlen].
  destruct (into_bounded_rank s p' ths Hc) as [-> _].
  pose proof (rank_range p ths). pose proof (rank_range p' ths). pose proof (rank_mono p p' ths Hp).
  exists (Z.to_nat (rank p ths)), (Z.to_nat (rank p' ths)). rewrite !Z2Nat.id by lia.
  split; [done|]. split; [done|]. split; [lia|].
  apply (rank_spec p ths). lia.
Qed.

(** C38: PIAS demotes with the bytes sent: a packet is in the first of at most
    8 levels whose threshold the bytes sent before it do not exceed, and the
    level never improves as the flow sends more. *)
Theorem pias_demotes s b b' :
  s.(enable_pias_) = true -> 1 <= s.(pias_prio_num_) -> length s.(pias_thresh_) = 7%nat -> b <= b' ->
  let n := Z.min s.(pias_prio_num_) 8 in
  let ths := take (Z.to_nat (n - 1)) s.(pias_thresh_) in
  exists k k', piasPrio s b = Ok (s <| pias_prio_num_ := n |>, Z.of_nat k) /\
    piasPrio s b' = Ok (s <| pias_prio_num_ := n |>, Z.of_nat k') /\
    Z.of_nat k <= Z.of_nat k' < n /\
    Forall (fun th => th < b) (take k ths) /\ (forall th, ths !! k = Some th -> b <= th).
Proof.
  intros He Hn Hl Hb n ths. rewrite !piasPrio_rank by done. fold n. fold ths.
  pose proof (rank_range b ths). pose proof (rank_range b' ths). pose proof (rank_mono b b' ths Hb).
  assert (length ths = Z.to_nat (n - 1)) as Hlen by (unfold ths; rewrite length_take; lia).
  exists (Z.to_nat (rank b ths)), (Z.to_nat (rank b' ths)). rewrite !Z2Nat.id by lia.
  split; [done|]. split; [done|]. split; [lia|].
  apply (rank_spec b ths). lia.
Qed.


(** C34: under both lazy schemes the data plane's notion of a bad packet is
    exactly "sent before the application had announced the end of the flow":
    the packet is bad for [DropTail] iff [signal_on_empty_] is not set. *)
Theorem prio_lazy s now seqno datalen p e pk :
  s.(cls) <> DDTcp ->
  s.(prio_scheme_) = LAZY_REMAINING_SIZE \/ s.(prio_scheme_) = LAZY_REMAINING_SIZE_BYTES_SENT ->
  by_scheme s datalen -> max_seq s = Ok e ->
  -1 <= (highest_ack_ s) <= 2 ^ 30 -> 0 <= s.(sq_).(total_) <= 2 ^ 30 -> 0 <= e <= 2 ^ 30 - 12 ->
  0 <= s.(startseq_) <= seqno -> seqno < 2 ^ 30 ->
  exists k, packet_prio s now seqno datalen p = Ok (s, k) /\
    is_bad_prio (pk <| prio_ := k |>) = negb s.(signal_on_empty_).
Proof.
  intros Hc Hs Hb He Hh Ht Hlim Hst Hsq. rewrite (packet_prio_scheme _ _ _ _ _ e) by done.
  unfold calc_unbounded_no_deadline_priority, SackFullTcpAgent.calc_unbounded_no_deadline_priority,
    FullTcpAgent.calc_unbounded_no_deadline_priority.
  rewrite remaining_ok by lia.
  assert (isub e seqno = Ok (e - seqno)) as -> by (apply isub_ok; unfold in_int; lia).
  assert (iadd get_lowest_priority seqno = Ok (2 ^ 30 + seqno)) as ->
    by (rewrite lowest; apply iadd_ok; unfold in_int; lia).
  unfold is_bad_prio.
  destruct Hs as [-> | ->], (signal_on_empty_ s), (cls s); try done; cbn [negb res_bind];
    rewrite ?isub_ok by (unfold in_int; lia); cbn [res_bind];
    (eexists; split; [reflexivity|]); cbn; rewrite ?lowest; lia.
Qed.

(** 1 GB into an unfinished flow the priority of the scheme
    LAZY_REMAINING_SIZE_BYTES_SENT overflows. *)
Lemma prio_lazy_overflow s seqno e :
  s.(cls) = Sack -> s.(prio_scheme_) = LAZY_REMAINING_SIZE_BYTES_SENT -> s.(signal_on_empty_) = false ->
  2 ^ 30 <= seqno -> calc_unbounded_no_deadline_priority s seqno e = Err UB.
Proof.
  intros Hc Hs He Hq. unfold calc_unbounded_no_deadline_priority,
    SackFullTcpAgent.calc_unbounded_no_deadline_priority. rewrite Hc, Hs, He. cbn [negb].
  unfold iadd, chk. destruct (in_intb (get_lowest_priority + seqno)) eqn:E; [|done].
  apply in_intb_spec in E. rewrite lowest in E. unfold in_int in E. lia.
Qed.
End TcpPrioProps.

(** * Witnesses *)

Module TcpPrioWitness.
Import ReassemblyQueue RqFacts RqWitness Tcp TcpPrio TcpPrioFacts TcpPrioProps.

(** A SACK sender whose flow has 100 bytes, 1 byte acknowledged and 4 more in
    the scoreboard [demo]. *)
Definition base : TcpAgent.t :=
  (TcpAgentWitness.demo 5 0) <| TcpAgent.highest_ack_ := 1 |>.

Definition agent (scheme : PrioScheme) (num pias : Z) (signal : bool) : Tcp.t :=
  Tcp.mk Sack base 1460 ESTABLISHED 0 false signal false 0 0 false 0 0 false true 0 0
    scheme num [8775; 23375; 43815; 71555; 388375; 1461475; 4124515] (0 <? pias) pias
    [10; 20; 30; 40; 50; 60; 70] 0 0 (-1) false 0 F64.zero 10 (-1) false
    demo 3 false 3 1 1 1.

Lemma prio_classes_witness :
  exists k k', into_bounded_priority (agent REMAINING_SIZE 4 0 true) 30000 = Ok (Z.of_nat k) /\
    into_bounded_priority (agent REMAINING_SIZE 4 0 true) 90000 = Ok (Z.of_nat k') /\
    Z.of_nat k <= Z.of_nat k' < 4 /\
    Forall (fun th => th < 30000) (take k [23375; 71555; 1461475]) /\
    (forall th, [23375; 71555; 1461475] !! k = Some th -> 30000 <= th).
Proof.
  apply (prio_classes (agent REMAINING_SIZE 4 0 true) 30000 90000); [constructor|discriminate].
Defined.

Lemma pias_demotes_witness :
  exists k k', piasPrio (agent REMAINING_SIZE 0 5 true) 15 =
      Ok ((agent REMAINING_SIZE 0 5 true) <| pias_prio_num_ := 5 |>, Z.of_nat k) /\
    piasPrio (agent REMAINING_SIZE 0 5 true) 35 =
      Ok ((agent REMAINING_SIZE 0 5 true) <| pias_prio_num_ := 5 |>, Z.of_nat k') /\
    Z.of_nat k <= Z.of_nat k' < 5 /\
    Forall (fun th => th < 15) (take k [10; 20; 30; 40]) /\
    (forall th, [10; 20; 30; 40] !! k = Some th -> 15 <= th).
Proof.
  apply (pias_demotes (agent REMAINING_SIZE 0 5 true) 15 35);
    [reflexivity|discriminate|reflexivity|discriminate].
Defined.

Lemma by_scheme_agent scheme signal : by_scheme (agent scheme 0 0 signal) 50.
Proof. split; [done|]. split; [done|]. split; [by left|done]. Qed.

Lemma demo_covered x : covered demo.(fifo) x -> 1 <= x < 100.
Proof.
  intros (s & Hs & Hx). revert s Hs Hx.
  apply (proj1 (Forall_forall (fun s => ReassemblyQueue.startseq_ s <= x < endseq_ s -> 1 <= x < 100) (fifo demo))).
  repeat (apply Forall_cons; split; [cbn; lia|]). apply Forall_nil. exact I.
Qed.


Lemma prio_lazy_witness :
  exists k, packet_prio (agent LAZY_REMAINING_SIZE_BYTES_SENT 0 0 false) F64.zero 10 50 0 =
      Ok (agent LAZY_REMAINING_SIZE_BYTES_SENT 0 0 false, k) /\
    is_bad_prio ((mkPacket None 1500 0 1 2 3 1 0) <| prio_ := k |>) = true.
Proof.
  apply (prio_lazy (agent LAZY_REMAINING_SIZE_BYTES_SENT 0 0 false) F64.zero 10 50 0 100
    (mkPacket None 1500 0 1 2 3 1 0)); try (split; discriminate);
    [discriminate|right; reflexivity|apply by_scheme_agent].
Defined.
End TcpPrioWitness.
