(* ===== verification/EcnReceive.v ===== *)
(** * The congestion echo of a receiver

    How [FullTcpAgent::recv] (src/ns2/tcp/tcp-full.cc) lets its processor see
    an in-order data segment, and how the processor's
    [on_receive_pure_incoming] makes the agent acknowledge at once when the
    mark changes, so that no acknowledgement covers bytes of both kinds.
    [send_much (1, ...)] is the sending of one packet without data, at the
    sequence number its caller gives. *)

From Stdlib Require Import ZArith Lia Bool SpecFloat.
From stdpp Require Import base list gmap.
From S2P Require Import Prelude F64 PktQueue Ecn.

Module EcnReceive.
Import EcnProcessor TcpFlags.

(** The processor and the members of its agent that matter here. *)
Record t := mk {
  proc : EcnProcessor.t;
  maxseq_ : Z;
  rcv_nxt_ : Z;
  last_ack_sent_ : Z
}.

#[global] Instance eta_t : Eta t := fun r => mk (proc r) (maxseq_ r) (rcv_nxt_ r) (last_ack_sent_ r).

(** A packet sent: the bytes it newly acknowledges and its flags. *)
Record ack := mkAck { a_from : Z; ackno : Z; echo : hdr_flags }.

(** [foutput] and [sendpacket] for a packet without data, SYN and FIN
    ([reliable] is 0) in a state whose [outflags ()] are [ACK]; the timers and
    the flags of the delayed acknowledgement are left out. *)
Definition send_ack (r : t) (seqno : Z) : t * ack :=
  let is_retransmit := seqno <? r.(maxseq_) in
  let '(p, pflags) := modify_pflags_on_foutput r.(proc) ACK is_retransmit in
  let '(p, _, fh, _) := on_sendpacket p pflags no_flags false in
  let a := mkAck r.(last_ack_sent_) r.(rcv_nxt_) fh in
  let r := r <| last_ack_sent_ := r.(rcv_nxt_) |> in
  let highest := seqno in
  let r := r <| proc := on_foutput p highest |> in
  (if r.(maxseq_) <? highest then r <| maxseq_ := highest |> else r, a).

Definition agent_has_pending_acks (r : t) : bool := 0 <? r.(rcv_nxt_) - r.(last_ack_sent_).

Definition send_immediate_ack_with_previous_ce (r : t) (seqno : Z) : t * ack :=
  let r := r <| proc := recv_flip_ce r.(proc) |> in
  let '(r, a) := send_ack r seqno in
  (r <| proc := recv_flip_ce r.(proc) |>, a).

Definition on_receive_pure_incoming (r : t) (seqno : Z) : t * list ack :=
  if recv_has_pending r.(proc) && agent_has_pending_acks r then
    let '(r, a) := send_immediate_ack_with_previous_ce r seqno in (r, [a])
  else (r, []).

(** The in-order data segment of [datalen] bytes in [recv]. *)
Definition recv_data (r : t) (fh : hdr_flags) (prio datalen : Z) (seqno : Z) : t * list ack :=
  let r := r <| proc := on_receive_predict_ok r.(proc) fh prio (0 <? datalen) |> in
  let '(r, acks) := on_receive_pure_incoming r seqno in
  (r <| rcv_nxt_ := r.(rcv_nxt_) + datalen |>, acks).

(** What happens at a receiver: data arrives, or the delayed-ack timer or the
    end of [recv] sends an acknowledgement. *)
Inductive event :=
| Data (fh : hdr_flags) (prio datalen : Z) (seqno : Z)
| SendAck (seqno : Z).

Definition step (r : t) (e : event) : t * list ack :=
  match e with
  | Data fh prio datalen seqno => recv_data r fh prio datalen seqno
  | SendAck seqno => let '(r, a) := send_ack r seqno in (r, [a])
  end.

Fixpoint run (r : t) (es : list event) : t * list ack :=
  match es with
  | [] => (r, [])
  | e :: es =>
      let '(r, l) := step r e in
      let '(r, l') := run r es in
      (r, l ++ l')
  end.

(** The segments of a run: first byte, last byte plus one, mark. *)
Fixpoint segments (nxt : Z) (es : list event) : list (Z * Z * bool) :=
  match es with
  | [] => []
  | Data fh _ len _ :: es => (nxt, nxt + len, tt (ce fh)) :: segments (nxt + len) es
  | SendAck _ :: es => segments nxt es
  end.
End EcnReceive.

(** * Facts *)

Module EcnReceiveFacts.
Import EcnProcessor EcnReceive TcpFlags.

Implicit Types (p : EcnProcessor.t) (r : EcnReceive.t).

(** Congestion notification has been negotiated. *)
Definition negotiated p : Prop := is_enabled p = true /\ is_active p = true.

(** The modes in which the tracker in use is exact, with the packet
    priorities this holds for. *)
Inductive exact_mode : (EcnProcessor.t -> Prop) -> (Z -> Prop) -> Prop :=
| mode_ecnhat :
    exact_mode (fun p => ecnhat_ p = true /\ afabric_ecn_enabled_ p = false) (fun _ => True)
| mode_afabric_low :
    exact_mode (fun p => ecnhat_ p = true /\ afabric_ecn_enabled_ p = true /\
      AFabricReceiverCETracker.is_low_prio_ (afabric_recv_ p) = true)
      (fun prio => prio = get_lowest_priority)
| mode_afabric_high :
    exact_mode (fun p => ecnhat_ p = true /\ afabric_ecn_enabled_ p = true /\
      AFabricReceiverCETracker.is_low_prio_ (afabric_recv_ p) = false)
      (fun prio => prio <> get_lowest_priority).

Section Mode.
Context (good : EcnProcessor.t -> Prop) (ok : Z -> Prop) (Hmode : exact_mode good ok).

Lemma mode_packet p fh prio :
  good p -> ok prio -> negotiated p -> ect fh <> 0 ->
  let p' := update_state_new_packet p fh prio true in
  good p' /\ negotiated p' /\ recv_need_ce_echo p' = tt (ce fh) /\
  recv_has_pending p' = negb (eqb (recv_need_ce_echo p) (tt (ce fh))).
Proof.
  intros Hg Hok [He Ha] Hect. unfold update_state_new_packet. rewrite He.
  destruct Hmode; destruct Hg as (Hn & Haf); [|destruct Haf as [Haf Hl]..];
    unfold set_recv_tracker, recv_need_ce_echo, recv_has_pending, get_recv_tracker; rewrite Hn, Haf;
    cbn [ecnhat_ afabric_ecn_enabled_ field_update]; rewrite ?Hn, ?Haf; cbn [ecnhat_recv_ afabric_recv_].
  - pose proof (exact_good (ExactTracker := ecnhat_exact) (ecnhat_recv_ p) fh prio I Hok) as H1.
    pose proof (exact_mark (ExactTracker := ecnhat_exact) (ecnhat_recv_ p) fh prio I Hok Hect) as H2.
    by pose proof (exact_change (ExactTracker := ecnhat_exact) (ecnhat_recv_ p) fh prio I Hok Hect) as H3.
  - pose proof (exact_good (ExactTracker := afabric_exact_low) (afabric_recv_ p) fh prio Hl Hok) as H1.
    pose proof (exact_mark (ExactTracker := afabric_exact_low) (afabric_recv_ p) fh prio Hl Hok Hect) as H2.
    by pose proof (exact_change (ExactTracker := afabric_exact_low) (afabric_recv_ p) fh prio Hl Hok Hect) as H3.
  - pose proof (exact_good (ExactTracker := afabric_exact_high) (afabric_recv_ p) fh prio Hl Hok) as H1.
    pose proof (exact_mark (ExactTracker := afabric_exact_high) (afabric_recv_ p) fh prio Hl Hok Hect) as H2.
    by pose proof (exact_change (ExactTracker := afabric_exact_high) (afabric_recv_ p) fh prio Hl Hok Hect) as H3.
Qed.

(** What the processor knows as a receiver. *)
Definition recv_view p :=
  (ecn_ p, ect_ p, ecnhat_ p, afabric_ecn_enabled_ p, normal_recv_ p, ecnhat_recv_ p, afabric_recv_ p).

Lemma view_good p p' : recv_view p' = recv_view p -> good p -> good p'.
Proof.
  intros [= _ _ H3 H4 _ H6 H7]. destruct Hmode; [|rewrite <- H7..]; rewrite H3, H4; try done;
    by rewrite H7.
Qed.

Lemma view_facts p p' :
  recv_view p' = recv_view p ->
  (negotiated p -> negotiated p') /\ recv_need_ce_echo p' = recv_need_ce_echo p /\
  recv_has_pending p' = recv_has_pending p.
Proof.
  intros [= H1 H2 H3 H4 H5 H6 H7]. unfold negotiated, is_enabled, is_active, recv_need_ce_echo,
    recv_has_pending, get_recv_tracker. by rewrite H1, H2, H3, H4, H5, H6, H7.
Qed.

Lemma flip_ok p :
  good p -> negotiated p ->
  good (recv_flip_ce p) /\ negotiated (recv_flip_ce p) /\
  recv_need_ce_echo (recv_flip_ce p) = negb (recv_need_ce_echo p) /\
  recv_view (recv_flip_ce (recv_flip_ce p)) = recv_view p.
Proof.
  intros Hg Hn. unfold negotiated, recv_flip_ce, set_recv_tracker, recv_need_ce_echo, get_recv_tracker.
  destruct Hmode; destruct Hg as (Hh & Haf); [|destruct Haf as [Haf Hl]..]; rewrite Hh, Haf;
    cbn [ecnhat_ afabric_ecn_enabled_ field_update]; rewrite ?Hh, ?Haf; cbn [field_update ecnhat_ afabric_ecn_enabled_];
    rewrite ?Hh, ?Haf; (split; [done|]; split; [done|]; split; [done|]);
    unfold recv_view; cbn; rewrite ?Hh, ?Haf.
  - repeat f_equal. apply (exact_flip2 (ExactTracker := ecnhat_exact)).
  - repeat f_equal. apply afabric_flip2.
  - repeat f_equal. apply afabric_flip2.
Qed.

Lemma flip_view p p' : recv_view p' = recv_view p -> recv_view (recv_flip_ce p') = recv_view (recv_flip_ce p).
Proof.
  intros [= H1 H2 H3 H4 H5 H6 H7]. unfold recv_flip_ce, set_recv_tracker. rewrite H3, H4.
  destruct (ecnhat_ p) eqn:E, (afabric_ecn_enabled_ p) eqn:E'; unfold recv_view;
    cbn [ecn_ ect_ ecnhat_ afabric_ecn_enabled_ normal_recv_ ecnhat_recv_ afabric_recv_ field_update];
    by rewrite H1, H2, H3, H4, H5, H6, H7, ?E, ?E'.
Qed.

Lemma on_foutput_view p highest : recv_view (EcnProcessor.on_foutput p highest) = recv_view p.
Proof. unfold EcnProcessor.on_foutput, set_send_tracker. by destruct (get_send_tracker p). Qed.

Lemma modify_ack p seqno :
  negotiated p ->
  let '(p', pflags) := modify_pflags_on_foutput p ACK seqno in
  recv_view p' = recv_view p /\ contains_all pflags SYN = false /\
  contains_all pflags ECE = recv_need_ce_echo p.
Proof.
  intros [He Ha]. unfold modify_pflags_on_foutput. rewrite He. cbn [negb].
  change (is_some_syn ACK) with false. cbn iota. rewrite Ha. cbn [andb].
  set (p' := p <| cong_action_ := false |>).
  assert (forall q fl, is_enabled q = true -> is_active q = true -> recv_need_ce_echo q = recv_need_ce_echo p ->
    fl = ACK \/ fl = set_flags ACK CWR ->
    contains_all (set_ce_if_needed q fl) SYN = false /\
    contains_all (set_ce_if_needed q fl) ECE = recv_need_ce_echo p) as Hset.
  { intros q fl H1 H2 H3 Hfl. unfold set_ce_if_needed. rewrite H1, H2, H3. cbn [andb].
    destruct (recv_need_ce_echo p), Hfl as [-> | ->]; done. }
  destruct (need_to_attach_cong_action p seqno); (split; [done|]); apply Hset; auto.
Qed.

Lemma copy_echo p pflags fh : tt (ecnecho (copy_to_hdr_flags p pflags fh)) = contains_all pflags ECE.
Proof.
  unfold copy_to_hdr_flags, get_recv_tracker.
  destruct (contains_all pflags ECE), (contains_all pflags CWR), (ecnhat_ p), (afabric_ecn_enabled_ p); done.
Qed.

Lemma send_ack_ok r seqno :
  good (proc r) -> negotiated (proc r) ->
  exists r' fh, send_ack r seqno = (r', mkAck (last_ack_sent_ r) (rcv_nxt_ r) fh) /\
    recv_view (proc r') = recv_view (proc r) /\ rcv_nxt_ r' = rcv_nxt_ r /\ last_ack_sent_ r' = rcv_nxt_ r /\
    tt (ecnecho fh) = recv_need_ce_echo (proc r).
Proof.
  intros Hg Hn. unfold send_ack. pose proof (modify_ack (proc r) (seqno <? maxseq_ r) Hn) as H.
  destruct (modify_pflags_on_foutput (proc r) ACK (seqno <? maxseq_ r)) as [p' pflags]. destruct H as (Hv & _ & He).
  destruct (view_facts _ _ Hv) as (Hn' & Hc & _). destruct (Hn' Hn) as [He' Ha'].
  unfold on_sendpacket. cbn iota. eexists _, _. split; [reflexivity|].
  split; [|split; [|split]].
  { destruct (_ <? _); cbn [proc field_update]; by rewrite on_foutput_view. }
  1,2: by destruct (_ <? _).
  assert (contains_all (set_ce_if_needed p' pflags) ECE = recv_need_ce_echo (proc r)) as Hs.
  { unfold set_ce_if_needed. rewrite He', Ha', Hc, <- He. cbn [andb].
    destruct (contains_all pflags ECE) eqn:E; [|done]. unfold contains_all, set_flags in *.
    rewrite Z.land_lor_distr_l, Z.land_diag. apply Z.eqb_eq in E. rewrite E. done. }
  by rewrite copy_echo.
Qed.

Lemma immediate_ok r seqno :
  good (proc r) -> negotiated (proc r) ->
  exists r' fh, send_immediate_ack_with_previous_ce r seqno = (r', mkAck (last_ack_sent_ r) (rcv_nxt_ r) fh) /\
    recv_view (proc r') = recv_view (proc r) /\ rcv_nxt_ r' = rcv_nxt_ r /\ last_ack_sent_ r' = rcv_nxt_ r /\
    tt (ecnecho fh) = negb (recv_need_ce_echo (proc r)).
Proof.
  intros Hg Hn. destruct (flip_ok (proc r) Hg Hn) as (G & N & C & V).
  unfold send_immediate_ack_with_previous_ce.
  destruct (send_ack_ok (r <| proc := recv_flip_ce (proc r) |>) seqno) as (r2 & fh2 & -> & V3 & R3 & L3 & E3);
    [done|done|]. eexists _, fh2. split; [reflexivity|]. cbn [proc rcv_nxt_ last_ack_sent_ field_update] in *.
  split; [rewrite <- V; by apply flip_view|]. split; [done|]. split; [done|]. congruence.
Qed.

(** ** Acknowledgements and segments *)

(** [x] and [y], given by their ends, share a byte. *)
Definition overlap (a b u v : Z) : Prop := a < v /\ u < b.

(** Every packet is a marked or unmarked ECN-capable data segment of an
    allowed priority. *)
Definition data_ok (e : event) : Prop :=
  match e with
  | Data fh prio len _ => ok prio /\ ect fh <> 0 /\ 0 < len
  | SendAck _ => True
  end.

(** A receiver between two events. *)
Record receiving r : Prop := {
  rc_good : good (proc r);
  rc_negotiated : negotiated (proc r);
  rc_order : last_ack_sent_ r <= rcv_nxt_ r
}.

Lemma segments_above nxt es :
  Forall data_ok es -> Forall (fun '(u, v, _) => nxt <= u < v) (segments nxt es).
Proof.
  intros H. revert nxt. induction H as [|[fh prio len seqno|seqno] es He Hes IH]; intros nxt; cbn [segments].
  - constructor.
  - destruct He as (_ & _ & Hlen). constructor; [lia|]. eapply Forall_impl; [apply IH|].
    intros [[u v] m]. lia.
  - apply IH.
Qed.

(** The acknowledgements cover [x, y) in order and without gaps. *)
Fixpoint tiles (x y : Z) (l : list ack) : Prop :=
  match l with
  | [] => x = y
  | a :: l => a_from a = x /\ x <= ackno a /\ tiles (ackno a) y l
  end.

(** An acknowledgement's echo is the mark of all it covers of a segment. *)
Definition agrees (a : ack) (seg : Z * Z * bool) : Prop :=
  let '(u, v, m) := seg in overlap (a_from a) (ackno a) u v -> tt (ecnecho (echo a)) = m.

Lemma tiles_app x y z l1 l2 : tiles x y l1 -> tiles y z l2 -> tiles x z (l1 ++ l2).
Proof. revert x. induction l1 as [|a l1 IH]; cbn; intros x; [by intros ->|]. naive_solver. Qed.

(** One event: the acknowledgements it causes cover bytes received before,
    whose marks agreed with the state before, and it leaves the pending bytes
    agreeing with the state after. *)
Lemma step_ok r e :
  receiving r -> data_ok e ->
  exists r' acks, step r e = (r', acks) /\ receiving r' /\
    match e with
    | Data fh _ len _ => rcv_nxt_ r' = rcv_nxt_ r + len /\ recv_need_ce_echo (proc r') = tt (ce fh)
    | SendAck _ => rcv_nxt_ r' = rcv_nxt_ r /\ recv_need_ce_echo (proc r') = recv_need_ce_echo (proc r)
    end /\
    (acks = [] /\ last_ack_sent_ r' = last_ack_sent_ r /\
       (last_ack_sent_ r < rcv_nxt_ r -> recv_need_ce_echo (proc r') = recv_need_ce_echo (proc r)) \/
     exists fh, acks = [mkAck (last_ack_sent_ r) (rcv_nxt_ r) fh] /\ last_ack_sent_ r' = rcv_nxt_ r /\
       tt (ecnecho fh) = recv_need_ce_echo (proc r)).
Proof.
  intros [Hg Hn Ho] He. destruct e as [fh prio len seqno|seqno]; cbn [step].
  - destruct He as (Hok & Hect & Hlen). unfold recv_data. rewrite (proj2 (Z.ltb_lt _ _) Hlen).
    unfold on_receive_predict_ok.
    destruct (mode_packet (proc r) fh prio Hg Hok Hn Hect) as (G1 & N1 & C1 & P1).
    set (p1 := update_state_new_packet (proc r) fh prio true) in *.
    unfold on_receive_pure_incoming, agent_has_pending_acks. cbn [proc rcv_nxt_ last_ack_sent_ field_update].
    rewrite P1. destruct (Z.ltb_spec 0 (rcv_nxt_ r - last_ack_sent_ r)) as [Hp|Hp].
    2: { rewrite andb_false_r. eexists _, []. split; [reflexivity|].
      cbn [proc rcv_nxt_ last_ack_sent_ field_update].
      split; [by constructor; cbn; try lia|]. split; [done|]. left. split; [done|]. split; [done|]. lia. }
    destruct (eqb (recv_need_ce_echo (proc r)) (tt (ce fh))) eqn:E; cbn [negb andb].
    + apply eqb_prop in E. eexists _, []. split; [reflexivity|].
      cbn [proc rcv_nxt_ last_ack_sent_ field_update].
      split; [by constructor; cbn; try lia|]. split; [done|]. left. split; [done|]. split; [done|]. congruence.
    + apply eqb_false_iff in E.
      destruct (immediate_ok (mk p1 (maxseq_ r) (rcv_nxt_ r) (last_ack_sent_ r)) seqno) as (r2 & fh2 & -> & V & R2 & L2 & E2);
        [done|done|]. eexists _, _. split; [reflexivity|]. cbn [proc rcv_nxt_ last_ack_sent_ field_update] in *.
      destruct (view_facts _ _ V) as (N2 & C2 & _).
      split; [constructor; cbn; [by eapply view_good|by apply N2|lia]|].
      split; [split; [lia|congruence]|]. right. exists fh2. split; [done|]. split; [done|].
      rewrite E2, C1. destruct (recv_need_ce_echo (proc r)), (tt (ce fh)); done.
  - destruct (send_ack_ok r seqno Hg Hn) as (r' & fh & -> & V & R & L & E).
    destruct (view_facts _ _ V) as (N & C & _).
    eexists _, _. split; [reflexivity|]. split; [constructor; [by eapply view_good|by apply N|lia]|].
    split; [done|]. right. by exists fh.
Qed.
(** A run whose pending bytes are a segment of their own. *)
Lemma receive_run_ok r es :
  receiving r -> Forall data_ok es ->
  exists r' acks, run r es = (r', acks) /\ receiving r' /\ tiles (last_ack_sent_ r) (last_ack_sent_ r') acks /\
    Forall (fun a => agrees a (last_ack_sent_ r, rcv_nxt_ r, recv_need_ce_echo (proc r)) /\
      Forall (agrees a) (segments (rcv_nxt_ r) es)) acks.
Proof.
  intros Hr Hes. revert r Hr. induction Hes as [|e es He Hes IH]; intros r Hr.
  { exists r, []. split; [done|]. split; [done|]. split; [done|]. constructor. }
  destruct (step_ok r e Hr He) as (r1 & l1 & E1 & H1 & Hnow & Hacks).
  destruct (IH r1 H1) as (r2 & l2 & E2 & H2 & T2 & A2). exists r2, (l1 ++ l2).
  cbn [run]. rewrite E1, E2. split; [done|]. split; [done|].
  pose proof (rc_order _ Hr) as Ho. pose proof (rc_order _ H1) as Ho1.
  (* what later acknowledgements say of the pending bytes and of this segment *)
  assert (Forall (fun a => agrees a (last_ack_sent_ r, rcv_nxt_ r, recv_need_ce_echo (proc r)) /\
    Forall (agrees a) (segments (rcv_nxt_ r) (e :: es))) l2) as Hl2.
  { assert (Forall (fun a => last_ack_sent_ r1 <= a_from a) l2) as Hfrom.
    { clear -T2. revert T2. generalize (last_ack_sent_ r1) as x. induction l2 as [|a l IHl]; intros x; [constructor|].
      cbn. intros (Hx & Hle & HT). constructor; [lia|]. eapply Forall_impl; [by apply IHl|]. intros ?. cbn. lia. }
    rewrite Forall_forall in *. intros a Ha. destruct (A2 a Ha) as [Ap As]. specialize (Hfrom a Ha).
    unfold agrees, overlap in *. split.
    - intros Hov. destruct Hacks as [(_ & Hl & Hc)|(fh & _ & Hl & _)]; [|lia].
      rewrite <- Hc by lia. apply Ap. destruct e; cbn in He; lia.
    - destruct e as [fh prio len seqno|seqno]; cbn [segments]; destruct Hnow as [Hx Hc].
      + rewrite Hx in As. constructor; [|done]. intros Hov. rewrite <- Hc. apply Ap. cbn in He.
        destruct Hacks as [(_ & Hl & _)|(? & _ & Hl & _)]; lia.
      + by rewrite <- Hx. }
  destruct Hacks as [(-> & Hl & _)|(fh & -> & Hl & Hc)]; cbn [app]; rewrite ?Hl in T2; [done|].
  split; [by cbn|]. constructor; [|done]. split; [by intros _|]. unfold agrees, overlap. cbn.
  pose proof (segments_above (rcv_nxt_ r) (e :: es) ltac:(by constructor)) as Hs.
  eapply Forall_impl; [exact Hs|]. intros [[u v] m]. lia.
Qed.
End Mode.
End EcnReceiveFacts.

(** * What the receiver promises *)

Module EcnReceiveProps.
Import EcnProcessor EcnReceive EcnReceiveFacts TcpFlags.


(** The aFabric tracker over both kinds of packet.  A low-priority segment
    without a mark waits for its acknowledgement; the first packet of another
    priority, also unmarked, makes the receiver acknowledge it at once with the
    complement of the new state, so the echo says the unmarked bytes were
    marked. *)
Lemma afabric_wrong_echo :
  let fh := no_flags <| ect := 1 |> in
  let p := (create F64.zero) <| ecn_ := true |> <| ect_ := true |> <| ecnhat_ := true |>
    <| afabric_ecn_enabled_ := true |> in
  exists r' a, run (mk p 1 1 1) [Data fh get_lowest_priority 1000 1; Data fh 5 1000 1] = (r', [a]) /\
    a_from a = 1 /\ ackno a = 1001 /\ ecnecho (echo a) = 1.
Proof. eexists _, _. vm_compute. done. Qed.

(** After a marked packet of another priority, an unmarked low-priority one
    clears the state without a pending change: the bytes of both are
    acknowledged as unmarked. *)
Lemma afabric_lost_mark :
  let fh := no_flags <| ect := 1 |> in
  let p := (create F64.zero) <| ecn_ := true |> <| ect_ := true |> <| ecnhat_ := true |>
    <| afabric_ecn_enabled_ := true |> in
  exists r' a, run (mk p 1 1 1) [Data (fh <| ce := 1 |>) 5 1000 1; Data fh get_lowest_priority 1000 1;
      SendAck 1] = (r', [a]) /\
    a_from a = 1 /\ ackno a = 2001 /\ ecnecho (echo a) = 0.
Proof. eexists _, _. vm_compute. done. Qed.
End EcnReceiveProps.

Module EcnReceiveWitness.
Import EcnProcessor EcnReceive EcnReceiveFacts EcnReceiveProps.

Definition dctcp : EcnProcessor.t :=
  (create F64.zero) <| ecn_ := true |> <| ect_ := true |> <| ecnhat_ := true |>.
Definition marked : hdr_flags := no_flags <| ect := 1 |> <| ce := 1 |>.
Definition unmarked : hdr_flags := no_flags <| ect := 1 |>.
Definition events : list event :=
  [Data unmarked 0 1000 1; Data unmarked 0 500 1; Data marked 0 1000 1; SendAck 1;
   Data unmarked 7 40 1; Data marked 0 1 0].

End EcnReceiveWitness.
