(* ===== verification/TcpSack.v ===== *)
(** * The SACK sender

    The scoreboard side of [SackFullTcpAgent] (src/ns2/tcp/tcp-full.cc): which
    sequence number to send next ([nxt_tseq]), whether it may be sent
    ([send_allowed]), what happens to the pipe when it is ([sent]), and how
    the SACK blocks of an acknowledgement enter the scoreboard
    ([process_sack]); with the functions of [FullTcpAgent] they override. *)

From Stdlib Require Import ZArith Lia Bool SpecFloat.
From stdpp Require Import base list gmap.
From S2P Require Import Prelude F64 PktQueue Rq Ecn TcpAgent Tcp TcpPrio.

Module TcpSack.
Import Tcp TcpFlags.

Implicit Types (s : t).

(** Assignments to inherited members. *)
Definition set_t_seqno (v : Z) s : t := s <| super := s.(super) <| TcpAgent.t_seqno_ := v |> |>.
Definition set_dupacks (v : Z) s : t := s <| super := s.(super) <| TcpAgent.dupacks_ := v |> |>.
Definition set_cwnd (v : f64) s : t := s <| super := s.(super) <| TcpAgent.cwnd_ := v |> |>.

(** ** The next sequence number *)

(** The hole counts as lost: enough is known to have arrived above it. *)
Definition worth_filling s (fcnt fbytes : Z) : bool :=
  let c := s.(sack_rtx_cthresh_) <=? fcnt in
  let b := s.(sack_rtx_bthresh_) <=? fbytes in
  match s.(sack_rtx_threshmode_) with
  | 0 => true
  | 1 => c
  | 2 => b
  | 3 => c || b
  | 4 => c && b
  | _ => false
  end.

(** The loop of [nxt_tseq], at most [fuel] iterations. *)
Fixpoint nxt_tseq_loop (fuel : nat) s (seq : Z) : res (t * Z) :=
  match fuel with
  | O => Err Fuel
  | S fuel =>
      let '(q, (seq, fcnt, fbytes)) := ReassemblyQueue.nexthole s.(sq_) seq in
      let s := s <| sq_ := q |> in
      if seq <=? 0 then Ok (s, t_seqno_ s)
      else if worth_filling s fcnt fbytes then
        Ok (if s.(h_seqno_) <? seq then s <| h_seqno_ := seq |> else s, seq)
      else if fcnt <=? 0 then Ok (s, t_seqno_ s)
      else
        let! seq := if negb (s.(prob_cap_) =? 0) then iadd seq 1 else iadd seq s.(maxseg_) in
        nxt_tseq_loop fuel s seq
  end.

(** Every iteration but the last leaves [seq] below the end of the
    scoreboard. *)
Definition nxt_tseq_fuel s : nat := S (S (Z.to_nat (ReassemblyQueue.maxseq s.(sq_) - s.(h_seqno_)))).

Definition nxt_tseq s : res (t * Z) :=
  if is_sack s.(cls) then
    if highest_ack_ s <? recover_ s then nxt_tseq_loop (nxt_tseq_fuel s) s s.(h_seqno_)
    else Ok (s, t_seqno_ s)
  else Ok (s, t_seqno_ s).

(** ** Permission to send *)

Module FullTcpAgent.
Definition send_allowed s (seq : Z) : res bool :=
  let! w := window s in
  let! win := imul w s.(maxseg_) in
  let win := if s.(prob_mode_) && (1 <? win) then 1 else win in
  let! edge := iadd (highest_ack_ s) win in
  let topwin := if (edge <? curseq_ s) || s.(infinite_send_) then edge else curseq_ s in
  Ok (seq <? topwin).

Definition sent s (seq amt : Z) : res t :=
  let! s := if seq =? t_seqno_ s then let! v := iadd (t_seqno_ s) amt in Ok (set_t_seqno v s) else Ok s in
  let! p := iadd s.(pipe_) amt in
  let s := s <| pipe_ := p |> in
  if seq <? maxseq_ s then let! v := iadd s.(rtxbytes_) amt in Ok (s <| rtxbytes_ := v |>) else Ok s.
End FullTcpAgent.

Module SackFullTcpAgent.
Definition send_allowed s (seq : Z) : res bool :=
  if negb s.(pipectrl_) then FullTcpAgent.send_allowed s seq
  else
    let! w := F64.to_int (wnd_ s) in
    let! awin := imul w s.(maxseg_) in
    let! topawin := iadd (highest_ack_ s) awin in
    if topawin <=? seq then Ok false
    else if negb (bool_decide (s.(state_) = ESTABLISHED)) && (curseq_ s <? seq) then Ok false
    else
      let! c := F64.to_int (cwnd_ s) in
      let! cwin := imul c s.(maxseg_) in
      Ok (s.(pipe_) <? cwin).

Definition sent s (seq amt : Z) : res t :=
  let! s :=
    if seq =? s.(h_seqno_) then let! v := iadd s.(h_seqno_) amt in Ok (s <| h_seqno_ := v |>) else Ok s in
  FullTcpAgent.sent s seq amt.
End SackFullTcpAgent.

Definition send_allowed s (seq : Z) : res bool :=
  if is_sack s.(cls) then SackFullTcpAgent.send_allowed s seq else FullTcpAgent.send_allowed s seq.

Definition sent s (seq amt : Z) : res t :=
  if is_sack s.(cls) then SackFullTcpAgent.sent s seq amt else FullTcpAgent.sent s seq amt.

(** ** Incoming SACK blocks *)

Fixpoint sack_loop (q : ReassemblyQueue.t) (fin : bool) (blks : list (Z * Z)) : res ReassemblyQueue.t :=
  match blks with
  | [] => Ok q
  | (sa_left, sa_right) :: blks =>
      if negb fin && (sa_right <=? sa_left) then sack_loop q fin blks
      else
        let! (q, _) := ReassemblyQueue.add q sa_left sa_right 0 0 in
        sack_loop q fin blks
  end.

(** [FullTcpAgent::process_sack] only prints. *)
Definition process_sack s (p : packet) : res t :=
  if is_sack s.(cls) then
    let s := s <| last_sqtotal_ := s.(sq_).(ReassemblyQueue.total_) |> in
    if s.(max_sack_blocks_) <=? 0 then Ok s
    else
      let! q := sack_loop s.(sq_) (contains_all p.(flags) FIN) p.(sack_area_) in
      let s := s <| sq_ := q |> in
      Ok (s <| cur_sqtotal_ := s.(sq_).(ReassemblyQueue.total_) |>)
  else Ok s.

(** ** Partial and full acknowledgements, and timeouts *)

(** [sack_min_ = highest_ack_; sq_.cleartonxt ()] when the scoreboard lags. *)
Definition drop_acked s : res t :=
  if negb (ReassemblyQueue.empty s.(sq_)) && (sack_min_ s <? highest_ack_ s) then
    let q := s.(sq_) <| ReassemblyQueue.rcv_nxt_ := highest_ack_ s |> in
    let! (q, _) := ReassemblyQueue.cleartonxt q in
    Ok (s <| sq_ := q |>)
  else Ok s.

Definition raise_h_seqno s : t :=
  if s.(h_seqno_) <? highest_ack_ s then s <| h_seqno_ := highest_ack_ s |> else s.

Definition sack_pack_action s : res t :=
  let! s := drop_acked s in
  let! p := isub s.(pipe_) s.(maxseg_) in
  Ok (raise_h_seqno (s <| pipe_ := p |>)).

Definition sack_ack_action s : res t :=
  let s := s <| pipectrl_ := false |> in
  let s := s <| fastrecov_ := false |> in
  let! s := drop_acked s in
  Ok (raise_h_seqno (set_dupacks 0 s)).

Definition reno_pack_action s : t :=
  let ssthresh := F64.of_Z (TcpAgent.ssthresh_ s.(super)) in
  let s :=
    if s.(reno_fastrecov_) && s.(fastrecov_) && F64.gt (cwnd_ s) ssthresh
    then set_cwnd ssthresh s else s in
  set_dupacks 0 (s <| fastrecov_ := false |>).

(** The part of [SackFullTcpAgent::timeout_action] behind the inherited one. *)
Definition clear_scoreboard s : t :=
  if s.(clear_on_timeout_) then
    let q := ReassemblyQueue.clear s.(sq_) in
    s <| sq_ := q <| ReassemblyQueue.rcv_nxt_ := highest_ack_ s |> |>
  else s.
End TcpSack.

(** * Facts *)

Module TcpSackFacts.
Import Tcp TcpSack Rq ReassemblyQueue RqFacts.

Implicit Types (s : Tcp.t).

Lemma above_pos l h : sep l -> 0 < fst (above l h) -> exists b, b ∈ l /\ h < b.(startseq_).
Proof.
  intros Hs. unfold above. destruct (filter _ l) as [|b k] eqn:E; cbn; [lia|]. intros _.
  exists b. assert (b ∈ filter (fun b => h < b.(startseq_)) l) as Hb by (rewrite E; set_solver).
  by apply list_elem_of_filter in Hb as [? ?].
Qed.

Lemma rq_inv_hint q x : rq_inv q -> rq_inv (q <| hint_ := x |>).
Proof. intros [Hm Hs Ht]. split; [by eapply mem_same|done|done]. Qed.

Lemma maxseq_last q b : sep q.(fifo) -> b ∈ q.(fifo) -> b.(endseq_) <= maxseq q.
Proof.
  intros Hs Hb. unfold maxseq. destruct (snoc_cases q.(fifo)) as [E|(l & x & E)]; rewrite E in *; [set_solver|].
  rewrite last_snoc. by eapply sep_last.
Qed.

Lemma nexthole_cases q seq :
  rq_inv q ->
  exists h c b, nexthole q seq = (q <| hint_ := head_ q |>, (h, c, b)) /\
    (h = -1 \/ seq <= h /\ (forall x, seq <= x < h -> covered q.(fifo) x) /\ ~ covered q.(fifo) h /\
      (c, b) = above q.(fifo) h).
Proof.
  intros [_ Hs _]. unfold nexthole.
  destruct (decide (Exists (fun b => seq <= b.(endseq_)) q.(fifo))) as [Hex|Hex].
  - destruct (nexthole_loop_ok _ seq Hs Hex) as (h & -> & H). eexists h, _, _. split; [done|]. right.
    split; [tauto|]. split; [tauto|]. split; [tauto|]. by destruct (above _ h).
  - rewrite nexthole_loop_none; [eexists _, _, _; split; [done|by left]|].
    apply Forall_forall. intros b Hb. destruct Hs as [_ Hs]. rewrite Forall_forall in Hs. specialize (Hs b Hb).
    split; [done|]. apply Z.nle_gt. intros H. apply Hex, Exists_exists. by exists b.
Qed.

(** What [nxt_tseq] may change. *)
Definition moved s s' : Prop :=
  exists hint h, s' = s <| sq_ := s.(sq_) <| hint_ := hint |> |> <| h_seqno_ := h |>.

Lemma moved_trans s s1 s2 : moved s s1 -> moved s1 s2 -> moved s s2.
Proof. intros (i & h & ->) (i' & h' & ->). by exists i', h'. Qed.

Lemma moved_hint s q : q = s.(sq_) <| hint_ := head_ s.(sq_) |> -> moved s (s <| sq_ := q |>).
Proof. intros ->. exists (head_ (sq_ s)), (h_seqno_ s). by destruct s. Qed.

(** The answer [r] of the search from [seq]. *)
Definition hole_found s seq s' r : Prop :=
  seq <= r /\ 0 < r /\ ~ covered s.(sq_).(fifo) r /\
  worth_filling s (fst (above s.(sq_).(fifo) r)) (snd (above s.(sq_).(fifo) r)) = true /\
  h_seqno_ s' = Z.max (h_seqno_ s) r /\
  (sack_rtx_threshmode_ s = 0 -> forall x, seq <= x < r -> covered s.(sq_).(fifo) x).

Lemma nxt_tseq_loop_ok fuel s seq :
  rq_inv s.(sq_) -> 1 <= maxseg_ s -> maxseq s.(sq_) + maxseg_ s < 2 ^ 31 -> - 2 ^ 31 <= seq ->
  (Z.to_nat (maxseq s.(sq_) - seq) < fuel)%nat ->
  exists s' r, nxt_tseq_loop fuel s seq = Ok (s', r) /\ moved s s' /\
    (r = t_seqno_ s /\ h_seqno_ s' = h_seqno_ s \/ hole_found s seq s' r).
Proof.
  intros Hi Hm Hmax Hlow. revert s seq Hi Hm Hmax Hlow. induction fuel as [|fuel IH]; intros s seq Hi Hm Hmax Hlow Hf; [lia|].
  cbn [nxt_tseq_loop]. destruct (nexthole_cases (sq_ s) seq Hi) as (h & c & b & -> & Hh).
  set (s1 := s <| sq_ := _ |>).
  assert (moved s s1) as Hmv by (by apply moved_hint).
  destruct (Z.leb_spec h 0) as [Hz|Hz]; [by exists s1, (t_seqno_ s); split; [|split; [|left]]|].
  destruct Hh as [Hh|(Hge & Hc & Hn & Ha)]; [lia|].
  assert (worth_filling s1 c b = worth_filling s c b) as -> by done.
  destruct (worth_filling s c b) eqn:Ew.
  { eexists _, h. split; [reflexivity|]. split.
    - destruct (h_seqno_ s1 <? h); [|done]. eapply moved_trans; [done|]. exists (hint_ (sq_ s1)), h. by destruct s.
    - right. unfold hole_found. rewrite <- Ha. split; [done|]. split; [done|]. split; [done|]. split; [done|]. split; [|done].
      change (h_seqno_ s1) with (h_seqno_ s). destruct (Z.ltb_spec (h_seqno_ s) h); cbn; lia. }
  destruct (Z.leb_spec c 0) as [Hc0|Hc0]; [by exists s1, (t_seqno_ s); split; [|split; [|left]]|].
  destruct (above_pos (fifo (sq_ s)) h (ri_sep _ Hi)) as (blk & Hb & Hbs); [rewrite <- Ha; cbn; lia|].
  pose proof (maxseq_last _ blk (ri_sep _ Hi) Hb) as Hbm.
  assert (startseq_ blk < endseq_ blk) as Hbb.
  { destruct (ri_sep _ Hi) as [_ Hs]. rewrite Forall_forall in Hs. by apply Hs. }
  assert (exists seq', (if negb (prob_cap_ s1 =? 0) then iadd h 1 else iadd h (maxseg_ s1)) = Ok seq' /\ h < seq') as (seq' & -> & Hs').
  { change (prob_cap_ s1) with (prob_cap_ s). change (maxseg_ s1) with (maxseg_ s).
    destruct (negb (prob_cap_ s =? 0)); rewrite iadd_ok by (unfold in_int; lia); (eexists; split; [reflexivity|lia]). }
  cbn [res_bind]. change (maxseq (sq_ s)) with (maxseq (sq_ s1)) in *.
  destruct (IH s1 seq') as (s' & r & E & Hmv' & Hr); [by apply rq_inv_hint|done|done|lia|lia|].
  exists s', r. split; [done|]. split; [exact (moved_trans _ _ _ Hmv Hmv')|].
  destruct Hr as [Hr|(H1 & H2 & H3 & H4 & H5 & H6)]; [by left|right].
  split; [lia|]. split; [exact H2|]. split; [exact H3|]. split; [exact H4|]. split; [exact H5|].
  intros Hmode. unfold worth_filling in Ew. rewrite Hmode in Ew. done.
Qed.

Lemma sack_loop_ok blks q :
  rq_inv q ->
  exists q', sack_loop q false blks = Ok q' /\ rq_inv q' /\
    forall x, covered q'.(fifo) x <-> covered q.(fifo) x \/ exists b, b ∈ blks /\ b.1 <= x < b.2.
Proof.
  revert q. induction blks as [|[l r] blks IH]; intros q Hi; cbn [sack_loop].
  { exists q. split; [done|]. split; [done|]. intros x. split; [tauto|]. intros [H|(b & H & _)]; [done|set_solver]. }
  cbn [negb andb]. destruct (Z.leb_spec r l) as [Hle|Hlt].
  - destruct (IH q Hi) as (q' & E & Hi' & Hc). exists q'. split; [done|]. split; [done|]. intros x. rewrite Hc.
    split; (intros [H|(b & Hb & Hx)]; [by left|]); [right; exists b; set_solver|].
    apply elem_of_cons in Hb as [->|Hb]; [cbn in Hx; lia|right; by exists b].
  - destruct (add_ok q l r 0 0 Hi Hlt) as (q1 & f & -> & Hi1 & Hc1 & _). cbn [res_bind].
    destruct (IH q1 Hi1) as (q' & E & Hi' & Hc). exists q'. split; [done|]. split; [done|]. intros x. rewrite Hc, Hc1.
    split.
    + intros [[H|H]|(b & Hb & Hx)]; [by left|right; exists (l, r); set_solver|right; exists b; set_solver].
    + intros [H|(b & Hb & Hx)]; [tauto|]. apply elem_of_cons in Hb as [->|Hb]; [cbn in Hx; tauto|right; by exists b].
Qed.

Lemma nxt_tseq_ok s :
  is_sack s.(cls) = true -> rq_inv s.(sq_) -> 1 <= maxseg_ s -> maxseq s.(sq_) + maxseg_ s < 2 ^ 31 ->
  - 2 ^ 31 <= h_seqno_ s ->
  exists s' r, nxt_tseq s = Ok (s', r) /\ moved s s' /\
    (r = t_seqno_ s /\ h_seqno_ s' = h_seqno_ s \/
     highest_ack_ s < recover_ s /\ hole_found s (h_seqno_ s) s' r).
Proof.
  intros Hc Hi Hm Hmax Hlow. unfold nxt_tseq. rewrite Hc.
  destruct (Z.ltb_spec (highest_ack_ s) (recover_ s)) as [Hr|Hr].
  - destruct (nxt_tseq_loop_ok (nxt_tseq_fuel s) s (h_seqno_ s)) as (s' & r & E & Hmv & H); try done; [unfold nxt_tseq_fuel; lia|].
    exists s', r. split; [done|]. split; [done|]. destruct H as [H|H]; [by left|by right].
  - exists s, (t_seqno_ s). split; [done|]. split; [|by left]. exists (hint_ (sq_ s)), (h_seqno_ s).
    assert (s.(sq_) <| hint_ := hint_ (sq_ s) |> = s.(sq_)) as -> by (by destruct (sq_ s)). by destruct s.
Qed.
End TcpSackFacts.

(** * What the scoreboard is for *)

Module TcpSackProps.
Import Tcp TcpSack TcpFlags Rq ReassemblyQueue RqFacts TcpSackFacts.

Implicit Types (s : Tcp.t).

(** In recovery the next sequence number is either [t_seqno_] or a hole:
    a byte at or above [h_seqno_] that the receiver has not reported, with
    enough reported above it for the configured threshold, and then
    [h_seqno_] moves up to it; without a threshold it is the first such byte.
    The search always ends, whatever the scoreboard, and changes nothing but
    [h_seqno_] and the hint. *)
Theorem nxt_tseq_hole s :
  is_sack s.(cls) = true -> rq_inv s.(sq_) -> 1 <= maxseg_ s -> maxseq s.(sq_) + maxseg_ s < 2 ^ 31 ->
  - 2 ^ 31 <= h_seqno_ s ->
  exists s' r, nxt_tseq s = Ok (s', r) /\ moved s s' /\
    (r = t_seqno_ s /\ h_seqno_ s' = h_seqno_ s \/
     highest_ack_ s < recover_ s /\ hole_found s (h_seqno_ s) s' r).
Proof. apply nxt_tseq_ok. Qed.

(** The scoreboard learns exactly the blocks of an acknowledgement: after
    [process_sack] it holds the bytes it held before and those of the legal
    blocks, is well-formed, and its counters are those before and after. *)
Theorem process_sack_exact s p :
  is_sack s.(cls) = true -> 0 < max_sack_blocks_ s -> contains_all p.(flags) FIN = false -> rq_inv s.(sq_) ->
  exists q, process_sack s p =
      Ok (s <| last_sqtotal_ := total_ s.(sq_) |> <| sq_ := q |> <| cur_sqtotal_ := total_ q |>) /\
    rq_inv q /\ total_ q = bytes q.(fifo) /\
    forall x, covered q.(fifo) x <-> covered s.(sq_).(fifo) x \/ exists b, b ∈ p.(sack_area_) /\ b.1 <= x < b.2.
Proof.
  intros Hc Hm Hf Hi. unfold process_sack. rewrite Hc, Hf. cbn [max_sack_blocks_ field_update].
  rewrite (proj2 (Z.leb_gt _ _) Hm). destruct (sack_loop_ok p.(sack_area_) s.(sq_) Hi) as (q & E & Hi' & Hcov).
  cbn [sq_ field_update]. rewrite E. cbn [res_bind]. exists q. split; [done|]. split; [done|]. split; [apply Hi'|done].
Qed.
End TcpSackProps.

Module TcpSackWitness.
Import Tcp TcpSack Rq ReassemblyQueue RqFacts TcpSackFacts TcpSackProps RqWitness TcpPrioWitness.

(** In recovery, with a threshold of one block above the hole. *)
Definition recovering : Tcp.t :=
  let a := agent REMAINING_SIZE 0 0 true in
  a <| super := a.(super) <| TcpAgent.recover_ := 50 |> |> <| maxseg_ := 2 |>.

Lemma nxt_tseq_hole_witness :
  (res_bind (nxt_tseq recovering) (fun '(_, r) => Ok r) = Ok 5) /\
  exists s' r, nxt_tseq recovering = Ok (s', r) /\ moved recovering s' /\
    (r = t_seqno_ recovering /\ h_seqno_ s' = h_seqno_ recovering \/
     highest_ack_ recovering < recover_ recovering /\ hole_found recovering 3 s' r).
Proof.
  split; [vm_compute; reflexivity|].
  apply (nxt_tseq_hole recovering); [reflexivity|exact demo_inv|discriminate|reflexivity|discriminate].
Defined.

Definition sack : packet :=
  mkPkt 0 1 TcpFlags.ACK TcpXmissionReason.NORMAL 40 40 F64.zero F64.zero [(14, 20); (9, 9)] no_flags false 0 0 0.

Lemma process_sack_exact_witness :
  exists q, process_sack recovering sack =
      Ok (recovering <| last_sqtotal_ := total_ demo |> <| sq_ := q |> <| cur_sqtotal_ := total_ q |>) /\
    rq_inv q /\ total_ q = bytes q.(fifo) /\
    forall x, covered q.(fifo) x <-> covered demo.(fifo) x \/
      exists b, b ∈ [(14, 20); (9, 9)] /\ b.1 <= x < b.2.
Proof.
  apply (process_sack_exact recovering sack); [reflexivity|reflexivity|reflexivity|exact demo_inv].
Defined.
End TcpSackWitness.
