(* ===== verification/TcpCong.v ===== *)
(** * The reaction to congestion

    The virtual functions of the TCP agents that change the window or the
    retransmission timeout: [slowdown] with the deadline-aware override of
    [DDTcpAgent] and [rtt_timeout] with the override of [MinTcpAgent]
    (src/ns2/tcp/tcp-full.cc); [EcnProcessor::ecn], the reaction to a
    congestion echo (src/ns2/tcp/tcp.cc), which goes through the sender in use
    ([ecn_slowdown], src/ns2/tcp/ecn/senders.cc); and the estimate of the
    marked fraction over a window. *)

From Stdlib Require Import ZArith Lia Bool SpecFloat.
From stdpp Require Import base list gmap.
From S2P Require Import Prelude F64 PktQueue Rq Ecn TcpAgent Tcp TcpPrio.

Module TcpCong.
Import Tcp TcpSlowdownFlags.

Implicit Types (s : t) (now : f64).

(** A function of the base class applied to an agent. *)
Definition on_super (f : TcpAgent.t -> res TcpAgent.t) s : res t :=
  let! a := f s.(super) in Ok (s <| super := a |>).

Definition on_processor (f : EcnProcessor.t -> EcnProcessor.t) s : t :=
  s <| super := s.(super) <| TcpAgent.ecn_processor_ := f (ecn_processor_ s) |> |>.

Section WithLibm.
Context `{Libm}.

(** ** slowdown *)

(** The marked fraction [slowdown] works with: closer to 1 the nearer the
    deadline; without a deadline 1, as for plain TCP, if there are marks. *)
Definition dd_penalty s now : res f64 :=
  let penalty := EcnProcessor.get_dctcp_alpha (ecn_processor_ s) in
  if negb (s.(deadline) =? 0) then
    let tleft := F64.sub (F64.div (F64.of_Z s.(deadline)) TcpPrio.million) (F64.sub now s.(start_time)) in
    let tleft := if F64.lt tleft F64.zero then F64.of_Z 10000000000 else tleft in
    let rtt := TcpAgent.srtt_seconds s.(super) in
    let! r := TcpPrio.get_num_bytes_remaining s in
    let Tc := F64.mul (F64.div (F64.of_Z r)
      (F64.mul (F64.mul (F64.ratio 3 4) (cwnd_ s)) (F64.of_Z s.(maxseg_)))) rtt in
    let d := F64.div Tc tleft in
    let d := if F64.gt d (F64.of_Z 2) then F64.of_Z 2 else d in
    let d := if F64.lt d (F64.ratio 1 2) then F64.ratio 1 2 else d in
    Ok (if F64.ge d F64.zero then pow penalty d else penalty)
  else if F64.gt penalty F64.zero then Ok (F64.of_Z 1)
  else Ok penalty.

Definition dd_slowdown s now (how : Z) : res t :=
  let! s := on_super (fun a => TcpAgent.count_cut a how) s in
  let! b := dd_penalty s now in
  on_super (fun a => TcpAgent.slowdown_with a how b) s.

Definition slowdown s now (how : Z) : res t :=
  match s.(cls) with
  | DDTcp => dd_slowdown s now how
  | _ => on_super (fun a => TcpAgent.slowdown a how) s
  end.

(** ** rtt_timeout *)

Definition rtt_timeout (c : agent_class) (a : TcpAgent.t) : res (TcpAgent.t * f64) :=
  match c with
  | MinTcp => Ok (a, a.(TcpAgent.minrto_))
  | _ => TcpAgent.rtt_timeout a
  end.

Definition rtt_backoff s : res t :=
  on_super (TcpAgent.rtt_backoff (rtt_timeout s.(cls))) s.

(** ** The reaction to a congestion echo *)

Definition ecn_slowdown s now : res t :=
  match EcnProcessor.get_send_tracker (ecn_processor_ s) with
  | EcnProcessor.NormalSend => slowdown s now (Z.lor CWND_HALF SSTHRESH_HALF)
  | EcnProcessor.TcpFriendlySend =>
      let alpha := EcnProcessor.get_dctcp_alpha (ecn_processor_ s) in
      let inc := F64.div (F64.ratio 3 2) (F64.sub (F64.div (F64.of_Z 2) alpha) (F64.ratio 1 2)) in
      let s := on_processor (fun p =>
        let x := p.(EcnProcessor.tcp_friendly_ecnhat_send_) in
        let x := x <| TcpFriendly.target_wnd_ := cwnd_ s |> in
        let x := x <| TcpFriendly.ecnhat_tcp_friendly_increase_ := inc |> in
        p <| EcnProcessor.tcp_friendly_ecnhat_send_ := x |>) s in
      slowdown s now (Z.lor CWND_ECNHAT SSTHRESH_ECNHAT)
  | _ => slowdown s now (Z.lor CWND_ECNHAT SSTHRESH_ECNHAT)
  end.

(** [ecn_backoff_] is set when the window cannot shrink further; the timer is
    backed off from the second time on. *)
Definition ecn_small_window s : res t :=
  if F64.le (cwnd_ s) (F64.of_Z 1) then
    if (ecn_processor_ s).(EcnProcessor.ecn_backoff_) then rtt_backoff s
    else Ok (on_processor (fun p => p <| EcnProcessor.ecn_backoff_ := true |>) s)
  else Ok (on_processor (fun p => p <| EcnProcessor.ecn_backoff_ := false |>) s).

Definition ecn s now (seqno : Z) : res t :=
  if (recover_ s <? seqno) || bool_decide (s.(super).(TcpAgent.last_cwnd_action_) = TIMEOUT) then
    let s := s <| super := s.(super) <| TcpAgent.recover_ := maxseq_ s |> |> in
    let s := s <| super := s.(super) <| TcpAgent.last_cwnd_action_ := ECN |> |> in
    let! s := ecn_small_window s in
    let! s := ecn_slowdown s now in
    let! n := iadd (ecn_processor_ s).(EcnProcessor.necnresponses_) 1 in
    Ok (on_processor (fun p => p <| EcnProcessor.necnresponses_ := n |>) s)
  else Ok s.
End WithLibm.
End TcpCong.

(** * Facts *)

Module TcpCongFacts.
Import Tcp TcpCong TcpSlowdownFlags.

Implicit Types (s : Tcp.t).

(** The sequence numbers and the state of recovery. *)
Definition recovery s :=
  (recover_ s, s.(super).(TcpAgent.last_cwnd_action_), maxseq_ s, highest_ack_ s, t_seqno_ s, curseq_ s,
   TcpAgent.size_ s.(super)).

Section WithLibm.
Context `{Libm}.

Lemma flow_recovery (a b : TcpAgent.t) s :
  TcpAgentFacts.flow a = TcpAgentFacts.flow b -> recovery (s <| super := a |>) = recovery (s <| super := b |>).
Proof. intros [= _ H2 H3 H4 H5 H6 H7 _ H8]. unfold recovery, recover_, maxseq_, highest_ack_, t_seqno_, curseq_. cbn. congruence. Qed.

Lemma super_id s : s <| super := super s |> = s.
Proof. by destruct s. Qed.

Lemma slowdown_recovery s s' now how :
  slowdown s now how = Ok s' ->
  recovery s' = recovery s /\ F64.lt (cwnd_ s') (F64.of_Z 1) = false /\
  (exists a, s' = s <| super := a |>).
Proof.
  intros E. unfold slowdown in E.
  assert ((exists a, TcpAgentFacts.flow a = TcpAgentFacts.flow (super s) /\ F64.lt (TcpAgent.cwnd_ a) (F64.of_Z 1) = false /\
    s' = s <| super := a |>)) as (a & Ha & Hf & ->).
  { destruct (cls s).
    1-5: apply res_bind_Ok in E as (a & E & [= <-]); apply TcpAgentFacts.slowdown_flow in E as (F & _ & _ & C & _);
      by exists a.
    unfold dd_slowdown in E. apply res_bind_Ok in E as (s1 & E1 & E).
    apply res_bind_Ok in E1 as (a1 & E1 & [= <-]). apply res_bind_Ok in E as (b & _ & E).
    apply res_bind_Ok in E as (a & E & [= <-]). apply TcpAgentFacts.slowdown_with_flow in E as (F & _ & _ & C & _).
    exists a. split; [|split; [done|by destruct s]]. rewrite F. cbn. clear -E1.
    unfold TcpAgent.count_cut in E1. bool_cases; inv_res; done. }
  split; [|split; [done|by exists a]]. rewrite (flow_recovery a (super s) s Ha). by rewrite super_id.
Qed.

Lemma rtt_timeout_flow c a a' r :
  rtt_timeout c a = Ok (a', r) -> TcpAgentFacts.flow a' = TcpAgentFacts.flow a.
Proof.
  assert (TcpAgent.rtt_timeout a = Ok (a', r) -> TcpAgentFacts.flow a' = TcpAgentFacts.flow a) as Hb.
  { unfold TcpAgent.rtt_timeout. intros (x & _ & E)%res_bind_Ok. by injection E as <- _. }
  destruct c; try exact Hb. cbn. by intros [= <- _].
Qed.

Lemma rtt_backoff_recovery s s' : rtt_backoff s = Ok s' -> recovery s' = recovery s.
Proof.
  unfold rtt_backoff, on_super. intros (a & E & [= <-])%res_bind_Ok. unfold TcpAgent.rtt_backoff in E.
  apply res_bind_Ok in E as ([a1 d] & E1 & E). apply res_bind_Ok in E as (a2 & E2 & E).
  assert (TcpAgentFacts.flow a1 = TcpAgentFacts.flow (super s)) as F1.
  { destruct (_ <? 64); [by injection E1 as <- _|]. destruct (TcpAgent.rfc2988_ _); [|by injection E1 as <- _].
    apply res_bind_Ok in E1 as ([a3 r] & E1 & [= <- _]). by eapply rtt_timeout_flow. }
  transitivity (recovery (s <| super := a1 |>)).
  - assert (recovery (s <| super := a2 |>) = recovery (s <| super := a1 |>)) as F2
      by (destruct d; [apply res_bind_Ok in E2 as (b & _ & [= <-])|injection E2 as <-]; done).
    rewrite <-F2. destruct (8 <? _); [apply res_bind_Ok in E as (v & _ & [= <-])|injection E as <-]; done.
  - rewrite (flow_recovery a1 (super s) s F1). by rewrite super_id.
Qed.

Lemma ecn_slowdown_recovery s s' now :
  ecn_slowdown s now = Ok s' -> recovery s' = recovery s /\ F64.lt (cwnd_ s') (F64.of_Z 1) = false.
Proof.
  unfold ecn_slowdown. destruct (EcnProcessor.get_send_tracker _);
    intros (R & C & _)%slowdown_recovery; (split; [by rewrite R|done]).
Qed.

Lemma ecn_small_window_recovery s s' : ecn_small_window s = Ok s' -> recovery s' = recovery s.
Proof.
  unfold ecn_small_window. destruct (F64.le _ _); [destruct (EcnProcessor.ecn_backoff_ _)|].
  - apply rtt_backoff_recovery.
  - by intros [= <-].
  - by intros [= <-].
Qed.

Lemma ecn_recovery s s' now seqno :
  ecn s now seqno = Ok s' ->
  (seqno <= recover_ s /\ s.(super).(TcpAgent.last_cwnd_action_) <> TIMEOUT /\ s' = s) \/
  (recover_ s' = maxseq_ s /\ s'.(super).(TcpAgent.last_cwnd_action_) = ECN /\ maxseq_ s' = maxseq_ s /\
   highest_ack_ s' = highest_ack_ s /\ t_seqno_ s' = t_seqno_ s /\ curseq_ s' = curseq_ s /\
   F64.lt (cwnd_ s') (F64.of_Z 1) = false).
Proof.
  unfold ecn. destruct (Z.ltb_spec (recover_ s) seqno) as [Hl|Hl]; cbn [orb].
  2: destruct (bool_decide_reflect (s.(super).(TcpAgent.last_cwnd_action_) = TIMEOUT)) as [Ht|Ht].
  3: { intros [= <-]. by left. }
  all: intros (s2 & E2 & E)%res_bind_Ok; right; apply res_bind_Ok in E as (s3 & E3 & E);
    apply res_bind_Ok in E as (n & _ & [= <-]);
    apply ecn_small_window_recovery in E2; apply ecn_slowdown_recovery in E3 as [E3 C3];
    rewrite E2 in E3; unfold recovery in E3; cbn in E3; injection E3 as R1 R2 R3 R4 R5 R6 _;
    unfold recover_, maxseq_, highest_ack_, t_seqno_, curseq_, cwnd_ in *; cbn in *; done.
Qed.
End WithLibm.

(** ** The marked fraction *)

Import EcnhatSenderCETracker.

(** An acknowledgement: congestion echo, number, and the [highest_ack_] and
    [size_] of the agent at that time. *)
Record sample := mkSample { echoed : bool; s_ackno : Z; s_highest : Z; s_size : Z }.

(** The bytes an acknowledgement counts for. *)
Definition weight (a : sample) : Z :=
  if s_ackno a - s_highest a <=? 0 then s_size a else s_ackno a - s_highest a.

Definition total_bytes (l : list sample) : Z := sum_Z weight l.
Definition marked_bytes (l : list sample) : Z := sum_Z (fun a => if echoed a then weight a else 0) l.

Fixpoint updates (x : EcnhatSenderCETracker.t) (l : list sample) : res EcnhatSenderCETracker.t :=
  match l with
  | [] => Ok x
  | a :: l =>
      let! (x, _) := update_ecnhat_alpha x (echoed a) (s_ackno a) (s_highest a) (s_size a) in
      updates x l
  end.

(** Acknowledgements whose arithmetic stays in range. *)
Definition sane (a : sample) : Prop := in_int (s_ackno a - s_highest a) /\ 0 <= s_size a.

Lemma weight_nonneg a : sane a -> 0 <= weight a.
Proof. intros [_ Hs]. unfold weight. destruct (Z.leb_spec (s_ackno a - s_highest a) 0); lia. Qed.

Lemma marked_le_total l : Forall sane l -> 0 <= marked_bytes l <= total_bytes l.
Proof.
  unfold marked_bytes, total_bytes. induction 1 as [|a l Ha _ IH]; cbn; [lia|].
  pose proof (weight_nonneg a Ha). unfold sum_Z in *. destruct (echoed a); lia.
Qed.

(** One acknowledgement adds its bytes; [end_of_window] follows. *)
Lemma update_adds x a :
  ecnhat_smooth_alpha_ x = true -> sane a ->
  0 <= ecnhat_num_marked_ x -> ecnhat_num_marked_ x + weight a < 2 ^ 31 ->
  0 <= ecnhat_total x -> ecnhat_total x + weight a < 2 ^ 31 ->
  update_ecnhat_alpha x (echoed a) (s_ackno a) (s_highest a) (s_size a) =
    Ok (end_of_window (x <| ecnhat_total := ecnhat_total x + weight a |>
          <| ecnhat_num_marked_ := ecnhat_num_marked_ x + (if echoed a then weight a else 0) |>) (s_ackno a),
        echoed a).
Proof.
  intros Hs Ha H1 H2 H3 H4. pose proof (weight_nonneg a Ha) as Hw. destruct Ha as [Hi Hz].
  unfold update_ecnhat_alpha. rewrite Hs. cbn [negb]. unfold acked_bytes. rewrite isub_ok by done. cbn [res_bind].
  fold (weight a). rewrite iadd_ok by (unfold in_int; lia). cbn [res_bind ecnhat_num_marked_ field_update].
  destruct (echoed a); [rewrite iadd_ok by (unfold in_int; lia)|rewrite Z.add_0_r]; done.
Qed.

Lemma updates_app x l k : updates x (l ++ k) = let! x := updates x l in updates x k.
Proof.
  revert x. induction l as [|a l IH]; intros x; [done|]. cbn [updates app].
  destruct (update_ecnhat_alpha _ _ _ _ _) as [[x' b]|e]; cbn; [apply IH|done].
Qed.

(** While the window lasts, the bytes add up. *)
Lemma updates_ok x l :
  ecnhat_smooth_alpha_ x = true -> Forall sane l ->
  Forall (fun a => s_ackno a <= ecnhat_recalc_seq_ x) l ->
  0 <= ecnhat_num_marked_ x <= ecnhat_total x -> ecnhat_total x + total_bytes l < 2 ^ 31 ->
  updates x l = Ok (x <| ecnhat_total := ecnhat_total x + total_bytes l |>
    <| ecnhat_num_marked_ := ecnhat_num_marked_ x + marked_bytes l |>).
Proof.
  intros Hs Hl. revert x Hs. induction Hl as [|a l Ha Hl IH]; intros x Hs Hr Hm Ht.
  { cbn. rewrite !Z.add_0_r. by destruct x. }
  apply Forall_cons in Hr as [Hra Hr]. pose proof (weight_nonneg a Ha) as Hw.
  pose proof (marked_le_total l Hl) as Hml.
  assert (total_bytes (a :: l) = weight a + total_bytes l) as Et by done.
  assert (marked_bytes (a :: l) = (if echoed a then weight a else 0) + marked_bytes l) as Em by done.
  cbn [updates]. rewrite update_adds by (try done; lia). cbn [res_bind].
  unfold end_of_window. cbn [ecnhat_recalc_seq_ field_update]. rewrite (proj2 (Z.ltb_ge _ _) Hra).
  rewrite IH; cbn [ecnhat_recalc_seq_ ecnhat_smooth_alpha_ ecnhat_num_marked_ ecnhat_total field_update]; try done;
    [|destruct (echoed a); lia|lia].
  rewrite Et, Em. f_equal. unfold field_update. cbn. f_equal; lia.
Qed.
End TcpCongFacts.

(** * Theorems *)

Module TcpCongProps.
Import Tcp TcpCong TcpCongFacts EcnhatSenderCETracker.

(** The sender reduces its window for a congestion echo at most once per
    window of data: whenever the echo carried by the acknowledgement [seqno]
    is acted on, [recover_] becomes [maxseq_], [cwnd_] stays at or above one
    packet and no sequence number of the connection changes; and until
    something else changes the agent, every echo for data that had been sent
    by then is ignored. *)
Theorem ecn_reacts_once `{Libm} (s s' : Tcp.t) (now : f64) (seqno : Z) :
  ecn s now seqno = Ok s' -> s' <> s ->
  recover_ s' = maxseq_ s /\ s'.(super).(TcpAgent.last_cwnd_action_) = ECN /\
  F64.lt (cwnd_ s') (F64.of_Z 1) = false /\
  (highest_ack_ s', t_seqno_ s', curseq_ s', maxseq_ s') = (highest_ack_ s, t_seqno_ s, curseq_ s, maxseq_ s) /\
  (forall now' seqno', seqno' <= maxseq_ s' -> ecn s' now' seqno' = Ok s').
Proof.
  intros E Hne. destruct (ecn_recovery s s' now seqno E) as [(_ & _ & ->)|(R & L & M & F & T & C & W)]; [done|].
  split_and!; try done; [by rewrite F, T, C, M|]. intros now' seqno' Hs. unfold ecn.
  rewrite R, L, <-M, (proj2 (Z.ltb_ge _ _) Hs). done.
Qed.

(** DCTCP's estimate: over the acknowledgements of one window, up to the
    first one, [a], that passes [ecnhat_recalc_seq_], the marked fraction
    moves by the weight [g] towards the bytes acknowledged with an echo over
    the bytes acknowledged, a quotient in [0, 1] with a positive denominator;
    the counters restart at 0 and the next window ends at the highest number
    sent by then. *)
Theorem alpha_window (x : t) (l : list sample) (a : sample) :
  ecnhat_smooth_alpha_ x = true -> ecnhat_num_marked_ x = 0 -> ecnhat_total x = 0 ->
  Forall sane (l ++ [a]) -> Forall (fun b => s_ackno b <= ecnhat_recalc_seq_ x) l ->
  ecnhat_recalc_seq_ x < s_ackno a -> 0 < weight a -> total_bytes (l ++ [a]) < 2 ^ 31 ->
  exists x', updates x (l ++ [a]) = Ok x' /\
    ecnhat_alpha_ x' = smooth x (F64.div (F64.of_Z (marked_bytes (l ++ [a]))) (F64.of_Z (total_bytes (l ++ [a])))) /\
    0 <= marked_bytes (l ++ [a]) <= total_bytes (l ++ [a]) /\ 0 < total_bytes (l ++ [a]) /\
    ecnhat_num_marked_ x' = 0 /\ ecnhat_total x' = 0 /\ ecnhat_recalc_seq_ x' = ecnhat_maxseq_ x.
Proof.
  intros Hs H1 H2 Hf Hr Ha Hw Ht. pose proof (marked_le_total _ Hf) as Hm.
  apply Forall_app in Hf as [Hl [Ha' _]%Forall_cons]. pose proof (marked_le_total l Hl) as Hml.
  assert (total_bytes (l ++ [a]) = total_bytes l + weight a) as Et by (unfold total_bytes; rewrite sum_Z_app; cbn; lia).
  assert (marked_bytes (l ++ [a]) = marked_bytes l + (if echoed a then weight a else 0)) as Em
    by (unfold marked_bytes; rewrite sum_Z_app; cbn; lia).
  rewrite updates_app, updates_ok by (done || lia). cbn [res_bind updates].
  rewrite update_adds by (cbn [ecnhat_smooth_alpha_ ecnhat_num_marked_ ecnhat_total field_update]; done || lia).
  cbn [res_bind]. eexists. split; [reflexivity|]. unfold end_of_window.
  cbn [ecnhat_recalc_seq_ ecnhat_maxseq_ ecnhat_num_marked_ ecnhat_total field_update].
  rewrite (proj2 (Z.ltb_lt _ _) Ha), H1, H2, !Z.add_0_l, <-Et, <-Em.
  rewrite (proj2 (Z.ltb_lt 0 (total_bytes (l ++ [a]))) ltac:(lia)). split_and!; first [done | lia].
Qed.
End TcpCongProps.

(** * Witnesses *)

Module TcpCongWitness.
Import Tcp TcpCong TcpCongFacts TcpCongProps EcnhatSenderCETracker.

#[local] Existing Instance TcpAgentWitness.some_libm.

Definition sender : Tcp.t :=
  let s := TcpPrioWitness.agent BYTES_SENT 4 0 true in
  s <| super := (super s) <| TcpAgent.maxseq_ := 9 |> <| TcpAgent.recover_ := 0 |> |>.

Definition after_echo : Tcp.t :=
  match ecn sender F64.zero 5 with Ok s => s | Err _ => sender end.

Lemma ecn_reacts_once_witness :
  ecn sender F64.zero 5 = Ok after_echo /\ recover_ after_echo = 9 /\
  ecn after_echo F64.zero 9 = Ok after_echo.
Proof.
  split; [vm_compute; reflexivity|].
  destruct (ecn_reacts_once sender after_echo F64.zero 5) as (R & _ & _ & _ & N).
  - vm_compute. reflexivity.
  - intros E. apply (f_equal recover_) in E. vm_compute in E. discriminate.
  - split; [exact R|]. apply N. vm_compute. discriminate.
Defined.

(** Two acknowledgements within the window, one of them marked, and one past
    it. *)
Definition window : EcnhatSenderCETracker.t := create <| ecnhat_recalc_seq_ := 3000 |> <| ecnhat_maxseq_ := 9000 |>.

Definition first_ack : sample := mkSample false 1460 0 1460.
Definition marked_ack : sample := mkSample true 2920 1460 1460.
Definition last_ack : sample := mkSample true 4380 2920 1460.

Lemma alpha_window_witness :
  exists x', updates window [first_ack; marked_ack; last_ack] = Ok x' /\
    ecnhat_alpha_ x' = smooth window (F64.div (F64.of_Z 2920) (F64.of_Z 4380)) /\
    0 <= 2920 <= 4380 /\ 0 < 4380 /\ ecnhat_num_marked_ x' = 0 /\ ecnhat_total x' = 0 /\ ecnhat_recalc_seq_ x' = 9000.
Proof.
  apply (alpha_window window [first_ack; marked_ack] last_ack);
    repeat first [reflexivity | discriminate | split | constructor].
Defined.
End TcpCongWitness.
