(* ===== verification/FullTcp.v ===== *)
(** * The full TCP agents: sending

    [FullTcpAgent] (src/ns2/tcp/tcp-full.h, tcp-full.cc) with its derived
    classes, as a state machine over one record: the members of [Tcp.t]
    (window, sequence numbers, priorities, scoreboard) together with the
    receiver's members, the options, the statistics and the timers.  This file
    has the sending side: [sendpacket], [foutput], [send_much], the
    retransmission timer and the calls of the user ([connect], [listen],
    [advance_bytes], [sendmsg], [usrclosed], [reset], [soft_reset]).

    A timer is the time it is due when it is pending ([None]: its status is
    not [TimerStatus::PENDING]); scheduling it is [Timer.v].  What the agent
    does to the outside is the list [out_] of effects: packets handed to the
    node ([send]), bytes handed to the application ([recvBytes]), and the
    notifications [idle], [done_data] and [done].  The application's code for
    these calls is outside the agent: it is assumed not to call the agent
    back before the running operation has returned.

    [now] is the simulation clock and [uniform n x] the [n]-th number
    [Random::uniform (x)] returns; both are parameters, as are the functions
    of the C library.  Debugging output, traces and the members only the
    one-way sender of [TcpAgent] reads ([last_ack_], [closed_], [lastreset_],
    [syn_connects_], the counters of [QOption_]) are left out. *)

From Stdlib Require Import ZArith Lia Bool SpecFloat.
From stdpp Require Import base list gmap.
From S2P Require Import Prelude F64 PktQueue Rq Ecn TcpAgent Tcp TcpPrio TcpSack TcpCong.

Module FullTcp.
Import Tcp.TcpXmissionReason TcpFlags TcpSlowdownFlags.

Abbreviation packet := Tcp.packet.

(** ** State *)

Inductive effect :=
| Send (p : packet)
| RecvBytes (n : Z)
| Idle
| DoneData
| Done.

Record t := mk {
  me : Tcp.t;
  (* TcpAgent *)
  bug_fix_ : bool;
  control_increase_ : bool;
  delay_growth_ : bool;
  maxburst_ : Z;
  overhead_ : f64;
  restart_bugfix_ : bool;
  slow_start_restart_ : bool;
  tcpip_base_hdr_size_ : Z;
  ts_resetRTO_ : bool;
  wnd_init_option_ : Z;
  high_window_ : Z;
  high_p_ : f64;
  high_decrease_ : f64;
  syn_ : bool;
  prev_highest_ack_ : Z;
  rtt_active_ : bool;     (* an RTT sample is being taken *)
  rtt_seq_ : Z;           (* for the segment with this seqno *)
  rtt_ts_ : f64;          (* sent at this time *)
  ndatapack_ : Z;
  nackpack_ : Z;
  nrexmit_ : Z;
  nrexmitpack_ : Z;
  nrexmitbytes_ : Z;
  rtx_timer_ : option f64;
  delsnd_timer_ : option f64;
  burstsnd_timer_ : option f64;
  (* FullTcpAgent *)
  delack_timer_ : option f64;
  flags_ : Z;
  rq_ : ReassemblyQueue.t;   (* holds rcv_nxt_ *)
  irs_ : Z;
  last_ack_sent_ : Z;
  last_send_time_ : f64;
  last_state_ : Tcp.TcpState;
  recent_ : f64;          (* timestamp of the peer *)
  recent_age_ : f64;
  flow_remaining_ : Z;
  last_eof_time_ : option f64;
  nominal_deadline : Z;
  early_terminated_ : Z;
  close_on_empty_ : bool;
  data_on_syn_ : bool;
  delack_interval_ : f64;
  dupack_reset_ : bool;
  dupseg_fix_ : bool;
  dynamic_dupack_ : f64;
  eof_minrto_ : f64;
  no_eof_minrto_ : f64;
  halfclose_ : bool;
  nodelay_ : bool;
  nopredict_ : bool;
  open_cwnd_on_pack_ : bool;
  reset_window_on_eof_ : bool;
  rtx_on_eof_ : bool;
  tcprexmtthresh_ : Z;
  ts_option_size_ : Z;
  fid_ : Z;
  prio_ : Z;              (* of a packet as allocated *)
  (* NewRenoFullTcpAgent *)
  save_maxburst_ : Z;
  recov_maxburst_ : Z;
  (* SackFullTcpAgent *)
  sack_block_size_ : Z;
  sack_option_size_ : Z;
  (* environment *)
  draws_ : nat;           (* random numbers drawn *)
  out_ : list effect
}.

#[global] Instance eta_t : Eta t := fun s =>
  mk (me s) (bug_fix_ s) (control_increase_ s) (delay_growth_ s) (maxburst_ s) (overhead_ s)
    (restart_bugfix_ s) (slow_start_restart_ s) (tcpip_base_hdr_size_ s) (ts_resetRTO_ s)
    (wnd_init_option_ s) (high_window_ s) (high_p_ s) (high_decrease_ s) (syn_ s)
    (prev_highest_ack_ s) (rtt_active_ s) (rtt_seq_ s) (rtt_ts_ s) (ndatapack_ s) (nackpack_ s)
    (nrexmit_ s) (nrexmitpack_ s) (nrexmitbytes_ s) (rtx_timer_ s) (delsnd_timer_ s)
    (burstsnd_timer_ s) (delack_timer_ s) (flags_ s) (rq_ s) (irs_ s) (last_ack_sent_ s)
    (last_send_time_ s) (last_state_ s) (recent_ s) (recent_age_ s) (flow_remaining_ s)
    (last_eof_time_ s) (nominal_deadline s) (early_terminated_ s) (close_on_empty_ s)
    (data_on_syn_ s) (delack_interval_ s) (dupack_reset_ s) (dupseg_fix_ s) (dynamic_dupack_ s)
    (eof_minrto_ s) (no_eof_minrto_ s) (halfclose_ s) (nodelay_ s) (nopredict_ s)
    (open_cwnd_on_pack_ s) (reset_window_on_eof_ s) (rtx_on_eof_ s) (tcprexmtthresh_ s)
    (ts_option_size_ s) (fid_ s) (prio_ s) (save_maxburst_ s) (recov_maxburst_ s)
    (sack_block_size_ s) (sack_option_size_ s) (draws_ s) (out_ s).

Implicit Types (s : t).

(** Members declared in the base classes, and the functions that assign them. *)
Definition cls s := Tcp.cls s.(me).
Definition state_ s := Tcp.state_ s.(me).
Definition maxseg_ s := Tcp.maxseg_ s.(me).
Definition iss_ s := Tcp.iss_ s.(me).
Definition infinite_send_ s := Tcp.infinite_send_ s.(me).
Definition signal_on_empty_ s := Tcp.signal_on_empty_ s.(me).
Definition prob_mode_ s := Tcp.prob_mode_ s.(me).
Definition pipectrl_ s := Tcp.pipectrl_ s.(me).
Definition fastrecov_ s := Tcp.fastrecov_ s.(me).
Definition deadline s := Tcp.deadline s.(me).
Definition agent s : TcpAgent.t := Tcp.super s.(me).
Definition highest_ack_ s := TcpAgent.highest_ack_ (agent s).
Definition maxseq_ s := TcpAgent.maxseq_ (agent s).
Definition t_seqno_ s := TcpAgent.t_seqno_ (agent s).
Definition curseq_ s := TcpAgent.curseq_ (agent s).
Definition recover_ s := TcpAgent.recover_ (agent s).
Definition dupacks_ s := TcpAgent.dupacks_ (agent s).
Definition cwnd_ s := TcpAgent.cwnd_ (agent s).
Definition wnd_ s := TcpAgent.wnd_ (agent s).
Definition ssthresh_ s := TcpAgent.ssthresh_ (agent s).
Definition last_cwnd_action_ s := TcpAgent.last_cwnd_action_ (agent s).
Definition ts_option_ s := TcpAgent.ts_option_ (agent s).
Definition ecn_processor s := TcpAgent.ecn_processor_ (agent s).
Definition rcv_nxt_ s := ReassemblyQueue.rcv_nxt_ s.(rq_).

Definition set_tcp (f : Tcp.t -> Tcp.t) s : t := s <| me := f s.(me) |>.
Definition set_agent (f : TcpAgent.t -> TcpAgent.t) : t -> t :=
  set_tcp (fun m => m <| Tcp.super := f m.(Tcp.super) |>).
Definition set_ecn (f : EcnProcessor.t -> EcnProcessor.t) : t -> t :=
  set_agent (fun a => a <| TcpAgent.ecn_processor_ := f a.(TcpAgent.ecn_processor_) |>).
Definition set_rcv_nxt (v : Z) s : t := s <| rq_ := s.(rq_) <| ReassemblyQueue.rcv_nxt_ := v |> |>.

(** Calls of functions of the base classes. *)
Definition on_tcp (f : Tcp.t -> res Tcp.t) s : res t := let! m := f s.(me) in Ok (s <| me := m |>).
Definition on_agent (f : TcpAgent.t -> res TcpAgent.t) : t -> res t := on_tcp (TcpCong.on_super f).

Definition emit (e : effect) s : t := s <| out_ := s.(out_) ++ [e] |>.

(** ** Flags (of [flags_]) *)

Definition TF_ACKNOW : Z := 1.
Definition TF_DELACK : Z := 2.
Definition TF_RCVD_TSTMP : Z := 256.
Definition TF_NEEDFIN : Z := 2048.
Definition TF_NEEDCLOSE : Z := 65536.

Definition TCP_MAXSEQ : Z := 1073741824.

Definition set_flag (f : Z) s : t := s <| flags_ := set_flags s.(flags_) f |>.
Definition clear_flag (f : Z) s : t := s <| flags_ := clear_flags s.(flags_) f |>.
Definition has_flag s (f : Z) : bool := contains_any s.(flags_) f.

Definition newstate (st : Tcp.TcpState) : t -> t := set_tcp (fun m => m <| Tcp.state_ := st |>).
Definition outflags s : Z := Tcp.outflags (state_ s).

Section WithEnv.
Context `{Libm} (now : f64) (uniform : nat -> f64 -> f64).

(** ** Timers *)

Definition resched (delay : f64) : option f64 := Some (F64.add now delay).

Definition pending (timer : option f64) : bool := bool_decide (is_Some timer).

Definition set_rtx_timer s : res t :=
  let! (a, d) := TcpCong.rtt_timeout (cls s) (agent s) in
  let s := set_agent (fun _ => a) s in
  Ok (s <| rtx_timer_ := resched d |>).

Definition cancel_rtx_timer s : t := s <| rtx_timer_ := None |>.

Definition cancel_timers s : t :=
  let s := s <| rtx_timer_ := None |> in
  let s := s <| burstsnd_timer_ := None |> in
  let s := s <| delsnd_timer_ := None |> in
  s <| delack_timer_ := None |>.

Definition reset_rtx_timer s : res t :=
  let! s :=
    if negb ((highest_ack_ s =? maxseq_ s) && s.(restart_bugfix_))
    then on_tcp TcpCong.rtt_backoff s else Ok s in
  let! s := set_rtx_timer s in
  Ok (s <| rtt_active_ := false |>).

Definition slowdown (how : Z) : t -> res t := on_tcp (fun m => TcpCong.slowdown m now how).

(** ** Packets *)

(** The options written: [ts], [ts_echo], the SACK blocks, their size.
    [sack_area_] has room for four blocks. *)
Definition build_options s : res (f64 * f64 * list (Z * Z) * Z) :=
  let '(ts, ts_echo, total) :=
    if ts_option_ s then (now, s.(recent_), s.(ts_option_size_))
    else (F64.of_Z (-1), F64.of_Z (-1), 0) in
  if Tcp.is_sack (cls s) && negb (ReassemblyQueue.empty s.(rq_)) then
    let! blocks := ReassemblyQueue.gensack s.(rq_) s.(me).(Tcp.max_sack_blocks_) in
    let nblk := Z.of_nat (length blocks) in
    if 4 <? nblk then Err UB
    else
      let! b := imul nblk s.(sack_block_size_) in
      let! b := iadd b s.(sack_option_size_) in
      let! total := iadd total b in
      Ok (ts, ts_echo, blocks, total)
  else Ok (ts, ts_echo, [], total).

Definition is_rexmit (r : Tcp.TcpXmissionReason.t) : bool :=
  match r with TIMEOUT | DUPACK | SACK => true | _ => false end.

(** The statistics, and the time of the last data. *)
Definition count_packet s (datalen : Z) (reason : Tcp.TcpXmissionReason.t) : res t :=
  let! s :=
    if datalen <=? 0 then let! n := iadd s.(nackpack_) 1 in Ok (s <| nackpack_ := n |>)
    else
      let! n := iadd s.(ndatapack_) 1 in
      let s := s <| ndatapack_ := n |> in
      let! n := iadd (TcpAgent.ndatabytes_ (agent s)) datalen in
      let s := set_agent (fun a => a <| TcpAgent.ndatabytes_ := n |>) s in
      Ok (s <| last_send_time_ := now |>) in
  if is_rexmit reason then
    let! n := iadd s.(nrexmitpack_) 1 in
    let s := s <| nrexmitpack_ := n |> in
    let! n := iadd s.(nrexmitbytes_) datalen in
    Ok (s <| nrexmitbytes_ := n |>)
  else Ok s.

Definition sendpacket s (seqno ackno pflags datalen : Z) (reason : Tcp.TcpXmissionReason.t) : res t :=
  let! (ts, ts_echo, blocks, opts) := build_options s in
  let! hlen := iadd s.(tcpip_base_hdr_size_) opts in
  let '(p, _, fh, informed) := EcnProcessor.on_sendpacket (ecn_processor s) pflags no_flags (0 <? datalen) in
  let s := set_ecn (fun _ => p) s in
  let! size := iadd datalen hlen in
  let! s := count_packet s datalen reason in
  let s := s <| last_ack_sent_ := ackno |> in
  let! (m, prio) := TcpPrio.packet_prio s.(me) now seqno datalen s.(prio_) in
  let s := s <| me := m |> in
  Ok (emit (Send (Tcp.mkPkt seqno ackno pflags reason hlen size ts ts_echo blocks fh false s.(fid_) prio
    (default 0 informed))) s).

(** ** foutput *)

Definition FullTcpAgent_need_send s : bool := has_flag s TF_ACKNOW || (0 <? rcv_nxt_ s - s.(last_ack_sent_)).

Definition need_send s : bool :=
  match cls s with
  | Tcp.DDTcp =>
      if negb (deadline s =? 0) &&
         F64.lt (F64.sub (F64.div (F64.of_Z (deadline s)) TcpPrio.million) (F64.sub now s.(me).(Tcp.start_time))) F64.zero
      then false else FullTcpAgent_need_send s
  | _ => FullTcpAgent_need_send s
  end.

Definition idle_restart s : res bool :=
  if F64.lt s.(last_send_time_) F64.zero then Ok false
  else
    let tao := F64.sub now s.(last_send_time_) in
    let tick := TcpAgent.tcp_tick_ (agent s) in
    let! tao :=
      if ts_option_ s then Ok tao
      else
        let tickoff := F64.fmod (F64.add s.(last_send_time_) (TcpAgent.boot_time_ (agent s))) tick in
        let! n := F64.to_int (F64.div (F64.add tao tickoff) tick) in
        Ok (F64.mul (F64.of_Z n) tick) in
    Ok (F64.gt tao (TcpAgent.t_rtxcur_ (agent s))).

Definition bufferempty s : t :=
  emit DoneData (set_tcp (fun m => m <| Tcp.signal_on_empty_ := false |>) s).

(** The window in bytes. *)
Definition window_bytes s : res Z :=
  let! w := Tcp.window s.(me) in
  let! win := imul w (maxseg_ s) in
  Ok (if prob_mode_ s && (1 <? win) then 1 else win).

(** [buffered_bytes] and [off]; nothing has been acknowledged yet when
    [highest_ack_] is negative. *)
Definition buffered s (seqno : Z) : res (Z * Z) :=
  let! bytes :=
    if infinite_send_ s then Ok TCP_MAXSEQ
    else let! d := isub (curseq_ s) (highest_ack_ s) in iadd d 1 in
  let! off := isub seqno (highest_ack_ s) in
  if highest_ack_ s <? 0 then
    let! bytes := if infinite_send_ s then Ok bytes else isub (curseq_ s) (iss_ s) in
    let! off := isub seqno (iss_ s) in
    Ok (bytes, off)
  else Ok (bytes, off).

(** [datalen] before it is cut to a segment, and [buffered_bytes]. *)
Definition raw_datalen s (seqno : Z) (syn : bool) : res (Z * Z) :=
  let! win := window_bytes s in
  let! (bytes, off) := buffered s seqno in
  let! datalen :=
    if syn && negb s.(data_on_syn_) then Ok 0
    else if pipectrl_ s then isub bytes off
    else isub (Z.min bytes win) off in
  Ok (datalen, bytes).

Definition one_segment s (datalen : Z) : Z :=
  if datalen <? 0 then 0 else if maxseg_ s <? datalen then maxseg_ s else datalen.

Definition restart_after_idle s (quiet : bool) (datalen : Z) : res t :=
  if s.(slow_start_restart_) && quiet && (0 <? datalen) then
    let! b := idle_restart s in
    if b : bool then slowdown CWND_INIT s else Ok s
  else Ok s.

(** The flags when the packet empties the buffer ([emptying_buffer]) or not,
    with what the application is told. *)
Definition empty_buffer s (syn quiet : bool) (pflags seqno datalen : Z) : res (t * Z * bool) :=
  let! e := iadd seqno datalen in
  let emptying := negb (infinite_send_ s) && ((curseq_ s <? e) || (syn && (datalen =? 0))) in
  let '(s, pflags) :=
    if emptying then
      let s :=
        if syn then s
        else
          let s := emit Idle s in
          if s.(close_on_empty_) && quiet then set_flag TF_NEEDCLOSE s else s in
      (s, set_flags pflags PUSH)
    else (s, clear_flags pflags FIN) in
  let pflags := if infinite_send_ s && syn && (datalen =? 0) then set_flags pflags PUSH else pflags in
  Ok (s, pflags, emptying).

(** Sender silly-window avoidance, pending acknowledgements and control
    packets: is the packet sent? *)
Definition must_send s (pflags datalen : Z) (quiet emptying is_retransmit : bool) : bool :=
  ((0 <? datalen) &&
     ((datalen =? maxseg_ s) || ((quiet || s.(nodelay_)) && emptying) || is_retransmit ||
      F64.ge (F64.of_Z datalen) (F64.div (F64.mul (wnd_ s) (F64.of_Z (maxseg_ s))) (F64.of_Z 2)) ||
      ((datalen =? 1) && prob_mode_ s))) ||
  need_send s ||
  has_flag s (Z.lor TF_ACKNOW TF_NEEDCLOSE) || contains_any pflags (Z.lor SYN FIN).

(** [TF_NEEDCLOSE]: the FIN goes with the last data. *)
Definition tack_on_fin s (pflags : Z) (fin : bool) : t * Z * bool :=
  if has_flag s TF_NEEDCLOSE then
    let s := clear_flag TF_NEEDCLOSE s in
    if (Tcp.state_num (state_ s) <=? 4) && negb (bool_decide (state_ s = Tcp.CLOSED))
    then (newstate Tcp.FIN_WAIT_1 s, set_flags pflags FIN, true) else (s, pflags, fin)
  else (s, pflags, fin).

(** A new highest sequence number; the conventional RTT estimate times the
    segment. *)
Definition raise_maxseq s (seqno highest : Z) : t :=
  if maxseq_ s <? highest then
    let s := set_agent (fun a => a <| TcpAgent.maxseq_ := highest |>) s in
    if negb (ts_option_ s) && negb s.(rtt_active_) then
      let s := s <| rtt_active_ := true |> in
      let s := s <| rtt_seq_ := seqno |> in
      s <| rtt_ts_ := now |>
    else s
  else s.

(** The code at the label [send]. *)
Definition transmit s (seqno pflags datalen : Z) (is_retransmit : bool) (reason : Tcp.TcpXmissionReason.t)
    : res (t * Z) :=
  let syn := contains_all pflags SYN in
  let fin := contains_all pflags FIN in
  let '(p, pflags) := EcnProcessor.modify_pflags_on_foutput (ecn_processor s) pflags is_retransmit in
  let s := set_ecn (fun _ => p) s in
  let pflags :=
    if (0 <? datalen) && (ecn_processor s).(EcnProcessor.cong_action_) && negb is_retransmit
    then set_flags pflags CWR else pflags in
  let '(s, pflags, fin) := tack_on_fin s pflags fin in
  let s := s <| last_eof_time_ := None |> in
  let! s := sendpacket s seqno (rcv_nxt_ s) pflags datalen reason in
  let s := clear_flag (Z.lor TF_ACKNOW TF_DELACK) s in
  let s := s <| delack_timer_ := None |> in
  let! reliable := iadd datalen (b2z syn) in
  let! reliable := iadd reliable (b2z fin) in
  let s :=
    if (ecn_processor s).(EcnProcessor.cong_action_) && (0 <? reliable) && negb is_retransmit
    then set_ecn (fun p => p <| EcnProcessor.cong_action_ := false |>) s else s in
  let! highest := iadd seqno reliable in
  let s := set_ecn (fun p => EcnProcessor.on_foutput p highest) s in
  let s := raise_maxseq s seqno highest in
  let! s := if negb (pending s.(rtx_timer_)) && negb (reliable =? 0) then set_rtx_timer s else Ok s in
  Ok (s, reliable).

Definition FullTcpAgent_foutput s (seqno : Z) (reason : Tcp.TcpXmissionReason.t) : res (t * Z) :=
  let s :=
    if maxseg_ s =? 0
    then set_tcp (fun m => m <| Tcp.maxseg_ := TcpAgent.size_ m.(Tcp.super) |>) s else s in
  let is_retransmit := seqno <? maxseq_ s in
  let quiet := highest_ack_ s =? maxseq_ s in
  let pflags := outflags s in
  let syn := seqno =? iss_ s in
  let! (datalen, buffered_bytes) := raw_datalen s seqno syn in
  let s := if signal_on_empty_ s && (buffered_bytes =? 0) && negb syn then bufferempty s else s in
  let datalen := one_segment s datalen in
  let! s := restart_after_idle s quiet datalen in
  let! (s, pflags, emptying) := empty_buffer s syn quiet pflags seqno datalen in
  if must_send s pflags datalen quiet emptying is_retransmit
  then transmit s seqno pflags datalen is_retransmit reason
  else Ok (s, 0).

(** [DDTcpAgent] gives up a deadline it cannot meet. *)
Definition give_up_deadline s : res t :=
  if negb (deadline s =? 0) then
    let! r := isub (curseq_ s) (maxseq_ s) in
    let tleft := F64.sub
      (F64.sub (F64.div (F64.of_Z (deadline s)) TcpPrio.million) (F64.sub now s.(me).(Tcp.start_time)))
      (F64.div (F64.mul (F64.of_Z r) (F64.of_Z 8))
               (F64.mul (F64.of_Z s.(me).(Tcp.link_rate_)) (F64.of_Z 1000000000))) in
    Ok (if F64.lt tleft F64.zero then set_tcp (fun m => m <| Tcp.deadline := 0 |>) s else s)
  else Ok s.

Definition foutput s (seqno : Z) (reason : Tcp.TcpXmissionReason.t) : res (t * Z) :=
  match cls s with
  | Tcp.DDTcp => let! s := give_up_deadline s in FullTcpAgent_foutput s seqno reason
  | _ => FullTcpAgent_foutput s seqno reason
  end.

(** ** send_much *)

(** The loop of [send_much], at most [fuel] iterations; [npackets] have been
    sent. *)
Fixpoint send_loop (fuel : nat) s (force : bool) (reason : Tcp.TcpXmissionReason.t) (maxburst npackets : Z)
    : res t :=
  match fuel with
  | O => Err Fuel
  | S fuel =>
      let! (m, seq) := TcpSack.nxt_tseq s.(me) in
      let s := s <| me := m |> in
      let! allowed := if force then Ok true else TcpSack.send_allowed s.(me) seq in
      if negb allowed then Ok s
      else if negb force && negb (F64.eq s.(overhead_) F64.zero) && negb (pending s.(delsnd_timer_)) then
        let d := uniform s.(draws_) s.(overhead_) in
        let s := s <| draws_ := S s.(draws_) |> in
        Ok (s <| delsnd_timer_ := resched d |>)
      else
        let! (s, amt) := foutput s seq reason in
        if amt <=? 0 then Ok s
        else
          let! amt := if contains_all (outflags s) FIN then isub amt 1 else Ok amt in
          let! s := on_tcp (fun m => TcpSack.sent m seq amt) s in
          if contains_any (outflags s) (Z.lor SYN FIN) then Ok s
          else if negb (maxburst =? 0) then
            let! n := iadd npackets 1 in
            if maxburst <=? n then Ok s else send_loop fuel s false reason maxburst n
          else send_loop fuel s false reason maxburst npackets
  end.

(** Every iteration after the first sends a byte below [send_limit] and moves
    [t_seqno_] or [h_seqno_] up. *)
Definition send_limit s : Z :=
  if infinite_send_ s then
    match F64.to_int (wnd_ s) with Ok w => highest_ack_ s + w * maxseg_ s | Err _ => 0 end
  else curseq_ s + 1.

Definition send_fuel s : nat :=
  S (S (S (Z.to_nat (send_limit s - t_seqno_ s) + Z.to_nat (send_limit s - Tcp.h_seqno_ s.(me))))).

Definition send_much s (force : bool) (reason : Tcp.TcpXmissionReason.t) (maxburst : Z) : res t :=
  if negb force && pending s.(delsnd_timer_) then Ok s
  else send_loop (send_fuel s) s force reason maxburst 0.

(** ** Calls of the user *)

Definition initial_window s : res f64 :=
  if s.(wnd_init_option_) =? 1 then Ok (TcpAgent.wnd_init_ (agent s))
  else if s.(wnd_init_option_) =? 2 then
    let size := TcpAgent.size_ (agent s) in
    Ok (if size <=? 1095 then F64.of_Z 4 else if size <? 2190 then F64.of_Z 3 else F64.of_Z 2)
  else Err Abort.

Definition set_cwnd (w : f64) : t -> t := set_agent (fun a => a <| TcpAgent.cwnd_ := w |>).

Definition set_initial_window s : res t :=
  let s := s <| syn_ := true |> in
  if s.(syn_) && s.(delay_growth_) then Ok (set_cwnd (F64.of_Z 1) s)
  else let! w := initial_window s in Ok (set_cwnd w s).

(** The parameters of HighSpeed TCP. *)
Definition reset_hstcp s : res t :=
  if TcpAgent.wnd_option_ (agent s) =? 8 then
    let low := TcpAgent.low_window_ (agent s) in
    let! low2 := imul low low in
    let low_p := F64.div (F64.ratio 3 2) (F64.of_Z low2) in
    let loglow := log (F64.of_Z low) in
    let highLowWin := F64.sub (log (F64.of_Z s.(high_window_))) loglow in
    let highLowP := F64.sub (log s.(high_p_)) (log low_p) in
    let half := F64.ratio 1 2 in
    let dec1 := F64.sub half (F64.div (F64.mul loglow (F64.sub s.(high_decrease_) half)) highLowWin) in
    let dec2 := F64.div (F64.sub s.(high_decrease_) half) highLowWin in
    let p1 := F64.sub (log low_p) (F64.div (F64.mul loglow highLowP) highLowWin) in
    let p2 := F64.div highLowP highLowWin in
    Ok (set_agent (fun a =>
      let h := a.(TcpAgent.hstcp_) in
      let h := h <| TcpAgent.dec1 := dec1 |> <| TcpAgent.dec2 := dec2 |> in
      let h := h <| TcpAgent.p1 := p1 |> <| TcpAgent.p2 := p2 |> in
      a <| TcpAgent.hstcp_ := h |>) s)
  else Ok s.

(** Parts of [TcpAgent::reset]. *)
Definition reset_numbers : t -> t :=
  set_agent (fun a => a <| TcpAgent.t_seqno_ := 0 |> <| TcpAgent.maxseq_ := -1 |> <| TcpAgent.highest_ack_ := -1 |>).

Definition reset_ssthresh s : res t :=
  let! w := F64.to_int (wnd_ s) in
  Ok (set_agent (fun a =>
    let m := a.(TcpAgent.max_ssthresh_) in
    a <| TcpAgent.ssthresh_ := if (0 <? m) && (m <? w) then m else w |>) s).

(** [boot_time] is drawn at random. *)
Definition reset_congestion (boot_time : f64) : t -> t :=
  set_agent (fun a =>
    let a := a <| TcpAgent.wnd_restart_ := F64.of_Z 1 |> in
    let a := a <| TcpAgent.awnd_ := F64.div a.(TcpAgent.wnd_init_) (F64.of_Z 2) |> in
    let a := a <| TcpAgent.recover_ := 0 |> in
    let a := a <| TcpAgent.last_cwnd_action_ := NONE |> in
    let a := a <| TcpAgent.boot_time_ := boot_time |> in
    let a := a <| TcpAgent.first_decrease_ := 1 |> in
    let a := a <| TcpAgent.ndatabytes_ := 0 |> in
    a <| TcpAgent.ncwndcuts_ := 0 |> <| TcpAgent.ncwndcuts1_ := 0 |>).

Definition reset_counters s : t :=
  let s := s <| ndatapack_ := 0 |> <| nackpack_ := 0 |> in
  s <| nrexmitbytes_ := 0 |> <| nrexmit_ := 0 |> <| nrexmitpack_ := 0 |>.

Definition reset_rtt s : t :=
  set_agent (fun a => a <| TcpAgent.dupacks_ := 0 |> <| TcpAgent.curseq_ := 0 |>) (s <| rtt_seq_ := -1 |>).

Definition remember_highest_ack s : t :=
  if s.(control_increase_) then s <| prev_highest_ack_ := highest_ack_ s |> else s.

Definition draw_boot_time s : t :=
  let d := uniform s.(draws_) (TcpAgent.tcp_tick_ (agent s)) in
  reset_congestion d (s <| draws_ := S s.(draws_) |>).

Definition TcpAgent_reset s : res t :=
  let! s := on_agent TcpAgent.rtt_init s in
  let! s := set_initial_window (reset_rtt s) in
  let! s := reset_ssthresh (reset_numbers s) in
  reset_hstcp (remember_highest_ack (cancel_timers (reset_counters (draw_boot_time s)))).

(** Parts of [FullTcpAgent::reset]. *)
Definition reset_receiver s : t :=
  let s := s <| last_ack_sent_ := -1 |> in
  let s := s <| flow_remaining_ := -1 |> in
  set_rcv_nxt (-1) s.

Definition reset_sender s : t :=
  let s := set_tcp (fun m => m <| Tcp.pipe_ := 0 |> <| Tcp.rtxbytes_ := 0 |>) s in
  let s := s <| flags_ := 0 |> in
  set_agent (fun a => a <| TcpAgent.t_seqno_ := iss_ s |> <| TcpAgent.maxseq_ := -1 |>) s.

Definition reset_times s : t :=
  let s := s <| irs_ := -1 |> in
  let s := s <| last_send_time_ := F64.of_Z (-1) |> in
  let r := if ts_option_ s then F64.zero else F64.of_Z (-1) in
  s <| recent_ := r |> <| recent_age_ := r |>.

Definition reset_flow s : t :=
  let s := set_tcp (fun m => m <| Tcp.fastrecov_ := false |>) s in
  let s := s <| close_on_empty_ := false |> in
  let s := set_ecn EcnProcessor.reset s in
  let s := set_tcp (fun m =>
    m <| Tcp.prob_mode_ := false |> <| Tcp.prob_count_ := 0 |> <| Tcp.last_sqtotal_ := 0 |> <| Tcp.deadline := 0 |>) s in
  s <| early_terminated_ := 0 |>.

Definition clear_rq s : t := s <| rq_ := ReassemblyQueue.clear s.(rq_) |>.

Definition FullTcpAgent_reset s : res t :=
  let! s := TcpAgent_reset (cancel_timers s) in
  let! s := on_agent TcpAgent.rtt_init (clear_rq s) in
  Ok (reset_flow (reset_times (reset_sender (reset_receiver s)))).

(** [SackFullTcpAgent] also forgets its scoreboard. *)
Definition reset s : res t :=
  let s :=
    if Tcp.is_sack (cls s) then
      set_tcp (fun m =>
        let q := ReassemblyQueue.clear m.(Tcp.sq_) in
        m <| Tcp.sq_ := q <| ReassemblyQueue.rcv_nxt_ := -1 |> |> <| Tcp.h_seqno_ := -1 |>) s
    else s in
  FullTcpAgent_reset s.

(** Parts of [soft_reset]. *)
Definition stamp_flow s : t :=
  set_tcp (fun m => m <| Tcp.start_time := now |> <| Tcp.seq_bound_ := -1 |>) (s <| early_terminated_ := 0 |>).

Definition mark_flow_start s : t :=
  match state_ s with
  | Tcp.CLOSED | Tcp.LISTEN =>
      set_tcp (fun m => m <| Tcp.deadline := s.(nominal_deadline) |> <| Tcp.startseq_ := m.(Tcp.iss_) |>) s
  | Tcp.ESTABLISHED | Tcp.SYN_SENT | Tcp.SYN_RECEIVED =>
      set_tcp (fun m =>
        m <| Tcp.startseq_ := if Tcp.curseq_ m <? m.(Tcp.iss_) then m.(Tcp.iss_) else Tcp.curseq_ m |>) s
  | _ => s
  end.

Definition clear_ndatabytes : t -> t := set_agent (fun a => a <| TcpAgent.ndatabytes_ := 0 |>).

Definition soft_reset s : res t :=
  let! w := initial_window s in
  Ok (clear_ndatabytes (mark_flow_start (stamp_flow (set_cwnd w s)))).

Definition connect s : res t :=
  let s := newstate Tcp.SYN_SENT s in
  let! (s, amt) := foutput s (iss_ s) NORMAL in
  on_tcp (fun m => TcpSack.sent m (iss_ s) amt) s.

(** The packet type, which [listen] also sets, is not modelled. *)
Definition listen s : t := newstate Tcp.LISTEN s.

Definition finish s : t := emit Done s.

Definition set_curseq (v : Z) : t -> t := set_agent (fun a => a <| TcpAgent.curseq_ := v |>).

Definition usrclosed s : res t :=
  let! c := isub (maxseq_ s) 1 in
  let s := set_curseq c s in
  let s := set_tcp (fun m => m <| Tcp.infinite_send_ := false |>) s in
  let close s := send_much (set_flag TF_NEEDFIN s) true NORMAL s.(maxburst_) in
  match state_ s with
  | Tcp.CLOSED | Tcp.LISTEN => Ok (finish (newstate Tcp.CLOSED (cancel_timers s)))
  | Tcp.SYN_SENT => close (newstate Tcp.CLOSED s)
  | Tcp.LAST_ACK => close s
  | Tcp.SYN_RECEIVED | Tcp.ESTABLISHED => close (newstate Tcp.FIN_WAIT_1 s)
  | Tcp.CLOSE_WAIT => close (newstate Tcp.LAST_ACK s)
  | Tcp.FIN_WAIT_1 | Tcp.FIN_WAIT_2 | Tcp.CLOSING => Ok s
  end.

(** More data from the application. *)
Definition queue_bytes s (nb : Z) : res t :=
  let s := if curseq_ s <? iss_ s then set_curseq (iss_ s) s else s in
  let! c := iadd (curseq_ s) nb in
  Ok (set_curseq c s).

Definition advance_bytes s (nb : Z) : res t :=
  let! s :=
    match state_ s with
    | Tcp.CLOSED | Tcp.LISTEN =>
        let! s := reset s in
        let! c := iadd (iss_ s) nb in
        connect (set_curseq c s)
    | Tcp.ESTABLISHED | Tcp.SYN_SENT | Tcp.SYN_RECEIVED => queue_bytes s nb
    | _ => Ok s
    end in
  if bool_decide (state_ s = Tcp.ESTABLISHED)
  then send_much s (s.(rtx_on_eof_) && signal_on_empty_ s) NORMAL s.(maxburst_) else Ok s.

Definition advanceby s (np : Z) : res t := let! nb := imul np (maxseg_ s) in advance_bytes s nb.

(** The flags of [sendmsg]. *)
Inductive msg_flag := MSG_EOF | DAT_EOF | DAT_NEW | NO_FLAG.

Definition start_over s : Z := if highest_ack_ s <? 0 then iss_ s else highest_ack_ s.

(** [rtx_on_eof_]: everything not acknowledged is sent again. *)
Definition rewind_on_eof s : t :=
  if s.(rtx_on_eof_) then
    let s := if bool_decide (state_ s = Tcp.ESTABLISHED) then s <| last_eof_time_ := Some now |> else s in
    set_agent (fun a => a <| TcpAgent.t_seqno_ := start_over s |>) s
  else s.

(** A negative value leaves [minrto_] alone. *)
Definition set_minrto (v : f64) s : t :=
  if F64.ge v F64.zero then set_agent (fun a => a <| TcpAgent.minrto_ := v |>) s else s.

Definition leave_prob_mode : t -> t :=
  set_tcp (fun m => m <| Tcp.prob_mode_ := false |> <| Tcp.prob_count_ := 0 |>).

Definition reset_window s : res t :=
  let! w := initial_window s in
  set_rtx_timer (leave_prob_mode (set_cwnd (if F64.lt w (cwnd_ s) then cwnd_ s else w) s)).

Definition on_eof s : res t :=
  let s := rewind_on_eof (set_tcp (fun m => m <| Tcp.signal_on_empty_ := true |>) s) in
  let s := set_minrto s.(eof_minrto_) s in
  if s.(reset_window_on_eof_) then reset_window s else Ok s.

Definition on_new_data s : res t := soft_reset (set_minrto s.(no_eof_minrto_) s).

Definition sendmsg s (nbytes : Z) (flags : msg_flag) : res t :=
  let! s :=
    match flags with
    | MSG_EOF => Ok (s <| close_on_empty_ := true |>)
    | DAT_EOF => on_eof s
    | DAT_NEW => on_new_data s
    | NO_FLAG => Ok s
    end in
  if nbytes =? -1 then
    advance_bytes (set_tcp (fun m => m <| Tcp.infinite_send_ := true |>) s) 0
  else advance_bytes s nbytes.

(** The commands of the simulation script ([FullTcpAgent::command]). *)
Inductive cmd :=
| listen_cmd
| soft_reset_cmd
| close_cmd
| advanceby_cmd (np : Z)        (* also "advance" *)
| advance_bytes_cmd (nb : Z)
| get_flow_cmd (n : Z)
| sendmsg_cmd (nbytes : Z) (flags : msg_flag).

Definition command s (c : cmd) : res t :=
  match c with
  | listen_cmd => Ok (listen s)
  | soft_reset_cmd => soft_reset s
  | close_cmd => usrclosed s
  | advanceby_cmd np => advanceby s np
  | advance_bytes_cmd nb => advance_bytes s nb
  | get_flow_cmd n => Ok (s <| flow_remaining_ := n |>)
  | sendmsg_cmd nbytes flags => sendmsg s nbytes flags
  end.
End WithEnv.
End FullTcp.
