(* ===== verification/FullTcpRecv.v ===== *)
(** * The full TCP agents: receiving

    [FullTcpAgent::recv] (src/ns2/tcp/tcp-full.cc) with everything it calls:
    the prediction of headers, the states [LISTEN] and [SYN_SENT], the
    trimming of duplicate data, the processing of acknowledgements with the
    actions on duplicate, partial and full ones of each derived class, the
    delivery of data through the reassembly queue and the reaction to a FIN;
    and the expiry of the timers ([timeout]).

    [recv] jumps between its parts; each label is a function that ends the
    processing of the packet: [step6], [process_ACK], [dropafterack],
    [dropwithreset].  The local variables they share are [p] (the headers,
    which [recv] changes), [tiflags], [datalen] and [needoutput]. *)

From Stdlib Require Import ZArith Lia Bool SpecFloat.
From stdpp Require Import base list gmap.
From S2P Require Import Prelude F64 PktQueue Rq Ecn TcpAgent Tcp TcpPrio TcpSack TcpCong FullTcp.

Module FullTcpRecv.
Import Tcp.TcpXmissionReason TcpFlags TcpSlowdownFlags FullTcp.

Implicit Types (s : t) (p : packet).


Definition set_dupacks (v : Z) : t -> t := set_tcp (TcpSack.set_dupacks v).
Definition set_recover (v : Z) : t -> t := set_agent (fun a => a <| TcpAgent.recover_ := v |>).
Definition set_highest_ack (v : Z) : t -> t := set_agent (fun a => a <| TcpAgent.highest_ack_ := v |>).
Definition set_t_seqno (v : Z) : t -> t := set_tcp (TcpSack.set_t_seqno v).
Definition set_last_cwnd_action (r : CongestionWindowAdjustmentReason) : t -> t :=
  set_agent (fun a => a <| TcpAgent.last_cwnd_action_ := r |>).
Definition set_fastrecov (b : bool) : t -> t := set_tcp (fun m => m <| Tcp.fastrecov_ := b |>).
Definition set_pipectrl (b : bool) : t -> t := set_tcp (fun m => m <| Tcp.pipectrl_ := b |>).
Definition set_h_seqno (v : Z) : t -> t := set_tcp (fun m => m <| Tcp.h_seqno_ := v |>).
Definition TCP_PAWS_IDLE : Z := 24 * 24 * 60 * 60.

Section WithEnv.
Context `{Libm} (now : f64) (uniform : nat -> f64 -> f64).

(** Calls of the functions of [FullTcp]. *)
#[local] Abbreviation slowdown := (FullTcp.slowdown now).
#[local] Abbreviation foutput := (FullTcp.foutput now).
#[local] Abbreviation sendpacket := (FullTcp.sendpacket now).
#[local] Abbreviation set_rtx_timer := (FullTcp.set_rtx_timer now).
#[local] Abbreviation send_much := (FullTcp.send_much now uniform).
#[local] Abbreviation resched := (FullTcp.resched now).

(** ** Acknowledgements *)

(** The RTT sample of an acknowledgement. *)
Definition newack_rtt s p : res t :=
  let fh := p.(Tcp.fh) in
  let can_reset s := EcnProcessor.can_reset_rto_backoff_tcp (ecn_processor s) (signal_on_empty_ s) fh in
  let reset_backoff := set_agent (fun a => a <| TcpAgent.t_backoff_ := 1 |>) in
  let! s :=
    if ts_option_ s then
      let s := s <| recent_age_ := now |> in
      let s := s <| recent_ := p.(Tcp.ts) |> in
      let! s := on_agent (fun a => TcpAgent.rtt_update a now (F64.sub now p.(Tcp.ts_echo))) s in
      Ok (if s.(ts_resetRTO_) && can_reset s then reset_backoff s else s)
    else if s.(rtt_active_) && (s.(rtt_seq_) <? p.(Tcp.ackno)) then
      let s := s <| rtt_active_ := false |> in
      on_agent (fun a => TcpAgent.rtt_update a now (F64.sub now s.(rtt_ts_))) s
    else Ok s in
  Ok (if can_reset s then set_ecn EcnProcessor.reset_rto_backoff_tcp (reset_backoff s) else s).

Definition newack s p : res t :=
  let s := leave_prob_mode s in
  let ackno := p.(Tcp.ackno) in
  let progress := highest_ack_ s <? ackno in
  let! s :=
    if ackno =? maxseq_ s then Ok (cancel_rtx_timer s)
    else if progress then set_rtx_timer s else Ok s in
  let s :=
    if progress then set_highest_ack ackno (s <| prev_highest_ack_ := highest_ack_ s |>) else s in
  let s := if t_seqno_ s <? highest_ack_ s then set_t_seqno (highest_ack_ s) s else s in
  if negb p.(Tcp.no_ts_) then newack_rtt s p else Ok s.

(** A partial acknowledgement. *)
Definition pack s p : bool :=
  fastrecov_ s && (highest_ack_ s <=? p.(Tcp.ackno)) && (p.(Tcp.ackno) <? recover_ s).

Definition fast_retransmit s (seq : Z) : res (t * Z) :=
  let s := set_recover (maxseq_ s) s in
  let s := set_last_cwnd_action TcpAgent.DUPACK s in
  foutput s seq DUPACK.

Definition pack_action s p : res t :=
  match cls s with
  | Tcp.Full | Tcp.Tahoe => Ok (set_tcp TcpSack.reno_pack_action s)
  | Tcp.NewReno =>
      let! (s, _) := fast_retransmit s (highest_ack_ s) in
      let s := set_cwnd (F64.of_Z (ssthresh_ s)) s in
      if s.(save_maxburst_) <? 0 then
        let s := s <| save_maxburst_ := s.(maxburst_) |> in
        Ok (s <| maxburst_ := s.(recov_maxburst_) |>)
      else Ok s
  | Tcp.Sack | Tcp.MinTcp | Tcp.DDTcp => on_tcp TcpSack.sack_pack_action s
  end.

Definition ack_action s p : res t :=
  match cls s with
  | Tcp.Full | Tcp.Tahoe => Ok (set_tcp TcpSack.reno_pack_action s)
  | Tcp.NewReno =>
      let s :=
        if 0 <=? s.(save_maxburst_) then
          let s := s <| maxburst_ := s.(save_maxburst_) |> in
          s <| save_maxburst_ := -1 |>
        else s in
      Ok (set_tcp TcpSack.reno_pack_action s)
  | Tcp.Sack | Tcp.MinTcp | Tcp.DDTcp => on_tcp TcpSack.sack_ack_action s
  end.

(** ** Duplicate acknowledgements *)

Definition stop_timing s : t := cancel_rtx_timer s <| rtt_active_ := false |>.

Definition reno_action s : res t :=
  let! s := slowdown (Z.lor SSTHRESH_HALF CWND_HALF) s in
  let s := stop_timing s in
  let s := set_recover (maxseq_ s) s in
  let! (s, _) := fast_retransmit s (highest_ack_ s) in
  Ok (set_cwnd (F64.add (F64.of_Z (ssthresh_ s)) (F64.of_Z (dupacks_ s))) s).

Definition ecn_reduced s : bool :=
  EcnProcessor.is_enabled (ecn_processor s) &&
  bool_decide (last_cwnd_action_ s = TcpAgent.ECN).

Definition start_recovery s : t :=
  set_tcp (fun m => m <| Tcp.fastrecov_ := true |> <| Tcp.rtxbytes_ := 0 |>) s.

Definition FullTcpAgent_dupack_action s : res t :=
  let recovered := recover_ s <? highest_ack_ s in
  let s := start_recovery s in
  if recovered || (negb s.(bug_fix_) && negb (EcnProcessor.is_enabled (ecn_processor s))) ||
     bool_decide (last_cwnd_action_ s = TcpAgent.DUPACK) || (highest_ack_ s =? 0)
  then reno_action s
  else if ecn_reduced s then
    let! s := slowdown CWND_HALF s in
    let s := stop_timing s in
    let! (s, _) := fast_retransmit s (highest_ack_ s) in
    Ok s
  else if s.(bug_fix_) then Ok s
  else reno_action s.

Definition Tahoe_dupack_action s : res t :=
  let recovered := recover_ s <? highest_ack_ s in
  let s := start_recovery s in
  let full_tahoe_action s :=
    let s := set_recover (maxseq_ s) s in
    let s := set_last_cwnd_action TcpAgent.DUPACK s in
    let! s := slowdown (Z.lor SSTHRESH_HALF CWND_ONE) s in
    let! s := set_rtx_timer s in
    let s := s <| rtt_active_ := false |> in
    let s := set_t_seqno (highest_ack_ s) s in
    send_much s false NORMAL 0 in
  if recovered || (negb s.(bug_fix_) && negb (EcnProcessor.is_enabled (ecn_processor s))) || (highest_ack_ s =? 0)
  then full_tahoe_action s
  else if ecn_reduced s then
    let s := set_last_cwnd_action TcpAgent.DUPACK s in
    let! s := slowdown CWND_ONE s in
    let! s := set_rtx_timer s in
    let s := s <| rtt_active_ := false |> in
    Ok (set_t_seqno (highest_ack_ s) s)
  else if s.(bug_fix_) then Ok s
  else full_tahoe_action s.

(** The retransmission that starts pipe control. *)
Definition fill_first_hole s : res t :=
  let! (s, amt) := fast_retransmit s (highest_ack_ s) in
  let! h := iadd (highest_ack_ s) amt in
  Ok (set_h_seqno h s).

Definition Sack_dupack_action s : res t :=
  let recovered := recover_ s <? highest_ack_ s in
  let s := start_recovery s in
  let! pipe := isub (maxseq_ s) (highest_ack_ s) in
  let! pipe := isub pipe s.(me).(Tcp.sq_).(ReassemblyQueue.total_) in
  let s := set_tcp (fun m => m <| Tcp.pipe_ := pipe |>) s in
  let full_sack_action s :=
    let! s := slowdown (Z.lor SSTHRESH_HALF CWND_HALF) s in
    let s := stop_timing s in
    let s := set_pipectrl true s in
    let s := set_recover (maxseq_ s) s in
    let! s := fill_first_hole s in
    send_much s false DUPACK s.(maxburst_) in
  if recovered || (negb s.(bug_fix_) && negb (EcnProcessor.is_enabled (ecn_processor s)))
  then full_sack_action s
  else if ecn_reduced s then
    let s := set_last_cwnd_action TcpAgent.DUPACK s in
    let! s :=
      if EcnProcessor.should_slowdown_on_dup_ack (ecn_processor s)
      then slowdown (Z.lor SSTHRESH_HALF CWND_HALF) s else Ok s in
    let s := stop_timing s in
    let! (s, amt) := fast_retransmit s (highest_ack_ s) in
    let s := set_pipectrl true s in
    let! h := iadd (highest_ack_ s) amt in
    send_much (set_h_seqno h s) false DUPACK s.(maxburst_)
  else if s.(bug_fix_) then Ok s
  else full_sack_action s.

Definition dupack_action s : res t :=
  match cls s with
  | Tcp.Full | Tcp.NewReno => FullTcpAgent_dupack_action s
  | Tcp.Tahoe => Tahoe_dupack_action s
  | Tcp.Sack | Tcp.MinTcp | Tcp.DDTcp => Sack_dupack_action s
  end.

Definition oldack s : t := set_dupacks 0 s.

Definition extra_ack s : t :=
  if s.(me).(Tcp.reno_fastrecov_) then set_cwnd (F64.add (cwnd_ s) (F64.of_Z 1)) s else s.

(** ** Timers *)

Definition FullTcpAgent_timeout_action s : res t :=
  let s := set_recover (maxseq_ s) s in
  let s := if F64.lt (cwnd_ s) (F64.of_Z 1) then set_cwnd (F64.of_Z 1) s else s in
  let! s :=
    if bool_decide (last_cwnd_action_ s = TcpAgent.ECN) then slowdown CWND_ONE s
    else
      let! s := slowdown (Z.lor SSTHRESH_HALF CWND_RESTART) s in
      Ok (set_last_cwnd_action TcpAgent.TIMEOUT s) in
  let! s := reset_rtx_timer now s in
  let s := set_t_seqno (start_over s) s in
  let s := set_ecn (fun x => EcnProcessor.on_timeout x (t_seqno_ s)) s in
  let s := set_fastrecov false s in
  Ok (set_dupacks 0 s).

Definition Sack_timeout_action s : res t :=
  let! s := FullTcpAgent_timeout_action s in
  Ok (set_tcp TcpSack.clear_scoreboard s).

Definition Min_timeout_action s : res t :=
  let! s :=
    if negb (s.(me).(Tcp.prob_cap_) =? 0) then
      let! n := iadd s.(me).(Tcp.prob_count_) 1 in
      let s := set_tcp (fun m => m <| Tcp.prob_count_ := n |>) s in
      let s :=
        if n =? s.(me).(Tcp.prob_cap_) then set_tcp (fun m => m <| Tcp.prob_mode_ := true |>) s else s in
      Ok (set_h_seqno (highest_ack_ s) s)
    else Ok s in
  Sack_timeout_action s.

Definition timeout_action s : res t :=
  match cls s with
  | Tcp.Full | Tcp.NewReno | Tcp.Tahoe => FullTcpAgent_timeout_action s
  | Tcp.Sack | Tcp.DDTcp => Sack_timeout_action s
  | Tcp.MinTcp => Min_timeout_action s
  end.

Inductive timer := TCP_TIMER_RTX | TCP_TIMER_DELSND | TCP_TIMER_DELACK.

Definition timeout s (tno : timer) : res t :=
  if bool_decide (state_ s = Tcp.LISTEN) then Ok s
  else
    match tno with
    | TCP_TIMER_RTX =>
        let! n := iadd s.(nrexmit_) 1 in
        let! s := timeout_action (s <| nrexmit_ := n |>) in
        send_much s true TIMEOUT s.(maxburst_)
    | TCP_TIMER_DELSND => send_much s true TIMEOUT s.(maxburst_)
    | TCP_TIMER_DELACK =>
        if has_flag s TF_DELACK
        then send_much (set_flag TF_ACKNOW (clear_flag TF_DELACK s)) true NORMAL 0 else Ok s
    end.

(** The timer that goes off is not pending any more. *)
Definition expire s (tno : timer) : res t :=
  timeout
    match tno with
    | TCP_TIMER_RTX => s <| rtx_timer_ := None |>
    | TCP_TIMER_DELSND => s <| delsnd_timer_ := None |>
    | TCP_TIMER_DELACK => s <| delack_timer_ := None |>
    end tno.

(** ** The processor's calls into the agent *)

Definition agent_has_pending_acks s : bool := 0 <? rcv_nxt_ s - s.(last_ack_sent_).

Definition send_immediate_ack_with_previous_ce s : res t :=
  let s := set_flag TF_ACKNOW s in
  let s := set_ecn EcnProcessor.recv_flip_ce s in
  let! s := send_much s true NORMAL s.(maxburst_) in
  Ok (set_ecn EcnProcessor.recv_flip_ce s).

Definition on_receive_pure_incoming s : res t :=
  if EcnProcessor.recv_has_pending (ecn_processor s) && agent_has_pending_acks s
  then send_immediate_ack_with_previous_ce s else Ok s.

(** The flag says that the packet is dropped ([CONGESTION_DROP]). *)
Definition on_receive_syn_ack_pre s p : res (t * bool) :=
  let e := ecn_processor s in
  let fh := p.(Tcp.fh) in
  if negb (EcnProcessor.is_enabled e) then Ok (s, false)
  else if tt (ecnecho fh) && negb (tt (cong_action fh)) &&
          bool_decide (e.(EcnProcessor.ecn_syn_wait_) = EcnProcessor.RETRY) && tt (ce fh) then
    let! s := set_rtx_timer s in
    let! s := sendpacket s (t_seqno_ s) (rcv_nxt_ s) (Z.lor ACK ECE) 0 NORMAL in
    Ok (s, true)
  else Ok (s, false).

Definition retry_syn_ack s : res t :=
  let s := cancel_rtx_timer s in
  let s := set_ecn (fun e => e <| EcnProcessor.ecn_syn_next_ := false |>) s in
  let! (s, _) := foutput s (iss_ s) NORMAL in
  let s := s <| wnd_init_option_ := 1 |> in
  Ok (set_agent (fun a => a <| TcpAgent.wnd_init_ := F64.of_Z 1 |>) s).

Definition handle_syn_ack_ack_ecn s : res (t * EcnProcessor.EcnDecision) :=
  match (ecn_processor s).(EcnProcessor.ecn_syn_wait_) with
  | EcnProcessor.RETRY => let! s := retry_syn_ack s in Ok (s, EcnProcessor.CONGESTION_DROP)
  | EcnProcessor.WAIT =>
      let s := set_cwnd (F64.of_Z 1) s in
      Ok (set_ecn (fun e => e <| EcnProcessor.use_rtt_ := true |>) s, EcnProcessor.CONGESTION)
  | EcnProcessor.WINDOW_OF_ONE => Ok (set_cwnd (F64.of_Z 2) s, EcnProcessor.CONGESTION)
  end.

Definition on_receive_syn_ack_ack s p : res (t * EcnProcessor.EcnDecision) :=
  let e := ecn_processor s in
  if EcnProcessor.is_enabled e && e.(EcnProcessor.ect_) && e.(EcnProcessor.ecn_syn_) && tt (ecnecho p.(Tcp.fh))
  then handle_syn_ack_ack_ecn s else Ok (s, EcnProcessor.NO_CONGESTION).

Definition on_receive_ack s p (tiflags : Z) : res t :=
  if EcnProcessor.is_ecn_active (ecn_processor s) (signal_on_empty_ s) p.(Tcp.fh) &&
     negb (EcnProcessor.is_some_syn tiflags) then
    let! s := on_tcp (fun m => TcpCong.ecn m now (Tcp.highest_ack_ m)) s in
    if F64.lt (cwnd_ s) (F64.of_Z 1) then set_rtx_timer s else Ok s
  else Ok s.

(** ** Parts of recv *)

Definition dooptions s p : t :=
  if ts_option_ s && negb p.(Tcp.no_ts_) then
    if F64.lt p.(Tcp.ts) F64.zero then s
    else if contains_all p.(Tcp.flags) SYN then
      let s := set_flag TF_RCVD_TSTMP s in
      let s := s <| recent_ := p.(Tcp.ts) |> in
      s <| recent_age_ := now |>
    else s
  else s.

Definition predict_ok s p : bool :=
  bool_decide (state_ s = Tcp.ESTABLISHED) &&
  (contains_all p.(Tcp.flags) ACK && negb (contains_any p.(Tcp.flags) (Z.lor SYN FIN))) &&
  negb (has_flag s TF_NEEDFIN) &&
  (negb (ts_option_ s) || p.(Tcp.no_ts_) || F64.ge p.(Tcp.ts) s.(recent_)) &&
  (p.(Tcp.seqno) =? rcv_nxt_ s) &&
  (t_seqno_ s =? maxseq_ s) &&
  EcnProcessor.predict_ok (ecn_processor s) (signal_on_empty_ s) p.(Tcp.fh) &&
  (Tcp.sa_length p =? 0).

Definition record_timestamp s p : t :=
  if ts_option_ s && negb p.(Tcp.no_ts_) && (p.(Tcp.seqno) <=? s.(last_ack_sent_)) then
    let s := s <| recent_age_ := now |> in
    s <| recent_ := p.(Tcp.ts) |>
  else s.

(** [flow_remaining_] after [n] bytes; an acknowledgement is due when nothing
    remains. *)
Definition count_flow s (n : Z) : res t :=
  let! s :=
    if 0 <? s.(flow_remaining_) then
      let! r := isub s.(flow_remaining_) n in Ok (s <| flow_remaining_ := r |>)
    else Ok s in
  Ok (if s.(flow_remaining_) =? 0 then set_flag TF_ACKNOW s <| flow_remaining_ := -1 |> else s).

Definition delay_ack s : t := set_flag TF_DELACK s <| delack_timer_ := resched s.(delack_interval_) |>.

Definition advance_rcv_nxt s (n : Z) : res t :=
  let! r := iadd (rcv_nxt_ s) n in Ok (set_rcv_nxt r s).

(** The packet fits the prediction; the flag says that this was all there was
    to do. *)
Definition recv_predicted s p (datalen : Z) : res (t * bool) :=
  let s := record_timestamp s p in
  let s := set_ecn (fun e => EcnProcessor.on_receive_predict_ok e p.(Tcp.fh) p.(Tcp.prio) (0 <? datalen)) s in
  let ackno := p.(Tcp.ackno) in
  if datalen =? 0 then
    if (highest_ack_ s <? ackno) && (ackno <? maxseq_ s) && F64.ge (cwnd_ s) (wnd_ s) && negb (fastrecov_ s) then
      let! s := newack s p in
      let! s := send_much s false NORMAL s.(maxburst_) in
      Ok (s, true)
    else Ok (s, false)
  else if (ackno =? highest_ack_ s) && ReassemblyQueue.empty s.(rq_) then
    let! s := on_receive_pure_incoming s in
    let! s := advance_rcv_nxt s datalen in
    let s := delay_ack s in
    let s := emit (RecvBytes datalen) s in
    let! s := count_flow s datalen in
    let! s := if need_send now s then send_much s true NORMAL s.(maxburst_) else Ok s in
    Ok (s, true)
  else Ok (s, false).

Definition dropafterack s : res t :=
  let s := set_flag TF_ACKNOW s in
  send_much s true NORMAL s.(maxburst_).

Definition dropwithreset s p (tiflags datalen : Z) : res t :=
  if contains_all tiflags ACK then sendpacket s p.(Tcp.ackno) 0 0 0 NORMAL
  else
    let! ack := iadd p.(Tcp.seqno) datalen in
    let! ack := if contains_all tiflags SYN then isub ack 1 else Ok ack in
    sendpacket s 0 ack ACK 0 NORMAL.

(** [reass]: the packet goes through the reassembly queue. *)
Definition reass s p : res (t * Z) :=
  let start := p.(Tcp.seqno) in
  let! len := isub p.(Tcp.size) p.(Tcp.hlen) in
  let! end_ := iadd start len in
  let tiflags := p.(Tcp.flags) in
  let fillshole := start =? rcv_nxt_ s in
  if (start =? end_) && negb (contains_all tiflags FIN) then Err Abort
  else
    let! (q, flags) := ReassemblyQueue.add s.(rq_) start end_ tiflags 0 in
    let s := s <| rq_ := q |> in
    if negb (Tcp.have_received_SYN (state_ s)) || negb fillshole then Ok (s, 0)
    else if bool_decide (state_ s = Tcp.SYN_RECEIVED) && (start <? end_) then Ok (s, 0)
    else
      let! (q, f) := ReassemblyQueue.cleartonxt s.(rq_) in
      Ok (s <| rq_ := q |>, Z.lor flags f).

(** In-order data with nothing waiting. *)
Definition accept_in_order s p (datalen : Z) : res (t * Z * bool) :=
  let! s := on_receive_pure_incoming s in
  let s := delay_ack s in
  let! s := advance_rcv_nxt s datalen in
  let tiflags := Z.land p.(Tcp.flags) FIN in
  let! s :=
    if negb (datalen =? 0) then count_flow (emit (RecvBytes datalen) s) datalen else Ok s in
  Ok (s, tiflags, need_send now s).

(** Data out of order, or filling a hole. *)
Definition accept_out_of_order s p (datalen : Z) (needoutput : bool) : res (t * Z * bool) :=
  let rcv_nxt_old := rcv_nxt_ s in
  let! (s, tiflags) := reass s p in
  let! s :=
    if rcv_nxt_old <? rcv_nxt_ s then
      let! n := isub (rcv_nxt_ s) rcv_nxt_old in
      count_flow (emit (RecvBytes n) s) datalen
    else Ok s in
  let s := set_flag TF_ACKNOW s in
  Ok (s, tiflags, if contains_all tiflags PUSH then need_send now s else needoutput).

Definition accept_data s p (tiflags datalen : Z) (needoutput : bool) : res (t * Z * bool) :=
  if ((0 <? datalen) || contains_all tiflags FIN) && negb (Tcp.have_received_FIN (state_ s)) then
    if (p.(Tcp.seqno) =? rcv_nxt_ s) && ReassemblyQueue.empty s.(rq_)
    then accept_in_order s p datalen
    else accept_out_of_order s p datalen needoutput
  else Ok (s, clear_flags tiflags FIN, needoutput).

Definition receive_fin s : res t :=
  let! s :=
    if negb (Tcp.have_received_FIN (state_ s)) then advance_rcv_nxt (set_flag TF_ACKNOW s) 1 else Ok s in
  match state_ s with
  | Tcp.SYN_RECEIVED | Tcp.ESTABLISHED => Ok (newstate Tcp.CLOSE_WAIT s)
  | Tcp.FIN_WAIT_1 => Ok (newstate Tcp.CLOSING s)
  | Tcp.FIN_WAIT_2 => Ok (cancel_timers (newstate Tcp.CLOSED s))
  | _ => Err Throw
  end.

(** The label [step6]. *)
Definition step6 s p (tiflags datalen : Z) (needoutput : bool) : res t :=
  let! (s, tiflags, needoutput) := accept_data s p tiflags datalen needoutput in
  let! s := if contains_all tiflags FIN then receive_fin s else Ok s in
  let! s :=
    if needoutput || has_flag s TF_ACKNOW then send_much s true NORMAL s.(maxburst_)
    else if (highest_ack_ s <=? curseq_ s) || infinite_send_ s then send_much s false NORMAL s.(maxburst_)
    else Ok s in
  let! s :=
    if negb s.(halfclose_) && bool_decide (state_ s = Tcp.CLOSE_WAIT) && (highest_ack_ s =? maxseq_ s)
    then usrclosed now uniform s else Ok s in
  Ok (if bool_decide (state_ s = Tcp.CLOSED) then emit Done s else s).

(** The end of the processing of an acknowledgement: the closing states. *)
Definition closing_states s p (tiflags datalen : Z) (needoutput ourfinisacked : bool) : res t :=
  match state_ s with
  | Tcp.FIN_WAIT_1 =>
      if ourfinisacked then step6 (cancel_timers (newstate Tcp.FIN_WAIT_2 s)) p tiflags datalen false
      else step6 s p tiflags datalen needoutput
  | Tcp.CLOSING =>
      if ourfinisacked then step6 (cancel_timers (newstate Tcp.CLOSED s)) p tiflags datalen needoutput
      else step6 s p tiflags datalen needoutput
  | Tcp.LAST_ACK =>
      if ourfinisacked then reset uniform (finish (newstate Tcp.CLOSED s))
      else step6 s p tiflags datalen needoutput
  | _ => step6 s p tiflags datalen needoutput
  end.

Definition grow_window s p (partial : bool) : res t :=
  if (negb s.(delay_growth_) || (0 <? rcv_nxt_ s)) && bool_decide (s.(last_state_) = Tcp.ESTABLISHED) &&
     (negb partial || s.(open_cwnd_on_pack_)) &&
     EcnProcessor.can_open_cwnd (ecn_processor s) (signal_on_empty_ s) p.(Tcp.fh)
  then on_agent TcpAgent.opencwnd s else Ok s.

(** The label [process_ACK]. *)
Definition process_ACK s p (tiflags datalen : Z) : res t :=
  let ackno := p.(Tcp.ackno) in
  if maxseq_ s <? ackno then dropafterack s
  else
    let! s := newack s p in
    let partial := pack s p in
    let! s := if partial then pack_action s p else ack_action s p in
    let! s := on_receive_ack s p tiflags in
    let needoutput := ackno =? maxseq_ s in
    let! h := iadd (highest_ack_ s) 1 in
    if ackno =? h then step6 s p tiflags datalen needoutput
    else
      let! s := grow_window s p partial in
      let s := set_ecn (fun e => EcnProcessor.on_receive_newack e (signal_on_empty_ s) p.(Tcp.fh)) s in
      let ourfinisacked := (Tcp.state_num Tcp.FIN_WAIT_1 <=? Tcp.state_num (state_ s)) && (ackno =? maxseq_ s) in
      closing_states s p tiflags datalen needoutput ourfinisacked.

(** An acknowledgement that does not advance [highest_ack_]. *)
Definition dynamic_threshold s : res t :=
  if F64.gt s.(dynamic_dupack_) F64.zero then
    let! w := Tcp.window s.(me) in
    let! th := F64.to_int (F64.mul s.(dynamic_dupack_) (F64.of_Z w)) in
    Ok (s <| tcprexmtthresh_ := if th <? 3 then 3 else th |>)
  else Ok s.

Definition duplicate_ack s p (tiflags datalen : Z) (dupseg : bool) : res t :=
  if (datalen =? 0) && (negb s.(dupseg_fix_) || negb dupseg) then
    let! s := dynamic_threshold s in
    if negb (pending s.(rtx_timer_)) || (p.(Tcp.ackno) <? highest_ack_ s)
    then step6 (oldack s) p tiflags datalen false
    else
      let! d := iadd (dupacks_ s) 1 in
      let s := set_dupacks d s in
      if d =? s.(tcprexmtthresh_) then dupack_action s
      else if s.(tcprexmtthresh_) <? d then
        let s := extra_ack s in
        send_much s false DUPACK s.(maxburst_)
      else step6 s p tiflags datalen false
  else
    let s := if s.(dupack_reset_) then set_fastrecov false (set_dupacks 0 s) else s in
    step6 s p tiflags datalen false.

(** The processing of an acknowledgement in the synchronised states. *)
Definition ack_processing s p (tiflags datalen : Z) (dupseg : bool) : res t :=
  let s := set_ecn (fun e => EcnProcessor.on_receive_ack_pre e p.(Tcp.fh) p.(Tcp.prio) (0 <? datalen)) s in
  let! s :=
    if (Tcp.state_num Tcp.ESTABLISHED <=? Tcp.state_num (state_ s)) && (0 <? Tcp.sa_length p)
    then on_tcp (fun m => TcpSack.process_sack m p) s else Ok s in
  let! s :=
    if fastrecov_ s && ((datalen =? 0) || (highest_ack_ s <? p.(Tcp.ackno))) then
      let! v := isub s.(me).(Tcp.pipe_) (maxseg_ s) in
      Ok (set_tcp (fun m => m <| Tcp.pipe_ := v |>) s)
    else Ok s in
  if p.(Tcp.ackno) <=? highest_ack_ s then duplicate_ack s p tiflags datalen dupseg
  else process_ACK s p tiflags datalen.

Definition enter_established s : t :=
  if has_flag s TF_NEEDFIN then clear_flag TF_NEEDFIN (newstate Tcp.FIN_WAIT_1 s)
  else newstate Tcp.ESTABLISHED s.

Definition ack_in_state s p (tiflags datalen : Z) (dupseg : bool) : res t :=
  match state_ s with
  | Tcp.SYN_RECEIVED =>
      if (p.(Tcp.ackno) <? highest_ack_ s) || (maxseq_ s <? p.(Tcp.ackno))
      then dropwithreset s p tiflags datalen
      else
        let! (s, d) := on_receive_syn_ack_ack s p in
        match d with
        | EcnProcessor.CONGESTION_DROP => Ok s
        | EcnProcessor.CONGESTION => ack_processing (enter_established s) p tiflags datalen dupseg
        | EcnProcessor.NO_CONGESTION =>
            let! w := initial_window s in
            ack_processing (enter_established (set_cwnd w s)) p tiflags datalen dupseg
        end
  | Tcp.CLOSED | Tcp.LISTEN | Tcp.SYN_SENT => Err Throw
  | _ => ack_processing s p tiflags datalen dupseg
  end.

(** Duplicate data is cut off the front of the segment. *)
Definition trim s p (tiflags datalen : Z) : res (t * packet * Z * Z * bool) :=
  let! todrop := isub (rcv_nxt_ s) p.(Tcp.seqno) in
  if (0 <? todrop) && (contains_all tiflags SYN || (0 <? datalen)) then
    let! (p, tiflags, todrop) :=
      if contains_all tiflags SYN then
        let! q := iadd p.(Tcp.seqno) 1 in
        let! n := isub p.(Tcp.size) 1 in
        Ok (p <| Tcp.seqno := q |> <| Tcp.size := n |>, clear_flags tiflags SYN, todrop - 1)
      else Ok (p, tiflags, todrop) in
    let '(s, tiflags, todrop, dupseg) :=
      if (datalen <? todrop) || ((todrop =? datalen) && negb (contains_all tiflags FIN))
      then (set_flag TF_ACKNOW s, clear_flags tiflags FIN, datalen, true)
      else (s, tiflags, todrop, false) in
    let! q := iadd p.(Tcp.seqno) todrop in
    let! n := isub p.(Tcp.size) todrop in
    let! datalen := isub datalen todrop in
    Ok (s, p <| Tcp.seqno := q |> <| Tcp.size := n |>, tiflags, datalen, dupseg)
  else Ok (s, p, tiflags, datalen, false).

(** The checks of RFC 1323: [None] when the packet is too old. *)
Definition paws s p : option t :=
  if ts_option_ s && negb p.(Tcp.no_ts_) && negb (F64.eq s.(recent_) F64.zero) && F64.lt p.(Tcp.ts) s.(recent_) then
    if F64.gt (F64.sub now s.(recent_age_)) (F64.of_Z TCP_PAWS_IDLE) then Some (s <| recent_ := F64.zero |>)
    else None
  else Some s.

(** States other than [LISTEN] and [SYN_SENT]. *)
Definition recv_synchronised s p (tiflags datalen : Z) : res t :=
  match paws s p with
  | None => dropafterack s
  | Some s =>
      let! (s, p, tiflags, datalen, dupseg) := trim s p tiflags datalen in
      let s := record_timestamp s p in
      if contains_all tiflags SYN then dropwithreset s p tiflags datalen
      else if negb (contains_all tiflags ACK) then Ok s
      else ack_in_state s p tiflags datalen dupseg
  end.

Definition rcvseqinit (seq dlen : Z) : res Z := let! d := iadd seq dlen in iadd d 1.

(** The label [trimthenstep6]. *)
Definition trimthenstep6 s p (tiflags datalen : Z) : res t :=
  let! q := iadd p.(Tcp.seqno) 1 in
  let p := p <| Tcp.seqno := q |> in
  if contains_all tiflags ACK then process_ACK s p tiflags datalen
  else step6 s p tiflags datalen false.

Definition recv_listen s p (tiflags datalen : Z) : res t :=
  if contains_all tiflags ACK then dropwithreset s p tiflags datalen
  else if negb (contains_all tiflags SYN) then Ok s
  else
    let s := dooptions s p in
    let s := s <| irs_ := p.(Tcp.seqno) |> in
    let s := set_t_seqno (iss_ s) s in
    let! r := rcvseqinit s.(irs_) datalen in
    let s := set_rcv_nxt r s in
    let s := set_flag TF_ACKNOW s in
    let s := set_ecn (fun e => EcnProcessor.on_receive_syn e p.(Tcp.fh)) s in
    let s := if s.(fid_) =? 0 then s <| fid_ := p.(Tcp.flowid) |> else s in
    let s := newstate Tcp.SYN_RECEIVED s in
    trimthenstep6 s p tiflags datalen.

(** The acknowledgement of the SYN. *)
Definition syn_acked s p (tiflags datalen : Z) : res (t * Z) :=
  let s := set_ecn (fun e => EcnProcessor.on_receive_syn_ack e p.(Tcp.fh)) s in
  let s := set_highest_ack p.(Tcp.ackno) s in
  let! w := initial_window s in
  let s := set_cwnd w s in
  let s := if 0 <? datalen then delay_ack s else set_flag TF_ACKNOW s in
  let tiflags := if has_flag s TF_NEEDFIN then clear_flags tiflags SYN else tiflags in
  let s := enter_established s in
  let! s := sendpacket s (t_seqno_ s) (rcv_nxt_ s) ACK 0 NORMAL in
  Ok (s, tiflags).

(** A SYN without an acknowledgement: both sides opened at once. *)
Definition simultaneous_open s p : res t :=
  let s := set_ecn (fun e => EcnProcessor.on_receive_syn e p.(Tcp.fh)) s in
  let s := set_flag TF_ACKNOW s in
  let s := cancel_rtx_timer s in
  let s := newstate Tcp.SYN_RECEIVED s in
  let! v := isub (t_seqno_ s) 1 in
  Ok (set_t_seqno v s).

Definition recv_syn_sent s p (tiflags datalen : Z) : res t :=
  let ackno := p.(Tcp.ackno) in
  if contains_all tiflags ACK && ((ackno <=? iss_ s) || (maxseq_ s <? ackno))
  then dropwithreset s p tiflags datalen
  else if negb (contains_all tiflags SYN) then Ok s
  else
    let! (s, dropped) := if contains_all tiflags ACK then on_receive_syn_ack_pre s p else Ok (s, false) in
    if dropped : bool then Ok s
    else
      let s := s <| irs_ := p.(Tcp.seqno) |> in
      let! r := rcvseqinit s.(irs_) datalen in
      let s := set_rcv_nxt r s in
      let! (s, tiflags) :=
        if contains_all tiflags ACK then syn_acked s p tiflags datalen
        else let! s := simultaneous_open s p in Ok (s, tiflags) in
      trimthenstep6 s p tiflags datalen.

(** Everything behind the prediction of headers. *)
Definition recv_slow s p (tiflags datalen : Z) : res t :=
  match state_ s with
  | Tcp.LISTEN => recv_listen s p tiflags datalen
  | Tcp.SYN_SENT => recv_syn_sent s p tiflags datalen
  | Tcp.LAST_ACK => if contains_all tiflags FIN then Ok s else recv_synchronised s p tiflags datalen
  | _ => recv_synchronised s p tiflags datalen
  end.

(** [EcnProcessor::on_receive]; [highest_ack_] and [size_] are the agent's. *)
Definition ecn_on_receive s p : res t :=
  let! e := EcnProcessor.on_receive (ecn_processor s) (signal_on_empty_ s) p.(Tcp.fh) p.(Tcp.flags)
    p.(Tcp.ackno) (highest_ack_ s) (TcpAgent.size_ (agent s)) in
  Ok (set_ecn (fun _ => e) s).

Definition recv s p : res t :=
  let s := leave_prob_mode s in
  let s := s <| last_state_ := state_ s |> in
  let! datalen := isub p.(Tcp.size) p.(Tcp.hlen) in
  let tiflags := p.(Tcp.flags) in
  if bool_decide (state_ s = Tcp.CLOSED) then
    if contains_all tiflags FIN then dropafterack s else Ok s
  else if negb (s.(fid_) =? p.(Tcp.flowid)) then Ok s
  else
    let s := if negb (bool_decide (state_ s = Tcp.LISTEN)) then dooptions s p else s in
    let! s := ecn_on_receive s p in
    let! (s, done) :=
      if negb s.(nopredict_) && predict_ok s p then recv_predicted s p datalen else Ok (s, false) in
    if done : bool then Ok s else recv_slow s p tiflags datalen.
End WithEnv.
End FullTcpRecv.
