(* ===== verification/FullTcpSpec.v ===== *)
(** * What a connection promises

    An abstract machine for one end of a connection ([core], [step]): the
    state of RFC 793, the numbers that matter to the peer, the end of the data
    supplied by the application, and what has been sent and delivered.  Its
    steps say when the state may change, what a segment may carry, which
    acknowledgements count and that [rcv_nxt_] moves only over data that is
    delivered, a SYN or a FIN.  What the packets of the peer say is the
    parameter [Heard].

    [FullTcpViews] shows that every operation of the agent ([FullTcp],
    [FullTcpRecv]), whatever its class and options, is a sequence of steps of
    this machine; the invariants of the machine then hold for the agent. *)

From Stdlib Require Import ZArith Lia Bool SpecFloat.
From stdpp Require Import base list gmap relations.
From S2P Require Import Prelude F64 PktQueue Rq Ecn TcpAgent Tcp TcpPrio TcpSack TcpCong FullTcp FullTcpRecv.

Module FullTcpSpec.
Import Tcp TcpFlags.
Import FullTcp (effect, Send, RecvBytes, Idle, DoneData, Done).

(** ** The machine *)

Record core := mkCore {
  c_state : TcpState;
  c_maxseg : Z;           (* segment size *)
  c_limit : option Z;     (* first number behind the data supplied; None: unlimited *)
  c_maxseq : Z;
  c_highest : Z;          (* acknowledged by the peer *)
  c_rcv_nxt : Z;
  c_out : list effect
}.

#[global] Instance eta_core : Eta core := fun c =>
  mkCore (c_state c) (c_maxseg c) (c_limit c) (c_maxseq c) (c_highest c) (c_rcv_nxt c) (c_out c).

Implicit Types (c : core) (p : packet).

Definition payload p : Z := p.(size) - p.(hlen).

(** Sequence numbers a segment takes. *)
Definition seq_len p : Z :=
  payload p + b2z (contains_all p.(flags) SYN) + b2z (contains_all p.(flags) FIN).

Definition within (limit : option Z) (x : Z) : Prop :=
  match limit with Some l => x <= l | None => True end.

(** The transitions of RFC 793.  There is no TIME_WAIT; a SYN_SENT agent that
    is asked to close goes on to FIN_WAIT_1. *)
Definition arc (a b : TcpState) : bool :=
  match a, b with
  | CLOSED, LISTEN | CLOSED, SYN_SENT | LISTEN, SYN_SENT | LISTEN, SYN_RECEIVED | LISTEN, CLOSED
  | SYN_SENT, SYN_RECEIVED | SYN_SENT, ESTABLISHED | SYN_SENT, FIN_WAIT_1 | SYN_SENT, CLOSED
  | SYN_RECEIVED, ESTABLISHED | SYN_RECEIVED, FIN_WAIT_1 | SYN_RECEIVED, CLOSE_WAIT
  | ESTABLISHED, FIN_WAIT_1 | ESTABLISHED, CLOSE_WAIT
  | FIN_WAIT_1, FIN_WAIT_2 | FIN_WAIT_1, CLOSING | FIN_WAIT_2, CLOSED | CLOSING, CLOSED
  | CLOSE_WAIT, LAST_ACK | LAST_ACK, CLOSED => true
  | _, _ => false
  end.

(** The transitions that need no SYN or FIN of the peer and open nothing. *)
Definition calm (a b : TcpState) : bool :=
  match a, b with
  | CLOSED, LISTEN | LISTEN, CLOSED
  | SYN_SENT, SYN_RECEIVED | SYN_SENT, ESTABLISHED | SYN_SENT, FIN_WAIT_1 | SYN_SENT, CLOSED
  | SYN_RECEIVED, ESTABLISHED | SYN_RECEIVED, FIN_WAIT_1 | ESTABLISHED, FIN_WAIT_1
  | FIN_WAIT_1, FIN_WAIT_2 | CLOSING, CLOSED | CLOSE_WAIT, LAST_ACK | LAST_ACK, CLOSED => true
  | _, _ => false
  end.

(** The transitions on a FIN of the peer. *)
Definition fin_arc (a b : TcpState) : bool :=
  match a, b with
  | SYN_RECEIVED, CLOSE_WAIT | ESTABLISHED, CLOSE_WAIT | FIN_WAIT_1, CLOSING | FIN_WAIT_2, CLOSED => true
  | _, _ => false
  end.

Lemma calm_arc a b : calm a b = true -> arc a b = true.
Proof. by destruct a, b. Qed.

Lemma fin_arc_arc a b : fin_arc a b = true -> arc a b = true.
Proof. by destruct a, b. Qed.

(** A SYN is sent in [FIN_WAIT_1] only when the FIN is tacked on to it. *)
Definition may_syn (st : TcpState) : Prop := st = SYN_SENT \/ st = SYN_RECEIVED \/ st = FIN_WAIT_1.
Definition may_fin (st : TcpState) : Prop := st = FIN_WAIT_1 \/ st = CLOSING \/ st = LAST_ACK.

(** A segment the connection may send. *)
Record segment c p : Prop := {
  seg_payload : 0 <= payload p <= c.(c_maxseg);
  seg_ack : p.(ackno) = c.(c_rcv_nxt);
  seg_data : 0 < payload p -> within c.(c_limit) (p.(seqno) + payload p);
  seg_syn : contains_all p.(flags) SYN = true -> may_syn c.(c_state);
  seg_fin : contains_all p.(flags) FIN = true -> may_fin c.(c_state)
}.

Definition out (e : effect) c : core := c <| c_out := c.(c_out) ++ [e] |>.

(** What the peer's packets say: the numbers they acknowledge, and the first
    numbers behind their SYNs. *)
Class Heard := { heard_ack : Z -> Prop; heard_syn : Z -> Prop }.

(** A peer that may say anything. *)
Definition anything : Heard := {| heard_ack _ := True; heard_syn _ := True |}.

(** A packet whose acknowledgement and SYN are among those heard. *)
Record arrives `{Heard} p : Prop := {
  arr_payload : 0 <= payload p;
  arr_ack : contains_all p.(flags) ACK = true -> heard_ack p.(ackno);
  arr_syn : contains_all p.(flags) SYN = true -> heard_syn (p.(seqno) + payload p + 1)
}.

Section Machine.
Context {HD : Heard}.

(** An acknowledgement says what has been received; one that refuses a SYN
    acknowledges what is before it. *)
Definition true_ack c p : Prop :=
  contains_all p.(flags) ACK = true -> p.(ackno) = c.(c_rcv_nxt) \/ heard_syn (p.(ackno) + 2).

Inductive step : core -> core -> Prop :=
| step_limit c l : step c (c <| c_limit := l |>)
| step_notify c e : e = Idle \/ e = DoneData \/ e = Done -> step c (out e c)
| step_arc c st : calm c.(c_state) st = true -> step c (c <| c_state := st |>)
| step_connect c :
    c.(c_state) = CLOSED \/ c.(c_state) = LISTEN -> c.(c_rcv_nxt) = -1 ->
    step c (c <| c_state := SYN_SENT |>)
| step_send c p :
    segment c p ->
    step c (out (Send p) (c <| c_maxseq := Z.max c.(c_maxseq) (p.(seqno) + seq_len p) |>))
| step_control c p :
    payload p = 0 -> contains_all p.(flags) SYN = false -> contains_all p.(flags) FIN = false -> true_ack c p ->
    step c (out (Send p) c)
| step_acked c a :
    heard_ack a -> c.(c_highest) < a <= c.(c_maxseq) -> step c (c <| c_highest := a |>)
| step_syn_acked c a :
    heard_ack a -> c.(c_state) = SYN_SENT -> a <= c.(c_maxseq) -> step c (c <| c_highest := a |>)
| step_accept c r :
    c.(c_state) = LISTEN -> heard_syn r -> step c (c <| c_rcv_nxt := r |> <| c_state := SYN_RECEIVED |>)
| step_open c r :
    c.(c_state) = SYN_SENT -> heard_syn r -> step c (c <| c_rcv_nxt := r |>)
| step_deliver c n :
    0 <= n -> step c (out (RecvBytes n) (c <| c_rcv_nxt := c.(c_rcv_nxt) + n |>))
| step_stay c r : r <= c.(c_rcv_nxt) -> step c (c <| c_rcv_nxt := r |>)
| step_fin c st :
    fin_arc c.(c_state) st = true -> step c (c <| c_rcv_nxt := c.(c_rcv_nxt) + 1 |> <| c_state := st |>)
| step_reset c :
    c.(c_state) = CLOSED \/ c.(c_state) = LISTEN ->
    step c (c <| c_maxseq := -1 |> <| c_highest := -1 |> <| c_rcv_nxt := -1 |>).

(** ** Invariants of the machine *)

Lemma rtc_states c c' : rtc step c c' -> rtc (fun a b => arc a b = true) c.(c_state) c'.(c_state).
Proof.
  induction 1 as [|c1 c2 c3 H _ IH]; [done|]. eapply rtc_trans; [|exact IH].
  destruct H as [| |c st Ha|c Hs| | | | |c r Hs| | | |c st Ha|]; try apply rtc_refl; apply rtc_once; cbn.
  - by apply calm_arc.
  - by destruct Hs as [-> | ->].
  - by rewrite Hs.
  - by apply fin_arc_arc.
Qed.

(** What is acknowledged has been sent. *)
Definition acked_was_sent c : Prop := c.(c_highest) <= c.(c_maxseq).

Lemma step_acked_was_sent c c' : rtc step c c' -> acked_was_sent c -> acked_was_sent c'.
Proof.
  induction 1 as [|c1 c2 c3 H _ IH]; [done|]. intros Ha. apply IH. unfold acked_was_sent in *.
  destruct H; cbn in *; lia.
Qed.

(** No segment is larger than the segment size, which never changes. *)
Definition fits (maxseg : Z) (e : effect) : Prop :=
  match e with Send p => 0 <= payload p <= maxseg | _ => True end.

Lemma step_fits c c' :
  rtc step c c' -> 0 <= c.(c_maxseg) ->
  c'.(c_maxseg) = c.(c_maxseg) /\ exists l, c'.(c_out) = c.(c_out) ++ l /\ Forall (fits c.(c_maxseg)) l.
Proof.
  induction 1 as [c|c1 c2 c3 H _ IH]; intros Hm.
  { split; [done|]. exists []. by rewrite app_nil_r. }
  assert (c2.(c_maxseg) = c1.(c_maxseg)) as E by by destruct H.
  destruct IH as (E3 & l & El & Hl); [by rewrite E|]. split; [congruence|]. rewrite E in Hl.
  assert (exists k, c2.(c_out) = c1.(c_out) ++ k /\ Forall (fits c1.(c_maxseg)) k) as (k & Ek & Hk).
  { assert (forall e, fits c1.(c_maxseg) e -> Forall (fits c1.(c_maxseg)) [e]) as H1
      by (intros e He; by constructor).
    destruct H as [| c e He | | |c p Hp|c p Hp| | | | |c n| | |];
      first [exists []; split; [by rewrite app_nil_r|constructor]|eexists; split; [reflexivity|apply H1]].
    - by destruct He as [-> |[-> | ->]].
    - apply Hp.
    - cbn in *. lia.
    - done. }
  exists (k ++ l). split; [by rewrite El, Ek, app_assoc|by apply Forall_app].
Qed.

(** ** What is acknowledged has been delivered

    [b] bounds the numbers behind the peer's SYNs.  [rcv_nxt_] may lie as far
    behind it as bytes have been delivered, and one further once there was a
    FIN, or when it does not matter yet. *)
Definition received (l : list effect) : Z := sum_Z (fun e => match e with RecvBytes n => n | _ => 0 end) l.

Definition past_fin (st : TcpState) : Z :=
  match st with SYN_SENT | SYN_RECEIVED | ESTABLISHED | FIN_WAIT_1 | FIN_WAIT_2 => 0 | _ => 1 end.

Definition covered_ack (m : Z) (e : effect) : Prop :=
  match e with Send p => contains_all p.(flags) ACK = true -> p.(ackno) <= m | _ => True end.

Record ledger (b : Z) c : Prop := {
  led_received : 0 <= received c.(c_out);
  led_rcv_nxt : c.(c_rcv_nxt) <= b + received c.(c_out) + past_fin c.(c_state);
  led_acks : Forall (covered_ack (b + received c.(c_out) + 1)) c.(c_out)
}.

Lemma received_snoc l e : received (l ++ [e]) = received l + match e with RecvBytes n => n | _ => 0 end.
Proof. unfold received. rewrite sum_Z_app. cbn. lia. Qed.

Lemma covered_ack_mono m m' l : m <= m' -> Forall (covered_ack m) l -> Forall (covered_ack m') l.
Proof. intros Hm Hl. eapply Forall_impl; [exact Hl|]. intros [p|n| | |] He; try done. intros Hp. specialize (He Hp). lia. Qed.

Lemma past_fin_range st : 0 <= past_fin st <= 1.
Proof. destruct st; cbn; lia. Qed.

Lemma calm_past_fin a b : calm a b = true -> past_fin a <= past_fin b.
Proof. destruct a, b; cbn; first [discriminate|lia]. Qed.

(** An effect that delivers nothing. *)
Lemma ledger_out b c e :
  ledger b c -> match e with RecvBytes _ => False | _ => True end ->
  covered_ack (b + received c.(c_out) + 1) e -> ledger b (out e c).
Proof.
  intros [H1 H2 H3] He Hc. assert (received (c.(c_out) ++ [e]) = received c.(c_out)) as E
    by (rewrite received_snoc; destruct e; lia || done).
  split; change (c_out (out e c)) with (c.(c_out) ++ [e]); rewrite E; [done..|].
  apply Forall_app. split; [done|by constructor].
Qed.

Lemma step_ledger b c c' :
  (forall r, heard_syn r -> r <= b) -> -1 <= b -> step c c' -> ledger b c -> ledger b c'.
Proof.
  intros Hs Hb Hst Hl. pose proof Hl as [H1 H2 H3]. pose proof (past_fin_range c.(c_state)) as Hp.
  destruct Hst as [c l|c e He|c st Ha|c Ht Hr|c p Hseg|c p _ _ _ Ha|c a _ _|c a _ _ _|c r _ Hr|c r _ Hr|c n Hn|c r Hr|c st Hf|c Ht];
    unfold field_update in *; cbn [c_out c_rcv_nxt c_state] in *.
  - by split.
  - apply ledger_out; [done|..]; by destruct He as [->|[-> | ->]].
  - apply calm_past_fin in Ha. split; cbn [c_out c_rcv_nxt c_state past_fin]; [done|lia|done].
  - split; cbn [c_out c_rcv_nxt c_state past_fin]; [done|lia|done].
  - apply ledger_out; [by split|done|]. intros _. rewrite (seg_ack _ _ Hseg). cbn [c_out]. lia.
  - apply ledger_out; [done|done|]. intros Hf. destruct (Ha Hf) as [->|Hh]; [lia|]. specialize (Hs _ Hh). lia.
  - by split.
  - by split.
  - specialize (Hs r Hr). split; cbn [c_out c_rcv_nxt c_state past_fin]; [done|lia|done].
  - specialize (Hs r Hr). split; cbn [c_out c_rcv_nxt c_state past_fin]; [done|lia|done].
  - split; unfold out; cbn [c_out c_rcv_nxt c_state field_update]; rewrite received_snoc; [lia|lia|]. apply Forall_app. split; [|by constructor].
    eapply covered_ack_mono; [|exact H3]. lia.
  - split; cbn [c_out c_rcv_nxt c_state past_fin]; [done|lia|done].
  - split; cbn [c_out c_rcv_nxt c_state past_fin]; [done| |done]. assert (past_fin (c_state c) = 0 /\ past_fin st = 1) as [E1 E2]; [|lia].
    by destruct (c_state c), st.
  - split; cbn [c_out c_rcv_nxt c_state past_fin]; [done|lia|done].
Qed.

Lemma rtc_ledger b c c' :
  (forall r, heard_syn r -> r <= b) -> -1 <= b -> rtc step c c' -> ledger b c -> ledger b c'.
Proof. intros Hs Hb. induction 1 as [|c1 c2 c3 Hst _ IH]; [done|]. intros Hl. by eapply IH, step_ledger. Qed.

(** Deliveries add up. *)
Lemma rtc_received c c' : rtc step c c' -> received c.(c_out) <= received c'.(c_out).
Proof.
  induction 1 as [|c1 c2 c3 Hst _ IH]; [lia|]. etransitivity; [|exact IH].
  destruct Hst as [|c e He| | | | | | | | |c n Hn| | |]; try (cbn [c_out field_update]; lia).
  - cbn [c_out out field_update]. rewrite received_snoc. destruct He as [->|[-> | ->]]; lia.
  - unfold out. cbn [c_out field_update]. rewrite received_snoc. lia.
  - unfold out. cbn [c_out field_update]. rewrite received_snoc. lia.
  - unfold out. cbn [c_out field_update]. rewrite received_snoc. lia.
Qed.

(** What counts as acknowledged has been heard. *)
Lemma rtc_highest m c c' :
  (forall a, heard_ack a -> a <= m) -> -1 <= m -> rtc step c c' -> c.(c_highest) <= m -> c'.(c_highest) <= m.
Proof.
  intros Ha Hm. induction 1 as [|c1 c2 c3 Hst _ IH]; [done|]. intros Hc. apply IH.
  destruct Hst as [| | | | | |c a Hh _|c a Hh _ _| | | | | |]; cbn in *; try done; by apply Ha.
Qed.

(** The output only grows. *)
Lemma rtc_out c c' : rtc step c c' -> c.(c_out) `prefix_of` c'.(c_out).
Proof.
  induction 1 as [|c1 c2 c3 H _ IH]; [done|]. etransitivity; [|exact IH].
  destruct H; cbn; first [reflexivity|by apply prefix_app_r].
Qed.
End Machine.
End FullTcpSpec.

(** * What the machine sees of an agent *)

Module FullTcpViews.
Import FullTcp FullTcpRecv FullTcpSpec TcpFlags.

Implicit Types (s : t) (m : Tcp.t) (a : TcpAgent.t).

Definition limit m : option Z :=
  if Tcp.infinite_send_ m then None else Some (Tcp.curseq_ m + 1).

(** [maxseg_] is set to [size_] before it is used. *)
Definition segsize m : Z :=
  if Tcp.maxseg_ m =? 0 then TcpAgent.size_ m.(Tcp.super) else Tcp.maxseg_ m.

Definition view s : core :=
  mkCore (state_ s) (segsize s.(me)) (limit s.(me)) (maxseq_ s) (highest_ack_ s) (rcv_nxt_ s) (out_ s).

Section Steps.
Context {HD : Heard}.

Definition steps s s' : Prop := rtc step (view s) (view s').

#[global] Instance steps_refl : Reflexive steps.
Proof. intros s. apply rtc_refl. Qed.

#[global] Instance steps_trans : Transitive steps.
Proof. intros s1 s2 s3. apply rtc_trans. Qed.

Lemma steps_view s s' : view s' = view s -> steps s s'.
Proof. unfold steps. intros ->. apply rtc_refl. Qed.

Lemma steps_one s c' s' : step (view s) c' -> view s' = c' -> steps s s'.
Proof. unfold steps. intros H ->. by apply rtc_once. Qed.
End Steps.

(** ** Functions that do not concern the peer *)

(** What the machine sees of the members of the base classes, and the class. *)
Definition aview a := (TcpAgent.curseq_ a, TcpAgent.maxseq_ a, TcpAgent.highest_ack_ a, TcpAgent.size_ a).
Definition mview m := (Tcp.cls m, Tcp.state_ m, Tcp.infinite_send_ m, Tcp.maxseg_ m, aview m.(Tcp.super)).

Lemma mview_view s m : mview m = mview s.(me) -> view (s <| me := m |>) = view s.
Proof.
  intros [= H1 H2 H3 H4 H5 H6 H7 H8]. unfold view, segsize, limit, state_, maxseq_, highest_ack_, Tcp.curseq_, agent. cbn.
  by rewrite H2, H3, H4, H5, H6, H7, H8.
Qed.

Section WithEnv.
Context `{Libm} (now : f64) (uniform : nat -> f64 -> f64).

Lemma flow_aview a a' : TcpAgentFacts.flow a' = TcpAgentFacts.flow a -> aview a' = aview a.
Proof. intros [= _ _ _ H4 H5 H6 _ _ H8]. unfold aview. congruence. Qed.

Lemma super_mview m a : aview a = aview m.(Tcp.super) -> mview (m <| Tcp.super := a |>) = mview m.
Proof. intros E. unfold mview. cbn. by rewrite E. Qed.

Lemma tcp_slowdown_view m m' how : TcpCong.slowdown m now how = Ok m' -> mview m' = mview m.
Proof.
  intros (R & _ & a & ->)%TcpCongFacts.slowdown_recovery. apply super_mview.
  unfold TcpCongFacts.recovery, Tcp.recover_, Tcp.maxseq_, Tcp.highest_ack_, Tcp.t_seqno_, Tcp.curseq_ in R.
  cbn in R. unfold aview. congruence.
Qed.

Lemma rtt_timeout_view c a a' r : TcpCong.rtt_timeout c a = Ok (a', r) -> aview a' = aview a.
Proof. intros E%TcpCongFacts.rtt_timeout_flow. by apply flow_aview. Qed.

Lemma rtt_backoff_view c a a' :
  TcpAgent.rtt_backoff (TcpCong.rtt_timeout c) a = Ok a' -> aview a' = aview a.
Proof.
  unfold TcpAgent.rtt_backoff. intros ([a1 d] & E1 & E)%res_bind_Ok. apply res_bind_Ok in E as (a2 & E2 & E).
  transitivity (aview a1).
  - destruct d; [apply res_bind_Ok in E2 as (b & _ & [= <-])|injection E2 as <-];
      (destruct (8 <? _); [apply res_bind_Ok in E as (v & _ & [= <-])|injection E as <-]; done).
  - destruct (_ <? 64); [by injection E1 as <- _|]. destruct (TcpAgent.rfc2988_ _); [|by injection E1 as <- _].
    apply res_bind_Ok in E1 as ([a3 r] & E1 & [= <- _]). by eapply rtt_timeout_view.
Qed.

Lemma on_super_view f m m' :
  (forall a', f m.(Tcp.super) = Ok a' -> aview a' = aview m.(Tcp.super)) ->
  TcpCong.on_super f m = Ok m' -> mview m' = mview m.
Proof. intros Hf (a & E & [= <-])%res_bind_Ok. by apply super_mview, Hf. Qed.

Lemma tcp_rtt_backoff_view m m' : TcpCong.rtt_backoff m = Ok m' -> mview m' = mview m.
Proof. apply on_super_view. intros a'. apply rtt_backoff_view. Qed.

Lemma ecn_slowdown_view m m' : TcpCong.ecn_slowdown m now = Ok m' -> mview m' = mview m.
Proof.
  unfold TcpCong.ecn_slowdown. destruct (EcnProcessor.get_send_tracker _);
    intros E%tcp_slowdown_view; rewrite E; done.
Qed.

Lemma tcp_ecn_view m m' seqno : TcpCong.ecn m now seqno = Ok m' -> mview m' = mview m.
Proof.
  unfold TcpCong.ecn. destruct (_ || _); [|by intros [= <-]].
  intros (m1 & E1 & E)%res_bind_Ok. apply res_bind_Ok in E as (m2 & E2 & E).
  apply res_bind_Ok in E as (n & _ & [= <-]). apply ecn_slowdown_view in E2. 
  change (mview m2 = mview m). rewrite E2. unfold TcpCong.ecn_small_window in E1.
  destruct (F64.le _ _); [destruct (EcnProcessor.ecn_backoff_ _)|].
  - apply tcp_rtt_backoff_view in E1. by rewrite E1.
  - by injection E1 as <-.
  - by injection E1 as <-.
Qed.

Lemma packet_prio_view m m' seqno datalen ip prio :
  TcpPrio.packet_prio m now seqno datalen ip = Ok (m', prio) -> mview m' = mview m.
Proof.
  unfold TcpPrio.packet_prio, TcpPrio.calc_pias_priority, TcpPrio.piasPrio, TcpPrio.calc_no_deadline_priority,
    TcpPrio.calc_unbounded_no_deadline_priority, TcpPrio.DDTcpAgent.calc_unbounded_no_deadline_priority,
    TcpPrio.SackFullTcpAgent.calc_unbounded_no_deadline_priority,
    TcpPrio.FullTcpAgent.calc_unbounded_no_deadline_priority.
  intros E. destruct (Tcp.cls m) eqn:?, (Tcp.prio_scheme_ m) eqn:?; bool_cases; inv_res; bool_cases; inv_res; done.
Qed.

Lemma nxt_tseq_loop_view fuel m seq m' r : TcpSack.nxt_tseq_loop fuel m seq = Ok (m', r) -> mview m' = mview m.
Proof.
  revert m seq. induction fuel as [|fuel IH]; intros m seq E; [done|]. cbn [TcpSack.nxt_tseq_loop] in E.
  destruct (ReassemblyQueue.nexthole _ _) as [q [[x n] b]].
  destruct (x <=? 0); [by injection E as <- _|]. destruct (TcpSack.worth_filling _ _ _).
  { injection E as <- _. by destruct (_ <? x). }
  destruct (n <=? 0); [by injection E as <- _|]. apply res_bind_Ok in E as (y & _ & E). apply IH in E. by rewrite E.
Qed.

Lemma nxt_tseq_view m m' r : TcpSack.nxt_tseq m = Ok (m', r) -> mview m' = mview m.
Proof.
  unfold TcpSack.nxt_tseq. destruct (Tcp.is_sack _); [|by intros [= <- _]].
  destruct (_ <? _); [apply nxt_tseq_loop_view|by intros [= <- _]].
Qed.

Lemma sent_view m m' seq amt : TcpSack.sent m seq amt = Ok m' -> mview m' = mview m.
Proof.
  assert (forall m, TcpSack.FullTcpAgent.sent m seq amt = Ok m' -> mview m' = mview m) as Hf.
  { intros m0. unfold TcpSack.FullTcpAgent.sent. intros E. apply res_bind_Ok in E as (m1 & E1 & E).
    apply res_bind_Ok in E as (v & _ & E). transitivity (mview m1).
    - destruct (_ <? _); [apply res_bind_Ok in E as (w & _ & [= <-])|injection E as <-]; done.
    - destruct (_ =? _); [apply res_bind_Ok in E1 as (w & _ & [= <-])|injection E1 as <-]; done. }
  unfold TcpSack.sent. destruct (Tcp.is_sack _); [|apply Hf]. unfold TcpSack.SackFullTcpAgent.sent.
  intros (m1 & E1 & ->%Hf)%res_bind_Ok.
  destruct (_ =? _); [apply res_bind_Ok in E1 as (w & _ & [= <-])|injection E1 as <-]; done.
Qed.

Lemma process_sack_view m m' p : TcpSack.process_sack m p = Ok m' -> mview m' = mview m.
Proof.
  unfold TcpSack.process_sack. destruct (Tcp.is_sack _); [|by intros [= <-]].
  destruct (_ <=? 0); [by intros [= <-]|]. by intros (q & _ & [= <-])%res_bind_Ok.
Qed.

Lemma drop_acked_view m m' : TcpSack.drop_acked m = Ok m' -> mview m' = mview m.
Proof.
  unfold TcpSack.drop_acked. destruct (_ && _); [|by intros [= <-]].
  by intros ([q f] & _ & [= <-])%res_bind_Ok.
Qed.

Lemma raise_h_seqno_view m : mview (TcpSack.raise_h_seqno m) = mview m.
Proof. unfold TcpSack.raise_h_seqno. by destruct (_ <? _). Qed.

Lemma sack_pack_action_view m m' : TcpSack.sack_pack_action m = Ok m' -> mview m' = mview m.
Proof.
  intros (m1 & E1 & E)%res_bind_Ok. apply res_bind_Ok in E as (v & _ & [= <-]).
  rewrite raise_h_seqno_view. by apply drop_acked_view in E1.
Qed.

Lemma sack_ack_action_view m m' : TcpSack.sack_ack_action m = Ok m' -> mview m' = mview m.
Proof.
  intros (m1 & E1 & [= <-])%res_bind_Ok. rewrite raise_h_seqno_view. apply drop_acked_view in E1. exact E1.
Qed.

Lemma reno_pack_action_view m : mview (TcpSack.reno_pack_action m) = mview m.
Proof. unfold TcpSack.reno_pack_action. by destruct (_ && _). Qed.

Lemma clear_scoreboard_view m : mview (TcpSack.clear_scoreboard m) = mview m.
Proof. unfold TcpSack.clear_scoreboard. by destruct (Tcp.clear_on_timeout_ m). Qed.

Lemma rtt_update_view a a' t0 tao : TcpAgent.rtt_update a t0 tao = Ok a' -> aview a' = aview a.
Proof.
  unfold TcpAgent.rtt_update. intros (r & _ & E)%res_bind_Ok. apply res_bind_Ok in E as (a1 & E1 & E).
  apply res_bind_Ok in E as (v & _ & E). apply res_bind_Ok in E as (w & _ & [= <-]).
  change (aview a1 = aview a). unfold TcpAgent.rtt_smooth in E1.
  destruct (negb _); inv_res; done.
Qed.

Lemma rtt_init_view a a' : TcpAgent.rtt_init a = Ok a' -> aview a' = aview a.
Proof. unfold TcpAgent.rtt_init. intros E. inv_res. done. Qed.

Lemma opencwnd_linear_view a a' : TcpAgent.opencwnd_linear a = Ok a' -> aview a' = aview a.
Proof.
  assert (forall a1 i, (let! i := TcpAgent.limit_slow_start a1 i in Ok (TcpAgent.incr_cwnd a1 i)) = Ok a' ->
    aview a' = aview a1) as Hl.
  { intros a1 i (j & _ & E)%res_bind_Ok. by injection E as <-. }
  assert (forall a1 f, aview (TcpAgent.accumulate a1 f) = aview a1) as Ha
    by (intros a1 f; unfold TcpAgent.accumulate; by destruct (F64.gt _ _)).
  assert (TcpAgent.opencwnd_count a = Ok a' -> aview a' = aview a) as Hc.
  { unfold TcpAgent.opencwnd_count. destruct (TcpAgent.lldct_ a); intros E; apply res_bind_Ok in E as (n & _ & E);
      repeat first [destruct (F64.ge _ _) | apply res_bind_Ok in E as (? & _ & E)]; by injection E as <-. }
  intros E. unfold TcpAgent.opencwnd_linear in E.
  repeat match type of E with
  | match ?x with _ => _ end = _ => destruct x eqn:?; try discriminate E
  end; try (injection E as <-; first [reflexivity|apply Ha]); try (by apply Hc);
    try (apply Hl in E as ->; unfold TcpAgent.increase_param in *; bool_cases; simplify_eq/=; done).
  apply res_bind_Ok in E as ([a1 i] & E1 & ->%Hl). destruct (TcpAgent.is_opencwnd_adjustment_enabled a);
    [|by injection E1 as <- _].
  apply res_bind_Ok in E1 as ([a2 j] & E1 & [= <- _]). unfold TcpAgent.opencwnd_multiplier in E1.
  destruct (EcnProcessor.ecnhat_enable_beta_ _); [by injection E1 as <- _|].
  destruct (EcnProcessor.get_send_tracker _); try discriminate E1. by injection E1 as <- _.
Qed.

Lemma opencwnd_view a a' : TcpAgent.opencwnd a = Ok a' -> aview a' = aview a.
Proof.
  unfold TcpAgent.opencwnd. intros (a1 & E1 & E)%res_bind_Ok. transitivity (aview a1).
  - unfold TcpAgent.cap_cwnd in E. destruct (_ =? 0); [by injection E as <-|].
    apply res_bind_Ok in E as (w & _ & [= <-]). by destruct (_ <? w).
  - destruct (F64.lt _ _).
    + destruct (EcnProcessor.ecnhat_enable_beta_ _); by injection E1 as <-.
    + apply opencwnd_linear_view in E1. rewrite E1. by destruct (TcpAgent.lldct_ a).
Qed.
End WithEnv.
End FullTcpViews.
