(* ===== verification/FullTcpRefine.v ===== *)
(** * The operations of the agent are steps of the machine

    For every function of [FullTcp] and [FullTcpRecv]: when it succeeds, the
    machine of [FullTcpSpec] can go from what it sees before to what it sees
    after.  Most functions only have to be left before the state becomes
    [LISTEN] ([goes]). *)

From Stdlib Require Import ZArith Lia Bool SpecFloat.
From stdpp Require Import base list gmap relations.
From S2P Require Import Prelude F64 PktQueue Rq Ecn TcpAgent Tcp TcpPrio TcpSack TcpCong FullTcp FullTcpRecv.
From S2P Require Import FullTcpSpec.

Module FullTcpRefine.
Import FullTcp FullTcpRecv FullTcpSpec FullTcpViews TcpFlags.

Implicit Types (s : t) (m : Tcp.t) (a : TcpAgent.t) (p : packet).

(** A successful computation whose intermediate results do not matter. *)
Ltac inv_ok E := repeat (cbv zeta in E; apply res_bind_Ok in E as (? & _ & E)); apply Ok_inj in E as <-.

Section Goes.
Context {HD : Heard}.

(** Steps of an agent that is not listening. *)
Definition ready s : Prop := state_ s <> Tcp.LISTEN /\ 0 <= segsize s.(me).

Definition goes s s' : Prop := ready s -> steps s s' /\ ready s'.

#[global] Instance goes_refl : Reflexive goes.
Proof. intros s Hs. by split. Qed.

#[global] Instance goes_trans : Transitive goes.
Proof. intros s1 s2 s3 H1 H2 Hs. destruct (H1 Hs) as [S1 N1]. destruct (H2 N1) as [S2 N2]. split; [by etransitivity|done]. Qed.

Lemma view_ready s s' : view s' = view s -> ready s -> ready s'.
Proof. intros [= H1 H2 _ _ _ _ _] [R1 R2]. split; congruence. Qed.

Lemma goes_view s s' : view s' = view s -> goes s s'.
Proof. intros E Hs. split; [by apply steps_view|by eapply view_ready]. Qed.

(** A step that leaves the state alone. *)
Lemma goes_step s c' s' : step (view s) c' -> view s' = c' -> c'.(c_state) = state_ s -> goes s s'.
Proof.
  intros H E Hc [R1 R2]. split; [by eapply steps_one|].
  assert (c_maxseg c' = c_maxseg (view s)) as Hg by (clear -H; by destruct H).
  rewrite <-E in Hc, Hg. cbn in Hc, Hg. split; congruence.
Qed.

Lemma goes_arc s s' st : calm (state_ s) st = true -> st <> Tcp.LISTEN ->
  view s' = view (newstate st s) -> goes s s'.
Proof.
  intros H Hst E [R1 R2]. split; [eapply steps_one; [by apply (step_arc (view s) st)|exact E]|].
  injection E as E1 E2 _ _ _ _ _. split; [by rewrite E1|by rewrite E2].
Qed.

Lemma goes_emit s e : e = Idle \/ e = DoneData \/ e = Done -> goes s (emit e s).
Proof. intros He. by eapply goes_step; [apply (step_notify (view s) e He)| |]. Qed.

Lemma set_tcp_view f s : mview (f s.(me)) = mview s.(me) -> view (set_tcp f s) = view s.
Proof. apply mview_view. Qed.

Lemma on_tcp_view f s s' :
  (forall m', f s.(me) = Ok m' -> mview m' = mview s.(me)) -> on_tcp f s = Ok s' -> view s' = view s.
Proof. intros Hf (m & E & [= <-])%res_bind_Ok. by apply mview_view, Hf. Qed.

Lemma on_agent_view f s s' :
  (forall a', f (agent s) = Ok a' -> aview a' = aview (agent s)) -> on_agent f s = Ok s' -> view s' = view s.
Proof. intros Hf. apply on_tcp_view. intros m'. by apply on_super_view. Qed.

End Goes.

Section WithEnv.
Context `{Libm} {HD : Heard} (now : f64) (uniform : nat -> f64 -> f64).

(** ** Timers and windows *)

Lemma set_agent_view s a : aview a = aview (agent s) -> view (set_agent (fun _ => a) s) = view s.
Proof. intros E. apply set_tcp_view. by apply super_mview. Qed.

Lemma set_rtx_timer_view s s' : set_rtx_timer now s = Ok s' -> view s' = view s.
Proof.
  intros ([a d] & E & [= <-])%res_bind_Ok. apply rtt_timeout_view in E. exact (set_agent_view s a E).
Qed.

Lemma slowdown_view how s s' : slowdown now how s = Ok s' -> view s' = view s.
Proof. apply on_tcp_view. intros m'. apply tcp_slowdown_view. Qed.

Lemma reset_rtx_timer_view s s' : reset_rtx_timer now s = Ok s' -> view s' = view s.
Proof.
  intros (s1 & E1 & E)%res_bind_Ok. apply res_bind_Ok in E as (s2 & E2 & [= <-]).
  change (view s2 = view s). rewrite (set_rtx_timer_view _ _ E2).
  destruct (negb _); [|by injection E1 as <-]. revert E1. apply on_tcp_view. intros m'. apply tcp_rtt_backoff_view.
Qed.

(** ** Sending *)

Lemma count_packet_view s s' datalen r : count_packet now s datalen r = Ok s' -> view s' = view s.
Proof.
  intros (s1 & E1 & E)%res_bind_Ok. transitivity (view s1).
  - destruct (is_rexmit r); inv_ok E; reflexivity.
  - destruct (datalen <=? 0); inv_ok E1; reflexivity.
Qed.

Lemma sendpacket_view s seqno ackno pflags datalen r s' :
  sendpacket now s seqno ackno pflags datalen r = Ok s' ->
  exists p, view s' = out (Send p) (view s) /\
    Tcp.seqno p = seqno /\ Tcp.ackno p = ackno /\ Tcp.flags p = pflags /\ payload p = datalen.
Proof.
  intros ([[[ts echo] blocks] opts] & _ & E)%res_bind_Ok. apply res_bind_Ok in E as (hlen & _ & E).
  destruct (EcnProcessor.on_sendpacket _ _ _ _) as [[[pr fl] fh] inf].
  apply res_bind_Ok in E as (size & [-> _]%chk_inv & E). apply res_bind_Ok in E as (s1 & E1 & E).
  apply res_bind_Ok in E as ([m prio] & E2 & [= <-]). apply count_packet_view in E1.
  apply packet_prio_view in E2. match goal with |- context [Send ?pk] => exists pk; set (pk' := pk) end.
  split; [|do 3 (split; [reflexivity|]); unfold payload; cbn; lia].
  set (s2 := s1 <| last_ack_sent_ := ackno |>) in *.
  assert (view (s2 <| me := m |>) = view s) as Ev by (rewrite (mview_view s2 m E2); exact E1).
  rewrite <-Ev. reflexivity.
Qed.

(** A packet that takes no sequence numbers. *)
Lemma control_steps s seqno ackno pflags r s' :
  sendpacket now s seqno ackno pflags 0 r = Ok s' ->
  contains_all pflags SYN = false -> contains_all pflags FIN = false ->
  (contains_all pflags ACK = true -> ackno = rcv_nxt_ s \/ heard_syn (ackno + 2)) -> goes s s' /\ steps s s'.
Proof.
  intros (p & E & _ & Ea & Ef & El)%sendpacket_view H1 H2 H3.
  assert (step (view s) (out (Send p) (view s))) as Hs
    by (apply step_control; unfold true_ack; rewrite ?El, ?Ef, ?Ea; done).
  split; [by eapply goes_step; [exact Hs|exact E|]|by eapply steps_one].
Qed.

Lemma contains_bit f b : 0 <= b -> contains_all f (2 ^ b) = Z.testbit f b.
Proof.
  intros Hb. unfold contains_all. destruct (Z.testbit f b) eqn:E.
  - apply Z.eqb_eq, Z.bits_inj'. intros n Hn. rewrite Z.land_spec, Z.pow2_bits_eqb by done.
    destruct (Z.eqb_spec b n) as [->|]; [by rewrite E|apply andb_false_r].
  - apply Z.eqb_neq. intros H1. apply (f_equal (fun z => Z.testbit z b)) in H1.
    rewrite Z.land_spec, Z.pow2_bits_true, E in H1; done.
Qed.

Lemma contains_FIN f : contains_all f FIN = Z.testbit f 0.
Proof. by apply (contains_bit f 0). Qed.

Lemma contains_SYN f : contains_all f SYN = Z.testbit f 1.
Proof. by apply (contains_bit f 1). Qed.

Lemma set_flags_bit f g b : Z.testbit (set_flags f g) b = Z.testbit f b || Z.testbit g b.
Proof. apply Z.lor_spec. Qed.

Lemma clear_flags_bit f g b : 0 <= b -> Z.testbit (clear_flags f g) b = Z.testbit f b && negb (Z.testbit g b).
Proof. intros Hb. unfold clear_flags. by rewrite Z.land_spec, Z.lnot_spec. Qed.

(** The processor leaves SYN and FIN alone. *)
Lemma modify_pflags_bit e f rex e' f' b :
  EcnProcessor.modify_pflags_on_foutput e f rex = (e', f') -> b = 0 \/ b = 1 -> Z.testbit f' b = Z.testbit f b.
Proof.
  intros E Hb.
  assert (Z.testbit ECE b = false /\ Z.testbit CWR b = false) as [He Hc] by (by destruct Hb as [-> | ->]).
  assert (0 <= b) as H0 by lia.
  unfold EcnProcessor.modify_pflags_on_foutput, EcnProcessor.set_ce_if_needed in E.
  repeat match type of E with
  | (if ?x then _ else _) = _ => destruct x
  | (let '(_, _) := if ?x then _ else _ in _) = _ => destruct x
  end; injection E as _ <-; bool_cases;
    rewrite ?set_flags_bit, ?clear_flags_bit, ?set_flags_bit, ?He, ?Hc, ?orb_false_r, ?andb_true_r by done; done.
Qed.

Lemma raise_maxseq_view s seqno highest :
  view (raise_maxseq now s seqno highest) = (view s) <| c_maxseq := Z.max (maxseq_ s) highest |>.
Proof.
  unfold raise_maxseq. destruct (Z.ltb_spec (maxseq_ s) highest) as [H1|H1].
  - rewrite Z.max_r by lia. destruct (_ && _); reflexivity.
  - rewrite Z.max_l by lia. by destruct s.
Qed.

Lemma tack_on_fin_goes s pflags fin s' pflags' fin' :
  tack_on_fin s pflags fin = (s', pflags', fin') ->
  fin = contains_all pflags FIN -> (fin = true -> may_fin (state_ s)) ->
  goes s s' /\ fin' = contains_all pflags' FIN /\ contains_all pflags' SYN = contains_all pflags SYN /\
  (fin' = true -> may_fin (state_ s')) /\ limit s'.(me) = limit s.(me) /\
  segsize s'.(me) = segsize s.(me) /\ rcv_nxt_ s' = rcv_nxt_ s /\
  (state_ s' = state_ s \/ pflags' = set_flags pflags FIN /\ state_ s' = Tcp.FIN_WAIT_1).
Proof.
  unfold tack_on_fin. intros E Hf Hm. destruct (has_flag s TF_NEEDCLOSE).
  2: { injection E as <- <- <-. split; [done|]. split_and!; try done. by left. }
  destruct ((Tcp.state_num _ <=? 4) && _) eqn:Es; injection E as <- <- <-.
  2: { split; [by apply goes_view|]. repeat split; try done. by left. }
  apply andb_true_iff in Es as [E1 E2]. change (state_ (clear_flag TF_NEEDCLOSE s)) with (state_ s) in *.
  assert (state_ s <> Tcp.CLOSED) as Hc by (intros Hc; rewrite Hc in E2; done).
  split; [|rewrite !contains_FIN, !contains_SYN, !set_flags_bit, orb_true_r, orb_false_r; repeat split; [by left|by right]].
  intros [Hl Hg]. split; [|done].
  apply (steps_one _ ((view s) <| c_state := Tcp.FIN_WAIT_1 |>)); [|reflexivity]. apply step_arc.
  cbn. clear -E1 Hc Hl. destruct (state_ s); try done; cbn in E1; done.
Qed.

(** What [foutput] may send. *)
Definition sendable s (seqno pflags datalen : Z) : Prop :=
  0 <= datalen <= segsize s.(me) /\ (0 < datalen -> within (limit s.(me)) (seqno + datalen)) /\
  (contains_all pflags SYN = true -> may_syn (state_ s)) /\
  (contains_all pflags FIN = true -> may_fin (state_ s)).


Lemma sendable_segment s p :
  sendable s p.(Tcp.seqno) p.(Tcp.flags) (payload p) -> p.(Tcp.ackno) = rcv_nxt_ s -> segment (view s) p.
Proof. intros (H1 & H2 & H3 & H4) Ha. by constructor. Qed.

Lemma sendable_flags s s' seqno f f' datalen :
  sendable s seqno f datalen -> limit s'.(me) = limit s.(me) -> segsize s'.(me) = segsize s.(me) ->
  (contains_all f' SYN = true -> contains_all f SYN = true) ->
  (state_ s' = state_ s \/ state_ s' = Tcp.FIN_WAIT_1) ->
  (contains_all f' FIN = true -> may_fin (state_ s')) -> sendable s' seqno f' datalen.
Proof.
  intros (H1 & H2 & H3 & H4) El Eg Hs Hst Hf. split; [by rewrite Eg|]. rewrite El. split; [done|]. split; [|done].
  intros Hs'. specialize (H3 (Hs Hs')). destruct Hst as [->| ->]; [done|by right; right].
Qed.

Lemma transmit_goes s seqno pflags datalen rex r s' amt :
  sendable s seqno pflags datalen -> transmit now s seqno pflags datalen rex r = Ok (s', amt) ->
  goes s s' /\ 0 <= amt.
Proof.
  intros Hs E. unfold transmit in E. destruct (EcnProcessor.modify_pflags_on_foutput _ _ _) as [e f1] eqn:Em.
  set (s1 := set_ecn (fun _ => e) s) in *.
  set (f2 := if _ && _ && _ then _ else _) in E.
  assert (forall b, b = 0 \/ b = 1 -> Z.testbit f2 b = Z.testbit pflags b) as Hbits.
  { intros b Hb. rewrite <-(modify_pflags_bit _ _ _ _ _ _ Em Hb). subst f2.
    destruct (_ && _); [|done]. rewrite set_flags_bit. destruct Hb as [-> | ->]; apply orb_false_r. }
  destruct (tack_on_fin s1 f2 _) as [[s2 f3] fin] eqn:Et.
  assert (contains_all f2 FIN = contains_all pflags FIN) as Hfin by (rewrite !contains_FIN; apply Hbits; by left).
  assert (contains_all f2 SYN = contains_all pflags SYN) as Hsyn by (rewrite !contains_SYN; apply Hbits; by right).
  apply tack_on_fin_goes in Et as (G & -> & Hs3 & Hf3 & El & Eg & Er & Hst);
    [|by rewrite Hfin|intros Hf; by apply Hs]. rewrite Hsyn in Hs3.
  apply res_bind_Ok in E as (s4 & E4 & E). apply res_bind_Ok in E as (r1 & [-> _]%chk_inv & E).
  apply res_bind_Ok in E as (r2 & [-> _]%chk_inv & E). apply res_bind_Ok in E as (h & [-> _]%chk_inv & E).
  apply res_bind_Ok in E as (s5 & E5 & [= <- <-]). split; [|by destruct Hs as [H1 _], (contains_all pflags SYN), (contains_all f3 FIN); cbn; lia].
  apply sendpacket_view in E4 as (p & E4 & <- & Ea & <- & <-).
  transitivity s2; [exact G|].
  assert (view s5 = out (Send p) ((view s2) <| c_maxseq := Z.max (maxseq_ s2) (Tcp.seqno p + seq_len p) |>)) as E6.
  { match type of E5 with (if _ then set_rtx_timer _ ?x else _) = _ => transitivity (view x) end.
    { match type of E5 with (if ?b then _ else _) = _ => destruct b end;
        [by eapply set_rtx_timer_view|by injection E5 as <-]. }
    rewrite raise_maxseq_view. unfold seq_len. rewrite Hs3.
    set (s6 := clear_flag _ s4). match goal with |- context [maxseq_ ?x] => set (s7 := x) end.
    assert (view s7 = view s4) as Ev
      by (subst s7; match goal with |- context [if ?b then _ else _] => destruct b end; reflexivity).
    assert (maxseq_ s7 = maxseq_ s2) as -> by (apply (f_equal c_maxseq) in Ev; rewrite E4 in Ev; exact Ev).
    rewrite Ev.
    rewrite E4. reflexivity. }
  eapply goes_step; [apply (step_send (view s2) p)|exact E6|done].
  apply sendable_segment; [|exact Ea]. eapply (sendable_flags s); [exact Hs|exact El|exact Eg|by rewrite Hs3| |exact Hf3].
  destruct Hst as [Hst|[_ Hst]]; [left; exact Hst|by right].
Qed.

(** ** foutput *)

Lemma raw_datalen_within s seqno syn d b :
  raw_datalen s seqno syn = Ok (d, b) -> 0 < d -> within (limit s.(me)) (seqno + d).
Proof.
  intros (win & _ & E)%res_bind_Ok Hd. apply res_bind_Ok in E as ([bytes off] & Eb & E).
  apply res_bind_Ok in E as (d' & Ed & [= -> ->]). unfold within, limit.
  change (Tcp.infinite_send_ s.(me)) with (infinite_send_ s) in *.
  destruct (infinite_send_ s) eqn:Ei; [done|]. change (Tcp.curseq_ s.(me)) with (curseq_ s).
  assert (b - off <= curseq_ s + 1 - seqno) as Hb.
  { unfold buffered in Eb. rewrite Ei in Eb. apply res_bind_Ok in Eb as (x & Ex & Eb).
    apply res_bind_Ok in Ex as (y & [-> _]%chk_inv & [-> _]%chk_inv).
    apply res_bind_Ok in Eb as (z & [-> _]%chk_inv & Eb). destruct (highest_ack_ s <? 0); [|injection Eb as <- <-; lia].
    apply res_bind_Ok in Eb as (y & [-> _]%chk_inv & Eb). apply res_bind_Ok in Eb as (z & [-> _]%chk_inv & [= <- <-]). lia. }
  destruct (_ && _); [injection Ed as <-; lia|].
  destruct (pipectrl_ s); apply chk_inv in Ed as [-> _]; lia.
Qed.

Lemma one_segment_range s d : 0 <= maxseg_ s -> 0 <= one_segment s d <= maxseg_ s /\ (0 < one_segment s d -> one_segment s d <= d).
Proof.
  intros Hm. unfold one_segment. destruct (Z.ltb_spec d 0); [lia|]. destruct (Z.ltb_spec (maxseg_ s) d); lia.
Qed.

Lemma restart_after_idle_view s s' quiet d : restart_after_idle now s quiet d = Ok s' -> view s' = view s.
Proof.
  unfold restart_after_idle. destruct (_ && _); [|by intros [= <-]].
  intros (b & _ & E)%res_bind_Ok. destruct b; [by eapply slowdown_view|by injection E as <-].
Qed.

(** The flags, whatever the packet does to the buffer, are those of the state
    and PSH, or fewer. *)
Lemma empty_buffer_goes s syn quiet pflags seqno d s' pflags' emp :
  empty_buffer s syn quiet pflags seqno d = Ok (s', pflags', emp) ->
  goes s s' /\ limit s'.(me) = limit s.(me) /\ segsize s'.(me) = segsize s.(me) /\ state_ s' = state_ s /\
  contains_all pflags' SYN = contains_all pflags SYN /\
  (contains_all pflags' FIN = true -> contains_all pflags FIN = true).
Proof.
  intros (e & _ & E)%res_bind_Ok. set (b := negb _ && _) in E.
  assert (forall f (c : bool), contains_all (if c then set_flags f PUSH else f) SYN = contains_all f SYN) as Hs.
  { intros f c. rewrite !contains_SYN. destruct c; [|done]. rewrite set_flags_bit. apply orb_false_r. }
  assert (forall f (c : bool), contains_all (if c then set_flags f PUSH else f) FIN = contains_all f FIN) as Hf.
  { intros f c. rewrite !contains_FIN. destruct c; [|done]. rewrite set_flags_bit. apply orb_false_r. }
  destruct b; cbv zeta in E; injection E as <- <- _; rewrite !Hs, !Hf.
  - rewrite (Hs pflags true), (Hf pflags true). destruct syn; [by split_and!|].
    assert (goes s (emit Idle s)) as Hg by (apply goes_emit; by left).
    destruct (_ && _); [|by split_and!]. split; [|by split_and!].
    transitivity (emit Idle s); [exact Hg|]. by apply goes_view.
  - split_and!; try done.
    + rewrite !contains_SYN, clear_flags_bit by done. apply andb_true_r.
    + rewrite !contains_FIN, clear_flags_bit by done. by intros [H1 _]%andb_true_iff.
Qed.

Lemma outflags_state s :
  (contains_all (outflags s) SYN = true -> may_syn (state_ s)) /\
  (contains_all (outflags s) FIN = true -> may_fin (state_ s)).
Proof.
  unfold outflags, may_syn, may_fin. destruct (state_ s); cbn; split; try discriminate; intros _; tauto.
Qed.


Lemma use_size_view s :
  let s0 := if maxseg_ s =? 0
            then set_tcp (fun m => m <| Tcp.maxseg_ := TcpAgent.size_ m.(Tcp.super) |>) s else s in
  view s0 = view s /\ maxseg_ s0 = segsize s.(me) /\ outflags s0 = outflags s.
Proof.
  cbn zeta. unfold view, segsize. change (Tcp.maxseg_ s.(me)) with (maxseg_ s).
  destruct (Z.eqb_spec (maxseg_ s) 0) as [H0|H0].
  - set (n := TcpAgent.size_ (Tcp.super s.(me))). split; [|done]. cbn. fold n.
    by destruct (Z.eqb_spec n 0) as [H1|H1].
  - change (Tcp.maxseg_ s.(me)) with (maxseg_ s). by rewrite (proj2 (Z.eqb_neq _ _) H0).
Qed.

Lemma FullTcpAgent_foutput_goes s seqno r s' amt :
  ready s -> FullTcpAgent_foutput now s seqno r = Ok (s', amt) -> goes s s' /\ 0 <= amt.
Proof.
  intros Hr E. unfold FullTcpAgent_foutput in E. destruct (use_size_view s) as (V0 & M0 & O0).
  match type of V0 with view ?x = _ => set (s0 := x) in * end.
  apply res_bind_Ok in E as ([d bytes] & Ed & E). set (s1 := if _ && _ then bufferempty s0 else s0) in E.
  assert (goes s0 s1 /\ (limit s1.(me), segsize s1.(me), state_ s1, maxseg_ s1) =
    (limit s0.(me), segsize s0.(me), state_ s0, maxseg_ s0)) as [G1 F1].
  { subst s1. destruct (_ && _); [|done]. split; [|done]. unfold bufferempty.
    transitivity (set_tcp (fun m => m <| Tcp.signal_on_empty_ := false |>) s0); [by apply goes_view|].
    apply goes_emit. by right; left. }
  injection F1 as L1 Z1 T1 M1. cbn beta zeta in E. set (dl := one_segment s1 d) in E.
  apply res_bind_Ok in E as (s2 & E2 & E). apply restart_after_idle_view in E2.
  apply res_bind_Ok in E as ([[s3 fl] emp] & E3 & E).
  apply empty_buffer_goes in E3 as (G3 & L3 & Z3 & T3 & Hs & Hf).
  assert (goes s s3) as G.
  { transitivity s0; [by apply goes_view|]. transitivity s1; [done|]. transitivity s2; [by apply goes_view|done]. }
  destruct (must_send _ _ _ _ _ _ _); [|by injection E as <- <-].
  assert (sendable s3 seqno fl dl) as Hsend.
  { injection V0 as T0 Z0 L0 _ _ _ _. injection E2 as T2 Z2 L2 _ _ _ _.
    destruct Hr as [Hl Hg]. destruct (one_segment_range s1 d ltac:(congruence)) as [R1 R2]. fold dl in R1, R2.
    split; [rewrite Z3, Z2, Z1, Z0, <-M0, <-M1; lia|]. split; [|split].
    - intros Hdl. rewrite L3, L2, L1, L0. specialize (R2 Hdl). 
      pose proof (raw_datalen_within _ _ _ _ _ Ed ltac:(lia)) as Hw. rewrite L0 in Hw.
      unfold within in *. destruct (limit s.(me)); [lia|done].
    - rewrite Hs, T3, T2, T1, O0, T0. apply outflags_state.
    - intros Hfl. rewrite T3, T2, T1, T0. apply outflags_state. rewrite <-O0. by apply Hf. }
  destruct (transmit_goes _ _ _ _ _ _ _ _ Hsend E) as [G4 Ha]. split; [by transitivity s3|done].
Qed.

Lemma give_up_deadline_view s s' : give_up_deadline now s = Ok s' -> view s' = view s.
Proof.
  unfold give_up_deadline. destruct (negb _); [|by intros [= <-]].
  intros (x & _ & [= <-])%res_bind_Ok. by destruct (F64.lt _ _).
Qed.

Lemma foutput_goes s seqno r s' amt :
  ready s -> foutput now s seqno r = Ok (s', amt) -> goes s s' /\ 0 <= amt.
Proof.
  unfold foutput. intros Hr E. destruct (cls s); try by eapply FullTcpAgent_foutput_goes.
  apply res_bind_Ok in E as (s1 & E1%give_up_deadline_view & E).
  destruct (FullTcpAgent_foutput_goes s1 _ _ _ _ (view_ready _ _ E1 Hr) E) as [G Ha].
  split; [|done]. transitivity s1; [by apply goes_view|done].
Qed.

(** ** send_much *)

Lemma send_loop_goes fuel s force r mb n s' :
  ready s -> send_loop now uniform fuel s force r mb n = Ok s' -> goes s s'.
Proof.
  revert s force n. induction fuel as [|fuel IH]; intros s force n Hr E; [done|]. cbn [send_loop] in E.
  apply res_bind_Ok in E as ([m seq] & E1 & E). apply nxt_tseq_view in E1. cbv zeta in E.
  set (s1 := s <| me := m |>) in E. assert (view s1 = view s) as V1 by by apply mview_view.
  transitivity s1; [by apply goes_view|]. pose proof (view_ready _ _ V1 Hr) as Hr1.
  apply res_bind_Ok in E as (ok & _ & E). destruct (negb ok); [by injection E as <-|].
  destruct (_ && _); [by injection E as <-; apply goes_view|].
  apply res_bind_Ok in E as ([s2 amt] & E2 & E).
  apply foutput_goes in E2 as [G2 _]; [|done]. transitivity s2; [done|]. destruct (G2 Hr1) as [_ Hr2].
  destruct (amt <=? 0); [by injection E as <-|]. apply res_bind_Ok in E as (amt' & _ & E).
  apply res_bind_Ok in E as (s3 & E3 & E).
  assert (view s3 = view s2) as V3 by (revert E3; apply on_tcp_view; intros m'; apply sent_view).
  transitivity s3; [by apply goes_view|]. pose proof (view_ready _ _ V3 Hr2) as Hr3.
  destruct (contains_any _ _); [by injection E as <-|]. destruct (negb _).
  - apply res_bind_Ok in E as (k & _ & E). destruct (_ <=? k); [by injection E as <-|by eapply IH].
  - by eapply IH.
Qed.

Lemma send_much_goes s force r mb s' : ready s -> send_much now uniform s force r mb = Ok s' -> goes s s'.
Proof. unfold send_much. intros Hr. destruct (_ && _); [by intros [= <-]|by apply send_loop_goes]. Qed.

(** ** Automation

    [learn E]: what a successful call means for the machine.  [chain]: the
    steps from one state to another, put together from those of the calls in
    between. *)

Lemma goes_send_much s force r mb s' : send_much now uniform s force r mb = Ok s' -> goes s s'.
Proof. intros E Hr. exact (send_much_goes _ _ _ _ _ Hr E Hr). Qed.

Lemma goes_foutput s seqno r s' amt : foutput now s seqno r = Ok (s', amt) -> goes s s'.
Proof. intros E Hr. destruct (foutput_goes _ _ _ _ _ Hr E) as [G _]. exact (G Hr). Qed.

(** ** Calls of the user *)

Lemma goes_limit s v : goes s (set_curseq v s).
Proof.
  eapply goes_step; [apply (step_limit (view s) (limit (set_curseq v s).(me)))| |]; done.
Qed.

Lemma goes_finite s b : goes s (set_tcp (fun m => m <| Tcp.infinite_send_ := b |>) s).
Proof.
  eapply goes_step; [apply (step_limit (view s) (limit (set_tcp (fun m => m <| Tcp.infinite_send_ := b |>) s).(me)))| |]; done.
Qed.

(** Steps from any state, [LISTEN] included, on which a ready state follows. *)
Definition starts s s' : Prop := 0 <= segsize s.(me) -> steps s s' /\ ready s'.

Lemma starts_goes s s1 s' : starts s s1 -> goes s1 s' -> starts s s'.
Proof. intros H1 H2 Hg. destruct (H1 Hg) as [S1 R1]. destruct (H2 R1) as [S2 R2]. split; [by etransitivity|done]. Qed.

Lemma goes_starts s s' : state_ s <> Tcp.LISTEN -> goes s s' -> starts s s'.
Proof. intros Hl G Hg. by apply G. Qed.

Lemma starts_arc s st : calm (state_ s) st = true -> st <> Tcp.LISTEN -> starts s (newstate st s).
Proof.
  intros Ha Hst Hg. split; [|by split]. eapply steps_one; [by apply (step_arc (view s) st)|done].
Qed.

Lemma connect_starts s s' :
  state_ s = Tcp.CLOSED \/ state_ s = Tcp.LISTEN -> rcv_nxt_ s = -1 -> connect now s = Ok s' -> starts s s'.
Proof.
  intros Hs Hr ([s1 amt] & E1 & E)%res_bind_Ok. apply goes_foutput in E1.
  assert (view s' = view s1) as E2 by (revert E; apply on_tcp_view; intros m'; apply sent_view).
  eapply (starts_goes _ (newstate Tcp.SYN_SENT s)).
  { intros Hg. split; [by eapply steps_one; [apply (step_connect (view s) Hs Hr)|]|by split]. }
  transitivity s1; [exact E1|by apply goes_view].
Qed.

Lemma usrclosed_starts s s' : usrclosed now uniform s = Ok s' -> starts s s'.
Proof.
  intros (c & _ & E)%res_bind_Ok. cbv zeta in E.
  set (s1 := set_tcp _ (set_curseq c s)) in E.
  assert (goes s s1) as G1 by (transitivity (set_curseq c s); [apply goes_limit|apply goes_finite]).
  assert (steps s s1) as S1.
  { unfold steps. eapply rtc_l; [apply (step_limit _ (limit (set_curseq c s).(me)))|].
    eapply rtc_l; [apply (step_limit _ (limit s1.(me)))|]. apply rtc_refl. }
  assert (forall s2, starts s1 s2 -> starts s s2) as Hgo.
  { intros s2 H2 Hg. destruct (H2 Hg) as [S2 R2]. split; [by etransitivity|done]. }
  apply Hgo. clear Hgo.
  assert (forall x, send_much now uniform (set_flag TF_NEEDFIN x) true Tcp.TcpXmissionReason.NORMAL (maxburst_ x) = Ok s' ->
    goes x s') as Hc by (intros x E1%goes_send_much; transitivity (set_flag TF_NEEDFIN x); [by apply goes_view|done]).

  assert (forall st, calm (state_ s1) st = true -> st <> Tcp.LISTEN -> goes (newstate st s1) s' -> starts s1 s') as Ha
    by (intros st H1 H2; apply starts_goes; by apply starts_arc).
  assert (forall x, goes x (finish (newstate Tcp.CLOSED (cancel_timers x))) \/ state_ x <> Tcp.CLOSED) as Hcl.
  { intros x. destruct (decide (state_ x = Tcp.CLOSED)) as [Ex|]; [left|by right].
    transitivity (newstate Tcp.CLOSED (cancel_timers x)); [apply goes_view; unfold view; cbn; by rewrite <-Ex|].
    apply goes_emit. by right; right. }
  destruct (state_ s1) eqn:Es.
  - injection E as <-. apply goes_starts; [by rewrite Es|]. by destruct (Hcl s1).
  - injection E as <-. apply (Ha Tcp.CLOSED); [done..|].
    transitivity (newstate Tcp.CLOSED (cancel_timers s1)); [by apply goes_view|]. apply goes_emit. by right; right.
  - apply (Ha Tcp.CLOSED); [done..|by apply Hc].
  - apply (Ha Tcp.FIN_WAIT_1); [done..|by apply Hc].
  - apply (Ha Tcp.FIN_WAIT_1); [done..|by apply Hc].
  - apply (Ha Tcp.LAST_ACK); [done..|by apply Hc].
  - injection E as <-. apply goes_starts; [by rewrite Es|done].
  - injection E as <-. apply goes_starts; [by rewrite Es|done].
  - apply goes_starts; [by rewrite Es|by apply Hc].
  - injection E as <-. apply goes_starts; [by rewrite Es|done].
Qed.

(** ** Starting over *)

Lemma set_initial_window_view s s' : set_initial_window s = Ok s' -> view s' = view s.
Proof.
  unfold set_initial_window. destruct (_ && _); [by intros [= <-]|]. by intros (w & _ & [= <-])%res_bind_Ok.
Qed.

Lemma reset_hstcp_view s s' : reset_hstcp s = Ok s' -> view s' = view s.
Proof. unfold reset_hstcp. destruct (_ =? 8); [|by intros [= <-]]. by intros (x & _ & [= <-])%res_bind_Ok. Qed.

(** What the machine sees after a reset: nothing sent, acknowledged or
    received. *)
Definition wiped s s' : Prop :=
  exists l, view s' = (view s) <| c_limit := l |> <| c_maxseq := -1 |> <| c_highest := -1 |> <| c_rcv_nxt := -1 |>.

Lemma wiped_view s s1 s2 s' : view s1 = view s -> wiped s1 s2 -> view s' = view s2 -> wiped s s'.
Proof. intros E1 [l E2] E3. exists l. by rewrite E3, E2, E1. Qed.

Lemma reset_ssthresh_view s s' : reset_ssthresh s = Ok s' -> view s' = view s.
Proof. by intros (w & _ & [= <-])%res_bind_Ok. Qed.

Lemma draw_boot_time_view s : view (draw_boot_time uniform s) = view s.
Proof. reflexivity. Qed.

Lemma reset_rtt_view s : view (reset_rtt s) = (view s) <| c_limit := c_limit (view (reset_rtt s)) |>.
Proof. reflexivity. Qed.

Lemma reset_numbers_view s : view (reset_numbers s) = (view s) <| c_maxseq := -1 |> <| c_highest := -1 |>.
Proof. reflexivity. Qed.

Lemma reset_rest_view s : view (remember_highest_ack (cancel_timers (reset_counters s))) = view s.
Proof. unfold remember_highest_ack. by destruct (control_increase_ _). Qed.

Lemma TcpAgent_reset_view s s' : TcpAgent_reset uniform s = Ok s' ->
  exists l, view s' = (view s) <| c_limit := l |> <| c_maxseq := -1 |> <| c_highest := -1 |>.
Proof.
  intros (s1 & E1 & E)%res_bind_Ok.
  apply (on_agent_view _ _ _ (fun a => rtt_init_view (agent s) a)) in E1.
  apply res_bind_Ok in E as (s2 & E2%set_initial_window_view & E).
  apply res_bind_Ok in E as (s3 & E3%reset_ssthresh_view & E%reset_hstcp_view).
  rewrite E, reset_rest_view, draw_boot_time_view, E3, reset_numbers_view, E2, reset_rtt_view, E1.
  by eexists.
Qed.

Lemma reset_receiver_view s : view (reset_receiver s) = (view s) <| c_rcv_nxt := -1 |>.
Proof. reflexivity. Qed.

Lemma reset_sender_view s : view (reset_sender s) = (view s) <| c_maxseq := -1 |>.
Proof. reflexivity. Qed.

Lemma reset_flow_view s : view (reset_flow (reset_times s)) = view s.
Proof. reflexivity. Qed.

Lemma clear_rq_view s : view (clear_rq s) = view s.
Proof. reflexivity. Qed.

Lemma cancel_timers_view s : view (cancel_timers s) = view s.
Proof. reflexivity. Qed.

Lemma FullTcpAgent_reset_wiped s s' : FullTcpAgent_reset uniform s = Ok s' -> wiped s s'.
Proof.
  intros (s1 & [l E1]%TcpAgent_reset_view & (s2 & E2 & <-%Ok_inj)%res_bind_Ok)%res_bind_Ok.
  apply (on_agent_view _ _ _ (fun a => rtt_init_view _ a)) in E2. rewrite clear_rq_view in E2.
  exists l. by rewrite reset_flow_view, reset_sender_view, reset_receiver_view, E2, E1, cancel_timers_view.
Qed.

Lemma reset_wiped s s' : reset uniform s = Ok s' -> wiped s s'.
Proof.
  unfold reset. destruct (Tcp.is_sack (cls s)); [|apply FullTcpAgent_reset_wiped].
  match goal with |- FullTcpAgent_reset _ ?x = _ -> _ => set (s0 := x); assert (view s0 = view s) as E0 by done end.
  intros [l E]%FullTcpAgent_reset_wiped. exists l. by rewrite E, E0.
Qed.

Lemma wiped_steps s s' : wiped s s' -> state_ s = Tcp.CLOSED \/ state_ s = Tcp.LISTEN ->
  steps s s' /\ state_ s' = state_ s /\ segsize s'.(me) = segsize s.(me) /\ rcv_nxt_ s' = -1.
Proof.
  intros [l E] Hs. split.
  - unfold steps. rewrite E. eapply rtc_l; [apply (step_limit _ l)|]. eapply rtc_once. by apply step_reset.
  - by injection E.
Qed.

Lemma goes_queue_bytes s nb s' : queue_bytes s nb = Ok s' -> goes s s'.
Proof.
  intros (c & _ & <-%Ok_inj)%res_bind_Ok. transitivity (if curseq_ s <? iss_ s then set_curseq (iss_ s) s else s).
  - destruct (_ <? _); [apply goes_limit|done].
  - apply goes_limit.
Qed.

Lemma advance_bytes_steps s nb s' : 0 <= segsize s.(me) -> advance_bytes now uniform s nb = Ok s' -> steps s s'.
Proof.
  intros Hg (s1 & E1 & E)%res_bind_Ok.
  assert (steps s s1 /\ 0 <= segsize s1.(me)) as [S1 G1].
  { assert (forall x, (state_ s = Tcp.CLOSED \/ state_ s = Tcp.LISTEN) ->
      (let! s := reset uniform s in let! c := iadd (iss_ s) nb in connect now (set_curseq c s)) = Ok x ->
      steps s x /\ 0 <= segsize x.(me)) as Hr.
    { intros x Hs (s2 & E2%reset_wiped & (c & _ & E3)%res_bind_Ok)%res_bind_Ok.
      destruct (wiped_steps _ _ E2 Hs) as (S2 & T2 & Z2 & N2).
      destruct (connect_starts (set_curseq c s2) x) as [S3 [_ R3]];
        [by change (state_ (set_curseq c s2)) with (state_ s2); rewrite T2|exact N2|done
        |by change (0 <= segsize s2.(me)); rewrite Z2|].
      split; [|done]. etransitivity; [exact S2|]. etransitivity; [|exact S3].
      apply rtc_once. apply (step_limit (view s2) (limit (set_curseq c s2).(me))). }
    assert (state_ s <> Tcp.LISTEN -> queue_bytes s nb = Ok s1 -> steps s s1 /\ 0 <= segsize s1.(me)) as Hq
      by (intros Hl E2%goes_queue_bytes; destruct (E2 (conj Hl Hg)) as [S2 [_ R2]]; done).
    destruct (state_ s) eqn:Es; first [by apply Hr; [tauto|] | by apply Hq | by apply Ok_inj in E1 as <-]. }
  destruct (bool_decide_reflect (state_ s1 = Tcp.ESTABLISHED)) as [He|He]; [|by apply Ok_inj in E as <-].
  apply goes_send_much in E. destruct E as [S2 _]; [by split; [rewrite He|]|]. by etransitivity.
Qed.

Lemma clear_ndatabytes_view s : view (clear_ndatabytes s) = view s.
Proof. reflexivity. Qed.

Lemma stamp_flow_view s : view (stamp_flow now s) = view s.
Proof. reflexivity. Qed.

Lemma set_cwnd_view w s : view (set_cwnd w s) = view s.
Proof. reflexivity. Qed.

Lemma leave_prob_mode_view s : view (leave_prob_mode s) = view s.
Proof. reflexivity. Qed.

Lemma mark_flow_start_view s : view (mark_flow_start s) = view s.
Proof. unfold mark_flow_start. by destruct (state_ s). Qed.

Lemma soft_reset_view s s' : soft_reset now s = Ok s' -> view s' = view s.
Proof.
  intros (w & _ & <-%Ok_inj)%res_bind_Ok.
  by rewrite clear_ndatabytes_view, mark_flow_start_view, stamp_flow_view, set_cwnd_view.
Qed.

Lemma set_minrto_view v s : view (set_minrto v s) = view s.
Proof. unfold set_minrto. by destruct (F64.ge v _). Qed.

Lemma rewind_on_eof_view s : view (rewind_on_eof now s) = view s.
Proof. unfold rewind_on_eof. destruct (rtx_on_eof_ s); [|done]. by destruct (bool_decide _). Qed.

Lemma reset_window_view s s' : reset_window now s = Ok s' -> view s' = view s.
Proof. intros (w & _ & ->%set_rtx_timer_view)%res_bind_Ok. by rewrite leave_prob_mode_view, set_cwnd_view. Qed.

Lemma on_eof_view s s' : on_eof now s = Ok s' -> view s' = view s.
Proof.
  unfold on_eof. set (s1 := rewind_on_eof now _).
  assert (view s1 = view s) as V1 by (subst s1; by rewrite rewind_on_eof_view). clearbody s1.
  set (s2 := set_minrto _ s1). assert (view s2 = view s) as V2 by (subst s2; by rewrite set_minrto_view). clearbody s2.
  destruct (reset_window_on_eof_ s2); [by intros ->%reset_window_view|by intros <-%Ok_inj].
Qed.

Lemma on_new_data_view s s' : on_new_data now s = Ok s' -> view s' = view s.
Proof. intros ->%soft_reset_view. apply set_minrto_view. Qed.

Lemma sendmsg_steps s n f s' : 0 <= segsize s.(me) -> sendmsg now uniform s n f = Ok s' -> steps s s'.
Proof.
  intros Hg (s1 & E1 & E)%res_bind_Ok.
  assert (view s1 = view s) as V1.
  { destruct f; [by apply Ok_inj in E1 as <-|by eapply on_eof_view|by eapply on_new_data_view|by apply Ok_inj in E1 as <-]. }
  assert (0 <= segsize s1.(me)) as Hg1 by (injection V1 as _ -> _ _ _ _ _; done).
  transitivity s1; [by apply steps_view|].
  destruct (n =? -1); [|by eapply advance_bytes_steps].
  set (s2 := set_tcp _ s1) in E. transitivity s2; [|by eapply advance_bytes_steps; [|exact E]].
  apply rtc_once. apply (step_limit (view s1) (limit s2.(me))).
Qed.
End WithEnv.
End FullTcpRefine.
