(* ===== verification/FullTcpRecvRefine.v ===== *)
(** * The receiving side is steps of the machine

    Continues [FullTcpRefine] with the functions of [FullTcpRecv]: what they
    do when they succeed can be done by the machine of [FullTcpSpec].  The
    steps of a function are put together by [chain] from those of its calls. *)

From Stdlib Require Import ZArith Lia Bool SpecFloat.
From stdpp Require Import base list gmap relations.
From S2P Require Import Prelude F64 PktQueue Rq Ecn TcpAgent Tcp TcpPrio TcpSack TcpCong FullTcp FullTcpRecv.
From S2P Require Import FullTcpSpec FullTcpRefine.

Module FullTcpRecvRefine.
Import FullTcp FullTcpRecv FullTcpSpec FullTcpViews FullTcpRefine TcpFlags.

Implicit Types (s : t) (m : Tcp.t) (a : TcpAgent.t) (p : packet).

Section WithEnv.
Context `{Libm} {HD : Heard} (now : f64) (uniform : nat -> f64 -> f64).

Lemma goes_slowdown how s s' : slowdown now how s = Ok s' -> goes s s'.
Proof. intros E%slowdown_view. by apply goes_view. Qed.

Lemma goes_set_rtx_timer s s' : set_rtx_timer now s = Ok s' -> goes s s'.
Proof. intros E%set_rtx_timer_view. by apply goes_view. Qed.

Lemma goes_reset_rtx_timer s s' : reset_rtx_timer now s = Ok s' -> goes s s'.
Proof. intros E%reset_rtx_timer_view. by apply goes_view. Qed.

Lemma goes_on_agent f s s' :
  (forall a', f (agent s) = Ok a' -> aview a' = aview (agent s)) -> on_agent f s = Ok s' -> goes s s'.
Proof. intros Hf E. apply goes_view. by eapply on_agent_view. Qed.

Lemma goes_on_tcp f s s' :
  (forall m', f s.(me) = Ok m' -> mview m' = mview s.(me)) -> on_tcp f s = Ok s' -> goes s s'.
Proof. intros Hf E. apply goes_view. by eapply on_tcp_view. Qed.

Lemma goes_rtt_update t0 tao s s' : on_agent (fun a => TcpAgent.rtt_update a t0 tao) s = Ok s' -> goes s s'.
Proof. apply goes_on_agent. intros a'. apply rtt_update_view. Qed.

Lemma goes_opencwnd s s' : on_agent TcpAgent.opencwnd s = Ok s' -> goes s s'.
Proof. apply goes_on_agent. intros a'. apply opencwnd_view. Qed.

Lemma goes_sack_pack_action s s' : on_tcp TcpSack.sack_pack_action s = Ok s' -> goes s s'.
Proof. apply goes_on_tcp. intros a'. apply sack_pack_action_view. Qed.

Lemma goes_sack_ack_action s s' : on_tcp TcpSack.sack_ack_action s = Ok s' -> goes s s'.
Proof. apply goes_on_tcp. intros a'. apply sack_ack_action_view. Qed.

Lemma goes_process_sack s p s' : on_tcp (fun m => TcpSack.process_sack m p) s = Ok s' -> goes s s'.
Proof. apply goes_on_tcp. intros a'. apply process_sack_view. Qed.

Lemma goes_ecn s s' : on_tcp (fun m => TcpCong.ecn m now (Tcp.highest_ack_ m)) s = Ok s' -> goes s s'.
Proof. apply goes_on_tcp. intros a'. apply tcp_ecn_view. Qed.

Lemma goes_set_tcp f s : (forall m, mview (f m) = mview m) -> goes s (set_tcp f s).
Proof. intros Hf. by apply goes_view, set_tcp_view. Qed.

Lemma goes_reno_pack_action s : goes s (set_tcp TcpSack.reno_pack_action s).
Proof. apply goes_set_tcp, reno_pack_action_view. Qed.

Lemma goes_clear_scoreboard s : goes s (set_tcp TcpSack.clear_scoreboard s).
Proof. apply goes_set_tcp, clear_scoreboard_view. Qed.

Lemma goes_usrclosed s s' : usrclosed now uniform s = Ok s' -> goes s s'.
Proof. intros E%usrclosed_starts [_ Hg]. by apply E. Qed.

Lemma goes_acked s v : heard_ack v -> highest_ack_ s < v <= maxseq_ s -> goes s (set_highest_ack v s).
Proof. intros Hh Hv. by eapply goes_step; [apply (step_acked (view s) v)| |]. Qed.

(** [n] bytes go to the application and [rcv_nxt_] moves over them. *)
Lemma goes_deliver s s' n :
  0 <= n -> view s' = out (RecvBytes n) ((view s) <| c_rcv_nxt := rcv_nxt_ s + n |>) -> goes s s'.
Proof. intros Hn E. by eapply goes_step; [apply (step_deliver (view s) n Hn)|exact E|]. Qed.

Lemma goes_stay s s' v : v <= rcv_nxt_ s -> view s' = (view s) <| c_rcv_nxt := v |> -> goes s s'.
Proof. intros Hv E. by eapply goes_step; [apply (step_stay (view s) v Hv)|exact E|]. Qed.

Lemma goes_done s : goes s (emit Done s).
Proof. apply goes_emit. by right; right. Qed.

End WithEnv.

#[export] Hint Extern 1 (goes ?s _) => (tryif is_evar s then fail else (apply goes_view; reflexivity)) : chain.
#[export] Hint Resolve goes_slowdown goes_set_rtx_timer goes_reset_rtx_timer goes_rtt_update goes_opencwnd
  goes_sack_pack_action goes_sack_ack_action goes_process_sack goes_ecn goes_usrclosed goes_send_much
  goes_foutput goes_reno_pack_action goes_clear_scoreboard goes_done : chain.

Section Acks.
Context `{Libm} {HD : Heard} (now : f64) (uniform : nat -> f64 -> f64).

(** ** Acknowledgements *)

Lemma goes_newack_rtt s p s' : newack_rtt now s p = Ok s' -> goes s s'.
Proof. intros E. chain through newack_rtt in E. Qed.

#[local] Hint Resolve goes_newack_rtt : chain.

Lemma goes_newack s p s' :
  heard_ack p.(Tcp.ackno) -> p.(Tcp.ackno) <= maxseq_ s -> newack now s p = Ok s' -> goes s s'.
Proof.
  intros Hh Hm E. cbv beta delta [newack] in E. do 4 peel E.
  assert (view s1 = view s) as V.
  { transitivity (view s0); [|by rewrite E0, leave_prob_mode_view].
    repeat peel E1; [by rewrite <-E1|by eapply set_rtx_timer_view|by rewrite <-E1]. }
  assert (goes s s1) as G by by apply goes_view.
  peel E. assert (goes s s2) as G2.
  { rewrite E2. destruct (Z.ltb_spec (highest_ack_ s0) (Tcp.ackno p)) as [Hp|Hp]; [|done].
    etransitivity; [exact G|]. transitivity (s1 <| prev_highest_ack_ := highest_ack_ s1 |>); [by apply goes_view|].
    apply goes_acked; [exact Hh|]. injection V as _ _ _ V1 V2 _ _.
    change (highest_ack_ s1 < Tcp.ackno p <= maxseq_ s1). rewrite V1, V2. rewrite E0 in Hp. done. }
  clear E2. repeat peel E; chain.
Qed.

Lemma goes_fast_retransmit s seq s' amt : fast_retransmit now s seq = Ok (s', amt) -> goes s s'.
Proof. intros E. chain through fast_retransmit in E. Qed.

#[local] Hint Resolve goes_fast_retransmit : chain.

Lemma goes_pack_action s p s' : pack_action now s p = Ok s' -> goes s s'.
Proof. intros E. chain through pack_action in E. Qed.

Lemma goes_ack_action s p s' : ack_action s p = Ok s' -> goes s s'.
Proof. intros E. chain through ack_action in E. Qed.

(** ** Duplicate acknowledgements and timeouts *)

Lemma goes_reno_action s s' : reno_action now s = Ok s' -> goes s s'.
Proof. intros E. chain through reno_action in E. Qed.

#[local] Hint Resolve goes_pack_action goes_ack_action goes_reno_action : chain.

Lemma goes_FullTcpAgent_dupack_action s s' : FullTcpAgent_dupack_action now s = Ok s' -> goes s s'.
Proof. intros E. chain through FullTcpAgent_dupack_action in E. Qed.

Lemma goes_Tahoe_dupack_action s s' : Tahoe_dupack_action now uniform s = Ok s' -> goes s s'.
Proof. intros E. chain through Tahoe_dupack_action in E. Qed.

Lemma goes_fill_first_hole s s' : fill_first_hole now s = Ok s' -> goes s s'.
Proof. intros E. chain through fill_first_hole in E. Qed.

#[local] Hint Resolve goes_FullTcpAgent_dupack_action goes_Tahoe_dupack_action goes_fill_first_hole : chain.

Lemma goes_Sack_dupack_action s s' : Sack_dupack_action now uniform s = Ok s' -> goes s s'.
Proof. intros E. chain through Sack_dupack_action in E. Qed.

#[local] Hint Resolve goes_Sack_dupack_action : chain.

Lemma goes_dupack_action s s' : dupack_action now uniform s = Ok s' -> goes s s'.
Proof. intros E. chain through dupack_action in E. Qed.

Lemma goes_oldack s : goes s (oldack s).
Proof. by apply goes_view. Qed.

Lemma goes_extra_ack s : goes s (extra_ack s).
Proof. unfold extra_ack. chain. Qed.

#[local] Hint Resolve goes_extra_ack : chain.

Lemma goes_FullTcpAgent_timeout_action s s' : FullTcpAgent_timeout_action now s = Ok s' -> goes s s'.
Proof. intros E. chain through FullTcpAgent_timeout_action in E. Qed.

#[local] Hint Resolve goes_dupack_action goes_FullTcpAgent_timeout_action : chain.

Lemma goes_Sack_timeout_action s s' : Sack_timeout_action now s = Ok s' -> goes s s'.
Proof. intros E. chain through Sack_timeout_action in E. Qed.

#[local] Hint Resolve goes_Sack_timeout_action : chain.

Lemma goes_Min_timeout_action s s' : Min_timeout_action now s = Ok s' -> goes s s'.
Proof. intros E. chain through Min_timeout_action in E. Qed.

#[local] Hint Resolve goes_Min_timeout_action : chain.

Lemma goes_timeout_action s s' : timeout_action now s = Ok s' -> goes s s'.
Proof. intros E. chain through timeout_action in E. Qed.

#[local] Hint Resolve goes_timeout_action : chain.

Lemma goes_timeout s tno s' : timeout now uniform s tno = Ok s' -> goes s s'.
Proof. intros E. chain through timeout in E. Qed.

Lemma goes_expire s tno s' : expire now uniform s tno = Ok s' -> goes s s'.
Proof.
  intros E%goes_timeout. eapply goes_trans; [|exact E]. destruct tno; by apply goes_view.
Qed.

#[local] Hint Resolve goes_expire : chain.

(** ** The calls of the ECN processor *)

Lemma goes_control s seqno ackno pflags r s' :
  sendpacket now s seqno ackno pflags 0 r = Ok s' ->
  contains_all pflags SYN = false -> contains_all pflags FIN = false ->
  (contains_all pflags ACK = true -> ackno = rcv_nxt_ s \/ heard_syn (ackno + 2)) -> goes s s'.
Proof. intros E H1 H2 H3. by apply (control_steps now s seqno ackno pflags r s'). Qed.

#[local] Hint Resolve goes_control : chain.
#[local] Hint Extern 1 (contains_all _ _ = false) => reflexivity : chain.
#[local] Hint Extern 1 => (intros _; left; reflexivity) : chain.

Lemma goes_send_immediate_ack_with_previous_ce s s' :
  send_immediate_ack_with_previous_ce now uniform s = Ok s' -> goes s s'.
Proof. intros E. chain through send_immediate_ack_with_previous_ce in E. Qed.

#[local] Hint Resolve goes_send_immediate_ack_with_previous_ce : chain.

Lemma goes_on_receive_pure_incoming s s' : on_receive_pure_incoming now uniform s = Ok s' -> goes s s'.
Proof. intros E. chain through on_receive_pure_incoming in E. Qed.

Lemma goes_on_receive_syn_ack_pre s p s' b : on_receive_syn_ack_pre now s p = Ok (s', b) -> goes s s'.
Proof. intros E. chain through on_receive_syn_ack_pre in E. Qed.

Lemma goes_retry_syn_ack s s' : retry_syn_ack now s = Ok s' -> goes s s'.
Proof. intros E. chain through retry_syn_ack in E. Qed.

#[local] Hint Resolve goes_on_receive_pure_incoming goes_retry_syn_ack : chain.

Lemma goes_handle_syn_ack_ack_ecn s s' d : handle_syn_ack_ack_ecn now s = Ok (s', d) -> goes s s'.
Proof. intros E. chain through handle_syn_ack_ack_ecn in E. Qed.

#[local] Hint Resolve goes_handle_syn_ack_ack_ecn : chain.

Lemma goes_on_receive_syn_ack_ack s p s' d : on_receive_syn_ack_ack now s p = Ok (s', d) -> goes s s'.
Proof. intros E. chain through on_receive_syn_ack_ack in E. Qed.

Lemma goes_on_receive_ack s p f s' : on_receive_ack now s p f = Ok s' -> goes s s'.
Proof. intros E. chain through on_receive_ack in E. Qed.

#[local] Hint Resolve goes_on_receive_syn_ack_ack goes_on_receive_ack : chain.

(** ** Receiving data *)

Lemma goes_dooptions s p : goes s (dooptions now s p).
Proof. unfold dooptions. chain. Qed.

Lemma goes_record_timestamp s p : goes s (record_timestamp now s p).
Proof. unfold record_timestamp. chain. Qed.

Lemma goes_count_flow s n s' : count_flow s n = Ok s' -> goes s s'.
Proof. intros E. chain through count_flow in E. Qed.

Lemma goes_delay_ack s : goes s (delay_ack now s).
Proof. by apply goes_view. Qed.

#[local] Hint Resolve goes_count_flow : chain.

(** What is known of a packet with [n] bytes and the flags [f]. *)
Definition told p (f n : Z) : Prop := 0 <= n /\ (contains_all f ACK = true -> heard_ack p.(Tcp.ackno)).

Lemma goes_recv_predicted s p n s' b :
  0 <= n -> heard_ack p.(Tcp.ackno) -> recv_predicted now uniform s p n = Ok (s', b) -> goes s s'.
Proof.
  intros Hn Hh E. cbv beta delta [recv_predicted] in E. peel E. peel E.
  assert (goes s s1) as G
    by (rewrite E1, E0; etransitivity; [apply goes_record_timestamp|by apply goes_view]).
  clear E0 E1. peel E. etransitivity; [exact G|]. clear G. peel E.
  - peel E; [|chain].
    apply andb_true_iff in Heqb1 as [[[_ Hb]%andb_true_iff _]%andb_true_iff _]. apply Z.ltb_lt in Hb.
    peel E. transitivity s2; [|chain]. eapply goes_newack; [exact Hh| |done]. lia.
  - peel E; [|chain]. peel E. transitivity s2; [chain|]. apply res_bind_Ok in E as (s3 & E3 & E).
    apply res_bind_Ok in E3 as (r & [-> _]%chk_inv & <-%Ok_inj).
    match type of E with (let s := ?x in _) = _ => set (s4 := x) in E end. cbv zeta in E.
    transitivity (emit (RecvBytes n) s4); [by apply (goes_deliver s2 _ n Hn)|]. clearbody s4. chain.
Qed.

Lemma goes_dropafterack s s' : dropafterack now uniform s = Ok s' -> goes s s'.
Proof. intros E. chain through dropafterack in E. Qed.

(** A packet with an acknowledgement, or a SYN that is refused. *)
Lemma dropwithreset_goes s p f n s' :
  contains_all f ACK = true \/ contains_all f SYN = true /\ heard_syn (p.(Tcp.seqno) + n + 1) ->
  dropwithreset now s p f n = Ok s' -> goes s s' /\ steps s s'.
Proof.
  intros Hp E. unfold dropwithreset in E. destruct (contains_all f ACK).
  - by apply control_steps in E.
  - destruct Hp as [?|[Hf Hs]]; [done|]. rewrite Hf in E. apply res_bind_Ok in E as (x & [-> _]%chk_inv & E).
    apply res_bind_Ok in E as (y & [-> _]%chk_inv & E). apply control_steps in E; [done..|]. intros _. right.
    by replace (Tcp.seqno p + n - 1 + 2) with (Tcp.seqno p + n + 1) by lia.
Qed.

Lemma goes_dropwithreset s p f n s' :
  contains_all f ACK = true \/ contains_all f SYN = true /\ heard_syn (p.(Tcp.seqno) + n + 1) ->
  dropwithreset now s p f n = Ok s' -> goes s s'.
Proof. intros Hp E. by destruct (dropwithreset_goes s p f n s' Hp E). Qed.

Lemma reass_view s p s' f : reass s p = Ok (s', f) -> view s' = (view s) <| c_rcv_nxt := rcv_nxt_ s' |>.
Proof.
  intros E. unfold reass in E. apply res_bind_Ok in E as (len & _ & E). apply res_bind_Ok in E as (e & _ & E).
  destruct (_ && _); [done|]. apply res_bind_Ok in E as ([q fl] & _ & E). cbv zeta in E.
  destruct (_ || _); [by apply Ok_inj, pair_fst in E as <-|]. destruct (_ && _); [by apply Ok_inj, pair_fst in E as <-|].
  apply res_bind_Ok in E as ([q2 f2] & _ & E). by apply Ok_inj, pair_fst in E as <-.
Qed.

#[local] Hint Resolve goes_dropafterack : chain.

Lemma goes_accept_in_order s p n s' f b :
  0 <= n -> accept_in_order now uniform s p n = Ok (s', f, b) -> goes s s'.
Proof.
  intros Hn E. unfold accept_in_order in E. apply res_bind_Ok in E as (s1 & E1%goes_on_receive_pure_incoming & E).
  transitivity s1; [exact E1|]. apply res_bind_Ok in E as (s2 & E2 & E). apply res_bind_Ok in E as (s3 & E3 & E).
  do 2 (apply Ok_inj in E || apply pair_fst in E). apply pair_fst in E as <-.
  apply res_bind_Ok in E2 as (r & [-> _]%chk_inv & <-%Ok_inj). destruct (Z.eqb_spec n 0) as [-> |Hne]; cbn [negb] in E3.
  - apply Ok_inj in E3 as <-. apply (goes_stay s1 _ (rcv_nxt_ s1 + 0)); [lia|done].
  - eapply goes_trans; [|by eapply goes_count_flow]. by apply (goes_deliver s1 _ n Hn).
Qed.

Lemma goes_accept_out_of_order s p n o s' f b : accept_out_of_order now s p n o = Ok (s', f, b) -> goes s s'.
Proof.
  intros E. unfold accept_out_of_order in E. apply res_bind_Ok in E as ([s1 f1] & V1%reass_view & E).
  apply res_bind_Ok in E as (s2 & E2 & E). do 2 (apply Ok_inj in E || apply pair_fst in E). apply pair_fst in E as <-.
  transitivity s2; [|by apply goes_view]. destruct (Z.ltb_spec (rcv_nxt_ s) (rcv_nxt_ s1)) as [Hlt|Hge].
  - apply res_bind_Ok in E2 as (k & [-> _]%chk_inv & E2%goes_count_flow). eapply goes_trans; [|exact E2].
    apply (goes_deliver s _ (rcv_nxt_ s1 - rcv_nxt_ s)); [lia|].
    replace (rcv_nxt_ s + (rcv_nxt_ s1 - rcv_nxt_ s)) with (rcv_nxt_ s1) by lia. by rewrite <-V1.
  - apply Ok_inj in E2 as <-. by apply (goes_stay s _ (rcv_nxt_ s1)).
Qed.

#[local] Hint Resolve goes_accept_in_order goes_accept_out_of_order : chain.

Lemma goes_accept_data s p f n o s' f' b : 0 <= n -> accept_data now uniform s p f n o = Ok (s', f', b) -> goes s s'.
Proof. intros Hn E. chain through accept_data in E. Qed.

Lemma goes_newstate s st : calm (state_ s) st = true -> st <> Tcp.LISTEN -> goes s (newstate st s).
Proof. intros Ha Hs. by apply (goes_arc s _ st). Qed.

Lemma goes_fin s s1 st : fin_arc (state_ s) st = true -> st <> Tcp.LISTEN ->
  view s1 = (view s) <| c_rcv_nxt := rcv_nxt_ s + 1 |> -> goes s (newstate st s1).
Proof.
  intros Hf Hst E [R1 R2].
  assert (view (newstate st s1) = (view s) <| c_rcv_nxt := rcv_nxt_ s + 1 |> <| c_state := st |>) as E1
    by (change ((view s1) <| c_state := st |> = (view s) <| c_rcv_nxt := rcv_nxt_ s + 1 |> <| c_state := st |>); by rewrite E).
  split; [eapply steps_one; [by apply (step_fin (view s) st)|exact E1]|]. split; [done|].
  apply (f_equal c_maxseg) in E1. change (segsize (newstate st s1).(me) = segsize s.(me)) in E1. by rewrite E1.
Qed.

Lemma goes_receive_fin s s' : receive_fin s = Ok s' -> goes s s'.
Proof.
  intros (s1 & E1 & E)%res_bind_Ok. destruct (Tcp.have_received_FIN (state_ s)) eqn:Ef; cbn [negb] in E1.
  - apply Ok_inj in E1 as <-. by destruct (state_ s).
  - apply res_bind_Ok in E1 as (r & [-> _]%chk_inv & <-%Ok_inj).
    set (s1 := set_rcv_nxt _ _) in E. assert (view s1 = (view s) <| c_rcv_nxt := rcv_nxt_ s + 1 |>) as V by done.
    pose proof (f_equal c_state V : state_ s1 = state_ s) as T. rewrite T in E. clearbody s1.
    destruct (state_ s) eqn:Es; try discriminate E; apply Ok_inj in E as <-;
      [| | |eapply goes_trans; [|by apply goes_view]]; apply goes_fin; by rewrite ?Es.
Qed.

#[local] Hint Resolve goes_accept_data goes_receive_fin : chain.

Lemma goes_step6 s p f n o s' : 0 <= n -> step6 now uniform s p f n o = Ok s' -> goes s s'.
Proof.
  intros Hn E. chain through step6 in E.
Qed.

#[local] Hint Resolve goes_step6 : chain.

(** ** The parts of recv *)

Lemma goes_reset s s' : state_ s = Tcp.CLOSED -> reset uniform s = Ok s' -> goes s s'.
Proof.
  intros Hs E%reset_wiped [Hl Hg]. destruct (wiped_steps _ _ E (or_introl Hs)) as (S & T & Z & _).
  split; [done|]. split; [by rewrite T|by rewrite Z].
Qed.

Lemma goes_arc_cancel s st : calm (state_ s) st = true -> st <> Tcp.LISTEN -> goes s (cancel_timers (newstate st s)).
Proof. intros Ha Hst. transitivity (newstate st s); [by apply goes_newstate|by apply goes_view]. Qed.

Lemma goes_closing_states s p f n o fin s' :
  0 <= n -> closing_states now uniform s p f n o fin = Ok s' -> goes s s'.
Proof.
  intros Hn E. cbv beta delta [closing_states] in E. destruct (state_ s) eqn:Es; try by apply goes_step6 in E.
  all: destruct fin; try by apply goes_step6 in E.
  - etransitivity; [|by eapply goes_step6]. by apply goes_arc_cancel; rewrite ?Es.
  - etransitivity; [|by eapply goes_step6]. by apply goes_arc_cancel; rewrite ?Es.
  - transitivity (finish (newstate Tcp.CLOSED s)); [|by eapply goes_reset; [|exact E]].
    transitivity (newstate Tcp.CLOSED s); [by apply goes_newstate; rewrite ?Es|apply goes_done].
Qed.

Lemma goes_grow_window s p b s' : grow_window s p b = Ok s' -> goes s s'.
Proof. intros E. chain through grow_window in E. Qed.

#[local] Hint Resolve goes_closing_states goes_grow_window : chain.

Lemma goes_process_ACK s p f n s' :
  0 <= n -> heard_ack p.(Tcp.ackno) -> process_ACK now uniform s p f n = Ok s' -> goes s s'.
Proof.
  intros Hn Hh E. cbv beta delta [process_ACK] in E. peel E. peel E; [chain|]. apply Z.ltb_ge in Heqb.
  peel E. transitivity s0; [by eapply goes_newack|]. chain.
Qed.

Lemma goes_dynamic_threshold s s' : dynamic_threshold s = Ok s' -> goes s s'.
Proof. intros E. chain through dynamic_threshold in E. Qed.

#[local] Hint Resolve goes_process_ACK goes_dynamic_threshold : chain.

Lemma goes_duplicate_ack s p f n b s' : 0 <= n -> duplicate_ack now uniform s p f n b = Ok s' -> goes s s'.
Proof. intros Hn E. chain through duplicate_ack in E. Qed.

#[local] Hint Resolve goes_duplicate_ack : chain.

Lemma goes_ack_processing s p f n b s' :
  0 <= n -> heard_ack p.(Tcp.ackno) -> ack_processing now uniform s p f n b = Ok s' -> goes s s'.
Proof. intros Hn Hh E. chain through ack_processing in E. Qed.

Lemma goes_enter_established s :
  state_ s = Tcp.SYN_SENT \/ state_ s = Tcp.SYN_RECEIVED -> goes s (enter_established s).
Proof.
  intros Hs. unfold enter_established. destruct (has_flag s TF_NEEDFIN).
  - transitivity (newstate Tcp.FIN_WAIT_1 s); [|by apply goes_view].
    by apply goes_newstate; [destruct Hs as [-> | ->]|].
  - by apply goes_newstate; [destruct Hs as [-> | ->]|].
Qed.

Lemma on_receive_syn_ack_ack_state s p s' d :
  on_receive_syn_ack_ack now s p = Ok (s', d) -> d <> EcnProcessor.CONGESTION_DROP -> state_ s' = state_ s.
Proof.
  unfold on_receive_syn_ack_ack, handle_syn_ack_ack_ecn. intros E Hd.
  destruct (_ && _); [|by apply Ok_inj, pair_fst in E as <-].
  destruct (EcnProcessor.ecn_syn_wait_ _);
    first [by apply Ok_inj, pair_fst in E as <-|by apply res_bind_Ok in E as (x & _ & [= _ <-])].
Qed.

#[local] Hint Resolve goes_ack_processing goes_record_timestamp : chain.

Lemma goes_ack_in_state s p f n b s' :
  0 <= n -> heard_ack p.(Tcp.ackno) -> contains_all f ACK = true ->
  ack_in_state now uniform s p f n b = Ok s' -> goes s s'.
Proof.
  intros Hn Hh Hf E. cbv beta delta [ack_in_state] in E. destruct (state_ s) eqn:Es;
    try discriminate E; try by eapply goes_ack_processing in E.
  peel E; [by apply goes_dropwithreset in E; [|left]|]. apply res_bind_Ok in E as ([s1 d] & E1 & E).
  pose proof (on_receive_syn_ack_ack_state _ _ _ _ E1) as Hst. apply goes_on_receive_syn_ack_ack in E1.
  transitivity s1; [done|]. destruct d; [| |by apply Ok_inj in E as <-].
  - apply goes_ack_processing in E; [|done..]. eapply goes_trans; [|exact E].
    apply goes_enter_established. right. by rewrite Hst, Es.
  - peel E. apply goes_ack_processing in E; [|done..]. eapply goes_trans; [|exact E].
    transitivity (set_cwnd w s1); [by apply goes_view|].
    apply goes_enter_established. right. change (state_ s1 = Tcp.SYN_RECEIVED). by rewrite Hst, Es.
Qed.

Lemma trim_view s p f n s' p' f' n' b : trim s p f n = Ok (s', p', f', n', b) -> view s' = view s.
Proof.
  intros E. unfold trim in E. apply res_bind_Ok in E as (d & _ & E).
  destruct (_ && _); [|by apply Ok_inj in E; do 4 apply pair_fst in E; rewrite <-E].
  apply res_bind_Ok in E as ([[p1 f1] d1] & _ & E).
  destruct ((n <? d1) || _); repeat (apply res_bind_Ok in E as (? & _ & E));
    apply Ok_inj in E; do 4 apply pair_fst in E; by rewrite <-E.
Qed.

(** Trimming leaves what the packet says to the sender, and a SYN that is
    still there is the packet's. *)
Lemma trim_told s p f n s' p' f' n' b :
  trim s p f n = Ok (s', p', f', n', b) -> 0 <= n ->
  0 <= n' /\ Tcp.ackno p' = Tcp.ackno p /\ contains_all f' ACK = contains_all f ACK /\
  (contains_all f' SYN = true -> contains_all f SYN = true /\ p' = p /\ n' = n).
Proof.
  intros E Hn. unfold trim in E. apply res_bind_Ok in E as (d & _ & E).
  destruct (_ && _) eqn:Ec; [|apply Ok_inj in E; injection E as _ <- <- <- _; done].
  apply andb_true_iff in Ec as [Hd%Z.ltb_lt _].
  apply res_bind_Ok in E as ([[p1 f1] d1] & E1 & E).
  assert (Tcp.ackno p1 = Tcp.ackno p /\ contains_all f1 ACK = contains_all f ACK /\ contains_all f1 SYN = false /\ 0 <= d1)
    as (A1 & F1 & S1 & D1).
  { destruct (contains_all f SYN) eqn:Es; [|apply Ok_inj in E1; injection E1 as <- <- <-; split_and!; try done; lia].
    apply res_bind_Ok in E1 as (q & _ & E1). apply res_bind_Ok in E1 as (k & _ & E1). apply Ok_inj in E1.
    injection E1 as <- <- <-. split; [done|]. rewrite !(contains_bit _ 4 ltac:(done) : contains_all _ ACK = _), contains_SYN,
      !clear_flags_bit by done. split; [apply andb_true_r|]. split; [apply andb_false_r|lia]. }
  destruct ((n <? d1) || ((d1 =? n) && _)) eqn:Eb; repeat (apply res_bind_Ok in E as (? & [-> _]%chk_inv & E));
    apply Ok_inj in E; injection E as _ <- <- <- _; cbn [Tcp.ackno field_update].
  - rewrite !(contains_bit _ 4 ltac:(done) : contains_all _ ACK = _) in *. rewrite !contains_SYN in *.
    rewrite !clear_flags_bit, F1, S1 by done. cbn. rewrite andb_true_r. split_and!; try done; lia.
  - rewrite S1. apply orb_false_iff in Eb as [Eb%Z.ltb_ge _]. split_and!; try done; lia.
Qed.

Lemma goes_recv_synchronised s p f n s' :
  told p f n -> (contains_all f SYN = true -> heard_syn (p.(Tcp.seqno) + n + 1)) ->
  recv_synchronised now uniform s p f n = Ok s' -> goes s s'.
Proof.
  intros [Hn Hh] Hsyn E. cbv beta delta [recv_synchronised] in E. destruct (paws now s p) as [s1|] eqn:Ep; [|by chain].
  assert (view s1 = view s) as V1.
  { unfold paws in Ep. destruct (_ && _); [|by injection Ep as <-].
    destruct (F64.gt _ _); [|done]. by injection Ep as <-. }
  apply res_bind_Ok in E as ([[[[s2 p2] f2] n2] b2] & E2 & E).
  destruct (trim_told _ _ _ _ _ _ _ _ _ E2 Hn) as (Hn2 & A2 & F2 & Y2). apply trim_view in E2. rewrite V1 in E2.
  transitivity s2; [by apply goes_view|]. peel E. transitivity s0; [rewrite E0; apply goes_record_timestamp|].
  peel E.
  - eapply goes_dropwithreset; [|exact E]. right. split; [done|]. destruct (Y2 eq_refl) as (Hf & -> & ->). by apply Hsyn.
  - peel E; [by chain|]. apply negb_false_iff in Heqb0. eapply goes_ack_in_state; [exact Hn2| |exact Heqb0|exact E].
    rewrite A2. apply Hh. by rewrite <-F2.
Qed.

Lemma goes_trimthenstep6 s p f n s' : told p f n -> trimthenstep6 now uniform s p f n = Ok s' -> goes s s'.
Proof.
  intros [Hn Hh] E. cbv beta delta [trimthenstep6] in E. peel E.
  change ((if contains_all f ACK then process_ACK now uniform s (p <| Tcp.seqno := q |>) f n
    else step6 now uniform s (p <| Tcp.seqno := q |>) f n false) = Ok s') in E.
  destruct (contains_all f ACK); [apply goes_process_ACK in E; [done..|by apply Hh]|chain].
Qed.

#[local] Hint Resolve goes_recv_synchronised goes_trimthenstep6 : chain.

Lemma dooptions_view s p : view (dooptions now s p) = view s.
Proof. unfold dooptions. destruct (_ && _); [|done]. destruct (F64.lt _ _); [done|]. by destruct (contains_all _ _). Qed.

Lemma recv_listen_steps s p f n s' :
  told p f n -> (contains_all f SYN = true -> heard_syn (p.(Tcp.seqno) + n + 1)) ->
  state_ s = Tcp.LISTEN -> 0 <= segsize s.(me) -> recv_listen now uniform s p f n = Ok s' -> steps s s'.
Proof.
  intros Ht Hsyn Hs Hg E. cbv beta delta [recv_listen] in E. peel E; [by eapply dropwithreset_goes; [left|]|].
  peel E; [by apply Ok_inj in E as <-|]. do 3 peel E. peel E. 
  assert (view s2 = view s) as V2 by (rewrite E2; transitivity (view s1); [done|]; rewrite E1;
    transitivity (view s0); [done|]; rewrite E0; apply dooptions_view).
  do 5 peel E.
  assert (view s6 = (view s) <| c_rcv_nxt := r |>) as V6.
  { transitivity (view s5); [rewrite E7; by destruct (_ =? _)|]. transitivity (view s4); [by rewrite E6|].
    transitivity (view s3); [by rewrite E5|]. rewrite E4, <-V2. reflexivity. }
  assert (steps s s7 /\ ready s7) as [S7 R7].
  { split; [|rewrite E8; split; [done|]; injection V6 as _ V6 _ _ _ _ _; change (0 <= segsize s6.(me)); by rewrite V6].
    apply negb_false_iff in Heqb0. specialize (Hsyn Heqb0).
    eapply steps_one; [apply (step_accept (view s) r Hs)|].
    - apply res_bind_Ok in E3 as (d & [-> _]%chk_inv & [-> _]%chk_inv). rewrite E2, E1. exact Hsyn.
    - rewrite E8. change ((view s6) <| c_state := Tcp.SYN_RECEIVED |> = (view s) <| c_rcv_nxt := r |> <| c_state := Tcp.SYN_RECEIVED |>).
      by rewrite V6. }
  apply goes_trimthenstep6 in E; [|exact Ht]. destruct (E R7) as [S' _]. by transitivity s7.
Qed.

(** The acknowledgement of a SYN that was sent. *)
Lemma goes_syn_acked s p f n s' f' :
  heard_ack p.(Tcp.ackno) -> state_ s = Tcp.SYN_SENT -> p.(Tcp.ackno) <= maxseq_ s ->
  syn_acked now s p f n = Ok (s', f') -> goes s s'.
Proof.
  intros Hh Hs Hm E. cbv beta delta [syn_acked] in E. do 6 peel E.
  assert (goes s s1) as G1.
  { transitivity s0; [rewrite E0; by apply goes_view|]. rewrite E1. 
    eapply goes_step; [apply (step_syn_acked (view s0) p.(Tcp.ackno) Hh)| |]; rewrite ?E0; done. }
  assert (goes s1 s3 /\ state_ s3 = Tcp.SYN_SENT) as [G3 T3].
  { split; [chain|]. transitivity (state_ s2); [rewrite E4; by destruct (0 <? n)|]. rewrite E3.
    change (state_ s1 = Tcp.SYN_SENT). rewrite E1. change (state_ s0 = Tcp.SYN_SENT). by rewrite E0. }
  transitivity s3; [by transitivity s1|]. transitivity (enter_established s3); [apply goes_enter_established; by left|].
  clear -E. chain.
Qed.

(** Conversion compares these calls before it computes them. *)
#[local] Strategy 100 [res_bind isub chk].

Lemma goes_simultaneous_open s p s' :
  state_ s = Tcp.SYN_SENT -> simultaneous_open s p = Ok s' -> goes s s'.
Proof.
  intros Hs E. cbv beta delta [simultaneous_open] in E. do 4 peel E.
  assert (goes s s2) as G by chain. assert (state_ s2 = state_ s) as T by (rewrite E2, E1, E0; reflexivity).
  transitivity s2; [exact G|]. transitivity s3; [|chain]. rewrite E3. by apply goes_newstate; rewrite ?T, ?Hs.
Qed.

Lemma on_receive_syn_ack_pre_same s p s' : on_receive_syn_ack_pre now s p = Ok (s', false) -> s' = s.
Proof.
  unfold on_receive_syn_ack_pre. intros E. destruct (negb _); [by apply Ok_inj, pair_fst in E|].
  destruct (_ && _); [|by apply Ok_inj, pair_fst in E].
  apply res_bind_Ok in E as (x & _ & E). by apply res_bind_Ok in E as (y & _ & E).
Qed.

Lemma goes_recv_syn_sent s p f n s' :
  told p f n -> (contains_all f SYN = true -> heard_syn (p.(Tcp.seqno) + n + 1)) ->
  state_ s = Tcp.SYN_SENT -> recv_syn_sent now uniform s p f n = Ok s' -> goes s s'.
Proof.
  intros Ht Hsyn Hs E. cbv beta delta [recv_syn_sent] in E. peel E.
  peel E; [apply andb_true_iff in Heqb as [Hf _]; by apply goes_dropwithreset in E; [|left]|].
  peel E; [by apply Ok_inj in E as <-|]. apply res_bind_Ok in E as ([s1 d] & E1 & E).
  destruct d.
  { apply Ok_inj in E as <-. destruct (contains_all f ACK); [by apply goes_on_receive_syn_ack_pre in E1|].
    by apply Ok_inj in E1. }
  assert (s1 = s) as ->.
  { destruct (contains_all f ACK); [by eapply on_receive_syn_ack_pre_same|by apply Ok_inj, pair_fst in E1]. }
  apply negb_false_iff in Heqb0. do 3 peel E. apply res_bind_Ok in E as ([s2 f2] & E5 & E).
  apply res_bind_Ok in E2 as (d & [-> _]%chk_inv & [Er _]%chk_inv).
  match goal with H1 : s1 = _ |- _ => rename H1 into Es1 end.
  assert (goes s s1 /\ state_ s1 = Tcp.SYN_SENT /\ maxseq_ s1 = maxseq_ s) as (G1 & T1 & M1).
  { rewrite Es1, E0. split; [|done]. eapply goes_step; [apply (step_open (view s) r Hs)| |done].
    - rewrite Er, E0. by apply Hsyn.
    - reflexivity. }
  transitivity s1; [exact G1|]. clear Es1.
  assert (told p f2 n /\ goes s1 s2) as [Ht2 G2].
  { destruct (contains_all f ACK) eqn:Ef.
    - split.
      + destruct Ht as [Hn Hh]. split; [exact Hn|]. intros _. by apply Hh.
      + eapply goes_syn_acked; [by apply Ht|done| |exact E5]. rewrite M1.
        apply andb_false_iff in Heqb as [?|Hb]; [done|]. apply orb_false_iff in Hb as [_ Hb%Z.ltb_ge]. done.
    - apply res_bind_Ok in E5 as (s3 & E5 & E6). apply Ok_inj in E6. injection E6 as <- <-.
      split; [exact Ht|by eapply goes_simultaneous_open]. }
  transitivity s2; [exact G2|]. by apply goes_trimthenstep6 in E.
Qed.

Lemma recv_slow_steps s p f n s' :
  told p f n -> (contains_all f SYN = true -> heard_syn (p.(Tcp.seqno) + n + 1)) ->
  0 <= segsize s.(me) -> recv_slow now uniform s p f n = Ok s' -> steps s s'.
Proof.
  intros Ht Hsyn Hg E. unfold recv_slow in E.
  assert (forall x, goes s x -> state_ s <> Tcp.LISTEN -> steps s x) as Hgo by (intros x G Hl; by apply G).
  destruct (state_ s) eqn:Es; try (apply Hgo; [by apply goes_recv_synchronised in E|done]).
  - by eapply recv_listen_steps.
  - apply Hgo; [by apply goes_recv_syn_sent in E|done].
  - apply Hgo; [|done]. destruct (contains_all f FIN); [by apply Ok_inj in E as <-|by apply goes_recv_synchronised in E].
Qed.

Lemma ecn_on_receive_view s p s' : ecn_on_receive s p = Ok s' -> view s' = view s.
Proof. unfold ecn_on_receive. intros (e & _ & <-%Ok_inj)%res_bind_Ok. reflexivity. Qed.

(** ** recv *)

Lemma recv_steps s p s' : arrives p -> 0 <= segsize s.(me) -> recv now uniform s p = Ok s' -> steps s s'.
Proof.
  intros [Hn Hack Hsyn] Hg E. cbv beta delta [recv] in E. do 2 peel E. apply res_bind_Ok in E as (n & [En _]%chk_inv & E).
  change (Tcp.size p - Tcp.hlen p) with (payload p) in En. subst n. set (n := payload p) in *. peel E.
  assert (view s1 = view s) as V1 by (rewrite E1; change (view s0 = view s); by rewrite E0).
  transitivity s1; [by apply steps_view|]. rewrite <-(f_equal c_maxseg V1 : segsize s1.(me) = segsize s.(me)) in Hg.
  clear E0 E1 V1. peel E.
  { apply bool_decide_eq_true in Heqb.
    assert (goes s1 s') as G by chain. apply G. split; [by rewrite Heqb|done]. }
  peel E; [by apply Ok_inj in E as <-|]. peel E.
  apply res_bind_Ok in E as (s3 & E3%ecn_on_receive_view & E).
  assert (view s3 = view s1) as V3.
  { rewrite E3, E0. destruct (bool_decide (state_ s1 = Tcp.LISTEN)); [done|exact (dooptions_view s1 p)]. }
  transitivity s3; [by apply steps_view|]. rewrite <-(f_equal c_maxseg V3 : segsize s3.(me) = segsize s1.(me)) in Hg.
  clear E0 E3 V3. apply res_bind_Ok in E as ([s4 done] & E4 & E).
  assert (steps s3 s4 /\ 0 <= segsize s4.(me)) as [S4 G4].
  { destruct (negb _ && _) eqn:Ep; [|by apply Ok_inj, pair_fst in E4 as <-].
    apply andb_true_iff in Ep as [_ Ep]. unfold predict_ok in Ep.
    do 6 apply andb_true_iff in Ep as [Ep _]. apply andb_true_iff in Ep as [Ep [Ha _]%andb_true_iff].
    apply bool_decide_eq_true in Ep. 
    apply goes_recv_predicted in E4; [|exact Hn|by apply Hack].
    destruct E4 as [S4 [_ G4]].
    { split; [by rewrite Ep|exact Hg]. }
    by split. }
  transitivity s4; [exact S4|]. destruct done; [by apply Ok_inj in E as <-|].
  eapply (recv_slow_steps s4 p _ n); [by split|exact Hsyn|exact G4|exact E].
Qed.

Lemma expire_steps s tno s' : 0 <= segsize s.(me) -> expire now uniform s tno = Ok s' -> steps s s'.
Proof.
  intros Hg E. destruct (decide (state_ s = Tcp.LISTEN)) as [Hl|Hl]; [|by apply goes_expire in E; apply E].
  assert (view s' = view s) as V; [|by apply steps_view].
  unfold expire, timeout in E. destruct tno; change (state_ _) with (state_ s) in E;
    rewrite bool_decide_true in E by done; by apply Ok_inj in E as <-.
Qed.
End Acks.
End FullTcpRecvRefine.
