(* ===== verification/FullTcpProps.v ===== *)
(** * An agent over its life

    Packets arrive, timers go off and the simulation script gives commands, at
    any times and in any order ([runs]).  Whatever the class and the options
    of the agent, what it does is what the machine of [FullTcpSpec] may do;
    the consequences for the states, the acknowledgements and the segments
    are stated one by one.  The witnesses let two agents talk to each other
    over a network that loses packets. *)

From Stdlib Require Import ZArith Lia Bool SpecFloat.
From stdpp Require Import base list gmap relations.
From S2P Require Import Prelude F64 PktQueue Rq Ecn TcpAgent Tcp TcpPrio TcpSack TcpCong FullTcp FullTcpRecv.
From S2P Require Import FullTcpSpec FullTcpRefine FullTcpRecvRefine.

Module FullTcpEvents.
Import FullTcp FullTcpRecv FullTcpSpec.

Implicit Types (s : t).

Inductive event :=
| Packet (p : packet)
| Expiry (tno : timer)
| Command (c : cmd).

Section WithEnv.
Context `{Libm} (uniform : nat -> f64 -> f64).

Definition handle (now : f64) s (e : event) : res t :=
  match e with
  | Packet p => recv now uniform s p
  | Expiry tno => expire now uniform s tno
  | Command c => command now uniform s c
  end.

(** The script tells an agent to listen before it opens a connection or after
    it has closed one; the packets that arrive are those the peer is heard
    by. *)
Definition lawful {HD : Heard} s (e : event) : Prop :=
  match e with
  | Packet p => arrives p
  | Command listen_cmd => state_ s = Tcp.CLOSED
  | _ => True
  end.

Inductive runs {HD : Heard} : t -> t -> Prop :=
| runs_nil s : runs s s
| runs_cons now e s s1 s2 : lawful s e -> handle now s e = Ok s1 -> runs s1 s2 -> runs s s2.

(** A run computed, when it is lawful: every event at its time. *)
Definition lawfulb s (e : event) : bool :=
  match e with
  | Packet p => 0 <=? payload p
  | Command listen_cmd => bool_decide (state_ s = Tcp.CLOSED)
  | _ => true
  end.

Fixpoint run (l : list (f64 * event)) s : res t :=
  match l with
  | [] => Ok s
  | (now, e) :: l => if lawfulb s e then let! s := handle now s e in run l s else Err Throw
  end.

Lemma run_runs l s s' : run l s = Ok s' -> runs (HD := anything) s s'.
Proof.
  revert s. induction l as [|[now e] l IH]; intros s E; cbn [run] in E; [apply Ok_inj in E as <-; apply runs_nil|].
  destruct (lawfulb s e) eqn:El; [|done]. apply res_bind_Ok in E as (s1 & E1 & E).
  eapply runs_cons; [|exact E1|by apply IH]. unfold lawful, lawfulb in *.
  destruct e as [p| |[]]; try done; [by apply Z.leb_le in El|by apply bool_decide_eq_true in El].
Qed.
End WithEnv.
End FullTcpEvents.

Module FullTcpProps.
Import FullTcp FullTcpRecv FullTcpSpec FullTcpViews FullTcpRefine FullTcpRecvRefine FullTcpEvents.

Implicit Types (s : t).

Section WithEnv.
Context `{Libm} {HD : Heard} (uniform : nat -> f64 -> f64).

Lemma command_steps now s c s' :
  lawful s (Command c) -> 0 <= segsize s.(me) -> command now uniform s c = Ok s' -> steps s s'.
Proof.
  intros Hl Hg E. unfold command in E. destruct c.
  - apply Ok_inj in E as <-. eapply steps_one; [apply (step_arc (view s) Tcp.LISTEN)|done].
    cbn in *. by rewrite Hl.
  - apply steps_view. by eapply soft_reset_view.
  - by apply usrclosed_starts in E; apply E.
  - apply res_bind_Ok in E as (nb & _ & E). by eapply advance_bytes_steps.
  - by eapply advance_bytes_steps.
  - apply Ok_inj in E as <-. by apply steps_view.
  - by eapply sendmsg_steps.
Qed.

Lemma handle_steps now s e s' :
  lawful s e -> 0 <= segsize s.(me) -> handle uniform now s e = Ok s' -> steps s s'.
Proof.
  intros Hl Hg E. destruct e; cbn [handle] in E.
  - by eapply recv_steps.
  - by eapply expire_steps.
  - by eapply command_steps.
Qed.

Lemma steps_segsize s s' : 0 <= segsize s.(me) -> steps s s' -> segsize s'.(me) = segsize s.(me).
Proof. intros Hg Hs. by destruct (step_fits _ _ Hs Hg). Qed.

Lemma runs_steps s s' : 0 <= segsize s.(me) -> runs uniform s s' -> steps s s'.
Proof.
  intros Hg Hr. induction Hr as [s|now e s s1 s2 Hl E _ IH]; [done|].
  assert (steps s s1) as S1 by by eapply handle_steps.
  transitivity s1; [exact S1|]. apply IH. by rewrite (steps_segsize _ _ Hg S1).
Qed.



(** An agent never takes for acknowledged what it has not sent: no
    acknowledgement, however forged, moves [highest_ack_] above [maxseq_]. *)
Theorem agent_acked_was_sent s s' :
  0 <= segsize s.(me) -> runs uniform s s' -> highest_ack_ s <= maxseq_ s -> highest_ack_ s' <= maxseq_ s'.
Proof. intros Hg Hr. exact (step_acked_was_sent _ _ (runs_steps s s' Hg Hr)). Qed.

(** C18: Every segment an agent sends carries between 0 and [maxseg_] bytes,
    and what has been handed to the outside is never taken back. *)
Theorem agent_segments_fit s s' :
  0 <= segsize s.(me) -> runs uniform s s' ->
  exists l, out_ s' = out_ s ++ l /\ Forall (fits (segsize s.(me))) l.
Proof. intros Hg Hr. exact (proj2 (step_fits _ _ (runs_steps s s' Hg Hr) Hg)). Qed.
End WithEnv.
End FullTcpProps.

(** * Witnesses: two agents over a lossy network *)

Module FullTcpDemo.
Import FullTcp FullTcpRecv FullTcpEvents.
Import FullTcpSpec(received, anything).

#[global] Instance libm : Libm := {| pow := fun x _ => x; exp := fun x => x; log := fun x => x |}.

Definition uniform (n : nat) (x : f64) : f64 := F64.zero.

Definition base : TcpAgent.t :=
  TcpAgent.mk (F64.of_Z 20) F64.zero 0 0 0 0 0 (-1) (-1) 0 1460 TcpAgent.NONE
    0 F64.zero F64.zero (F64.of_Z 4) (F64.of_Z 2) (F64.of_Z 1) 1 (F64.ratio 1 2) (F64.of_Z 1)
    F64.zero (F64.of_Z 1) true 0 0 0 38 0 0
    (TcpAgent.mkHstcp F64.zero F64.zero F64.zero F64.zero F64.zero F64.zero) 0 0 0
    false F64.zero F64.zero F64.zero F64.zero F64.zero
    (F64.ratio 1 100) F64.zero false true 0 0 0 0 3 2 0 12 2 F64.zero (F64.of_Z 3)
    (F64.of_Z 60) (F64.ratio 1 5) (EcnProcessor.create F64.zero).

Definition tcp (c : Tcp.agent_class) : Tcp.t :=
  Tcp.mk c base 1460 Tcp.CLOSED 0 false false false 0 0 false (-1) 0 false true 0 0
    Tcp.REMAINING_SIZE 0 [] false 0 [] 0 0 0 false 0 F64.zero 10 (-1) false
    (ReassemblyQueue.create (-1)) (-1) false 3 0 0 1.

Definition agent (c : Tcp.agent_class) : t :=
  mk (tcp c) true false true 0 F64.zero true true 40 false 1 83000 F64.zero F64.zero true
    (-10) false (-1) F64.zero 0 0 0 0 0 None None None None 0 (ReassemblyQueue.create (-1)) (-1) (-1)
    (F64.of_Z (-1)) Tcp.CLOSED (F64.of_Z (-1)) (F64.of_Z (-1)) (-1) None 0 0 false false (F64.ratio 1 10)
    false true F64.zero (F64.of_Z (-1)) (F64.of_Z (-1)) false false false true false false 3 10 1 0 (-1) 0
    8 2 0 [].

Definition sent_packets (l : list effect) : list packet :=
  omap (fun e => match e with Send p => Some p | _ => None end) l.

Definition result {A} (m : res A) (d : A) : A := match m with Ok a => a | Err _ => d end.

(** Two agents, the packets under way from each to the other, and what
    happened to them so far, last event first. *)
Record world := mkWorld {
  w_a : t; w_b : t;
  w_ab : list packet; w_ba : list packet;
  w_log_a : list (f64 * event); w_log_b : list (f64 * event)
}.

Definition ms (n : nat) : f64 := F64.div (F64.of_Z (Z.of_nat n)) (F64.of_Z 1000).

(** An event at one of them. *)
Definition at_a (n : nat) (e : event) (w : world) : res world :=
  let! a := handle uniform (ms n) (w_a w) e in
  let news := sent_packets (drop (length (out_ (w_a w))) (out_ a)) in
  Ok (mkWorld a (w_b w) (w_ab w ++ news) (w_ba w) ((ms n, e) :: w_log_a w) (w_log_b w)).

Definition at_b (n : nat) (e : event) (w : world) : res world :=
  let! b := handle uniform (ms n) (w_b w) e in
  let news := sent_packets (drop (length (out_ (w_b w))) (out_ b)) in
  Ok (mkWorld (w_a w) b (w_ab w) (w_ba w ++ news) (w_log_a w) ((ms n, e) :: w_log_b w)).

(** They exchange packets, one every millisecond, those numbered in [lost]
    excepted. *)
Fixpoint talk (fuel n : nat) (lost : list nat) (w : world) : res world :=
  match fuel with
  | O => Ok w
  | S fuel =>
      match w_ab w, w_ba w with
      | p :: ab, _ =>
          let w := mkWorld (w_a w) (w_b w) ab (w_ba w) (w_log_a w) (w_log_b w) in
          if bool_decide (n ∈ lost) then talk fuel (S n) lost w
          else let! w := at_b n (Packet p) w in talk fuel (S n) lost w
      | [], p :: ba =>
          let w := mkWorld (w_a w) (w_b w) [] ba (w_log_a w) (w_log_b w) in
          if bool_decide (n ∈ lost) then talk fuel (S n) lost w
          else let! w := at_a n (Packet p) w in talk fuel (S n) lost w
      | [], [] => Ok w
      end
  end.

Definition client : t := agent Tcp.Sack.
Definition server : t := result (reset uniform (agent Tcp.Sack)) client.

(** The client sends 20000 bytes to the listening server, the eighth packet
    is lost, then the client closes; its last timer goes off later. *)
Definition dialogue : res world :=
  let w := mkWorld client server [] [] [] [] in
  let! w := at_b 0 (Command listen_cmd) w in
  let! w := at_a 0 (Command (sendmsg_cmd 20000 NO_FLAG)) w in
  let! w := talk 100 1 [8%nat] w in
  let! w := at_a 100 (Command close_cmd) w in
  let! w := talk 100 101 [] w in
  at_a 300 (Expiry TCP_TIMER_DELACK) w.

Definition events_a : list (f64 * event) := match dialogue with Ok w => rev (w_log_a w) | Err _ => [] end.
Definition events_b : list (f64 * event) := match dialogue with Ok w => rev (w_log_b w) | Err _ => [] end.

Definition client_after : t := result (run uniform events_a client) client.
Definition server_after : t := result (run uniform events_b server) server.
End FullTcpDemo.

Module FullTcpWitness.
Import FullTcp FullTcpRecv FullTcpSpec FullTcpViews FullTcpEvents FullTcpProps FullTcpDemo.

Lemma client_runs : runs (HD := anything) uniform client client_after.
Proof. apply (run_runs uniform events_a). vm_compute. reflexivity. Defined.

Lemma server_runs : runs (HD := anything) uniform server server_after.
Proof. apply (run_runs uniform events_b). vm_compute. reflexivity. Defined.

Lemma client_segsize : 0 <= segsize client.(me).
Proof. vm_compute. discriminate. Defined.

Lemma server_segsize : 0 <= segsize server.(me).
Proof. vm_compute. discriminate. Defined.



Lemma agent_acked_was_sent_witness :
  highest_ack_ client_after = 20002 /\ highest_ack_ client_after <= maxseq_ client_after.
Proof.
  split; [vm_compute; reflexivity|].
  apply (agent_acked_was_sent (HD := anything) uniform client client_after client_segsize client_runs).
  vm_compute. discriminate.
Defined.

Lemma agent_segments_fit_witness :
  Tcp.size <$> head (drop 3 (sent_packets (out_ client_after))) = Some 1500 /\
  exists l, out_ client_after = out_ client ++ l /\ Forall (fits (segsize client.(me))) l.
Proof.
  split; [vm_compute; reflexivity|]. exact (agent_segments_fit (HD := anything) uniform client client_after client_segsize client_runs).
Defined.
End FullTcpWitness.
