(* ===== verification/FullTcpSend.v ===== *)
(** * send_much terminates

    [send_much] loops until the window, the data or [foutput] stop it; the
    comment in the source says that it could loop for ever at one instant of
    the simulation.  For a flow of known length it does not: every turn but
    the first sends at least a byte of the data at [t_seqno_] or at
    [h_seqno_], and both stay below the end of the data.  [send_fuel] is
    therefore never used up. *)

From Stdlib Require Import ZArith Lia Bool SpecFloat.
From stdpp Require Import base list gmap.
From S2P Require Import Prelude F64 PktQueue Rq Ecn TcpAgent Tcp TcpPrio TcpSack TcpCong FullTcp FullTcpRecv.
From S2P Require Import FullTcpSpec FullTcpRefine FullTcpProps.

(** ** Computations that do not run out of fuel *)

Module FullTcpEnds.

Definition ends {A} (m : res A) : Prop := m <> Err Fuel.

Lemma ends_Ok {A} (a : A) : ends (Ok a).
Proof. discriminate. Qed.

Lemma ends_bind_eq {A B} (m : res A) (k : A -> res B) :
  ends m -> (forall a, m = Ok a -> ends (k a)) -> ends (res_bind m k).
Proof. unfold ends. intros Hm Hk. destruct m as [a|e]; cbn; [by apply Hk|]. intros [= ->]. by apply Hm. Qed.

Lemma ends_bind {A B} (m : res A) (k : A -> res B) : ends m -> (forall a, ends (k a)) -> ends (res_bind m k).
Proof. intros Hm Hk. by apply ends_bind_eq. Qed.

Lemma ends_let {A B} (v : A) (k : A -> res B) : (forall x, ends (k x)) -> ends (let x := v in k x).
Proof. intros Hk. apply Hk. Qed.

Create HintDb ends.

Ltac ends1 :=
  lazymatch goal with
  | |- ends (Ok _) => discriminate
  | |- ends (Err _) => discriminate
  | |- ends (res_bind _ _) => apply ends_bind; [|intros ?]
  | |- ends (let x := ?v in @?k x) =>
      lazymatch type of v with
      | forall _, _ => change (ends (k v)); cbn beta
      | _ => let y := fresh x in refine (ends_let v k _); intros y; cbn beta
      end
  | |- ends (if ?b then _ else _) => destruct b
  | |- ends (match ?x with _ => _ end) => destruct x
  | |- ends _ => solve [eauto 2 with ends nocore]
  end.

Tactic Notation "ends" "through" reference(f) := cbv beta delta [f]; repeat ends1.

Lemma ends_chk z : ends (chk z).
Proof. unfold chk. by destruct (in_intb z). Qed.

Lemma ends_iadd a b : ends (iadd a b).
Proof. apply ends_chk. Qed.

Lemma ends_isub a b : ends (isub a b).
Proof. apply ends_chk. Qed.

Lemma ends_imul a b : ends (imul a b).
Proof. apply ends_chk. Qed.

Lemma ends_deref {A} (o : option A) : ends (deref o).
Proof. by destruct o. Qed.

#[export] Hint Resolve ends_chk ends_iadd ends_isub ends_imul ends_deref : ends.

Lemma ends_to_int x : ends (F64.to_int x).
Proof. ends through F64.to_int. Qed.

#[export] Hint Resolve ends_to_int : ends.

(** ** The congestion window *)

Section WithLibm.
Context `{Libm}.

Lemma ends_force_wnd a n : ends (TcpAgent.force_wnd a n).
Proof. ends through TcpAgent.force_wnd. Qed.

#[local] Hint Resolve ends_force_wnd : ends.

Lemma ends_TcpAgent_window a : ends (TcpAgent.window a).
Proof. ends through TcpAgent.window. Qed.

Lemma ends_window m : ends (Tcp.window m).
Proof. apply ends_TcpAgent_window. Qed.

#[local] Hint Resolve ends_TcpAgent_window ends_window : ends.

Lemma ends_slowdown_windows a : ends (TcpAgent.slowdown_windows a).
Proof. ends through TcpAgent.slowdown_windows. Qed.

Lemma ends_slowdown_ssthresh a how b h d ss : ends (TcpAgent.slowdown_ssthresh a how b h d ss).
Proof. ends through TcpAgent.slowdown_ssthresh. Qed.

Lemma ends_slowdown_cwnd a how b h d w ss : ends (TcpAgent.slowdown_cwnd a how b h d w ss).
Proof. ends through TcpAgent.slowdown_cwnd. Qed.

#[local] Hint Resolve ends_slowdown_windows ends_slowdown_ssthresh ends_slowdown_cwnd : ends.

Lemma ends_slowdown_with a how b : ends (TcpAgent.slowdown_with a how b).
Proof. ends through TcpAgent.slowdown_with. Qed.

Lemma ends_count_cut a how : ends (TcpAgent.count_cut a how).
Proof. ends through TcpAgent.count_cut. Qed.

#[local] Hint Resolve ends_slowdown_with ends_count_cut : ends.

Lemma ends_TcpAgent_slowdown a how : ends (TcpAgent.slowdown a how).
Proof. ends through TcpAgent.slowdown. Qed.

Lemma ends_get_num_bytes_remaining m : ends (TcpPrio.get_num_bytes_remaining m).
Proof.
  ends through TcpPrio.get_num_bytes_remaining; ends through TcpPrio.FullTcpAgent.get_num_bytes_remaining;
    ends through TcpPrio.SackFullTcpAgent.get_num_bytes_remaining;
    ends through TcpPrio.DDTcpAgent.get_num_bytes_remaining.
Qed.

#[local] Hint Resolve ends_TcpAgent_slowdown ends_get_num_bytes_remaining : ends.

Lemma ends_on_super f m : (forall a, ends (f a)) -> ends (TcpCong.on_super f m).
Proof. intros Hf. apply ends_bind; [apply Hf|done]. Qed.

Lemma ends_dd_penalty m now : ends (TcpCong.dd_penalty m now).
Proof. ends through TcpCong.dd_penalty. Qed.

#[local] Hint Resolve ends_dd_penalty ends_on_super : ends.

Lemma ends_dd_slowdown m now how : ends (TcpCong.dd_slowdown m now how).
Proof. ends through TcpCong.dd_slowdown. Qed.

#[local] Hint Resolve ends_dd_slowdown : ends.

Lemma ends_slowdown m now how : ends (TcpCong.slowdown m now how).
Proof. ends through TcpCong.slowdown. Qed.

Lemma ends_rtt_timeout c a : ends (TcpCong.rtt_timeout c a).
Proof. ends through TcpCong.rtt_timeout; ends through TcpAgent.rtt_timeout. Qed.

#[local] Hint Resolve ends_slowdown ends_rtt_timeout : ends.

(** ** Packets *)

Lemma ends_get q x : ends (ReassemblyQueue.get q x).
Proof. apply ends_deref. Qed.

#[local] Hint Resolve ends_get : ends.

Lemma ends_gensack q n : ends (ReassemblyQueue.gensack q n).
Proof.
  unfold ReassemblyQueue.gensack. generalize (ReassemblyQueue.lifo q) as l. intros l.
  revert n. induction l as [|x l IH]; intros n; cbn [ReassemblyQueue.gensack_loop]; repeat ends1.
Qed.

#[local] Hint Resolve ends_gensack : ends.

Lemma ends_calc_unbounded m seq maxseq : ends (TcpPrio.calc_unbounded_no_deadline_priority m seq maxseq).
Proof.
  assert (forall m n, ends (TcpPrio.SackFullTcpAgent.remaining_plus_10 m n)) as Hr
    by (intros; ends through TcpPrio.SackFullTcpAgent.remaining_plus_10).
  ends through TcpPrio.calc_unbounded_no_deadline_priority;
    ends through TcpPrio.DDTcpAgent.calc_unbounded_no_deadline_priority;
    ends through TcpPrio.SackFullTcpAgent.calc_unbounded_no_deadline_priority;
    ends through TcpPrio.FullTcpAgent.calc_unbounded_no_deadline_priority.
Qed.

Lemma ends_into_bounded_priority m prio : ends (TcpPrio.into_bounded_priority m prio).
Proof.
  assert (forall n i, ends (TcpPrio.bounded_loop m prio i n)) as Hl.
  { intros n. induction n as [|n IH]; intros i; cbn [TcpPrio.bounded_loop]; repeat ends1. }
  ends through TcpPrio.into_bounded_priority.
Qed.

Lemma ends_piasPrio m b : ends (TcpPrio.piasPrio m b).
Proof.
  assert (forall m n i, ends (TcpPrio.pias_loop m b i n)) as Hl.
  { intros m' n. induction n as [|n IH]; intros i; cbn [TcpPrio.pias_loop]; repeat ends1. }
  ends through TcpPrio.piasPrio.
Qed.

#[local] Hint Resolve ends_calc_unbounded ends_into_bounded_priority ends_piasPrio : ends.

Lemma ends_packet_prio m now seqno datalen prio : ends (TcpPrio.packet_prio m now seqno datalen prio).
Proof.
  ends through TcpPrio.packet_prio; ends through TcpPrio.calc_pias_priority;
    ends through TcpPrio.calc_deadline_priority; ends through TcpPrio.get_expiration_time_us;
    ends through TcpPrio.calc_no_deadline_priority; ends through TcpPrio.max_seq.
Qed.
End WithLibm.

(** ** The agent *)

Section Agent.
Import FullTcp.
Context `{Libm} (now : f64) (uniform : nat -> f64 -> f64).
Implicit Types (s : t).

#[local] Hint Resolve ends_slowdown ends_rtt_timeout ends_gensack ends_packet_prio ends_window : ends.

Lemma ends_on_tcp f s : ends (f s.(me)) -> ends (on_tcp f s).
Proof. intros Hf. by apply ends_bind. Qed.

Lemma ends_agent_slowdown how s : ends (FullTcp.slowdown now how s).
Proof. apply ends_on_tcp, ends_slowdown. Qed.

Lemma ends_set_rtx_timer s : ends (set_rtx_timer now s).
Proof. ends through set_rtx_timer. Qed.

Lemma ends_count_packet s n r : ends (count_packet now s n r).
Proof. ends through count_packet. Qed.

Lemma ends_build_options s : ends (build_options now s).
Proof. ends through build_options. Qed.

#[local] Hint Resolve ends_agent_slowdown ends_set_rtx_timer ends_count_packet ends_build_options : ends.

Lemma ends_sendpacket s seqno ackno pflags datalen r : ends (sendpacket now s seqno ackno pflags datalen r).
Proof. ends through sendpacket. Qed.

#[local] Hint Resolve ends_sendpacket : ends.

Lemma ends_transmit s seqno pflags datalen rex r : ends (transmit now s seqno pflags datalen rex r).
Proof. ends through transmit. Qed.

Lemma ends_window_bytes s : ends (window_bytes s).
Proof. ends through window_bytes. Qed.

Lemma ends_buffered s seqno : ends (buffered s seqno).
Proof. ends through buffered. Qed.

#[local] Hint Resolve ends_transmit ends_window_bytes ends_buffered : ends.

Lemma ends_raw_datalen s seqno syn : ends (raw_datalen s seqno syn).
Proof. ends through raw_datalen. Qed.

Lemma ends_idle_restart s : ends (idle_restart now s).
Proof. ends through idle_restart. Qed.

#[local] Hint Resolve ends_raw_datalen ends_idle_restart : ends.

Lemma ends_restart_after_idle s quiet n : ends (restart_after_idle now s quiet n).
Proof. ends through restart_after_idle. Qed.

Lemma ends_empty_buffer s syn quiet pflags seqno n : ends (empty_buffer s syn quiet pflags seqno n).
Proof. ends through empty_buffer. Qed.

#[local] Hint Resolve ends_restart_after_idle ends_empty_buffer : ends.

Lemma ends_FullTcpAgent_foutput s seqno r : ends (FullTcpAgent_foutput now s seqno r).
Proof. ends through FullTcpAgent_foutput. Qed.

Lemma ends_give_up_deadline s : ends (give_up_deadline now s).
Proof. ends through give_up_deadline. Qed.

#[local] Hint Resolve ends_FullTcpAgent_foutput ends_give_up_deadline : ends.

Lemma ends_foutput s seqno r : ends (foutput now s seqno r).
Proof. ends through foutput. Qed.

Lemma ends_FullTcpAgent_send_allowed m seq : ends (TcpSack.FullTcpAgent.send_allowed m seq).
Proof. ends through TcpSack.FullTcpAgent.send_allowed. Qed.

#[local] Hint Resolve ends_FullTcpAgent_send_allowed : ends.

Lemma ends_send_allowed m seq : ends (TcpSack.send_allowed m seq).
Proof. ends through TcpSack.send_allowed; ends through TcpSack.SackFullTcpAgent.send_allowed. Qed.

Lemma ends_FullTcpAgent_sent m seq amt : ends (TcpSack.FullTcpAgent.sent m seq amt).
Proof. ends through TcpSack.FullTcpAgent.sent. Qed.

#[local] Hint Resolve ends_FullTcpAgent_sent : ends.

Lemma ends_sent m seq amt : ends (TcpSack.sent m seq amt).
Proof. ends through TcpSack.sent; ends through TcpSack.SackFullTcpAgent.sent. Qed.
End Agent.
End FullTcpEnds.

(** ** What sending a packet leaves alone *)

Module FullTcpKeeps.
Import FullTcp FullTcpSpec FullTcpViews FullTcpRefine TcpFlags.

Implicit Types (s : t) (m : Tcp.t).

(** What the choice of the next packet depends on. *)
Definition sender m :=
  (Tcp.cls m, Tcp.infinite_send_ m, Tcp.maxseg_ m, Tcp.h_seqno_ m, Tcp.sq_ m,
   (Tcp.curseq_ m, Tcp.highest_ack_ m, Tcp.recover_ m, Tcp.t_seqno_ m)).

(** Bytes handed to the application. *)
Definition delivered s : Z := FullTcpSpec.received (out_ s).

(** Neither that nor the receiver changes. *)
Definition keeps s s' : Prop :=
  sender s'.(me) = sender s.(me) /\ rq_ s' = rq_ s /\ delivered s' = delivered s.

#[global] Instance keeps_refl : Reflexive keeps.
Proof. by intros s. Qed.

#[global] Instance keeps_trans : Transitive keeps.
Proof. intros s1 s2 s3 (A & B & C) (A' & B' & C'). unfold keeps. by rewrite A', B', C'. Qed.

Lemma delivered_emit e s :
  delivered (emit e s) = delivered s + match e with RecvBytes n => n | _ => 0 end.
Proof. unfold delivered. change (out_ (emit e s)) with (out_ s ++ [e]). apply FullTcpSpec.received_snoc. Qed.

Lemma keeps_emit e s : (forall n, e <> RecvBytes n) -> keeps s (emit e s).
Proof. intros He. split_and!; [done..|]. rewrite delivered_emit. destruct e; try lia. by destruct (He n). Qed.

Lemma keeps_send p s : keeps s (emit (Send p) s).
Proof. by apply keeps_emit. Qed.

Lemma keeps_idle s : keeps s (emit Idle s).
Proof. by apply keeps_emit. Qed.

Lemma keeps_done_data s : keeps s (emit DoneData s).
Proof. by apply keeps_emit. Qed.

Lemma keeps_me s m : sender m = sender s.(me) -> keeps s (s <| me := m |>).
Proof. intros Hm. by split_and!. Qed.

Section WithEnv.
Context `{Libm} (now : f64) (uniform : nat -> f64 -> f64).

Lemma slowdown_sender m m' how : TcpCong.slowdown m now how = Ok m' -> sender m' = sender m.
Proof.
  intros (R & _ & a & ->)%TcpCongFacts.slowdown_recovery. unfold TcpCongFacts.recovery in R. cbn in R.
  unfold sender, Tcp.curseq_, Tcp.highest_ack_, Tcp.recover_, Tcp.t_seqno_ in *. cbn in *. congruence.
Qed.

Lemma keeps_slowdown how s s' : slowdown now how s = Ok s' -> keeps s s'.
Proof. intros (m & E & <-%Ok_inj)%res_bind_Ok. apply keeps_me. by eapply slowdown_sender. Qed.

Lemma keeps_set_rtx_timer s s' : set_rtx_timer now s = Ok s' -> keeps s s'.
Proof.
  intros ([a d] & E & <-%Ok_inj)%res_bind_Ok. transitivity (set_agent (fun _ => a) s); [|done].
  apply keeps_me. apply TcpCongFacts.rtt_timeout_flow in E. injection E as _ E1 E2 E3 E4 _ _ _ _.
  unfold sender, Tcp.curseq_, Tcp.highest_ack_, Tcp.recover_, Tcp.t_seqno_. cbn. unfold agent in *. congruence.
Qed.

Lemma packet_prio_sender m m' seqno datalen ip prio :
  TcpPrio.packet_prio m now seqno datalen ip = Ok (m', prio) -> sender m' = sender m.
Proof.
  unfold TcpPrio.packet_prio, TcpPrio.calc_pias_priority, TcpPrio.piasPrio, TcpPrio.calc_no_deadline_priority,
    TcpPrio.calc_unbounded_no_deadline_priority, TcpPrio.DDTcpAgent.calc_unbounded_no_deadline_priority,
    TcpPrio.SackFullTcpAgent.calc_unbounded_no_deadline_priority,
    TcpPrio.FullTcpAgent.calc_unbounded_no_deadline_priority.
  intros E. destruct (Tcp.cls m) eqn:?, (Tcp.prio_scheme_ m) eqn:?; bool_cases; inv_res; bool_cases; inv_res; done.
Qed.

Lemma keeps_packet_prio s seqno datalen m prio :
  TcpPrio.packet_prio s.(me) now seqno datalen s.(prio_) = Ok (m, prio) -> keeps s (s <| me := m |>).
Proof. intros E. apply keeps_me. by eapply packet_prio_sender. Qed.
End WithEnv.

#[export] Hint Extern 1 (keeps ?s _) => (tryif is_evar s then fail else (split_and!; reflexivity)) : chain.
#[export] Hint Resolve keeps_send keeps_idle keeps_done_data keeps_slowdown keeps_set_rtx_timer keeps_packet_prio : chain.

Section Sending.
Context `{Libm} (now : f64) (uniform : nat -> f64 -> f64).

Lemma keeps_count_packet s n r s' : count_packet now s n r = Ok s' -> keeps s s'.
Proof. intros E. chain through count_packet in E. Qed.

#[local] Hint Resolve keeps_count_packet : chain.

Lemma keeps_sendpacket s seqno ackno pflags datalen r s' :
  sendpacket now s seqno ackno pflags datalen r = Ok s' -> keeps s s'.
Proof. intros E. chain through sendpacket in E. Qed.

Lemma keeps_tack_on_fin s f b s' f' b' : tack_on_fin s f b = (s', f', b') -> keeps s s'.
Proof.
  unfold tack_on_fin. intros E. destruct (has_flag s TF_NEEDCLOSE); [|by apply pair_fst, pair_fst in E as <-].
  destruct (_ && _); by apply pair_fst, pair_fst in E as <-.
Qed.

Lemma keeps_raise_maxseq s a b : keeps s (raise_maxseq now s a b).
Proof. unfold raise_maxseq. destruct (_ <? _); [|done]. by destruct (_ && _). Qed.

#[local] Hint Resolve keeps_sendpacket keeps_tack_on_fin keeps_raise_maxseq : chain.

(** The end of [transmit]: the state is the one the packet was sent in. *)
Definition same_state s s' : Prop := state_ s' = state_ s.

#[local] Instance same_state_refl : Reflexive same_state.
Proof. done. Qed.

#[local] Instance same_state_trans : Transitive same_state.
Proof. intros s1 s2 s3 H1 H2. unfold same_state in *. congruence. Qed.

Lemma same_state_view s s' : view s' = view s -> same_state s s'.
Proof. intros E. exact (f_equal c_state E). Qed.

Lemma same_state_rtx s s' : set_rtx_timer now s = Ok s' -> same_state s s'.
Proof. intros E%set_rtx_timer_view. by apply same_state_view. Qed.

Lemma same_state_sendpacket s seqno ackno pflags datalen r s' :
  sendpacket now s seqno ackno pflags datalen r = Ok s' -> same_state s s'.
Proof. intros (p & E & _)%sendpacket_view. exact (f_equal c_state E). Qed.

Lemma same_state_raise s a b : same_state s (raise_maxseq now s a b).
Proof. exact (f_equal c_state (raise_maxseq_view now s a b)). Qed.

#[local] Hint Extern 1 (same_state ?s _) => (tryif is_evar s then fail else reflexivity) : chain.
#[local] Hint Resolve same_state_rtx same_state_sendpacket same_state_raise : chain.

Lemma keeps_transmit s seqno pflags datalen rex r s' amt :
  transmit now s seqno pflags datalen rex r = Ok (s', amt) -> keeps s s'.
Proof. intros E. chain through transmit in E. Qed.

Lemma keeps_bufferempty s : keeps s (bufferempty s).
Proof. unfold bufferempty. chain. Qed.

Lemma keeps_restart_after_idle s quiet n s' : restart_after_idle now s quiet n = Ok s' -> keeps s s'.
Proof. intros E. chain through restart_after_idle in E. Qed.

Lemma keeps_empty_buffer s syn quiet f seqno n s' f' b :
  empty_buffer s syn quiet f seqno n = Ok (s', f', b) -> keeps s s'.
Proof.
  intros (e & _ & E)%res_bind_Ok. destruct (negb _ && _).
  - apply Ok_inj in E. destruct syn; do 2 apply pair_fst in E; rewrite <-E; [done|]. chain.
  - apply Ok_inj in E. do 2 apply pair_fst in E. by rewrite <-E.
Qed.

#[local] Hint Resolve keeps_transmit keeps_bufferempty keeps_restart_after_idle keeps_empty_buffer : chain.

(** [maxseg_] is set when it has not been. *)
Lemma keeps_but_size s seqno r s' amt :
  FullTcpAgent_foutput now s seqno r = Ok (s', amt) ->
  keeps (if maxseg_ s =? 0 then set_tcp (fun m => m <| Tcp.maxseg_ := TcpAgent.size_ m.(Tcp.super) |>) s else s) s'.
Proof. intros E. cbv beta delta [FullTcpAgent_foutput] in E. peel E. rewrite <-E0. clear E0. chain. Qed.

Lemma keeps_FullTcpAgent_foutput s seqno r s' amt :
  maxseg_ s <> 0 -> FullTcpAgent_foutput now s seqno r = Ok (s', amt) -> keeps s s'.
Proof. intros Hm E%keeps_but_size. by rewrite (proj2 (Z.eqb_neq _ _) Hm) in E. Qed.

Lemma keeps_give_up_deadline s s' : give_up_deadline now s = Ok s' -> keeps s s'.
Proof. intros E. chain through give_up_deadline in E. Qed.

Lemma keeps_foutput s seqno r s' amt :
  maxseg_ s <> 0 -> foutput now s seqno r = Ok (s', amt) -> keeps s s'.
Proof.
  intros Hm E. unfold foutput in E. destruct (cls s); try by eapply keeps_FullTcpAgent_foutput.
  apply res_bind_Ok in E as (s1 & E1%keeps_give_up_deadline & E). transitivity s1; [done|].
  eapply keeps_FullTcpAgent_foutput; [|exact E]. destruct E1 as [[= _ _ E1 _ _ _ _ _ _] _].
  unfold maxseg_ in *. by rewrite E1.
Qed.
End Sending.
End FullTcpKeeps.

(** ** Progress *)

Module FullTcpProgress.
Import FullTcp FullTcpSpec FullTcpViews FullTcpRefine FullTcpEnds FullTcpKeeps TcpFlags.

(** What the peer says does not matter here. *)
#[local] Existing Instance anything.

Implicit Types (s : t) (m : Tcp.t).

Section WithEnv.
Context `{Libm} (now : f64) (uniform : nat -> f64 -> f64).

Lemma transmit_amt s seqno pflags datalen rex r s' amt :
  transmit now s seqno pflags datalen rex r = Ok (s', amt) ->
  state_ s' = state_ s /\ amt = datalen + b2z (contains_all pflags SYN) + b2z (contains_all pflags FIN) \/
  state_ s' = Tcp.FIN_WAIT_1.
Proof.
  intros E. unfold transmit in E. destruct (EcnProcessor.modify_pflags_on_foutput _ _ _) as [e f1].
  destruct (tack_on_fin _ _ _) as [[s2 f3] fin] eqn:Et.
  apply res_bind_Ok in E as (s4 & E4%same_state_sendpacket & E). apply res_bind_Ok in E as (r1 & [-> _]%chk_inv & E).
  apply res_bind_Ok in E as (r2 & [-> _]%chk_inv & E). apply res_bind_Ok in E as (h & _ & E).
  apply res_bind_Ok in E as (s5 & E5 & E). apply Ok_inj in E.
  assert (state_ s5 = state_ s2) as T5.
  { transitivity (state_ s4); [|exact E4].
    match type of E5 with (if _ then set_rtx_timer _ ?x else _) = _ => transitivity (state_ x) end.
    - match type of E5 with (if ?b then _ else _) = _ => destruct b end;
        [by apply same_state_rtx in E5|by apply Ok_inj in E5 as <-].
    - etransitivity; [apply same_state_raise|]. match goal with |- context [if ?b then _ else _] => by destruct b end. }
  pose proof (pair_fst _ _ _ _ E) as <-. injection E as <-. rewrite T5.
  unfold tack_on_fin in Et. destruct (has_flag _ TF_NEEDCLOSE);
    [destruct (_ && _)|]; injection Et as <- _ <-; [by right|by left..].
Qed.

Lemma outflags_none st :
  contains_any (Tcp.outflags st) (Z.lor SYN FIN) = false ->
  contains_all (Tcp.outflags st) SYN = false /\ contains_all (Tcp.outflags st) FIN = false.
Proof. by destruct st. Qed.

Lemma FullTcpAgent_foutput_amt s seqno r s' amt :
  infinite_send_ s = false -> ready s -> FullTcpAgent_foutput now s seqno r = Ok (s', amt) ->
  contains_any (outflags s') (Z.lor SYN FIN) = false -> 0 < amt -> amt <= curseq_ s + 1 - seqno.
Proof.
  intros Hf Hr E Ho Ha. unfold FullTcpAgent_foutput in E. destruct (use_size_view s) as (V0 & M0 & O0).
  match type of V0 with view ?x = _ => set (s0 := x) in * end.
  apply res_bind_Ok in E as ([d bytes] & Ed & E). set (s1 := if _ && _ then bufferempty s0 else s0) in E.
  assert ((state_ s1, maxseg_ s1) = (state_ s0, maxseg_ s0)) as F1 by (subst s1; by destruct (_ && _)).
  injection F1 as T1 M1. cbn beta zeta in E. set (dl := one_segment s1 d) in E.
  apply res_bind_Ok in E as (s2 & E2 & E). apply restart_after_idle_view in E2.
  apply res_bind_Ok in E as ([[s3 fl] emp] & E3 & E).
  apply empty_buffer_goes in E3 as (_ & _ & _ & T3 & Hs & Hfn).
  destruct (must_send _ _ _ _ _ _ _); [|by injection E as _ <-; lia].
  destruct Hr as [_ Hg]. injection V0 as T0 Z0 L0 _ _ _ _. injection E2 as T2 _ _ _ _ _ _.
  destruct (one_segment_range s1 d ltac:(congruence)) as [_ R2]. fold dl in R2.
  apply transmit_amt in E as [[T4 ->]|T4]; [|by unfold outflags in Ho; rewrite T4 in Ho].
  unfold outflags in Ho. destruct (outflags_none _ Ho) as [O1 O2].
  assert (state_ s' = state_ s) as T' by congruence. rewrite T' in O1, O2.
  assert (contains_all fl SYN = false) as F1.
  { rewrite Hs, O0. exact O1. }
  assert (contains_all fl FIN = false) as F2.
  { destruct (contains_all fl FIN) eqn:Ef; [|done]. specialize (Hfn eq_refl). rewrite O0 in Hfn.
    unfold outflags in Hfn. congruence. }
  rewrite F1, F2 in Ha |- *. cbn [b2z] in Ha |- *. specialize (R2 ltac:(lia)).
  pose proof (raw_datalen_within _ _ _ _ _ Ed ltac:(lia)) as Hw. rewrite L0 in Hw.
  unfold limit in Hw. change (Tcp.infinite_send_ s.(me)) with (infinite_send_ s) in Hw. rewrite Hf in Hw.
  cbn in Hw. change (Tcp.curseq_ s.(me)) with (curseq_ s) in Hw. lia.
Qed.

Lemma foutput_amt s seqno r s' amt :
  infinite_send_ s = false -> ready s -> foutput now s seqno r = Ok (s', amt) ->
  contains_any (outflags s') (Z.lor SYN FIN) = false -> 0 < amt -> amt <= curseq_ s + 1 - seqno.
Proof.
  intros Hf Hr E. unfold foutput in E. destruct (cls s); try by eapply FullTcpAgent_foutput_amt.
  apply res_bind_Ok in E as (s1 & E1 & E). pose proof (give_up_deadline_view _ _ _ E1) as V.
  apply keeps_give_up_deadline in E1 as [[= _ E1 _ _ _ E2 _ _ _] _].
  change (curseq_ s) with (Tcp.curseq_ s.(me)). rewrite <-E2. eapply FullTcpAgent_foutput_amt; [|by eapply view_ready|exact E].
  unfold infinite_send_ in *. by rewrite E1.
Qed.

(** ** The loop *)

(** What the search for the next hole needs of a scoreboard. *)
Definition scoreboard_ok m : Prop :=
  Tcp.is_sack (Tcp.cls m) = true ->
  RqFacts.rq_inv (Tcp.sq_ m) /\ ReassemblyQueue.maxseq (Tcp.sq_ m) + Tcp.maxseg_ m < 2 ^ 31 /\ - 2 ^ 31 <= Tcp.h_seqno_ m.

Record finite_flow m : Prop := {
  ff_finite : Tcp.infinite_send_ m = false;
  ff_segsize : 1 <= Tcp.maxseg_ m;
  ff_scoreboard : scoreboard_ok m
}.

(** What is left to send, in order and into holes. *)
Definition left_to_send m : nat :=
  Z.to_nat (Tcp.curseq_ m + 1 - Tcp.t_seqno_ m) + Z.to_nat (Tcp.curseq_ m + 1 - Tcp.h_seqno_ m).

Lemma nxt_tseq_finite m :
  finite_flow m ->
  exists m' r, TcpSack.nxt_tseq m = Ok (m', r) /\ finite_flow m' /\ (left_to_send m' <= left_to_send m)%nat /\
    Tcp.curseq_ m' = Tcp.curseq_ m /\
    (r = Tcp.t_seqno_ m' \/ Tcp.is_sack (Tcp.cls m') = true /\ r = Tcp.h_seqno_ m').
Proof.
  intros [Hf Hm Hs]. destruct (Tcp.is_sack (Tcp.cls m)) eqn:Hc.
  - destruct (Hs Hc) as (Hi & Hmax & Hl).
    destruct (TcpSackFacts.nxt_tseq_ok m Hc Hi Hm Hmax Hl) as (m' & r & E & (i & h & ->) & Hr).
    eexists _, r. split; [exact E|].
    assert (Tcp.h_seqno_ m <= h) as Hh.
    { destruct Hr as [[_ Hr]|(_ & Hr & _ & _ & _ & Hr' & _)]; cbn in *; lia. }
    split; [|split; [|split; [done|]]].
    + constructor; [done..|]. intros _. cbn. split; [by apply TcpSackFacts.rq_inv_hint|]. split; [exact Hmax|lia].
    + unfold left_to_send. cbn. unfold Tcp.curseq_, Tcp.t_seqno_. cbn. lia.
    + destruct Hr as [[-> _]|(_ & Hr & _ & _ & _ & Hr' & _)]; [by left|right]. cbn in *. split; [done|lia].
  - exists m, (Tcp.t_seqno_ m). unfold TcpSack.nxt_tseq. rewrite Hc. split_and!; [done|by constructor|done..|by left].
Qed.

Lemma sent_progress m m' seq amt :
  TcpSack.sent m seq amt = Ok m' -> finite_flow m -> 0 < amt <= Tcp.curseq_ m + 1 - seq ->
  seq = Tcp.t_seqno_ m \/ Tcp.is_sack (Tcp.cls m) = true /\ seq = Tcp.h_seqno_ m ->
  finite_flow m' /\ (left_to_send m' < left_to_send m)%nat.
Proof.
  intros E [Hf Hm Hs] Ha Hseq.
  assert (forall m1, TcpSack.FullTcpAgent.sent m1 seq amt = Ok m' -> exists v p r,
    m' = TcpSack.set_t_seqno v m1 <| Tcp.pipe_ := p |> <| Tcp.rtxbytes_ := r |> /\
    v = if seq =? Tcp.t_seqno_ m1 then Tcp.t_seqno_ m1 + amt else Tcp.t_seqno_ m1) as Hb.
  { intros m1 E1. unfold TcpSack.FullTcpAgent.sent in E1. apply res_bind_Ok in E1 as (m2 & E2 & E1).
    apply res_bind_Ok in E1 as (p & _ & E1). set (v := if _ =? _ then _ else _).
    assert (m2 = TcpSack.set_t_seqno v m1) as ->.
    { subst v. destruct (seq =? _); [apply res_bind_Ok in E2 as (x & [-> _]%chk_inv & [= <-])|injection E2 as <-]; [done|].
      by destruct m1 as [? []]. }
    exists v, p. destruct (_ <? _).
    - apply res_bind_Ok in E1 as (r & _ & E1). apply Ok_inj in E1 as <-. by exists r.
    - apply Ok_inj in E1 as <-. exists (Tcp.rtxbytes_ m1). by destruct m1. }
  unfold TcpSack.sent in E. destruct (Tcp.is_sack (Tcp.cls m)) eqn:Hc.
  - apply res_bind_Ok in E as (m1 & E1 & E). destruct (Hb _ E) as (v & p & r & -> & Hv).
    set (h := if seq =? Tcp.h_seqno_ m then Tcp.h_seqno_ m + amt else Tcp.h_seqno_ m).
    assert (m1 = m <| Tcp.h_seqno_ := h |>) as ->.
    { subst h. destruct (_ =? _); [apply res_bind_Ok in E1 as (x & [-> _]%chk_inv & [= <-])|injection E1 as <-]; [done|].
      by destruct m. }
    change (Tcp.t_seqno_ (m <| Tcp.h_seqno_ := h |>)) with (Tcp.t_seqno_ m) in Hv.
    assert (Tcp.h_seqno_ m <= h) by (subst h; destruct (_ =? _); lia). split.
    + constructor; [done..|]. intros _. destruct (Hs Hc) as (Hi & Hmax & Hl). cbn. split_and!; [done..|lia].
    + unfold left_to_send. cbn. unfold Tcp.t_seqno_, Tcp.curseq_ in *. cbn.
      subst h. destruct (Z.eqb_spec seq (Tcp.h_seqno_ m)), (Z.eqb_spec seq (TcpAgent.t_seqno_ (Tcp.super m))); lia.
  - destruct (Hb _ E) as (v & p & r & -> & Hv). destruct Hseq as [Hseq|[? _]]; [|done].
    rewrite <-Hseq, Z.eqb_refl in Hv. split.
    + constructor; [done..|]. intros Hc'. cbn in Hc'. congruence.
    + unfold left_to_send. cbn. unfold Tcp.t_seqno_, Tcp.curseq_ in *. cbn. lia.
Qed.

Lemma sender_finite s s' : keeps s s' -> finite_flow s.(me) -> finite_flow s'.(me) /\ left_to_send s'.(me) = left_to_send s.(me).
Proof.
  intros [[= E1 E2 E3 E4 E5 E6 E7 E8 E9] _] [Hf Hm Hs]. split.
  - constructor; [congruence..|]. unfold scoreboard_ok. by rewrite E1, E3, E4, E5.
  - unfold left_to_send. by rewrite E4, E6, E9.
Qed.

Lemma send_loop_ends fuel s force r mb n :
  finite_flow s.(me) -> state_ s <> Tcp.LISTEN -> (left_to_send s.(me) < fuel)%nat ->
  ends (send_loop now uniform fuel s force r mb n).
Proof.
  revert s force n. induction fuel as [|fuel IH]; intros s force n Hff Hl Hfuel; [lia|]. cbn [send_loop].
  destruct (nxt_tseq_finite _ Hff) as (m & seq & Em & Hffm & Hleft & Hcur & Hseq). rewrite Em.
  change (res_bind (Ok (m, seq)) ?k) with (k (m, seq)). cbv beta iota zeta.
  pose proof (mview_view s m (nxt_tseq_view _ _ _ Em)) as V1.
  set (s1 := s <| me := m |>) in *. change m with s1.(me) in Hffm, Hleft, Hcur, Hseq.
  assert (state_ s1 = state_ s) as T1 by exact (f_equal c_state V1). rewrite <-T1 in Hl. clearbody s1. clear V1 T1.
  apply ends_bind; [destruct force; [done|apply ends_send_allowed]|]. intros ok.
  destruct (negb ok); [done|]. destruct (_ && _); [done|].
  apply ends_bind_eq; [apply ends_foutput|]. intros [s2 amt] E2.
  assert (ready s1) as Hr1.
  { split; [done|]. destruct Hffm as [_ Hm _]. unfold segsize. destruct (Z.eqb_spec (Tcp.maxseg_ s1.(me)) 0); lia. }
  assert (maxseg_ s1 <> 0) as Hm0 by (destruct Hffm as [_ Hm _]; unfold maxseg_; lia).
  pose proof (keeps_foutput now _ _ _ _ _ Hm0 E2) as K2. destruct (sender_finite _ _ K2 Hffm) as [Hff2 Hleft2].
  pose proof (foutput_goes now _ _ _ _ _ Hr1 E2) as [[_ [Hl2 _]]%(fun G => G Hr1) _].
  destruct (Z.leb_spec amt 0) as [Ha|Ha]; [done|].
  destruct (contains_any (outflags s2) (Z.lor SYN FIN)) eqn:Ef.
  - apply ends_bind; [destruct (contains_all _ _); [apply ends_isub|done]|]. intros amt'.
    apply ends_bind_eq; [by apply ends_on_tcp, ends_sent|]. intros s3 E3.
    assert (outflags s3 = outflags s2) as ->; [|by rewrite Ef].
    unfold outflags. f_equal. refine (f_equal c_state (_ : view s3 = view s2)). revert E3. apply on_tcp_view. intros m'. apply sent_view.
  - destruct (outflags_none _ Ef) as [_ Hfin]. change (Tcp.outflags (state_ s2)) with (outflags s2) in Hfin. rewrite Hfin.
    change (res_bind (Ok amt) ?k) with (k amt). cbv beta.
    apply ends_bind_eq; [by apply ends_on_tcp, ends_sent|]. intros s3 E3.
    assert (view s3 = view s2) as V3 by (revert E3; apply on_tcp_view; intros m'; apply sent_view).
    assert (outflags s3 = outflags s2) as ->.
    { unfold outflags. f_equal. exact (f_equal c_state V3). }
    rewrite Ef. apply res_bind_Ok in E3 as (m3 & E3 & <-%Ok_inj).
    pose proof (foutput_amt _ _ _ _ _ (ff_finite _ Hffm) Hr1 E2 Ef Ha) as Hamt.
    destruct K2 as [[= C1 _ _ C4 _ C6 _ _ C9] _].
    assert (finite_flow m3 /\ (left_to_send m3 < left_to_send s2.(me))%nat) as [Hff3 Hleft3].
    { eapply sent_progress; [exact E3|exact Hff2| |by rewrite C9, C1, C4].
      rewrite C6. change (curseq_ s1) with (Tcp.curseq_ s1.(me)) in Hamt. lia. }
    assert (ends (send_loop now uniform fuel (s2 <| me := m3 |>) false r mb n) /\
      forall k, ends (send_loop now uniform fuel (s2 <| me := m3 |>) false r mb k)) as [H1 H2].
    { assert (forall k, ends (send_loop now uniform fuel (s2 <| me := m3 |>) false r mb k)) as Hk; [|by split].
      intros k. apply IH; [exact Hff3| |cbn; lia].
      rewrite (f_equal c_state V3 : state_ (s2 <| me := m3 |>) = state_ s2). exact Hl2. }
    destruct (negb (mb =? 0)); [|exact H1]. apply ends_bind; [apply ends_iadd|]. intros k. by destruct (_ <=? k).
Qed.
End WithEnv.
End FullTcpProgress.

Module FullTcpSendProps.
Import FullTcp FullTcpEnds FullTcpProgress.

Implicit Types (s : t).

Section WithEnv.
Context `{Libm} (now : f64) (uniform : nat -> f64 -> f64).

(** C17: [send_much] terminates: for a flow of known length, whatever the
    window, the options, the class of the agent, the scoreboard and the holes
    in it, forced or not and without a limit on the burst, the loop ends
    within [send_fuel] turns, so the simulation cannot hang at one instant. *)
Theorem send_much_terminates s force reason maxburst :
  finite_flow s.(me) -> state_ s <> Tcp.LISTEN -> send_much now uniform s force reason maxburst <> Err Fuel.
Proof.
  intros Hf Hl. unfold send_much. destruct (_ && _); [done|]. apply send_loop_ends; [done..|].
  unfold send_fuel, send_limit, left_to_send.
  change (infinite_send_ s) with (Tcp.infinite_send_ s.(me)). rewrite (ff_finite _ Hf).
  change (curseq_ s) with (Tcp.curseq_ s.(me)). change (t_seqno_ s) with (Tcp.t_seqno_ s.(me)). lia.
Qed.
End WithEnv.
End FullTcpSendProps.

Module FullTcpSendWitness.
Import FullTcp FullTcpEvents FullTcpDemo FullTcpProgress FullTcpSendProps.

(** The client of the dialogue with a larger window, which lets it send 8
    segments at once. *)
Definition eager : t :=
  set_agent (fun a => a <| TcpAgent.cwnd_ := F64.of_Z 15 |>) (result (run uniform (take 4 events_a) client) client).

Lemma eager_scoreboard : exists x h, Tcp.sq_ eager.(me) = ReassemblyQueue.mk [] [] None 0 x [] h.
Proof. vm_compute. by eexists _, _. Defined.

Lemma send_much_terminates_witness :
  (let! s := send_much F64.zero uniform eager false Tcp.TcpXmissionReason.NORMAL 0 in
   Ok (t_seqno_ eager, t_seqno_ s, length (out_ s) - length (out_ eager))%nat) = Ok (8761, 18981, 8%nat) /\
  send_much F64.zero uniform eager false Tcp.TcpXmissionReason.NORMAL 0 <> Err Fuel.
Proof.
  split; [vm_compute; reflexivity|]. apply (send_much_terminates F64.zero uniform eager false Tcp.TcpXmissionReason.NORMAL 0).
  - constructor; [vm_compute; reflexivity|vm_compute; discriminate|]. intros _.
    destruct eager_scoreboard as (x & h & E). rewrite E. split; [|split; vm_compute; [reflexivity|discriminate]].
    split; [split; constructor|split; constructor|reflexivity].
  - vm_compute. discriminate.
Defined.
End FullTcpSendWitness.
