(* ===== verification/FullTcpDelivery.v ===== *)
(** * What is received is delivered once and in order

    [accept_data], the part of [step6] that takes the data of a segment
    ([FullTcpRecv]), against the bytes the receiver has ([have]): whatever
    came before and in whatever order, it then has exactly the old bytes and
    those of the segment, [rcv_nxt_] is the first byte it does not have, and
    the application has been given the bytes [rcv_nxt_] moved over. *)

From Stdlib Require Import ZArith Lia Bool SpecFloat.
From stdpp Require Import base list gmap.
From S2P Require Import Prelude F64 PktQueue Rq Ecn TcpAgent Tcp TcpPrio TcpSack TcpCong FullTcp FullTcpRecv.
From S2P Require Import FullTcpSpec FullTcpRefine FullTcpRecvRefine FullTcpProps FullTcpSend.

Module FullTcpDelivery.
Import FullTcp FullTcpRecv FullTcpKeeps RqFacts TcpFlags.
Import ReassemblyQueue(add, cleartonxt, fifo, startseq_, endseq_).

Implicit Types (s : FullTcp.t) (p : packet).

(** ** Sending does not concern the receiver *)

Definition quiet s s' : Prop := rq_ s' = rq_ s /\ delivered s' = delivered s.

#[global] Instance quiet_refl : Reflexive quiet.
Proof. by intros s. Qed.

#[global] Instance quiet_trans : Transitive quiet.
Proof. intros s1 s2 s3 (B & C) (B' & C'). unfold quiet. by rewrite B', C'. Qed.

Lemma keeps_quiet s s' : keeps s s' -> quiet s s'.
Proof. by intros [_ Hq]. Qed.

#[export] Hint Extern 1 (quiet ?s _) => (tryif is_evar s then fail else (split; reflexivity)) : chain.

Section WithEnv.
Context `{Libm} (now : f64) (uniform : nat -> f64 -> f64).

Lemma quiet_FullTcpAgent_foutput s seqno r s' amt :
  FullTcpAgent_foutput now s seqno r = Ok (s', amt) -> quiet s s'.
Proof. intros E%keeps_but_size%keeps_quiet. etransitivity; [|exact E]. by destruct (_ =? _). Qed.

Lemma quiet_give_up_deadline s s' : give_up_deadline now s = Ok s' -> quiet s s'.
Proof. intros E. by eapply keeps_quiet, keeps_give_up_deadline. Qed.

#[local] Hint Resolve quiet_FullTcpAgent_foutput quiet_give_up_deadline : chain.

Lemma quiet_foutput s seqno r s' amt : foutput now s seqno r = Ok (s', amt) -> quiet s s'.
Proof. intros E. chain through foutput in E. Qed.

Lemma quiet_on_tcp f s s' : on_tcp f s = Ok s' -> quiet s s'.
Proof. by intros (m & _ & <-%Ok_inj)%res_bind_Ok. Qed.

Lemma quiet_send_loop fuel s force r mb n s' :
  send_loop now uniform fuel s force r mb n = Ok s' -> quiet s s'.
Proof.
  revert s force n. induction fuel as [|fuel IH]; intros s force n E; [done|]. cbn [send_loop] in E.
  apply res_bind_Ok in E as ([m seq] & _ & E). cbv zeta in E. set (s1 := s <| me := m |>) in E.
  transitivity s1; [done|]. clearbody s1. apply res_bind_Ok in E as (ok & _ & E).
  destruct (negb ok); [by apply Ok_inj in E as <-|]. destruct (_ && _); [by apply Ok_inj in E as <-|].
  apply res_bind_Ok in E as ([s2 amt] & E2%quiet_foutput & E). transitivity s2; [done|].
  destruct (amt <=? 0); [by apply Ok_inj in E as <-|]. apply res_bind_Ok in E as (amt' & _ & E).
  apply res_bind_Ok in E as (s3 & E3%quiet_on_tcp & E). transitivity s3; [done|].
  destruct (contains_any _ _); [by apply Ok_inj in E as <-|]. destruct (negb _); [|by eapply IH].
  apply res_bind_Ok in E as (k & _ & E). destruct (_ <=? k); [by apply Ok_inj in E as <-|by eapply IH].
Qed.

Lemma quiet_send_much s force r mb s' : send_much now uniform s force r mb = Ok s' -> quiet s s'.
Proof. unfold send_much. destruct (_ && _); [by intros <-%Ok_inj|apply quiet_send_loop]. Qed.

#[local] Hint Resolve quiet_send_much : chain.

Lemma quiet_on_receive_pure_incoming s s' : on_receive_pure_incoming now uniform s = Ok s' -> quiet s s'.
Proof.
  intros E. chain through on_receive_pure_incoming in E.
  chain through send_immediate_ack_with_previous_ce in E.
Qed.

Lemma quiet_count_flow s n s' : count_flow s n = Ok s' -> quiet s s'.
Proof. intros E. chain through count_flow in E. Qed.

(** ** The data of a segment *)

(** The bytes received. *)
Definition have s (x : Z) : Prop := x < rcv_nxt_ s \/ covered (fifo s.(rq_)) x.

(** What waits in the reassembly queue lies beyond a hole. *)
Definition receiver_ok s : Prop :=
  rq_inv s.(rq_) /\ forall b, b ∈ fifo s.(rq_) -> rcv_nxt_ s < startseq_ b.

(** [n] bytes from [seq] have been taken. *)
Definition took s s' (seq n : Z) : Prop :=
  receiver_ok s' /\ (forall x, have s' x <-> have s x \/ seq <= x < seq + n) /\
  delivered s' = delivered s + (rcv_nxt_ s' - rcv_nxt_ s) /\ ~ have s' (rcv_nxt_ s').

Lemma receiver_ok_next s : receiver_ok s -> ~ have s (rcv_nxt_ s).
Proof. intros [_ Hb] [Hx|(b & Hin & Hx)]; [lia|]. specialize (Hb b Hin). lia. Qed.

Lemma covered_start q b : rq_inv q -> b ∈ fifo q -> covered (fifo q) (startseq_ b).
Proof.
  intros [_ [_ Hs] _] Hb. rewrite Forall_forall in Hs. specialize (Hs b Hb). exists b. split; [done|lia].
Qed.

(** Behind a hole. *)
Lemma add_beyond s start end_ fl :
  receiver_ok s -> start < end_ -> rcv_nxt_ s < start ->
  exists q f, add s.(rq_) start end_ fl 0 = Ok (q, f) /\ ReassemblyQueue.rcv_nxt_ q = rcv_nxt_ s /\
    receiver_ok (s <| rq_ := q |>) /\ forall x, covered (fifo q) x <-> covered (fifo s.(rq_)) x \/ start <= x < end_.
Proof.
  intros [Hi Hb] Hlt Hst. destruct (add_ok s.(rq_) start end_ fl 0 Hi Hlt) as (q & f & E & Hi' & Hc & _).
  destruct (add_advances s.(rq_) start end_ fl 0 Hi Hlt) as (q1 & f1 & E1 & Hle & Hin & _); [unfold rcv_nxt_ in *; lia|exact Hb|].
  rewrite E in E1. injection E1 as <- <-. exists q, f. split; [done|].
  assert (ReassemblyQueue.rcv_nxt_ q = rcv_nxt_ s) as R.
  { destruct (Z.eq_dec (ReassemblyQueue.rcv_nxt_ q) (rcv_nxt_ s)) as [?|Hne]; [done|]. exfalso.
    unfold rcv_nxt_ in *. destruct (proj1 (Hc _) (Hin (ReassemblyQueue.rcv_nxt_ s.(rq_)) ltac:(lia))) as [(b & Hbb & Hx)|Hx]; [|lia].
    specialize (Hb b Hbb). lia. }
  split; [exact R|]. split; [|exact Hc]. split; [exact Hi'|]. intros b Hbb. change (rcv_nxt_ _) with (ReassemblyQueue.rcv_nxt_ q).
  rewrite R. destruct (proj1 (Hc _) (covered_start q b Hi' Hbb)) as [(y & Hy & Hx)|Hx]; [|lia]. specialize (Hb y Hy). lia.
Qed.

(** Into the first hole, then cleared. *)
Lemma add_fills s start end_ fl :
  receiver_ok s -> start < end_ -> start = rcv_nxt_ s ->
  exists q f q' f', add s.(rq_) start end_ fl 0 = Ok (q, f) /\ cleartonxt q = Ok (q', f') /\
    rcv_nxt_ s <= ReassemblyQueue.rcv_nxt_ q' /\ receiver_ok (s <| rq_ := q' |>) /\
    forall x, have (s <| rq_ := q' |>) x <-> have s x \/ start <= x < end_.
Proof.
  intros [Hi Hb] Hlt Hst. destruct (add_ok s.(rq_) start end_ fl 0 Hi Hlt) as (q & f & E & Hi' & Hc & _).
  destruct (add_advances s.(rq_) start end_ fl 0 Hi Hlt) as (q1 & f1 & E1 & Hle & Hin & Hout); [unfold rcv_nxt_ in *; lia|exact Hb|].
  rewrite E in E1. injection E1 as <- <-.
  destruct (clearto_ok q (ReassemblyQueue.rcv_nxt_ q) Hi') as (q' & f' & E' & Hi2 & R2 & Hc2).
  exists q, f, q', f'. unfold have. change (rcv_nxt_ (s <| rq_ := q' |>)) with (ReassemblyQueue.rcv_nxt_ q').
  change (rq_ (s <| rq_ := q' |>)) with q'. rewrite R2. change (ReassemblyQueue.rcv_nxt_ (rq_ s)) with (rcv_nxt_ s) in *.
  split; [done|]. split; [exact E'|]. split; [done|]. split.
  - split; [exact Hi2|]. change (rq_ (s <| rq_ := q' |>)) with q'. change (rcv_nxt_ (s <| rq_ := q' |>)) with (ReassemblyQueue.rcv_nxt_ q').
    intros b Hbb. rewrite R2. destruct (proj1 (Hc2 _) (covered_start q' b Hi2 Hbb)) as [H1 H2].
    destruct (Z.eq_dec (startseq_ b) (ReassemblyQueue.rcv_nxt_ q)) as [Heq|]; [rewrite Heq in H1; done|lia].
  - intros x. rewrite Hc2, Hc. split.
    + intros [Hx|[[Hx|Hx] _]]; [|tauto|tauto]. destruct (Z.lt_ge_cases x (rcv_nxt_ s)) as [?|Hge]; [tauto|].
      assert (covered (fifo q) x) as Hx'%Hc by (apply Hin; lia). tauto.
    + intros [[Hx|Hx]|Hx]; [lia| |].
      * destruct (Z.lt_ge_cases x (ReassemblyQueue.rcv_nxt_ q)); tauto.
      * destruct (Z.lt_ge_cases x (ReassemblyQueue.rcv_nxt_ q)); tauto.
Qed.

(** What the two branches of [accept_data] need to know of a segment with
    [n] bytes of data and no FIN. *)
Record data_segment s p (n : Z) : Prop := {
  ds_size : p.(Tcp.size) = p.(Tcp.hlen) + n;
  ds_data : 0 < n;
  ds_fin : contains_all p.(Tcp.flags) FIN = false;
  ds_trimmed : rcv_nxt_ s <= p.(Tcp.seqno);
  ds_open : Tcp.have_received_SYN (state_ s) = true;
  ds_established : state_ s <> Tcp.SYN_RECEIVED
}.

Lemma reass_took s p n s' f :
  receiver_ok s -> data_segment s p n -> reass s p = Ok (s', f) ->
  receiver_ok s' /\ (forall x, have s' x <-> have s x \/ p.(Tcp.seqno) <= x < p.(Tcp.seqno) + n) /\
  rcv_nxt_ s <= rcv_nxt_ s' /\ out_ s' = out_ s.
Proof.
  intros Hr [Hsz Hn Hf Ht Ho He] E. unfold reass in E. apply res_bind_Ok in E as (len & [El _]%chk_inv & E).
  apply res_bind_Ok in E as (e & [Ee _]%chk_inv & E). rewrite Hsz in El. assert (e = Tcp.seqno p + n) as -> by lia.
  rewrite (proj2 (Z.eqb_neq _ _)) in E by lia. cbn [andb] in E. apply res_bind_Ok in E as ([q fl] & Eq & E).
  cbv zeta in E. change (state_ (s <| rq_ := q |>)) with (state_ s) in E. rewrite Ho in E. cbn [negb orb] in E.
  destruct (Z.eqb_spec p.(Tcp.seqno) (rcv_nxt_ s)) as [Hs|Hs]; cbn [negb] in E.
  - destruct (add_fills s p.(Tcp.seqno) (p.(Tcp.seqno) + n) p.(Tcp.flags) Hr ltac:(lia) Hs)
      as (q1 & f1 & q' & f' & E1 & E2 & Hle & Hr' & Hh).
    rewrite Eq in E1. injection E1 as <- <-.
    rewrite bool_decide_false in E by done. cbn [andb] in E. apply res_bind_Ok in E as ([q2 f2] & E3 & E).
    change (rq_ (s <| rq_ := q |>)) with q in E3. rewrite E2 in E3. injection E3 as <- <-.
    apply Ok_inj, pair_fst in E as <-. split; [exact Hr'|]. split; [exact Hh|]. by split.
  - destruct (add_beyond s p.(Tcp.seqno) (p.(Tcp.seqno) + n) p.(Tcp.flags) Hr ltac:(lia) ltac:(lia))
      as (q1 & f1 & E1 & R & Hr' & Hc).
    rewrite Eq in E1. injection E1 as <- <-. apply Ok_inj, pair_fst in E as <-. split; [exact Hr'|].
    split; [|split; [change (rcv_nxt_ s <= ReassemblyQueue.rcv_nxt_ q); lia|done]].
    intros x. unfold have. change (rcv_nxt_ (s <| rq_ := q |>)) with (ReassemblyQueue.rcv_nxt_ q).
    change (rq_ (s <| rq_ := q |>)) with q. rewrite R, Hc. tauto.
Qed.

(** What is left to do after the data has been taken. *)
Lemma quiet_took s s1 s' seq n : took s s1 seq n -> quiet s1 s' -> took s s' seq n.
Proof.
  intros (Hr & Hh & Hd & Hn) [Q1 Q2]. unfold took, receiver_ok, have, rcv_nxt_ in *. by rewrite Q1, Q2.
Qed.

Lemma in_order_took s p n s' f o :
  receiver_ok s -> data_segment s p n -> p.(Tcp.seqno) = rcv_nxt_ s -> fifo s.(rq_) = [] ->
  accept_in_order now uniform s p n = Ok (s', f, o) -> took s s' p.(Tcp.seqno) n.
Proof.
  intros Hr [Hsz Hn Hf Ht Ho He] Hs Hq E. unfold accept_in_order in E.
  apply res_bind_Ok in E as (s1 & E1%quiet_on_receive_pure_incoming & E).
  apply res_bind_Ok in E as (s2 & E2 & E). apply res_bind_Ok in E as (s3 & E3 & E).
  do 2 (apply Ok_inj in E || apply pair_fst in E). apply pair_fst in E as <-.
  rewrite (proj2 (Z.eqb_neq _ _)) in E3 by lia. cbn [negb] in E3. apply quiet_count_flow in E3.
  eapply quiet_took; [|exact E3]. apply res_bind_Ok in E2 as (r & [-> _]%chk_inv & <-%Ok_inj).
  change (rcv_nxt_ (delay_ack now s1)) with (rcv_nxt_ s1).
  destruct E1 as [Q D]. assert (rcv_nxt_ s1 = rcv_nxt_ s) as -> by (unfold rcv_nxt_; by rewrite Q).
  unfold took. rewrite delivered_emit.
  change (delivered (set_rcv_nxt (rcv_nxt_ s + n) (delay_ack now s1))) with (delivered s1).
  set (s4 := emit _ _). assert (rcv_nxt_ s4 = rcv_nxt_ s + n) as R by done.
  assert (fifo (rq_ s4) = []) as F by (change (fifo (rq_ s1) = []); by rewrite Q).
  assert (receiver_ok s4) as Hr4.
  { split; [|rewrite F; set_solver]. destruct Hr as [Hi _]. rewrite <-Q in Hi.
    destruct Hi as [[H1 H2 H3] H4 H5]. by split; [split| |]. }
  split; [exact Hr4|]. split; [|split; [rewrite R; lia|by apply receiver_ok_next]].
  intros x. unfold have. rewrite R, F, Hq, !covered_nil. lia.
Qed.

Lemma out_of_order_took s p n o s' f o' :
  receiver_ok s -> data_segment s p n -> accept_out_of_order now s p n o = Ok (s', f, o') ->
  took s s' p.(Tcp.seqno) n.
Proof.
  intros Hr Hd E. unfold accept_out_of_order in E. apply res_bind_Ok in E as ([s1 f1] & E1 & E).
  destruct (reass_took _ _ _ _ _ Hr Hd E1) as (Hr1 & Hh & Hle & Hout).
  apply res_bind_Ok in E as (s2 & E2 & E). do 2 (apply Ok_inj in E || apply pair_fst in E). apply pair_fst in E as <-.
  assert (delivered s1 = delivered s) as D by (unfold delivered; by rewrite Hout).
  apply (quiet_took s s2); [|done]. destruct (Z.ltb_spec (rcv_nxt_ s) (rcv_nxt_ s1)) as [Hlt|Hge].
  - apply res_bind_Ok in E2 as (k & [-> _]%chk_inv & E2%quiet_count_flow). eapply quiet_took; [|exact E2].
    split; [exact Hr1|]. split; [exact Hh|]. split; [rewrite delivered_emit, D; done|by apply receiver_ok_next].
  - apply Ok_inj in E2 as <-. split; [exact Hr1|]. split; [exact Hh|]. split; [lia|by apply receiver_ok_next].
Qed.

Lemma accept_data_took s p tiflags n o s' f o' :
  receiver_ok s -> data_segment s p n -> Tcp.have_received_FIN (state_ s) = false ->
  accept_data now uniform s p tiflags n o = Ok (s', f, o') -> took s s' p.(Tcp.seqno) n.
Proof.
  intros Hr Hd Hfin E. unfold accept_data in E. rewrite Hfin in E.
  rewrite (proj2 (Z.ltb_lt 0 n) (ds_data _ _ _ Hd)) in E. cbn [orb andb negb] in E.
  destruct ((Tcp.seqno p =? rcv_nxt_ s) && ReassemblyQueue.empty (rq_ s)) eqn:Eb; [|by eapply out_of_order_took].
  apply andb_true_iff in Eb as [Hs%Z.eqb_eq Hq]. eapply in_order_took; [done..| |exact E].
  unfold ReassemblyQueue.empty in Hq. by destruct (fifo (rq_ s)).
Qed.

(** ** Duplicate data *)

(** [trim] cuts off the bytes below [rcv_nxt_] and nothing else. *)
Lemma trim_exact s p f n s' p' f' n' dup :
  p.(Tcp.size) = p.(Tcp.hlen) + n -> 0 < n -> contains_all f SYN = false -> contains_all f FIN = false ->
  trim s p f n = Ok (s', p', f', n', dup) ->
  quiet s s' /\ state_ s' = state_ s /\ p'.(Tcp.size) = p'.(Tcp.hlen) + n' /\ p'.(Tcp.flags) = p.(Tcp.flags) /\
  (n' = 0 /\ contains_all f' FIN = false /\ p.(Tcp.seqno) + n <= rcv_nxt_ s \/
   0 < n' /\ p'.(Tcp.seqno) = Z.max p.(Tcp.seqno) (rcv_nxt_ s) /\ p'.(Tcp.seqno) + n' = p.(Tcp.seqno) + n).
Proof.
  intros Hsz Hn Hs Hf E. unfold trim in E. apply res_bind_Ok in E as (d & [-> _]%chk_inv & E).
  rewrite Hs in E. cbn [orb] in E. rewrite (proj2 (Z.ltb_lt 0 n) Hn), andb_true_r in E.
  destruct (Z.ltb_spec 0 (rcv_nxt_ s - p.(Tcp.seqno))) as [Hd|Hd].
  - change (res_bind (Ok ?a) ?k) with (k a) in E. cbv beta iota in E. rewrite Hf in E. cbn [negb] in E.
    rewrite andb_true_r in E. destruct (_ || _) eqn:Eb; cbv beta iota in E;
      repeat (apply res_bind_Ok in E as (? & [-> _]%chk_inv & E)); apply Ok_inj in E; injection E as <- <- <- <- <-.
    + split; [done|]. split; [done|]. split; [cbn; lia|]. split; [done|]. left. split; [lia|]. split.
      * rewrite FullTcpRefine.contains_FIN, FullTcpRefine.clear_flags_bit by done. apply andb_false_r.
      * apply orb_true_iff in Eb as [Hb%Z.ltb_lt|Hb%Z.eqb_eq]; lia.
    + apply orb_false_iff in Eb as [Hb1%Z.ltb_ge Hb2%Z.eqb_neq].
      split; [done|]. split; [done|]. split; [cbn; lia|]. split; [done|]. right. cbn. lia.
  - apply Ok_inj in E. injection E as <- <- <- <- <-. split; [done|]. split; [done|]. split; [done|]. split; [done|]. right. lia.
Qed.

Lemma took_none s s' seq n :
  receiver_ok s -> quiet s s' -> 0 <= n -> seq + n <= rcv_nxt_ s -> took s s' seq n.
Proof.
  intros Hr Q Hn Hle. eapply quiet_took; [|exact Q]. split; [done|]. split; [|split; [lia|by apply receiver_ok_next]].
  intros x. unfold have. split; [tauto|]. intros [?|?]; [tauto|left; lia].
Qed.
End WithEnv.
End FullTcpDelivery.

Module FullTcpDeliveryProps.
Import FullTcp FullTcpRecv FullTcpDelivery TcpFlags.

Implicit Types (s : t) (p : packet).

Section WithEnv.
Context `{Libm} (now : f64) (uniform : nat -> f64 -> f64).

(** C3: Every byte is delivered exactly once and in order: when a data
    segment, whichever of its bytes are new and wherever they lie, is trimmed
    and then accepted (with the acknowledgement processed in between), the
    receiver afterwards has exactly the bytes it had and those of the
    segment, [rcv_nxt_] is the first byte it does not have, what waits in the
    queue lies beyond it, and the application has been given as many bytes as
    [rcv_nxt_] has advanced. *)
Theorem data_delivered_once s p f n s1 p1 f1 n1 dup s2 o s' f' o' :
  receiver_ok s -> p.(Tcp.size) = p.(Tcp.hlen) + n -> 0 < n ->
  contains_all p.(Tcp.flags) SYN = false -> contains_all p.(Tcp.flags) FIN = false -> f = p.(Tcp.flags) ->
  trim s p f n = Ok (s1, p1, f1, n1, dup) -> quiet s1 s2 ->
  Tcp.have_received_SYN (state_ s2) = true -> state_ s2 <> Tcp.SYN_RECEIVED ->
  Tcp.have_received_FIN (state_ s2) = false ->
  accept_data now uniform s2 p1 f1 n1 o = Ok (s', f', o') -> took s s' p.(Tcp.seqno) n.
Proof.
  intros Hr Hsz Hn Hs Hf -> Et Q2 Ho He Hc E.
  destruct (trim_exact s p _ n s1 p1 f1 n1 dup Hsz Hn Hs Hf Et) as (Q1 & _ & Hsz1 & Hfl & Hcase).
  assert (quiet s s2) as Q by (by transitivity s1).
  destruct Hcase as [(-> & Hf1 & Hle)|(Hn1 & Hq1 & Hend)].
  - apply took_none; [done| |lia|done]. unfold accept_data in E. rewrite Hf1 in E. cbn in E.
    by apply Ok_inj, pair_fst, pair_fst in E as <-.
  - assert (rcv_nxt_ s2 = rcv_nxt_ s) as R by (destruct Q as [Q _]; unfold rcv_nxt_; by rewrite Q).
    assert (receiver_ok s2) as Hr2 by (destruct Q as [Q _]; unfold receiver_ok, rcv_nxt_ in *; by rewrite Q).
    assert (data_segment s2 p1 n1) as Hd by (constructor; [done|done|by rewrite Hfl|rewrite R; lia|done|done]).
    destruct (accept_data_took now uniform s2 p1 f1 n1 o s' f' o' Hr2 Hd Hc E) as (Hr' & Hh & Hdl & Hnx).
    split; [done|]. split; [|split; [|done]].
    + intros x. rewrite Hh. destruct Q as [Q _]. unfold have, rcv_nxt_ in *. rewrite Q.
      split; (intros [[?|?]|?]; [tauto|tauto|]); destruct (Z.lt_ge_cases x (ReassemblyQueue.rcv_nxt_ (rq_ s))); [tauto|right; lia|tauto|right; lia].
    + rewrite Hdl, R. by destruct Q as [_ ->].
Qed.
End WithEnv.
End FullTcpDeliveryProps.

Module FullTcpDeliveryWitness.
Import FullTcp FullTcpRecv FullTcpEvents FullTcpDemo FullTcpKeeps FullTcpDelivery FullTcpDeliveryProps RqFacts.

(** The server of the dialogue when the lost segment arrives; what came after
    it waits in the reassembly queue. *)
Definition waiting : t := result (run uniform (take 10 events_b) server) server.

Definition late : packet :=
  match events_b !! 10%nat with
  | Some (_, Packet p) => p
  | _ => Tcp.mkPkt 0 0 0 Tcp.TcpXmissionReason.NORMAL 0 0 F64.zero F64.zero [] no_flags false 0 0 0
  end.

Definition accepted : t * Z * bool :=
  result (accept_data F64.zero uniform waiting late late.(Tcp.flags) 1460 false) (waiting, 0, false).

Lemma waiting_ok : receiver_ok waiting.
Proof.
  split.
  - split; [split|split|].
    + apply (bool_decide_unpack _). vm_compute. exact I.
    + apply (bool_decide_unpack _). vm_compute. exact I.
    + vm_compute. reflexivity.
    + vm_compute. repeat constructor.
    + vm_compute. repeat constructor.
    + vm_compute. reflexivity.
  - apply Forall_forall. vm_compute. repeat constructor.
Defined.

Lemma data_delivered_once_witness :
  (rcv_nxt_ waiting, delivered waiting) = (4381, 4380) /\
  (rcv_nxt_ accepted.1.1, delivered accepted.1.1) = (11681, 11680) /\
  took waiting accepted.1.1 late.(Tcp.seqno) 1460.
Proof.
  split; [vm_compute; reflexivity|]. split; [vm_compute; reflexivity|].
  apply (data_delivered_once F64.zero uniform waiting late late.(Tcp.flags) 1460 waiting late late.(Tcp.flags) 1460
    false waiting false accepted.1.1 accepted.1.2 accepted.2 waiting_ok).
  all: try (vm_compute; reflexivity).
  - exact (quiet_refl waiting).
  - vm_compute. discriminate.
Defined.
End FullTcpDeliveryWitness.
