(* ===== verification/FullTcpNet.v ===== *)
(** * Two agents and a network

    Two [FullTcpAgent]s of any classes at the ends of a network that may lose,
    delay, reorder and repeat their packets and change the marks and priority
    in their headers.  What an agent has sent stays in its output, from which
    the network takes what it delivers.

    From the ledger of [FullTcpSpec]: what one agent takes for acknowledged has
    been delivered to the application of the other. *)

From Stdlib Require Import ZArith Lia Bool SpecFloat.
From stdpp Require Import base list gmap relations.
From S2P Require Import Prelude F64 PktQueue Rq Ecn TcpAgent Tcp TcpPrio TcpSack TcpCong FullTcp FullTcpRecv.
From S2P Require Import FullTcpSpec FullTcpRefine FullTcpRecvRefine FullTcpProps.

Module FullTcpNet.
Import FullTcp FullTcpRecv FullTcpSpec FullTcpViews FullTcpEvents TcpFlags.

Implicit Types (s : t) (p q : packet).

(** The packet that arrives, [q], is the packet that was sent, [p], but for
    what routers may write. *)
Record carried p q : Prop := {
  car_seqno : q.(Tcp.seqno) = p.(Tcp.seqno);
  car_ackno : q.(Tcp.ackno) = p.(Tcp.ackno);
  car_flags : q.(Tcp.flags) = p.(Tcp.flags);
  car_size : q.(Tcp.size) = p.(Tcp.size);
  car_hlen : q.(Tcp.hlen) = p.(Tcp.hlen)
}.

(** An event at an agent whose peer has done [l]. *)
Definition possible (l : list effect) s (e : event) : Prop :=
  match e with
  | Packet q => exists p, Send p ∈ l /\ carried p q
  | Command listen_cmd => state_ s = Tcp.CLOSED
  | _ => True
  end.

Record world := World { one : t; other : t }.

Section Net.
Context `{Libm}.

Inductive net : world -> world -> Prop :=
| net_one uniform now e a b a' :
    possible (out_ b) a e -> handle uniform now a e = Ok a' -> net (World a b) (World a' b)
| net_other uniform now e a b b' :
    possible (out_ a) b e -> handle uniform now b e = Ok b' -> net (World a b) (World a b').

(** ** One event *)

(** Segments are well formed. *)
Definition sound s : Prop := 0 <= segsize s.(me) /\ Forall (fits (segsize s.(me))) (out_ s).

Lemma possible_arrives `{HD : Heard} l s e m :
  Forall (fits m) l ->
  (forall p, Send p ∈ l -> contains_all p.(Tcp.flags) ACK = true -> heard_ack p.(Tcp.ackno)) ->
  (forall p, Send p ∈ l -> contains_all p.(Tcp.flags) SYN = true -> heard_syn (p.(Tcp.seqno) + payload p + 1)) ->
  possible l s e -> lawful s e.
Proof.
  intros Hl Ha Hs He. destruct e as [q| |]; try done. destruct He as (p & Hp & [C1 C2 C3 C4 C5]).
  rewrite Forall_forall in Hl. specialize (Hl _ Hp). assert (payload q = payload p) as Ep by (unfold payload; congruence).
  split; rewrite ?Ep, ?C1, ?C2, ?C3; [apply Hl|by apply Ha|by apply Hs].
Qed.

Lemma steps_sound `{HD : Heard} s s' : steps s s' -> sound s -> sound s'.
Proof.
  intros Hs [Hg Hf]. destruct (step_fits _ _ Hs Hg) as (E & l & El & Hl).
  change (segsize s'.(me) = segsize s.(me)) in E. change (out_ s' = out_ s ++ l) in El.
  split; rewrite E; [done|]. rewrite El. by apply Forall_app.
Qed.

(** An event in terms of the machine, for any account of what may be heard
    that the peer's output keeps to. *)
Lemma event_steps `{HD : Heard} uniform now s e s' l m :
  sound s -> Forall (fits m) l ->
  (forall p, Send p ∈ l -> contains_all p.(Tcp.flags) ACK = true -> heard_ack p.(Tcp.ackno)) ->
  (forall p, Send p ∈ l -> contains_all p.(Tcp.flags) SYN = true -> heard_syn (p.(Tcp.seqno) + payload p + 1)) ->
  possible l s e -> handle uniform now s e = Ok s' -> steps s s'.
Proof.
  intros [Hg _] Hl Ha Hs He E. eapply FullTcpProps.handle_steps; [by eapply possible_arrives|exact Hg|exact E].
Qed.

Lemma event_any uniform now s e s' l m :
  sound s -> Forall (fits m) l -> possible l s e -> handle uniform now s e = Ok s' -> steps (HD := anything) s s'.
Proof. intros Hs Hl. by apply event_steps with m. Qed.

(** ** Runs *)

Definition sound_world (w : world) : Prop := sound w.(one) /\ sound w.(other).

Lemma net_sound w w' :
  net w w' -> sound_world w ->
  sound_world w' /\ out_ w.(one) `prefix_of` out_ w'.(one) /\ out_ w.(other) `prefix_of` out_ w'.(other).
Proof.
  intros Hw [Sa Sb]. destruct Hw as [u now e a b a' He E|u now e a b b' He E]; cbn in *.
  - assert (steps (HD := anything) a a') as S by (eapply event_any; [exact Sa|apply Sb|exact He|exact E]).
    split; [split; [by eapply steps_sound|exact Sb]|split; [exact (rtc_out _ _ S)|done]].
  - assert (steps (HD := anything) b b') as S by (eapply event_any; [exact Sb|apply Sa|exact He|exact E]).
    split; [split; [exact Sa|by eapply steps_sound]|split; [done|exact (rtc_out _ _ S)]].
Qed.

Lemma net_grows w w' : rtc net w w' -> sound_world w -> out_ w.(one) `prefix_of` out_ w'.(one).
Proof.
  induction 1 as [|w1 w2 w3 H1 _ IH]; [done|]. intros Hs. destruct (net_sound _ _ H1 Hs) as (Hs2 & P & _).
  etransitivity; [exact P|by apply IH].
Qed.

(** [b] bounds the numbers behind the SYNs in [l]. *)
Definition syns_below (b : Z) (l : list effect) : Prop :=
  forall p, Send p ∈ l -> contains_all p.(Tcp.flags) SYN = true -> p.(Tcp.seqno) + payload p + 1 <= b.

(** What [other] has delivered covers its acknowledgements, and those that
    [one] has taken. *)
Record settled (b : Z) (w : world) : Prop := {
  set_sound : sound_world w;
  set_ledger : ledger b (view w.(other));
  set_acked : highest_ack_ w.(one) <= b + received (out_ w.(other)) + 1
}.

Lemma net_settled b w w' :
  -1 <= b -> syns_below b (out_ w.(one)) -> net w w' -> settled b w -> settled b w'.
Proof.
  intros Hb Hsyn Hw [Hs Hl Ha]. destruct (net_sound _ _ Hw Hs) as (Hs' & _). destruct Hs as [Sa Sb].
  destruct Hw as [u now e a x a' He E|u now e a x x' He E]; cbn in *; split; try done; cbn.
  - pose (m := b + received (out_ x) + 1).
    pose (hd := {| heard_ack k := k <= m; heard_syn _ := True |}).
    assert (steps (HD := hd) a a') as S.
    { eapply (event_steps (HD := hd)); [exact Sa|apply Sb| |done|exact He|exact E].
      intros p Hp Hf. pose proof (led_acks _ _ Hl) as Hc. rewrite Forall_forall in Hc. exact (Hc _ Hp Hf). }
    apply (rtc_highest (HD := hd) m _ _ (fun k Hk => Hk)) in S; [exact S| |exact Ha].
    pose proof (led_received _ _ Hl : 0 <= received (out_ x)). lia.
  - eapply (rtc_ledger (HD := {| heard_ack _ := True; heard_syn k := k <= b |})); [by intros r Hr|exact Hb| |exact Hl].
    eapply event_steps; [exact Sb|apply Sa|done| |exact He|exact E]. exact Hsyn.
  - assert (steps (HD := anything) x x') as S by (eapply event_any; [exact Sb|apply Sa|exact He|exact E]).
    pose proof (rtc_received _ _ S : received (out_ x) <= received (out_ x')). lia.
Qed.

Lemma rtc_settled b w w' :
  -1 <= b -> syns_below b (out_ w'.(one)) -> rtc net w w' -> settled b w -> settled b w'.
Proof.
  intros Hb Hsyn. induction 1 as [|w1 w2 w3 H1 H2 IH]; [done|]. intros Hw.
  assert (settled b w2) as Hw2; [|by apply IH]. eapply net_settled; [exact Hb| |exact H1|exact Hw].
  assert (out_ w1.(one) `prefix_of` out_ w3.(one)) as [k Ek] by (eapply net_grows; [by eapply rtc_l|apply Hw]).
  intros p Hp. apply Hsyn. rewrite Ek. set_solver.
Qed.
End Net.
End FullTcpNet.

Module FullTcpNetProps.
Import FullTcp FullTcpRecv FullTcpSpec FullTcpViews FullTcpEvents FullTcpNet TcpFlags.

(** An agent that has done nothing yet. *)
Record fresh (s : t) : Prop := {
  fresh_segsize : 0 <= segsize s.(me);
  fresh_out : out_ s = [];
  fresh_rcv_nxt : rcv_nxt_ s = -1;
  fresh_highest : highest_ack_ s = -1
}.

End FullTcpNetProps.

(** * Witness: a transfer with a lost packet *)

Module FullTcpNetWitness.
Import FullTcp FullTcpRecv FullTcpSpec FullTcpViews FullTcpEvents FullTcpDemo FullTcpNet FullTcpNetProps.

Inductive side := Client | Server.

(** A turn, at a time in milliseconds: the script or a timer at a side, or the
    network delivers the [k]-th thing its peer has done, a packet. *)
Inductive turn :=
| Local (n : nat) (at_ : side) (e : event)
| Deliver (n : nat) (to : side) (k : nat).

Definition agent_at (w : world) (x : side) : t := match x with Client => w.(one) | Server => w.(other) end.
Definition peer (x : side) : side := match x with Client => Server | Server => Client end.

Definition put (w : world) (x : side) (s : t) : world :=
  match x with Client => World s w.(other) | Server => World w.(one) s end.

Definition event_of (w : world) (u : turn) : option (nat * side * event) :=
  match u with
  | Local _ _ (Packet _) => None
  | Local n x (Command listen_cmd) =>
      if bool_decide (state_ (agent_at w x) = Tcp.CLOSED) then Some (n, x, Command listen_cmd) else None
  | Local n x e => Some (n, x, e)
  | Deliver n x k =>
      match out_ (agent_at w (peer x)) !! k with Some (Send p) => Some (n, x, Packet p) | _ => None end
  end.

Fixpoint play (l : list turn) (w : world) : res world :=
  match l with
  | [] => Ok w
  | u :: l =>
      match event_of w u with
      | Some (n, x, e) => let! s := handle uniform (ms n) (agent_at w x) e in play l (put w x s)
      | None => Err Throw
      end
  end.

Lemma event_of_possible w u n x e :
  event_of w u = Some (n, x, e) -> possible (out_ (agent_at w (peer x))) (agent_at w x) e.
Proof.
  destruct u as [n' x' [p|tno|c]|n' x' k]; cbn; intros E; try discriminate E.
  - by injection E as <- <- <-.
  - destruct c; try by injection E as <- <- <-. destruct (bool_decide_reflect (state_ (agent_at w x') = Tcp.CLOSED)); [|done].
    by injection E as <- <- <-.
  - destruct (out_ (agent_at w (peer x')) !! k) as [[p| | | |]|] eqn:Ek; try discriminate E.
    injection E as <- <- <-. exists p. split; [by eapply list_elem_of_lookup_2|by split].
Qed.

Lemma play_net l w w' : play l w = Ok w' -> rtc net w w'.
Proof.
  revert w. induction l as [|u l IH]; intros w E; cbn [play] in E; [apply Ok_inj in E as <-; apply rtc_refl|].
  destruct (event_of w u) as [[[n x] e]|] eqn:Eu; [|done]. apply event_of_possible in Eu.
  apply res_bind_Ok in E as (s & Es & E). eapply rtc_l; [|by apply IH].
  destruct w as [a b], x; cbn in *; [by eapply net_one|by eapply net_other].
Qed.

Definition syns_belowb (b : Z) (l : list effect) : bool :=
  forallb (fun e => match e with
                    | Send p => negb (TcpFlags.contains_all p.(Tcp.flags) TcpFlags.SYN) || (p.(Tcp.seqno) + payload p + 1 <=? b)
                    | _ => true
                    end) l.

Lemma syns_belowb_spec b l : syns_belowb b l = true -> syns_below b l.
Proof.
  intros Hl p Hp Hf. unfold syns_belowb in Hl. rewrite List.forallb_forall in Hl. apply list_elem_of_In in Hp.
  specialize (Hl _ Hp). cbn in Hl. rewrite Hf in Hl. by apply Z.leb_le in Hl.
Qed.

(** The client sends 6000 bytes; one packet is lost, and sent again when the
    timer goes off; another one comes a second time; then the client closes. *)
Definition script : list turn :=
  [ Local 0 Server (Command listen_cmd); Local 0 Client (Command (sendmsg_cmd 6000 NO_FLAG));
    Deliver 1 Server 0; Deliver 2 Client 0; Deliver 3 Server 1; Deliver 4 Server 2; Deliver 6 Client 4;
    Deliver 7 Server 4; Deliver 8 Server 5; Deliver 9 Client 6; Deliver 10 Client 8;
    Local 100 Client (Expiry TCP_TIMER_RTX);
    Deliver 101 Server 6; Deliver 102 Client 11; Deliver 103 Server 8; Deliver 104 Client 14;
    Deliver 105 Server 2; Deliver 106 Client 16;
    Local 200 Client (Command close_cmd);
    Deliver 201 Server 11; Deliver 202 Client 18; Deliver 203 Client 20; Deliver 204 Server 13 ].

Definition after : world := result (play script (World client server)) (World client server).


(** Data on a SYN is acknowledged but not handed to the application. *)
Lemma syn_data_not_delivered :
  exists w, play [ Local 0 Server (Command listen_cmd); Local 0 Client (Command (sendmsg_cmd 1000 NO_FLAG));
                   Deliver 1 Server 0; Deliver 2 Client 0; Deliver 3 Server 1 ]
              (World (client <| data_on_syn_ := true |>) server) = Ok w /\
    highest_ack_ w.(one) = 1001 /\ rcv_nxt_ w.(other) = 1001 /\ received (out_ w.(other)) = 0.
Proof. eexists. split; [vm_compute; reflexivity|]. split; [vm_compute; reflexivity|]. split; vm_compute; reflexivity. Qed.
End FullTcpNetWitness.
