(* ===== verification/Rng.v ===== *)
(** * The random number generator

    [RNG] (src/ns2/tools/rng.h, rng.cc): L'Ecuyer's combined multiple recursive
    generator MRG32k3a in double-precision arithmetic, with streams 2^127 and
    substreams 2^76 steps apart.  The six numbers of a state are kept in two
    triples, one per component.  The static members, [next_seed_] and the
    local statics of [set_seed] and [normal], are the record [statics].

    What the wall clock returns is a parameter, a number per reading.  Tcl
    commands, printing and the generator of ns-1 (OLD_RNG, not compiled) are
    left out. *)

From Stdlib Require Import ZArith Lia Bool SpecFloat.
From stdpp Require Import base list.
From S2P Require Import Prelude F64.

(** Arrays of three. *)
Record tri (A : Type) := T3 { t0 : A; t1 : A; t2 : A }.
Arguments T3 {A}. Arguments t0 {A}. Arguments t1 {A}. Arguments t2 {A}.

Definition tri_map {A B} (f : A -> B) (x : tri A) : tri B := T3 (f x.(t0)) (f x.(t1)) (f x.(t2)).

Definition tri_mapM {A B} (f : A -> res B) (x : tri A) : res (tri B) :=
  let! a := f x.(t0) in
  let! b := f x.(t1) in
  let! c := f x.(t2) in
  Ok (T3 a b c).

Definition transpose {A} (x : tri (tri A)) : tri (tri A) :=
  T3 (tri_map t0 x) (tri_map t1 x) (tri_map t2 x).

(** The two components of a state: entries 0 to 2 and 3 to 5. *)
Record six (A : Type) := Six { mrg1 : tri A; mrg2 : tri A }.
Arguments Six {A}. Arguments mrg1 {A}. Arguments mrg2 {A}.

Definition six_map {A B} (f : A -> B) (x : six A) : six B := Six (tri_map f x.(mrg1)) (tri_map f x.(mrg2)).

Module RNG.
Import F64(add, sub, mul, div, lt, ge, gt, of_Z, trunc, zero).

(** Conversions to long and unsigned long; out of range they are undefined. *)
Definition to_long (x : f64) : res Z :=
  let! z := deref (trunc x) in
  if (- 2 ^ 63 <=? z) && (z <? 2 ^ 63) then Ok z else Err UB.

Definition to_ulong (x : f64) : res Z :=
  let! z := deref (trunc x) in
  if (0 <=? z) && (z <? 2 ^ 64) then Ok z else Err UB.

(** ** The constants *)

Definition m1 : f64 := of_Z 4294967087.
Definition m2 : f64 := of_Z 4294944443.
Definition norm : f64 := div (of_Z 1) (add m1 (of_Z 1)).
Definition a12 : f64 := of_Z 1403580.
Definition a13n : f64 := of_Z 810728.
Definition a21 : f64 := of_Z 527612.
Definition a23n : f64 := of_Z 1370589.
Definition two17 : f64 := of_Z 131072.
Definition two53 : f64 := of_Z 9007199254740992.
Definition fact : f64 := div (of_Z 1) (of_Z 16777216).

Definition mat (a b c d e f g h i : Z) : tri (tri f64) :=
  T3 (T3 (of_Z a) (of_Z b) (of_Z c)) (T3 (of_Z d) (of_Z e) (of_Z f)) (T3 (of_Z g) (of_Z h) (of_Z i)).

Definition InvA1 := mat 184888585 0 1945170933 1 0 0 0 1 0.
Definition InvA2 := mat 0 360363334 4225571728 1 0 0 0 1 0.
Definition A1p0 := mat 0 1 0 0 0 1 (-810728) 1403580 0.
Definition A2p0 := mat 0 1 0 0 0 1 (-1370589) 0 527612.
Definition A1p76 := mat 82758667 1871391091 4127413238 3672831523 69195019 1871391091 3672091415 3528743235 69195019.
Definition A2p76 := mat 1511326704 3759209742 1610795712 4292754251 1511326704 3889917532 3859662829 4292754251 3708466080.
Definition A1p127 := mat 2427906178 3580155704 949770784 226153695 1230515664 3580155704 1988835001 986791581 1230515664.
Definition A2p127 := mat 1464411153 277697599 1610723613 32183930 1464411153 1022607788 2824425944 32183930 2093834863.

(** ** Arithmetic modulo [m] *)

(** Takes the multiple of [m] given by the integer part of [v / m] out of [v]. *)
Definition reduce (v m : f64) : res f64 :=
  let! a1 := to_long (div v m) in
  Ok (sub v (mul (of_Z a1) m)).

Definition make_positive (v m : f64) : f64 := if lt v zero then add v m else v.

Definition MultModM (a s c m : f64) : res f64 :=
  let v := add (mul a s) c in
  let! v :=
    if ge v two53 || F64.le v (F64.opp two53) then
      let! a1 := to_long (div a two17) in
      let a := sub a (mul (of_Z a1) two17) in
      let v := mul (of_Z a1) s in
      let! v := reduce v m in
      Ok (add (add (mul v two17) (mul a s)) c)
    else Ok v in
  let! v := reduce v m in
  Ok (make_positive v m).

Definition MatVecModM (A : tri (tri f64)) (s : tri f64) (m : f64) : res (tri f64) :=
  tri_mapM (fun row =>
    let! x := MultModM row.(t0) s.(t0) zero m in
    let! x := MultModM row.(t1) s.(t1) x m in
    MultModM row.(t2) s.(t2) x m) A.

(** Column by column. *)
Definition MatMatModM (A B : tri (tri f64)) (m : f64) : res (tri (tri f64)) :=
  let! W := tri_mapM (fun V => MatVecModM A V m) (transpose B) in
  Ok (transpose W).

Fixpoint square_loop (e : nat) (B : tri (tri f64)) (m : f64) : res (tri (tri f64)) :=
  match e with
  | O => Ok B
  | S e => let! B := MatMatModM B B m in square_loop e B m
  end.

Definition MatTwoPowModM (A : tri (tri f64)) (m : f64) (e : Z) : res (tri (tri f64)) :=
  if 2 ^ 31 <=? e then Err UB (* overflow of the loop counter *) else square_loop (Z.to_nat e) A m.

Definition identity : tri (tri f64) := mat 1 0 0 0 1 0 0 0 1.

(** [n] is a long: it is 0 after 63 halvings. *)
Fixpoint pow_loop (fuel : nat) (W B : tri (tri f64)) (m : f64) (n : Z) : res (tri (tri f64)) :=
  if 0 <? n then
    match fuel with
    | O => Err Fuel
    | S fuel =>
        let! B := if Z.rem n 2 =? 0 then Ok B else MatMatModM W B m in
        let! W := MatMatModM W W m in
        pow_loop fuel W B m (Z.quot n 2)
    end
  else Ok B.

Definition MatPowModM (A : tri (tri f64)) (m : f64) (n : Z) : res (tri (tri f64)) :=
  pow_loop 63 A identity m n.

(** ** Legal seeds *)

Definition CheckSeed (seed : six Z) : bool :=
  let ok m x := negb (ge (of_Z x) m) in
  let all f (x : tri Z) := f x.(t0) && f x.(t1) && f x.(t2) in
  all (ok m1) seed.(mrg1) && all (ok m2) seed.(mrg2) &&
  negb (all (Z.eqb 0) seed.(mrg1)) && negb (all (Z.eqb 0) seed.(mrg2)).

(** ** The generator *)

Record t := {
  Cg_ : six f64;
  Bg_ : six f64;
  Ig_ : six f64;
  anti_ : bool;
  inc_prec_ : bool
}.

#[export] Instance eta_t : Eta t := fun r => Build_t r.(Cg_) r.(Bg_) r.(Ig_) r.(anti_) r.(inc_prec_).

(** One component of the generator: the new number. *)
Definition combine (a b x y m : f64) : res f64 :=
  let p := sub (mul a x) (mul b y) in
  let! p := reduce p m in
  Ok (make_positive p m).

Definition shift (x : tri f64) (p : f64) : tri f64 := T3 x.(t1) x.(t2) p.

Definition U01 (r : t) : res (t * f64) :=
  let x := r.(Cg_).(mrg1) in
  let! p1 := combine a12 a13n x.(t1) x.(t0) m1 in
  let y := r.(Cg_).(mrg2) in
  let! p2 := combine a21 a23n y.(t2) y.(t0) m2 in
  let r := r <| Cg_ := Six (shift x p1) (shift y p2) |> in
  let u := if gt p1 p2 then mul (sub p1 p2) norm else mul (add (sub p1 p2) m1) norm in
  Ok (r, if r.(anti_) then sub (of_Z 1) u else u).

Definition U01d (r : t) : res (t * f64) :=
  let! (r, u) := U01 r in
  let! (r, x) := U01 r in
  if r.(anti_) then
    let u := add u (mul (sub x (of_Z 1)) fact) in
    Ok (r, if lt u zero then add u (of_Z 1) else u)
  else
    let u := add u (mul x fact) in
    Ok (r, if lt u (of_Z 1) then u else sub u (of_Z 1)).

Definition rand_u01 (r : t) : res (t * f64) := if r.(inc_prec_) then U01d r else U01 r.

Definition in_long (z : Z) : res Z := if (- 2 ^ 63 <=? z) && (z <? 2 ^ 63) then Ok z else Err UB.

(** The signed value of an unsigned long. *)
Definition signed64 (z : Z) : Z := (z + 2 ^ 63) mod 2 ^ 64 - 2 ^ 63.

Definition rand_int (r : t) (low high : Z) : res (t * Z) :=
  let! n := in_long (high - low) in
  let! n := in_long (n + 1) in
  let! (r, u) := rand_u01 r in
  let! k := to_ulong (mul (of_Z (n mod 2 ^ 64)) u) in
  Ok (r, signed64 (low mod 2 ^ 64 + k)).

Definition MAXINT : Z := 2147483647.

Definition next (r : t) : res (t * Z) := rand_int r 0 MAXINT.
Definition next_double (r : t) : res (t * f64) := rand_u01 r.

(** ** Jumping *)

Definition mat_vec2 (A1 A2 : tri (tri f64)) (s : six f64) : res (six f64) :=
  let! x := MatVecModM A1 s.(mrg1) m1 in
  let! y := MatVecModM A2 s.(mrg2) m2 in
  Ok (Six x y).

Definition reset_start_stream (r : t) : t := r <| Bg_ := r.(Ig_) |> <| Cg_ := r.(Ig_) |>.
Definition reset_start_substream (r : t) : t := r <| Cg_ := r.(Bg_) |>.

Definition reset_next_substream (r : t) : res t :=
  let! b := mat_vec2 A1p76 A2p76 r.(Bg_) in
  Ok (r <| Bg_ := b |> <| Cg_ := b |>).

(** One component's matrix for the jump [(e, c)]. *)
Definition jump_matrix (A Inv : tri (tri f64)) (m : f64) (e c : Z) : res (tri (tri f64)) :=
  let! B := if 0 <? e then MatTwoPowModM A m e
            else if e <? 0 then let! e := in_long (- e) in MatTwoPowModM Inv m e
            else Ok A (* not used *) in
  let! C := if 0 <=? c then MatPowModM A m c
            else let! c := in_long (- c) in MatPowModM Inv m c in
  if e =? 0 then Ok C else MatMatModM B C m.

Definition advance_state (r : t) (e c : Z) : res t :=
  let! C1 := jump_matrix A1p0 InvA1 m1 e c in
  let! C2 := jump_matrix A2p0 InvA2 m2 e c in
  let! s := mat_vec2 C1 C2 r.(Cg_) in
  Ok (r <| Cg_ := s |>).

Definition get_state (r : t) : res (six Z) :=
  let! x := tri_mapM to_ulong r.(Cg_).(mrg1) in
  let! y := tri_mapM to_ulong r.(Cg_).(mrg2) in
  Ok (Six x y).

Definition seed (r : t) : res Z := let! s := get_state r in Ok (signed64 s.(mrg1).(t0)).

Definition set_antithetic (r : t) (a : bool) : t := r <| anti_ := a |>.
Definition increased_precis (r : t) (incp : bool) : t := r <| inc_prec_ := incp |>.

(** ** Seeding *)

Record statics := {
  next_seed_ : six f64;
  heuristic_sequence : Z;
  parity : bool;
  nextresult : f64;
  readings : nat                 (* readings of the wall clock so far *)
}.

#[export] Instance eta_statics : Eta statics := fun g =>
  Build_statics g.(next_seed_) g.(heuristic_sequence) g.(parity) g.(nextresult) g.(readings).

Definition all_equal {A} (x : A) : six A := Six (T3 x x x) (T3 x x x).

Definition default_statics : statics :=
  {| next_seed_ := all_equal (of_Z 12345); heuristic_sequence := 0; parity := false; nextresult := zero; readings := 0 |}.

(** A new stream: it starts at [next_seed_], which moves to the next one. *)
Definition init (g : statics) (r : t) : res (statics * t) :=
  let s := g.(next_seed_) in
  let! n := mat_vec2 A1p127 A2p127 s in
  Ok (g <| next_seed_ := n |>, {| Cg_ := s; Bg_ := s; Ig_ := s; anti_ := false; inc_prec_ := false |}).

Definition set_package_seed (g : statics) (seed : six Z) : res statics :=
  if CheckSeed seed then Ok (g <| next_seed_ := six_map of_Z seed |>) else Err Abort.

Definition set_seed_six (r : t) (seed : six Z) : res t :=
  if CheckSeed seed then
    let s := six_map of_Z seed in Ok (r <| Ig_ := s |> <| Bg_ := s |> <| Cg_ := s |>)
  else Err Abort.

Inductive RNGSources := RAW_SEED_SOURCE | PREDEF_SEED_SOURCE | HEURISTIC_SEED_SOURCE.

Definition predef_seeds : list Z :=
  [1973272912; 188312339; 1072664641; 694388766; 2009044369; 934100682; 1972392646; 1936856304;
   1598189534; 1822174485; 1871883252; 558746720; 605846893; 1384311643; 2081634991; 1644999263;
   773370613; 358485174; 1996632795; 1000004583; 1769370802; 1895218768; 186872697; 1859168769;
   349544396; 1996610406; 222735214; 1334983095; 144443207; 720236707; 762772169; 437720306;
   939612284; 425414105; 1998078925; 981631283; 1024155645; 822780843; 701857417; 960703545;
   2101442385; 2125204119; 2041095833; 89865291; 898723423; 1859531344; 764283187; 1349341884;
   678622600; 778794064; 1319566104; 1277478588; 538474442; 683102175; 999157082; 985046914;
   722594620; 1695858027; 1700738670; 1995749838; 1147024708; 346983590; 565528207; 513791680].

Definition N_SEEDS_ : Z := 64.

Fixpoint toss (n : nat) (r : t) : res t :=
  match n with O => Ok r | S n => let! (r, _) := next r in toss n r end.

Section Clock.
(** Seconds and microseconds, reading by reading. *)
Context (gettimeofday : nat -> Z * Z).

(** The seed of the heuristic source. *)
Definition heuristic_seed (g : statics) : statics * Z :=
  let '(sec, usec) := gettimeofday g.(readings) in
  let h := g.(heuristic_sequence) + 1 in
  (g <| readings := S g.(readings) |> <| heuristic_sequence := h |>,
   Z.land (Z.lxor (Z.lxor sec usec) (Z.shiftl h 8)) (Z.ones 31)).

(** [set_seed (long)], which asks the heuristic source for another seed when
    given 0; the fuel bounds how often that gives 0 again. *)
Fixpoint set_seed_long (fuel : nat) (g : statics) (r : t) (seed : Z) : res (statics * t) :=
  if seed =? 0 then
    match fuel with
    | O => Err Fuel
    | S fuel =>
        let '(g, seed) := heuristic_seed g in
        let! (g, r) := set_seed_long fuel g r seed in
        let! r := toss 128 r in
        Ok (g, r)
    end
  else
    let! g := set_package_seed g (all_equal (seed mod 2 ^ 64)) in
    init g r.

Definition set_seed (fuel : nat) (g : statics) (r : t) (source : RNGSources) (seed : Z) : res (statics * t) :=
  match source with
  | RAW_SEED_SOURCE =>
      if (seed <=? 0) || (MAXINT <=? seed) then Err Abort else set_seed_long fuel g r seed
  | PREDEF_SEED_SOURCE =>
      if (seed <? 0) || (N_SEEDS_ <=? seed) then Err Abort
      else let! seed := deref (predef_seeds !! Z.to_nat seed) in set_seed_long fuel g r seed
  | HEURISTIC_SEED_SOURCE =>
      let '(g, seed) := heuristic_seed g in
      let! (g, r) := set_seed_long fuel g r seed in
      let! r := toss 128 r in
      Ok (g, r)
  end.

(** The constructors; the second one seeds and then starts yet another stream. *)
Definition blank : t :=
  let z := all_equal zero in {| Cg_ := z; Bg_ := z; Ig_ := z; anti_ := false; inc_prec_ := false |}.

Definition RNG (g : statics) : res (statics * t) := init g blank.

Definition RNG_seed (fuel : nat) (g : statics) (seed : Z) : res (statics * t) :=
  let! (g, r) := set_seed_long fuel g blank seed in init g r.

Definition RNG_source (fuel : nat) (g : statics) (source : RNGSources) (seed : Z) : res (statics * t) :=
  set_seed fuel g blank source seed.
End Clock.

(** ** Distributions *)

Definition uniform_positive_int (r : t) : res (t * Z) :=
  let! (r, k) := next r in let! k := chk k in Ok (r, k).

Definition uniform_double (r : t) : res (t * f64) := next_double r.

(** [uniform (int)]: the remainder of unsigned numbers, converted to int. *)
Definition uniform_int (r : t) (k : Z) : res (t * Z) :=
  let! (r, n) := uniform_positive_int r in
  if u32 k =? 0 then Err UB else
  let z := u32 n mod u32 k in
  Ok (r, (z + 2 ^ 31) mod 2 ^ 32 - 2 ^ 31).

Definition uniform_up_to (r : t) (x : f64) : res (t * f64) :=
  let! (r, u) := uniform_double r in Ok (r, mul x u).

Definition uniform (r : t) (a b : f64) : res (t * f64) :=
  let! (r, u) := uniform_up_to r (sub b a) in Ok (r, add a u).

Section Distributions.
Context `{Libm}.

Definition exponential1 (r : t) : res (t * f64) :=
  let! (r, u) := uniform_double r in Ok (r, F64.opp (log u)).

Definition exponential (r : t) (x : f64) : res (t * f64) :=
  let! (r, u) := exponential1 r in Ok (r, mul x u).

Definition pareto (r : t) (scale shape : f64) : res (t * f64) :=
  let! (r, u) := uniform_double r in
  Ok (r, mul scale (div (of_Z 1) (pow u (div (of_Z 1) shape)))).

Definition paretoII (r : t) (scale shape : f64) : res (t * f64) :=
  let! (r, u) := uniform_double r in
  Ok (r, mul scale (sub (div (of_Z 1) (pow u (div (of_Z 1) shape))) (of_Z 1))).

Definition rweibull (r : t) (shape scale : f64) : res (t * f64) :=
  let! (r, u) := uniform_double r in
  Ok (r, mul (pow (F64.opp (log u)) (div (of_Z 1) shape)) scale).

(** A pair of numbers in the square of side 2. *)
Definition sample2 (r : t) : res (t * f64 * f64) :=
  let! (r, u) := uniform_double r in
  let sam1 := sub (mul (of_Z 2) u) (of_Z 1) in
  let! (r, u) := uniform_double r in
  let sam2 := sub (mul (of_Z 2) u) (of_Z 1) in
  Ok (r, sam1, sam2).

(** Rejection until the pair lies in the unit circle; how often that happens
    is a matter of luck: the fuel. *)
Fixpoint polar (fuel : nat) (r : t) : res (t * f64 * f64 * f64) :=
  match fuel with
  | O => Err Fuel
  | S fuel =>
      let! (r, sam1, sam2) := sample2 r in
      let rad := add (mul sam1 sam1) (mul sam2 sam2) in
      if ge rad (of_Z 1) then polar fuel r else Ok (r, sam1, sam2, rad)
  end.

Definition normal (fuel : nat) (g : statics) (r : t) (avg std : f64) : res (statics * t * f64) :=
  if F64.eq std zero then Ok (g, r, avg)
  else if g.(parity) then
    Ok (g <| parity := false |>, r, add (mul g.(nextresult) std) avg)
  else
    let! (r, sam1, sam2, rad) := polar fuel r in
    let rad := SFsqrt F64.prec F64.emax (div (mul (of_Z (-2)) (log rad)) rad) in
    let g := g <| nextresult := mul sam2 rad |> <| parity := true |> in
    Ok (g, r, add (mul (mul sam1 rad) std) avg).

Definition lognormal (fuel : nat) (g : statics) (r : t) (avg std : f64) : res (statics * t * f64) :=
  let! (g, r, x) := normal fuel g r avg std in Ok (g, r, exp x).
End Distributions.
End RNG.
