(* ===== verification/RngSpec.v ===== *)
(** * The generator MRG32k3a on integers

    What [Rng] computes, without floating point: two recurrences of order
    three modulo [m1] and [m2] ([step]), as matrices.  Moving any number of
    steps, forwards or backwards, is a matrix power ([move]); the powers obey
    the laws of exponents modulo [m], which is what makes jumps between
    streams and their reversal correct. *)

From Stdlib Require Import ZArith Lia Bool.
From stdpp Require Import base list.
From S2P Require Import Prelude F64 Rng.

Module MRG.

(** ** Vectors and matrices of integers *)

Definition vec := tri Z.
Definition matrix := tri (tri Z).

Definition dot (r v : vec) : Z := r.(t0) * v.(t0) + r.(t1) * v.(t1) + r.(t2) * v.(t2).
Definition mvec (A : matrix) (v : vec) : vec := tri_map (fun r => dot r v) A.
Definition mmul (A B : matrix) : matrix := transpose (tri_map (mvec A) (transpose B)).
Definition unit : matrix := T3 (T3 1 0 0) (T3 0 1 0) (T3 0 0 1).
Definition mpow (A : matrix) (n : N) : matrix := N.iter n (mmul A) unit.

Lemma mvec_mmul A B v : mvec (mmul A B) v = mvec A (mvec B v).
Proof. destruct A as [[][][]], B as [[][][]], v. cbv -[Z.add Z.mul]. f_equal; ring. Qed.

Lemma mmul_assoc A B C : mmul (mmul A B) C = mmul A (mmul B C).
Proof. destruct A as [[][][]], B as [[][][]], C as [[][][]]. cbv -[Z.add Z.mul]. f_equal; f_equal; ring. Qed.

Lemma mmul_unit_l A : mmul unit A = A.
Proof. destruct A as [[][][]]. cbv -[Z.add Z.mul]. f_equal; f_equal; ring. Qed.

Lemma mmul_unit_r A : mmul A unit = A.
Proof. destruct A as [[][][]]. cbv -[Z.add Z.mul]. f_equal; f_equal; ring. Qed.

Lemma mvec_unit v : mvec unit v = v.
Proof. destruct v. cbv -[Z.add Z.mul]. f_equal; ring. Qed.

Lemma mpow_succ A n : mpow A (N.succ n) = mmul A (mpow A n).
Proof. apply N.iter_succ. Qed.

Lemma mpow_add A a b : mpow A (a + b) = mmul (mpow A a) (mpow A b).
Proof.
  induction a as [|a IH] using N.peano_ind; [by rewrite N.add_0_l, mmul_unit_l|].
  by rewrite N.add_succ_l, !mpow_succ, IH, mmul_assoc.
Qed.

Lemma mpow_1 A : mpow A 1 = A.
Proof. apply mmul_unit_r. Qed.

Lemma mpow_double A n : mpow A (2 * n) = mmul (mpow A n) (mpow A n).
Proof. rewrite <- mpow_add. f_equal. lia. Qed.

Lemma T3_eq {X} (a b c a' b' c' : X) : T3 a b c = T3 a' b' c' <-> a = a' /\ b = b' /\ c = c'.
Proof. split; [by intros [= -> -> ->]|by intros (-> & -> & ->)]. Qed.

Lemma mpow_square A n : mpow (mmul A A) n = mpow A (2 * n).
Proof.
  induction n as [|n IH] using N.peano_ind; [done|].
  rewrite mpow_succ, IH. replace (2 * N.succ n)%N with (N.succ (N.succ (2 * n))) by lia.
  by rewrite !mpow_succ, mmul_assoc.
Qed.

(** ** Congruence *)

Section Modulo.
Context (m : Z).

Definition vmod (v : vec) : vec := tri_map (fun z => z mod m) v.
Definition mmod (A : matrix) : matrix := tri_map vmod A.

Record veq (v w : vec) : Prop := { veq_mod : vmod v = vmod w }.
Record meq (A B : matrix) : Prop := { meq_mod : mmod A = mmod B }.

#[global] Instance veq_equiv : Equivalence veq.
Proof. split; [by intros ?|intros ? ? []; by split|intros ? ? ? [H1] [H2]; split; by rewrite H1]. Qed.

#[global] Instance meq_equiv : Equivalence meq.
Proof. split; [by intros ?|intros ? ? []; by split|intros ? ? ? [H1] [H2]; split; by rewrite H1]. Qed.

Lemma veq_alt v w : veq v w <-> eqm m v.(t0) w.(t0) /\ eqm m v.(t1) w.(t1) /\ eqm m v.(t2) w.(t2).
Proof. unfold eqm. split; [by intros [[= H0 H1 H2]]|intros (H0 & H1 & H2); split; by apply T3_eq]. Qed.

Lemma meq_alt A B : meq A B <-> veq A.(t0) B.(t0) /\ veq A.(t1) B.(t1) /\ veq A.(t2) B.(t2).
Proof.
  split; [|intros ([H0] & [H1] & [H2]); split; by apply T3_eq].
  intros [(H0 & H1 & H2)%T3_eq]. by repeat split.
Qed.

Lemma mod_veq v : veq (vmod v) v.
Proof. apply veq_alt. cbn. repeat split; apply Zmod_eqm. Qed.

Lemma mod_meq A : meq (mmod A) A.
Proof. apply meq_alt. cbn. repeat split; apply mod_veq. Qed.

#[global] Instance dot_proper : Proper (veq ==> veq ==> eqm m) dot.
Proof.
  intros r r' (R0 & R1 & R2)%veq_alt v v' (V0 & V1 & V2)%veq_alt. unfold dot.
  by repeat (apply Zplus_eqm || apply Zmult_eqm).
Qed.

#[global] Instance mvec_proper : Proper (meq ==> veq ==> veq) mvec.
Proof.
  intros A B (H0 & H1 & H2)%meq_alt v w Hv. apply veq_alt. unfold mvec, tri_map; cbn.
  repeat split; by apply dot_proper.
Qed.

Lemma transpose_meq A B : meq (transpose A) (transpose B) <-> meq A B.
Proof. rewrite !meq_alt, !veq_alt. unfold transpose, tri_map; cbn. tauto. Qed.

#[global] Instance mmul_proper : Proper (meq ==> meq ==> meq) mmul.
Proof.
  intros A A' HA B B' HB. unfold mmul. apply transpose_meq. apply transpose_meq in HB.
  apply meq_alt in HB as (H0 & H1 & H2). apply meq_alt. unfold tri_map; cbn. repeat split; by apply mvec_proper.
Qed.

Lemma mpow_proper A B n : meq A B -> meq (mpow A n) (mpow B n).
Proof. intros H. induction n as [|n IH] using N.peano_ind; [done|]. by rewrite !mpow_succ, IH, H. Qed.

(** ** Powers with integer exponents *)

Context (A Inv : matrix) (Hr : meq (mmul A Inv) unit) (Hl : meq (mmul Inv A) unit).

Definition zpow (n : Z) : matrix := if 0 <=? n then mpow A (Z.to_N n) else mpow Inv (Z.to_N (- n)).

Lemma zpow_nonneg n : 0 <= n -> zpow n = mpow A (Z.to_N n).
Proof. unfold zpow. by destruct (Z.leb_spec 0 n); [|lia]. Qed.

Lemma zpow_neg n : n <= 0 -> zpow n = mpow Inv (Z.to_N (- n)).
Proof. unfold zpow. destruct (Z.leb_spec 0 n); [|done]. intros. by assert (n = 0) as -> by lia. Qed.

Lemma zpow_succ n : meq (zpow (n + 1)) (mmul A (zpow n)).
Proof.
  destruct (Z.le_gt_cases 0 n) as [H|H].
  - rewrite !zpow_nonneg by lia. replace (Z.to_N (n + 1)) with (N.succ (Z.to_N n)) by lia. by rewrite mpow_succ.
  - rewrite !zpow_neg by lia. replace (Z.to_N (- n)) with (N.succ (Z.to_N (- (n + 1)))) by lia.
    by rewrite mpow_succ, <- mmul_assoc, Hr, mmul_unit_l.
Qed.

Lemma zpow_pred n : meq (zpow (n - 1)) (mmul Inv (zpow n)).
Proof.
  replace n with (n - 1 + 1) at 2 by lia. by rewrite zpow_succ, <- mmul_assoc, Hl, mmul_unit_l.
Qed.

Lemma zpow_add a b : meq (zpow (a + b)) (mmul (zpow a) (zpow b)).
Proof.
  induction a as [|a IH|a IH] using Z.peano_ind.
  - by rewrite Z.add_0_l, (zpow_nonneg 0), mmul_unit_l by lia.
  - replace (Z.succ a + b) with (a + b + 1) by lia. unfold Z.succ.
    by rewrite !zpow_succ, IH, mmul_assoc.
  - replace (Z.pred a + b) with (a + b - 1) by lia. change (Z.pred a) with (a - 1).
    by rewrite !zpow_pred, IH, mmul_assoc.
Qed.
End Modulo.

(** Fast powers: [mpow A (2 ^ k)] by [k] squarings. *)
Definition squares (m : Z) (k : nat) (A : matrix) : matrix := Nat.iter k (fun B => mmod m (mmul B B)) A.

Lemma squares_spec m k A : meq m (squares m k A) (mpow A (2 ^ N.of_nat k)).
Proof.
  induction k as [|k IH]; [by rewrite mpow_1|]. rewrite Nat2N.inj_succ, N.pow_succ_r', mpow_double, <- IH.
  apply mod_meq.
Qed.

(** ** The generator *)

Definition m1 : Z := 4294967087.
Definition m2 : Z := 4294944443.
Definition A1 : matrix := T3 (T3 0 1 0) (T3 0 0 1) (T3 (-810728) 1403580 0).
Definition A2 : matrix := T3 (T3 0 1 0) (T3 0 0 1) (T3 (-1370589) 0 527612).
Definition I1 : matrix := T3 (T3 184888585 0 1945170933) (T3 1 0 0) (T3 0 1 0).
Definition I2 : matrix := T3 (T3 0 360363334 4225571728) (T3 1 0 0) (T3 0 1 0).

Definition step1 (x : vec) : vec := T3 x.(t1) x.(t2) ((1403580 * x.(t1) - 810728 * x.(t0)) mod m1).
Definition step2 (y : vec) : vec := T3 y.(t1) y.(t2) ((527612 * y.(t2) - 1370589 * y.(t0)) mod m2).
Definition step (s : six Z) : six Z := Six (step1 s.(mrg1)) (step2 s.(mrg2)).

(** The number drawn from a state, 1 to [m1]. *)
Definition output (s : six Z) : Z :=
  let x := s.(mrg1).(t2) in let y := s.(mrg2).(t2) in
  if y <? x then x - y else x - y + m1.

Definition reduced (m : Z) (v : vec) : Prop := 0 <= v.(t0) < m /\ 0 <= v.(t1) < m /\ 0 <= v.(t2) < m.
Definition zero3 : vec := T3 0 0 0.

(** The states a generator may be in: what [CheckSeed] asks for. *)
Record legal (s : six Z) : Prop := {
  legal1 : reduced m1 s.(mrg1);
  legal2 : reduced m2 s.(mrg2);
  nonzero1 : s.(mrg1) <> zero3;
  nonzero2 : s.(mrg2) <> zero3
}.

(** [n] steps forward, or backward when [n] is negative. *)
Definition move1 (n : Z) (v : vec) : vec := vmod m1 (mvec (zpow A1 I1 n) v).
Definition move2 (n : Z) (v : vec) : vec := vmod m2 (mvec (zpow A2 I2 n) v).
Definition move (n : Z) (s : six Z) : six Z := Six (move1 n s.(mrg1)) (move2 n s.(mrg2)).

#[global] Arguments mpow : simpl never.
#[global] Arguments zpow : simpl never.
#[global] Arguments move : simpl never.

Lemma inv1_r : meq m1 (mmul A1 I1) unit.
Proof. by split. Qed.
Lemma inv1_l : meq m1 (mmul I1 A1) unit.
Proof. by split. Qed.
Lemma inv2_r : meq m2 (mmul A2 I2) unit.
Proof. by split. Qed.
Lemma inv2_l : meq m2 (mmul I2 A2) unit.
Proof. by split. Qed.

Lemma reduced_mod m v : 0 < m -> reduced m (vmod m v).
Proof. intros Hm. unfold reduced, vmod, tri_map; cbn. repeat split; by apply Z.mod_pos_bound. Qed.

Lemma mod_reduced m v : reduced m v -> vmod m v = v.
Proof. intros (H0 & H1 & H2). destruct v. unfold vmod, tri_map. cbn in *. by rewrite !Z.mod_small by done. Qed.

Section Component.
Context (m : Z) (A Inv : matrix) (Hm : 0 < m) (Hr : meq m (mmul A Inv) unit) (Hl : meq m (mmul Inv A) unit).
Let go n v := vmod m (mvec (zpow A Inv n) v).

Lemma go_add a b v : go a (go b v) = go (a + b) v.
Proof.
  unfold go. apply veq_mod. by rewrite (mod_veq m (mvec (zpow A Inv b) v)), <- mvec_mmul, (zpow_add m A Inv Hr Hl).
Qed.

Lemma go_0 v : reduced m v -> go 0 v = v.
Proof. intros Hv. unfold go. rewrite zpow_nonneg by done. cbn [Z.to_N]. unfold mpow; cbn [N.iter]. rewrite mvec_unit. by apply mod_reduced. Qed.

Lemma go_nonzero n v : reduced m v -> v <> zero3 -> go n v <> zero3.
Proof.
  intros Hv Hnz Hgo. apply Hnz. rewrite <- (go_0 v Hv). replace 0 with (- n + n) by lia. rewrite <- go_add, Hgo.
  unfold go. assert (forall M, mvec M zero3 = zero3) as ->; [|by unfold vmod, zero3, tri_map; cbn; rewrite Z.mod_0_l by lia].
  intros [[] [] []]. cbv -[Z.add Z.mul]. f_equal; ring.
Qed.
End Component.

Lemma move_add a b s : move a (move b s) = move (a + b) s.
Proof. unfold move. f_equal; [apply (go_add m1 A1 I1 inv1_r inv1_l)|apply (go_add m2 A2 I2 inv2_r inv2_l)]. Qed.

Lemma move_0 s : reduced m1 s.(mrg1) -> reduced m2 s.(mrg2) -> move 0 s = s.
Proof. intros H1 H2. destruct s. unfold move. f_equal; by apply go_0. Qed.

(** Moving with any matrices congruent to the powers. *)
Lemma move_matrices n s M1 M2 :
  meq m1 M1 (zpow A1 I1 n) -> meq m2 M2 (zpow A2 I2 n) ->
  move n s = Six (vmod m1 (mvec M1 s.(mrg1))) (vmod m2 (mvec M2 s.(mrg2))).
Proof. intros H1 H2. unfold move, move1, move2. f_equal; apply veq_mod; [by rewrite H1|by rewrite H2]. Qed.

Lemma legal_move n s : legal s -> legal (move n s).
Proof.
  intros [H1 H2 H3 H4]. split; [by apply reduced_mod..| |].
  - by apply (go_nonzero m1 A1 I1).
  - by apply (go_nonzero m2 A2 I2).
Qed.

Lemma step_move s : reduced m1 s.(mrg1) -> reduced m2 s.(mrg2) -> step s = move 1 s.
Proof.
  destruct s as [[a b c] [d e f]]. intros (H0 & H1 & H2) (H3 & H4 & H5). cbn in *.
  unfold step, move, move1, move2, zpow. cbn [Z.leb Z.compare Z.to_N]. rewrite !mpow_1.
  cbv -[Z.add Z.mul Z.modulo Z.sub m1 m2]. fold m1 m2.
  f_equal; (f_equal; [rewrite Z.mod_small; lia..|f_equal; lia]).
Qed.

Lemma iter_step_move n s :
  reduced m1 s.(mrg1) -> reduced m2 s.(mrg2) -> N.iter n step s = move (Z.of_N n) s.
Proof.
  intros H1 H2. induction n as [|n IH] using N.peano_ind; [by rewrite move_0|].
  rewrite N.iter_succ, IH, step_move by (by apply reduced_mod). rewrite move_add. f_equal. lia.
Qed.
End MRG.

(** A power is never computed by unfolding. *)
#[global] Opaque MRG.mpow MRG.move.
