(* ===== verification/RngExact.v ===== *)
(** * The generator computes exactly

    The floating-point functions of [Rng] against the integers of [RngSpec]: as
    long as all numbers are integers in range, no operation rounds, and every
    function computes what its comment promises. *)

From Stdlib Require Import ZArith Lia Bool SpecFloat.
From stdpp Require Import base list.
From S2P Require Import Prelude F64 F64Exact Rng RngSpec.

Module RngExact.
Import F64Exact(int, int_of_Z, int_lt, int_mul, int_add, int_sub, int_trunc, int_div_trunc, int_inj).

(** ** Reduction modulo [m] *)

Lemma to_long_int x z : F64.trunc x = Some z -> - 2 ^ 63 <= z < 2 ^ 63 -> RNG.to_long x = Ok z.
Proof.
  intros Hx Hz. unfold RNG.to_long. rewrite Hx. cbn [deref res_bind].
  by rewrite (proj2 (Z.leb_le _ _)), (proj2 (Z.ltb_lt _ _)) by lia.
Qed.

Lemma reduce_spec v m a b :
  int v a -> int m b -> 0 < b < 2 ^ 40 -> Z.abs a < 2 ^ 53 ->
  exists r, RNG.reduce v m = Ok r /\ int r (Z.rem a b).
Proof.
  intros Hv Hm Hb Ha. assert (Z.abs (Z.quot a b) <= Z.abs a) as Hq.
  { rewrite <- Z.quot_abs by lia. rewrite Z.quot_div_nonneg by lia. apply Z.div_le_upper_bound; nia. }
  assert (Z.abs (Z.quot a b * b) <= Z.abs a) as Hqb.
  { rewrite Z.abs_mul, <- Z.quot_abs by lia. rewrite Z.quot_div_nonneg by lia.
    pose proof (Z.mul_div_le (Z.abs a) (Z.abs b) ltac:(lia)). lia. }
  assert (Z.rem a b = a - Z.quot a b * b) as Hr by (pose proof (Z.quot_rem' a b); lia).
  unfold RNG.reduce. rewrite (to_long_int _ (Z.quot a b)); [|apply int_div_trunc; [done|done|lia|done]|lia].
  cbn [res_bind]. eexists. split; [done|]. rewrite Hr. apply int_sub; [done| |lia|lia|].
  - apply int_mul; [apply int_of_Z; lia|done|lia].
  - rewrite <- Hr. pose proof (Z.rem_bound_abs a b ltac:(lia)). lia.
Qed.

Lemma make_positive_spec v m a b :
  int v (Z.rem a b) -> int m b -> 0 < b < 2 ^ 40 -> int (RNG.make_positive v m) (a mod b).
Proof.
  intros Hv Hm Hb. pose proof (Z.rem_bound_abs a b ltac:(lia)).
  unfold RNG.make_positive. rewrite (int_lt v F64.zero _ 0 Hv) by done.
  assert (a mod b = if Z.rem a b <? 0 then Z.rem a b + b else Z.rem a b) as ->.
  { pose proof (Z.quot_rem' a b). destruct (Z.ltb_spec (Z.rem a b) 0); symmetry.
    - apply (Z.mod_unique_pos _ _ (Z.quot a b - 1)); lia.
    - apply (Z.mod_unique_pos _ _ (Z.quot a b)); lia. }
  destruct (_ <? _); [apply int_add; [done|done|lia..]|done].
Qed.

(** One component of the recurrence. *)
Lemma combine_spec a b x y m ca cb cx cy cm :
  int a ca -> int b cb -> int x cx -> int y cy -> int m cm ->
  0 <= ca < 2 ^ 21 -> 0 <= cb < 2 ^ 21 -> 0 <= cx < 2 ^ 32 -> 0 <= cy < 2 ^ 32 -> 0 < cm < 2 ^ 40 ->
  exists r, RNG.combine a b x y m = Ok r /\ int r ((ca * cx - cb * cy) mod cm).
Proof.
  intros Ha Hb Hx Hy Hm Ia Ib Ix Iy Im. unfold RNG.combine.
  assert (0 <= ca * cx < 2 ^ 53) as I1 by nia. assert (0 <= cb * cy < 2 ^ 53) as I2 by nia.
  assert (int (F64.sub (F64.mul a x) (F64.mul b y)) (ca * cx - cb * cy)) as Hp.
  { apply int_sub; [apply int_mul; [done|done|lia]|apply int_mul; [done|done|lia]|lia..]. }
  destruct (reduce_spec _ m _ cm Hp Hm Im ltac:(lia)) as (r & -> & Hr). cbn [res_bind].
  eexists. split; [done|]. by apply make_positive_spec.
Qed.

(** The operands of [MultModM]: either small, or not negative. *)
Definition fits (a s : Z) : Prop :=
  Z.abs a < 2 ^ 21 /\ Z.abs s < 2 ^ 32 \/ 0 <= a < 2 ^ 32 /\ 0 <= s < 2 ^ 32.

Lemma ge_lt x y : F64.is_nan x = false -> F64.is_nan y = false -> F64.ge x y = negb (F64.lt x y).
Proof.
  intros Hx Hy. unfold F64.ge. destruct (F64.lt x y) eqn:E; cbn.
  - by apply F64.lt_not_le.
  - by apply F64.le_total.
Qed.

Lemma int_not_nan x z : int x z -> F64.is_nan x = false.
Proof. apply F64Exact.fin_not_nan. Qed.

(** A product too large to be exact is not rounded below 2^53. *)
Lemma mul_large x y a b :
  int x a -> int y b -> 0 <= a < 2 ^ 32 -> 0 <= b < 2 ^ 32 ->
  exists w, F64Exact.fin (F64.mul x y) w /\ 0 <= w < 2 ^ 70 * F64Exact.one /\
    (a * b < 2 ^ 53 -> w = a * b * F64Exact.one) /\ (2 ^ 53 <= a * b -> 2 ^ 53 * F64Exact.one <= w).
Proof.
  intros Hx Hy Ha Hb. pose proof F64Exact.one_pos. destruct (Z.le_gt_cases (2 ^ 53) (a * b)) as [Hab|Hab].
  - destruct (F64Exact.mul_spec x y _ _ Hx Hy) as (w & Hw & Hap); [apply F64Exact.int_normal; nia..|].
    rewrite !F64Exact.sign_one, !(proj2 (Z.ltb_ge _ 0)) in Hw by lia. cbn [xorb F64Exact.signed] in Hw.
    rewrite !Z.abs_eq in Hap by nia. exists w. split; [done|].
    assert (2 ^ 53 * F64Exact.one <= w) as Hge.
    { change (2 ^ 53 * F64Exact.one) with (2 ^ (53 + 1074)). apply (F64Exact.approx_ge _ _ _ _ Hap); [lia|lia|].
      change (2 ^ (53 + 1074)) with (2 ^ 53 * F64Exact.one). nia. }
    split; [|split; [lia|done]]. split; [lia|].
    pose proof (F64Exact.approx_error _ _ _ Hap F64Exact.one_pos) as Herr.
    assert (2 ^ 52 * F64Exact.one <= a * F64Exact.one * (b * F64Exact.one)) as H52.
    { assert (2 ^ 52 <= F64Exact.one) by (by apply Z.leb_le). assert (1 <= a * b * F64Exact.one) by nia. nia. }
    specialize (Herr H52).
    assert (w * 2 ^ 52 <= a * b * F64Exact.one * (2 ^ 52 + 1)) by (apply (Z.mul_le_mono_pos_r _ _ F64Exact.one); lia).
    assert (a * b < 2 ^ 64) by nia. assert (a * b * F64Exact.one < 2 ^ 64 * F64Exact.one) by (by apply Z.mul_lt_mono_pos_r). lia.
  - exists (a * b * F64Exact.one). split; [apply int_mul; [done|done|lia]|]. split; [nia|]. split; [done|lia].
Qed.

Lemma add_large x y w c :
  F64Exact.fin x w -> int y c -> 0 <= w < 2 ^ 70 * F64Exact.one -> 0 <= c < 2 ^ 32 ->
  2 ^ 53 * F64Exact.one <= w + c * F64Exact.one ->
  exists v, F64Exact.fin (F64.add x y) v /\ 2 ^ 53 * F64Exact.one <= v.
Proof.
  intros Hx Hy Hw Hc Hsum. pose proof F64Exact.one_pos. destruct (Z.eq_dec c 0) as [->|Hc0].
  { exists w. split; [|lia]. destruct (F64Exact.fin_zero y Hy) as [s ->]. destruct x as [[]| | |]; try done; cbn in *; lia. }
  assert (F64Exact.normal w) as Hn.
  { unfold F64Exact.normal. assert (2 ^ 600 <= F64Exact.one) by (by apply Z.leb_le).
    assert (2 ^ 70 * F64Exact.one <= 2 ^ 1500) by (by apply Z.leb_le). nia. }
  destruct (F64Exact.add_spec x y w _ Hx Hy Hn) as [_ Hadd]; [apply F64Exact.int_normal; lia|].
  destruct Hadd as (v & Hv & Hap); [nia|]. rewrite (proj2 (Z.ltb_ge _ 0)) in Hv by nia. cbn [F64Exact.signed] in Hv.
  exists v. split; [done|]. change (2 ^ 53 * F64Exact.one) with (2 ^ (53 + 1074)). apply (F64Exact.approx_ge _ _ _ _ Hap); [lia|lia|].
  change (2 ^ (53 + 1074)) with (2 ^ 53 * F64Exact.one). lia.
Qed.

Lemma int_two53 : int RNG.two53 (2 ^ 53).
Proof. by apply int_of_Z. Qed.

(** The test for large values decides by the exact value. *)
Lemma large_test a s c x y z (v := F64.add (F64.mul x y) z) :
  int x a -> int y s -> int z c -> fits a s -> 0 <= c < 2 ^ 32 ->
  if F64.ge v RNG.two53 || F64.le v (F64.opp RNG.two53)
  then 0 <= a < 2 ^ 32 /\ 0 <= s < 2 ^ 32
  else int v (a * s + c) /\ Z.abs (a * s + c) < 2 ^ 53.
Proof.
  intros Hx Hy Hz Hf Hc.
  assert (Z.abs (a * s + c) < 2 ^ 53 -> Z.abs (a * s) < 2 ^ 53 ->
    F64.ge v RNG.two53 || F64.le v (F64.opp RNG.two53) = false /\ int v (a * s + c)) as Hsmall.
  { intros H1 H2. assert (int v (a * s + c)) as Hv.
    { apply int_add; [apply int_mul; [done|done|lia]|done|lia..]. }
    split; [|done]. apply orb_false_iff. split; apply F64.lt_not_le.
    - rewrite (int_lt _ _ _ _ Hv int_two53). lia.
    - rewrite (int_lt (F64.opp RNG.two53) v (- 2 ^ 53) (a * s + c)); [lia|by split|done]. }
  destruct Hf as [Hf|Hf].
  - destruct Hsmall as [-> Hv]; [nia..|]. split; [done|nia].
  - destruct (Z.lt_ge_cases (a * s + c) (2 ^ 53)) as [Hl|Hg].
    + destruct Hsmall as [-> Hv]; [nia..|]. split; [done|nia].
    + assert (F64.ge v RNG.two53 = true) as ->; [|done].
      destruct (mul_large x y a s Hx Hy) as (w & Hw & Hw1 & Hw2 & Hw3); [tauto..|]. pose proof F64Exact.one_pos.
      destruct (add_large _ z w c Hw Hz Hw1 Hc) as (u & Hu & Hu1); [destruct (Z.lt_ge_cases (a * s) (2 ^ 53)); nia|].
      rewrite (ge_lt v RNG.two53 (F64Exact.fin_not_nan _ _ Hu) (int_not_nan _ _ int_two53)).
      rewrite (F64Exact.fin_lt v RNG.two53 _ _ Hu int_two53). apply negb_true_iff, Z.ltb_ge. exact Hu1.
Qed.

Lemma MultModM_spec a s c m x y z w :
  int x a -> int y s -> int z c -> int w m -> fits a s -> 2 ^ 31 < m < 2 ^ 32 -> 0 <= c < m ->
  exists r, RNG.MultModM x y z w = Ok r /\ int r ((a * s + c) mod m).
Proof.
  intros Hx Hy Hz Hw Hf Hm Hc. unfold RNG.MultModM. set (v := F64.add (F64.mul x y) z).
  pose proof (large_test a s c x y z Hx Hy Hz Hf ltac:(lia)) as Ht. fold v in Ht.
  destruct (_ || _).
  - destruct Ht as [Ha Hs]. assert (int RNG.two17 131072) as H17 by (by apply int_of_Z).
    rewrite (to_long_int _ (Z.quot a 131072)); [|apply int_div_trunc; [done|done|lia|lia]|rewrite Z.quot_div_nonneg by lia;
      pose proof (Z.div_le_upper_bound a 131072 a ltac:(lia)); pose proof (Z.div_pos a 131072); lia].
    rewrite Z.quot_div_nonneg by lia. cbn [res_bind].
    pose proof (Z.div_mod a 131072 ltac:(lia)) as Hdm. pose proof (Z.mod_pos_bound a 131072 ltac:(lia)) as Hmod.
    set (a1 := a / 131072) in *. assert (0 <= a1 < 2 ^ 15) as Ha1 by lia.
    assert (int (F64.of_Z a1) a1) as Ia1 by (apply int_of_Z; lia).
    assert (int (F64.sub x (F64.mul (F64.of_Z a1) RNG.two17)) (a mod 131072)) as Ia.
    { replace (a mod 131072) with (a - a1 * 131072) by lia. apply int_sub; [done|apply int_mul; [done|done|lia]|lia..]. }
    destruct (reduce_spec (F64.mul (F64.of_Z a1) y) w (a1 * s) m) as (r & -> & Hr); [apply int_mul; [done|done|nia]|done|lia|nia|].
    cbn [res_bind]. rewrite Z.rem_mod_nonneg in Hr by nia. pose proof (Z.mod_pos_bound (a1 * s) m ltac:(lia)) as Hrb.
    set (v' := F64.add _ z). assert (int v' ((a1 * s) mod m * 131072 + a mod 131072 * s + c)) as Hv'.
    { apply int_add; [apply int_add; [apply int_mul; [done|done|lia]|apply int_mul; [done|done|nia]|nia..]|done|nia..]. }
    destruct (reduce_spec v' w _ m Hv' Hw) as (r' & -> & Hr'); [lia|nia|]. cbn [res_bind].
    eexists. split; [done|]. replace ((a * s + c) mod m) with (((a1 * s) mod m * 131072 + a mod 131072 * s + c) mod m).
    + by apply make_positive_spec; [..|lia].
    + rewrite Hdm at 2. replace ((131072 * a1 + a mod 131072) * s + c) with (a1 * s * 131072 + (a mod 131072 * s + c)) by ring.
      rewrite <- Z.add_assoc, Z.add_mod, Z.mul_mod_idemp_l, <- Z.add_mod by lia. done.
  - destruct Ht as [Hv Hb]. cbn [res_bind]. destruct (reduce_spec v w _ m Hv Hw) as (r & -> & Hr); [lia|done|].
    cbn [res_bind]. eexists. split; [done|]. by apply make_positive_spec; [..|lia].
Qed.

(** ** Vectors and matrices *)

Definition vint (x : tri f64) (v : MRG.vec) : Prop := int x.(t0) v.(t0) /\ int x.(t1) v.(t1) /\ int x.(t2) v.(t2).
Definition mint (X : tri (tri f64)) (M : MRG.matrix) : Prop :=
  vint X.(t0) M.(t0) /\ vint X.(t1) M.(t1) /\ vint X.(t2) M.(t2).

Definition vall (P : Z -> Prop) (v : MRG.vec) : Prop := P v.(t0) /\ P v.(t1) /\ P v.(t2).
Definition mall (P : Z -> Prop) (M : MRG.matrix) : Prop := vall P M.(t0) /\ vall P M.(t1) /\ vall P M.(t2).

Definition small (z : Z) : Prop := Z.abs z < 2 ^ 21.
Definition bounded (z : Z) : Prop := Z.abs z < 2 ^ 32.
Definition nonneg (z : Z) : Prop := 0 <= z < 2 ^ 32.
Definition below (m z : Z) : Prop := 0 <= z < m.

Definition vfits (A : MRG.matrix) (v : MRG.vec) : Prop :=
  mall small A /\ vall bounded v \/ mall nonneg A /\ vall nonneg v.
Definition mfits (A B : MRG.matrix) : Prop :=
  mall small A /\ mall bounded B \/ mall nonneg A /\ mall nonneg B.

Lemma vall_impl (P Q : Z -> Prop) v : (forall z, P z -> Q z) -> vall P v -> vall Q v.
Proof. unfold vall. intuition. Qed.

Lemma mall_impl (P Q : Z -> Prop) M : (forall z, P z -> Q z) -> mall P M -> mall Q M.
Proof. intros H (H0 & H1 & H2). repeat split; eapply vall_impl; done || eassumption. Qed.

Lemma mall_transpose P M : mall P M -> mall P (transpose M).
Proof. unfold mall, vall, transpose, tri_map. cbn. intuition. Qed.

Lemma vall_mod m v : 0 < m -> vall (below m) (MRG.vmod m v).
Proof. intros Hm. unfold vall, below, MRG.vmod, tri_map; cbn. repeat split; by apply Z.mod_pos_bound. Qed.

Lemma mall_mod m M : 0 < m -> mall (below m) (MRG.mmod m M).
Proof. intros Hm. repeat split; by apply vall_mod. Qed.

Section Modulus.
Context (m : Z) (w : f64) (Hw : int w m) (Hm : 2 ^ 31 < m < 2 ^ 32).

Lemma below_nonneg z : below m z -> nonneg z.
Proof. unfold below, nonneg. lia. Qed.

Lemma below_bounded z : below m z -> bounded z.
Proof. unfold below, bounded. lia. Qed.

Lemma MatVecModM_spec X A x v :
  mint X A -> vint x v -> vfits A v ->
  exists y, RNG.MatVecModM X x w = Ok y /\ vint y (MRG.vmod m (MRG.mvec A v)).
Proof.
  intros (H0 & H1 & H2) (I0 & I1 & I2) Hf.
  assert (forall row r, vint row r -> vfits (T3 r r r) v -> exists z,
    (let! x' := RNG.MultModM row.(t0) x.(t0) F64.zero w in
     let! x' := RNG.MultModM row.(t1) x.(t1) x' w in
     RNG.MultModM row.(t2) x.(t2) x' w) = Ok z /\ int z (MRG.dot r v mod m)) as Hrow.
  { intros row r (R0 & R1 & R2) Hr.
    assert (fits r.(t0) v.(t0) /\ fits r.(t1) v.(t1) /\ fits r.(t2) v.(t2)) as (F0 & F1 & F2).
    { unfold vfits, mall, vall, small, bounded, nonneg, fits in *. cbn in Hr. tauto. }
    destruct (MultModM_spec _ _ 0 m _ _ F64.zero w R0 I0 ltac:(done) Hw F0 Hm ltac:(lia)) as (z0 & -> & Z0).
    cbn [res_bind]. pose proof (Z.mod_pos_bound (r.(t0) * v.(t0) + 0) m ltac:(lia)) as B0.
    destruct (MultModM_spec _ _ _ m _ _ z0 w R1 I1 Z0 Hw F1 Hm B0) as (z1 & -> & Z1).
    cbn [res_bind]. pose proof (Z.mod_pos_bound (r.(t1) * v.(t1) + (r.(t0) * v.(t0) + 0) mod m) m ltac:(lia)) as B1.
    destruct (MultModM_spec _ _ _ m _ _ z1 w R2 I2 Z1 Hw F2 Hm B1) as (z2 & -> & Z2).
    eexists. split; [done|]. unfold MRG.dot.
    replace (_ mod m) with ((r.(t2) * v.(t2) + (r.(t1) * v.(t1) + (r.(t0) * v.(t0) + 0) mod m) mod m) mod m); [done|].
    rewrite Z.add_mod_idemp_r, Z.add_assoc, Z.add_mod_idemp_r by lia. f_equal. ring. }
  assert (forall r, In r [A.(t0); A.(t1); A.(t2)] -> vfits (T3 r r r) v) as Hrows.
  { intros r Hr. unfold vfits, mall in *. cbn in *. intuition subst; auto. }
  unfold RNG.MatVecModM, tri_mapM.
  destruct (Hrow _ _ H0) as (y0 & -> & Y0); [apply Hrows; cbn; auto|]. cbn [res_bind].
  destruct (Hrow _ _ H1) as (y1 & -> & Y1); [apply Hrows; cbn; auto|]. cbn [res_bind].
  destruct (Hrow _ _ H2) as (y2 & -> & Y2); [apply Hrows; cbn; auto|]. cbn [res_bind].
  eexists. split; [done|]. by repeat split.
Qed.

Lemma mint_transpose X A : mint X A -> mint (transpose X) (transpose A).
Proof. unfold mint, vint, transpose, tri_map. cbn. intuition. Qed.

Lemma MatMatModM_spec X A Y B :
  mint X A -> mint Y B -> mfits A B ->
  exists Z, RNG.MatMatModM X Y w = Ok Z /\ mint Z (MRG.mmod m (MRG.mmul A B)).
Proof.
  intros HX HY Hf. pose proof (mint_transpose _ _ HY) as (H0 & H1 & H2).
  assert (vfits A (transpose B).(t0) /\ vfits A (transpose B).(t1) /\ vfits A (transpose B).(t2)) as (F0 & F1 & F2).
  { unfold vfits. destruct Hf as [[HA HB]|[HA HB]]; apply mall_transpose in HB as (B0 & B1 & B2); tauto. }
  unfold RNG.MatMatModM, tri_mapM.
  destruct (MatVecModM_spec _ _ _ _ HX H0 F0) as (y0 & -> & Y0). cbn [res_bind].
  destruct (MatVecModM_spec _ _ _ _ HX H1 F1) as (y1 & -> & Y1). cbn [res_bind].
  destruct (MatVecModM_spec _ _ _ _ HX H2 F2) as (y2 & -> & Y2). cbn [res_bind].
  eexists. split; [done|]. 
  exact (mint_transpose (T3 y0 y1 y2) (tri_map (fun v => MRG.vmod m (MRG.mvec A v)) (transpose B)) (conj Y0 (conj Y1 Y2))).
Qed.

(** Powers of two by squaring. *)
Lemma square_loop_spec k X A :
  mint X A -> mfits A A ->
  exists Z, RNG.square_loop k X w = Ok Z /\ mint Z (MRG.squares m k A).
Proof.
  revert X A. induction k as [|k IH]; intros X A HX Hf; [by eexists|]. cbn [RNG.square_loop].
  destruct (MatMatModM_spec _ _ _ _ HX HX Hf) as (Y & -> & HY). cbn [res_bind].
  unfold MRG.squares. rewrite Nat.iter_succ_r. apply IH; [done|].
  right. split; apply (mall_impl (below m)); auto using below_nonneg; apply mall_mod; lia.
Qed.

Lemma mfits_below A B : mall (below m) A -> mall (below m) B -> mfits A B.
Proof. right. split; eapply (mall_impl (below m)); eauto using below_nonneg. Qed.

(** The loop of [MatPowModM]: [W] to the power [n], times [B]. *)
Lemma pow_loop_spec fuel n X A Y B :
  mint X A -> mint Y B -> mall (below m) B -> mfits A A -> mfits A B -> 0 <= n < 2 ^ Z.of_nat fuel ->
  exists Z C, RNG.pow_loop fuel X Y w n = Ok Z /\ mint Z C /\ mall (below m) C /\
    MRG.meq m C (MRG.mmul (MRG.mpow A (Z.to_N n)) B).
Proof.
  revert n X A Y B. induction fuel as [|fuel IH]; intros n X A Y B HX HY HB HAA HAB Hn; cbn [RNG.pow_loop].
  all: destruct (Z.ltb_spec 0 n) as [Hpos|Hz];
    [|assert (n = 0) as -> by lia; exists Y, B; do 3 (split; [done|]); by rewrite MRG.mmul_unit_l].
  { cbn in Hn. lia. }
  assert (exists Y' B', (if Z.rem n 2 =? 0 then Ok Y else RNG.MatMatModM X Y w) = Ok Y' /\ mint Y' B' /\
    mall (below m) B' /\ MRG.meq m B' (if Z.rem n 2 =? 0 then B else MRG.mmul A B)) as (Y' & B' & -> & HY' & HB' & EB').
  { destruct (_ =? _); [by exists Y, B|]. destruct (MatMatModM_spec _ _ _ _ HX HY HAB) as (Y' & -> & HY').
    eexists _, _. do 2 (split; [done|]). split; [apply mall_mod; lia|apply MRG.mod_meq]. }
  cbn [res_bind]. destruct (MatMatModM_spec _ _ _ _ HX HX HAA) as (X' & -> & HX'). cbn [res_bind].
  set (A' := MRG.mmod m (MRG.mmul A A)) in *. assert (mall (below m) A') as HA' by (apply mall_mod; lia).
  rewrite Z.quot_div_nonneg by lia. rewrite Nat2Z.inj_succ, Z.pow_succ_r in Hn by lia.
  destruct (IH (n / 2) X' A' Y' B') as (Z & C & HZ & HC & HCb & EC); [done|done|done|by apply mfits_below..| |].
  { split; [apply Z.div_pos; lia|apply Z.div_lt_upper_bound; lia]. }
  exists Z, C. split; [done|]. split; [done|]. split; [done|]. rewrite EC, EB'.
  rewrite (MRG.mpow_proper m A' (MRG.mmul A A)) by apply MRG.mod_meq. rewrite MRG.mpow_square.
  rewrite Z.rem_mod_nonneg by lia. pose proof (Z.div_mod n 2 ltac:(lia)) as Hdm. pose proof (Z.mod_pos_bound n 2 ltac:(lia)).
  destruct (Z.eqb_spec (n mod 2) 0) as [E|E].
  - replace (2 * Z.to_N (n / 2))%N with (Z.to_N n); [done|]. lia.
  - replace (Z.to_N n) with (2 * Z.to_N (n / 2) + 1)%N by lia. by rewrite MRG.mpow_add, MRG.mpow_1, MRG.mmul_assoc.
Qed.

Lemma identity_spec : mint RNG.identity MRG.unit.
Proof. repeat split; by apply int_of_Z. Qed.

Lemma MatPowModM_spec X A n :
  mint X A -> mall small A \/ mall (below m) A -> 0 <= n < 2 ^ 63 ->
  exists Z C, RNG.MatPowModM X w n = Ok Z /\ mint Z C /\ mall (below m) C /\ MRG.meq m C (MRG.mpow A (Z.to_N n)).
Proof.
  intros HX HA Hn. assert (mall (below m) MRG.unit) as HI by (unfold mall, vall, below; cbn; lia).
  assert (forall B, mall (below m) B \/ B = A -> mfits A B) as Hfit.
  { intros B HB. destruct HA as [HA|HA].
    - left. split; [done|]. destruct HB as [HB| ->]; [|apply (mall_impl small); [unfold small, bounded; lia|done]].
      apply (mall_impl (below m)); [apply below_bounded|done].
    - apply mfits_below; [done|]. by destruct HB as [| ->]. }
  destruct (pow_loop_spec 63 n X A _ _ HX identity_spec HI) as (Z & C & HZ & HC & HCb & EC); [by apply Hfit; auto..|done|].
  exists Z, C. rewrite MRG.mmul_unit_r in EC. done.
Qed.

Lemma MatTwoPowModM_spec X A e :
  mint X A -> mall small A \/ mall (below m) A -> 0 < e < 2 ^ 31 ->
  exists Z C, RNG.MatTwoPowModM X w e = Ok Z /\ mint Z C /\ mall (below m) C /\ MRG.meq m C (MRG.mpow A (2 ^ Z.to_N e)).
Proof.
  intros HX HA He. unfold RNG.MatTwoPowModM. rewrite (proj2 (Z.leb_gt _ _)) by lia.
  destruct (square_loop_spec (Z.to_nat e) X A HX) as (Z & -> & HZ).
  { destruct HA as [HA|HA]; [left|by apply mfits_below]. split; [done|].
    apply (mall_impl small); [unfold small, bounded; lia|done]. }
  exists Z, (MRG.squares m (Z.to_nat e) A). split; [done|]. split; [done|]. split.
  - destruct (Z.to_nat e) eqn:E; [lia|]. apply mall_mod. lia.
  - rewrite MRG.squares_spec. by rewrite Z_nat_N.
Qed.

(** ** Jumps *)

Definition jump (e c : Z) : Z := (if 0 <? e then 2 ^ e else if e <? 0 then - 2 ^ (- e) else 0) + c.

Section Jump.
Context (X XI : tri (tri f64)) (A I : MRG.matrix) (HX : mint X A) (HI : mint XI I)
  (HA : mall small A) (HIb : mall (below m) I)
  (Hr : MRG.meq m (MRG.mmul A I) MRG.unit) (Hl : MRG.meq m (MRG.mmul I A) MRG.unit).

Lemma jump_matrix_spec e c :
  - 2 ^ 31 < e < 2 ^ 31 -> - 2 ^ 63 < c < 2 ^ 63 ->
  exists Z C, RNG.jump_matrix X XI w e c = Ok Z /\ mint Z C /\ mall (below m) C /\ MRG.meq m C (MRG.zpow A I (jump e c)).
Proof.
  intros He Hc.
  assert (exists ZC C, (if 0 <=? c then RNG.MatPowModM X w c else let! c := RNG.in_long (- c) in RNG.MatPowModM XI w c) = Ok ZC /\
    mint ZC C /\ mall (below m) C /\ MRG.meq m C (MRG.zpow A I c)) as (ZC & C & EC & HC & HCb & MC).
  { destruct (Z.leb_spec 0 c).
    - rewrite MRG.zpow_nonneg by done. apply MatPowModM_spec; [done|by left|lia].
    - rewrite MRG.zpow_neg by lia. unfold RNG.in_long. rewrite (proj2 (Z.leb_le _ _)), (proj2 (Z.ltb_lt _ _)) by lia. cbn [andb res_bind].
      apply MatPowModM_spec; [done|by right|lia]. }
  unfold RNG.jump_matrix, jump. rewrite EC. destruct (Z.ltb_spec 0 e) as [Hp|Hnp]; [|destruct (Z.ltb_spec e 0) as [Hn|Hnn]].
  - destruct (MatTwoPowModM_spec X A e HX ltac:(by left) ltac:(lia)) as (ZB & B & -> & HB & HBb & MB). cbn [res_bind].
    rewrite (proj2 (Z.eqb_neq e 0)) by lia.
    destruct (MatMatModM_spec ZB B ZC C HB HC ltac:(by apply mfits_below)) as (Z & -> & HZ).
    eexists _, _. split; [done|]. split; [done|]. split; [apply mall_mod; lia|].
    rewrite MRG.mod_meq, MB, MC, (MRG.zpow_add m A I Hr Hl), (MRG.zpow_nonneg A I (2 ^ e)) by lia.
    replace (Z.to_N (2 ^ e)) with (2 ^ Z.to_N e)%N; [done|]. rewrite Z2N.inj_pow by lia. done.
  - unfold RNG.in_long. rewrite (proj2 (Z.leb_le _ _)), (proj2 (Z.ltb_lt _ _)) by lia. cbn [andb res_bind].
    destruct (MatTwoPowModM_spec XI I (- e) HI ltac:(by right) ltac:(lia)) as (ZB & B & -> & HB & HBb & MB). cbn [res_bind].
    rewrite (proj2 (Z.eqb_neq e 0)) by lia.
    destruct (MatMatModM_spec ZB B ZC C HB HC ltac:(by apply mfits_below)) as (Z & -> & HZ).
    eexists _, _. split; [done|]. split; [done|]. split; [apply mall_mod; lia|].
    rewrite MRG.mod_meq, MB, MC, (MRG.zpow_add m A I Hr Hl), (MRG.zpow_neg A I (- 2 ^ (- e))) by lia.
    rewrite Z.opp_involutive. replace (Z.to_N (2 ^ (- e))) with (2 ^ Z.to_N (- e))%N; [done|]. rewrite Z2N.inj_pow by lia. done.
  - assert (e = 0) as -> by lia. cbn [res_bind Z.eqb]. by exists ZC, C.
Qed.
End Jump.
End Modulus.

Lemma jump_opp e c : jump (- e) (- c) + jump e c = 0.
Proof.
  unfold jump. destruct (Z.ltb_spec 0 e), (Z.ltb_spec e 0), (Z.ltb_spec 0 (- e)), (Z.ltb_spec (- e) 0);
    rewrite ?Z.opp_involutive; lia.
Qed.
End RngExact.
