(* ===== verification/RngProps.v ===== *)
(** * What the random number generator promises

    On top of [RngExact]: a generator always is in a legal state of MRG32k3a,
    draws are the numbers of that generator, strictly between 0 and 1, jumps
    between streams and substreams are exactly 2^127 and 2^76 steps, and every
    jump can be undone. *)

From Stdlib Require Import ZArith Lia Bool SpecFloat.
From stdpp Require Import base list.
From S2P Require Import Prelude F64 F64Exact Rng RngSpec RngExact.

Module RngFacts.
Import RNG RngExact.
Import F64(add, sub, mul, div, lt, gt, of_Z, zero).
Import F64Exact(int, int_of_Z, int_lt, int_mul, int_add, int_sub, int_inj, fin, one).

(** The doubles [x] are the integers [s]. *)
Record holds (x : six f64) (s : six Z) : Prop := { holds1 : vint x.(mrg1) s.(mrg1); holds2 : vint x.(mrg2) s.(mrg2) }.

(** The three states of a generator are legal. *)
Record well_formed (r : t) : Prop := {
  wf_Cg : exists s, holds r.(Cg_) s /\ MRG.legal s;
  wf_Bg : exists s, holds r.(Bg_) s /\ MRG.legal s;
  wf_Ig : exists s, holds r.(Ig_) s /\ MRG.legal s
}.

Lemma int_m1 : int m1 MRG.m1.
Proof. by apply int_of_Z. Qed.
Lemma int_m2 : int m2 MRG.m2.
Proof. by apply int_of_Z. Qed.
Lemma range_m1 : 2 ^ 31 < MRG.m1 < 2 ^ 32.
Proof. done. Qed.
Lemma range_m2 : 2 ^ 31 < MRG.m2 < 2 ^ 32.
Proof. done. Qed.

Lemma mat_spec a b c d e f g h i :
  mall (fun z => Z.abs z <= 2 ^ 53) (T3 (T3 a b c) (T3 d e f) (T3 g h i)) ->
  mint (mat a b c d e f g h i) (T3 (T3 a b c) (T3 d e f) (T3 g h i)).
Proof. intros ((? & ? & ?) & (? & ? & ?) & (? & ? & ?)). repeat split; by apply int_of_Z. Qed.

Ltac ints := apply mat_spec; repeat split; cbn; lia.

(** Concrete bounds, by computation. *)
Ltac consts := repeat split; vm_compute; first [reflexivity|discriminate].

Lemma A1p0_spec : mint A1p0 MRG.A1.
Proof. ints. Qed.
Lemma A2p0_spec : mint A2p0 MRG.A2.
Proof. ints. Qed.
Lemma InvA1_spec : mint InvA1 MRG.I1.
Proof. ints. Qed.
Lemma InvA2_spec : mint InvA2 MRG.I2.
Proof. ints. Qed.

Lemma reduced_vall m v : MRG.reduced m v <-> vall (below m) v.
Proof. done. Qed.

(** A vector multiplied by a reduced matrix. *)
Lemma mat_vec_spec m w X A x v :
  int w m -> 2 ^ 31 < m < 2 ^ 32 -> mint X A -> mall (below m) A -> vint x v -> MRG.reduced m v ->
  exists y, MatVecModM X x w = Ok y /\ vint y (MRG.vmod m (MRG.mvec A v)).
Proof.
  intros Hw Hm HX HA Hx Hv. apply (MatVecModM_spec m w Hw Hm); [done..|]. right. split.
  - eapply (mall_impl (below m)), HA. by apply below_nonneg.
  - eapply (vall_impl (below m)), Hv. by apply below_nonneg.
Qed.

Lemma mat_vec2_spec X1 X2 M1 M2 x s n :
  mint X1 M1 -> mint X2 M2 -> mall (below MRG.m1) M1 -> mall (below MRG.m2) M2 ->
  MRG.meq MRG.m1 M1 (MRG.zpow MRG.A1 MRG.I1 n) -> MRG.meq MRG.m2 M2 (MRG.zpow MRG.A2 MRG.I2 n) ->
  holds x s -> MRG.legal s -> exists y, mat_vec2 X1 X2 x = Ok y /\ holds y (MRG.move n s).
Proof.
  intros H1 H2 B1 B2 E1 E2 [Hx1 Hx2] Hs. unfold mat_vec2.
  destruct (mat_vec_spec _ _ _ _ _ _ int_m1 range_m1 H1 B1 Hx1 (MRG.legal1 _ Hs)) as (y1 & -> & Y1). cbn [res_bind].
  destruct (mat_vec_spec _ _ _ _ _ _ int_m2 range_m2 H2 B2 Hx2 (MRG.legal2 _ Hs)) as (y2 & -> & Y2). cbn [res_bind].
  eexists. split; [done|]. rewrite (MRG.move_matrices n s M1 M2 E1 E2). by split.
Qed.

(** The tabulated matrices are the powers their names promise. *)
Lemma table_spec (m : Z) (A I M : MRG.matrix) k :
  MRG.squares m k A = M -> MRG.meq m M (MRG.zpow A I (2 ^ Z.of_nat k)).
Proof.
  intros <-. rewrite MRG.squares_spec, MRG.zpow_nonneg by lia.
  replace (Z.to_N (2 ^ Z.of_nat k)) with (2 ^ N.of_nat k)%N; [done|]. rewrite Z2N.inj_pow by lia. f_equal. lia.
Qed.

Lemma jump76_1 : MRG.meq MRG.m1 (T3 (T3 82758667 1871391091 4127413238) (T3 3672831523 69195019 1871391091)
  (T3 3672091415 3528743235 69195019)) (MRG.zpow MRG.A1 MRG.I1 (2 ^ 76)).
Proof. apply (table_spec _ _ _ _ 76). by vm_compute. Qed.

Lemma jump76_2 : MRG.meq MRG.m2 (T3 (T3 1511326704 3759209742 1610795712) (T3 4292754251 1511326704 3889917532)
  (T3 3859662829 4292754251 3708466080)) (MRG.zpow MRG.A2 MRG.I2 (2 ^ 76)).
Proof. apply (table_spec _ _ _ _ 76). by vm_compute. Qed.

Lemma jump127_1 : MRG.meq MRG.m1 (T3 (T3 2427906178 3580155704 949770784) (T3 226153695 1230515664 3580155704)
  (T3 1988835001 986791581 1230515664)) (MRG.zpow MRG.A1 MRG.I1 (2 ^ 127)).
Proof. apply (table_spec _ _ _ _ 127). by vm_compute. Qed.

Lemma jump127_2 : MRG.meq MRG.m2 (T3 (T3 1464411153 277697599 1610723613) (T3 32183930 1464411153 1022607788)
  (T3 2824425944 32183930 2093834863)) (MRG.zpow MRG.A2 MRG.I2 (2 ^ 127)).
Proof. apply (table_spec _ _ _ _ 127). by vm_compute. Qed.

Lemma next_substream_spec x s :
  holds x s -> MRG.legal s -> exists y, mat_vec2 A1p76 A2p76 x = Ok y /\ holds y (MRG.move (2 ^ 76) s).
Proof.
  intros Hx Hs. refine (mat_vec2_spec _ _ _ _ _ _ _ _ _ _ _ jump76_1 jump76_2 Hx Hs); [ints|ints|..]; consts.
Qed.

Lemma next_stream_spec x s :
  holds x s -> MRG.legal s -> exists y, mat_vec2 A1p127 A2p127 x = Ok y /\ holds y (MRG.move (2 ^ 127) s).
Proof.
  intros Hx Hs. refine (mat_vec2_spec _ _ _ _ _ _ _ _ _ _ _ jump127_1 jump127_2 Hx Hs); [ints|ints|..]; consts.
Qed.

Lemma advance_spec r s e c :
  holds r.(Cg_) s -> MRG.legal s -> - 2 ^ 31 < e < 2 ^ 31 -> - 2 ^ 63 < c < 2 ^ 63 ->
  exists x, advance_state r e c = Ok (r <| Cg_ := x |>) /\ holds x (MRG.move (jump e c) s).
Proof.
  intros Hx Hs He Hc. unfold advance_state.
  destruct (jump_matrix_spec MRG.m1 m1 int_m1 range_m1 _ _ _ _ A1p0_spec InvA1_spec) with (e := e) (c := c) as (Z1 & C1 & -> & H1 & B1 & M1);
    [consts|consts|apply MRG.inv1_r|apply MRG.inv1_l|done|done|].
  destruct (jump_matrix_spec MRG.m2 m2 int_m2 range_m2 _ _ _ _ A2p0_spec InvA2_spec) with (e := e) (c := c) as (Z2 & C2 & -> & H2 & B2 & M2);
    [consts|consts|apply MRG.inv2_r|apply MRG.inv2_l|done|done|].
  cbn [res_bind]. destruct (mat_vec2_spec _ _ _ _ _ _ _ H1 H2 B1 B2 M1 M2 Hx Hs) as (y & -> & Hy). cbn [res_bind].
  exists y. by split.
Qed.

(** ** Draws *)

Definition norm_units : Z := Eval vm_compute in
  match norm with S754_finite _ m e => Z.pos m * 2 ^ (e + 1074) | _ => 0 end.

Lemma norm_spec : fin norm norm_units.
Proof. vm_compute. by split. Qed.

(** Numbers between 2^-34 and 1 - 2^-34. *)
Definition inner (u : f64) : Prop := exists v, fin u v /\ 2 ^ 1040 <= v <= one - 2 ^ 1040.

Lemma norm_bounds : 2 ^ 600 <= norm_units < 2 ^ 1500 /\ 2 ^ 1040 * 2 ^ 52 <= norm_units * (2 ^ 52 - 1) /\
  MRG.m1 * norm_units * (2 ^ 52 + 1) <= (one - 2 ^ 1040) * 2 ^ 52 /\ 2 ^ 52 <= norm_units.
Proof. vm_compute. repeat split; discriminate. Qed.

Lemma scaled_inner k : 1 <= k <= MRG.m1 -> inner (mul (of_Z k) norm).
Proof.
  intros Hk. destruct norm_bounds as (Hn1 & Hn2 & Hn3 & Hn4). pose proof range_m1. pose proof F64Exact.one_pos.
  assert (F64Exact.normal norm_units) as Hnorm by (unfold F64Exact.normal; rewrite Z.abs_eq; lia).
  destruct (F64Exact.mul_spec (of_Z k) norm (k * one) norm_units) as (v & Hv & Hap);
    [apply int_of_Z; lia|apply norm_spec|apply F64Exact.int_normal; lia|done|].
  rewrite F64Exact.sign_one, !(proj2 (Z.ltb_ge _ 0)) in Hv by lia. cbn [xorb F64Exact.signed] in Hv.
  rewrite !Z.abs_eq in Hap by lia. exists v. split; [done|].
  replace (k * one * norm_units) with (k * norm_units * one) in Hap by ring.
  rewrite <- (Z.mul_1_l one) in Hap at 2. apply F64Exact.approx_scale in Hap; [|done].
  pose proof (F64Exact.approx_error _ _ _ Hap ltac:(lia) ltac:(nia)) as [He1 He2].
  set (n := norm_units) in *. clearbody n. split; nia.
Qed.

Lemma output_range s : MRG.reduced MRG.m1 s.(mrg1) -> MRG.reduced MRG.m2 s.(mrg2) -> 1 <= MRG.output s <= MRG.m1.
Proof.
  intros (_ & _ & H1) (_ & _ & H2). unfold MRG.output. assert (MRG.m2 < MRG.m1) by done.
  destruct (Z.ltb_spec s.(mrg2).(t2) s.(mrg1).(t2)); lia.
Qed.

(** The number that [U01] returns from state [s]. *)
Definition draw (anti : bool) (s : six Z) : f64 :=
  let u := mul (of_Z (MRG.output s)) norm in if anti then sub (of_Z 1) u else u.

Lemma U01_spec r s :
  holds r.(Cg_) s -> MRG.legal s ->
  exists x, U01 r = Ok (r <| Cg_ := x |>, draw r.(anti_) (MRG.step s)) /\ holds x (MRG.step s).
Proof.
  intros [(X0 & X1 & X2) (Y0 & Y1 & Y2)] Hs. pose proof (MRG.legal1 _ Hs) as (L0 & L1 & L2).
  pose proof (MRG.legal2 _ Hs) as (K0 & K1 & K2). pose proof range_m1. pose proof range_m2. unfold U01.
  destruct (combine_spec a12 a13n r.(Cg_).(mrg1).(t1) r.(Cg_).(mrg1).(t0) m1 1403580 810728 s.(mrg1).(t1) s.(mrg1).(t0) MRG.m1) as (p1 & -> & P1);
    [by apply int_of_Z|by apply int_of_Z|done|done|apply int_m1|lia..|]. cbn [res_bind].
  destruct (combine_spec a21 a23n r.(Cg_).(mrg2).(t2) r.(Cg_).(mrg2).(t0) m2 527612 1370589 s.(mrg2).(t2) s.(mrg2).(t0) MRG.m2) as (p2 & -> & P2);
    [by apply int_of_Z|by apply int_of_Z|done|done|apply int_m2|lia..|]. cbn [res_bind].
  exists (Six (shift r.(Cg_).(mrg1) p1) (shift r.(Cg_).(mrg2) p2)). split; [|by repeat split]. do 2 f_equal. cbn [anti_].
  unfold draw. replace (if gt p1 p2 then mul (sub p1 p2) norm else mul (add (sub p1 p2) m1) norm)
    with (mul (of_Z (MRG.output (MRG.step s))) norm); [done|].
  unfold gt. rewrite (int_lt _ _ _ _ P2 P1). unfold MRG.output, MRG.step. cbn [mrg1 mrg2].
  unfold MRG.step1, MRG.step2. cbn [t2].
  set (x := _ mod MRG.m1) in *. set (y := _ mod MRG.m2) in *.
  assert (0 <= x < MRG.m1) by (apply Z.mod_pos_bound; lia). assert (0 <= y < MRG.m2) by (apply Z.mod_pos_bound; lia).
  assert (MRG.m2 < MRG.m1) by done.
  assert (int (sub p1 p2) (x - y)) as Hd by (apply int_sub; [done|done|lia..]).
  destruct (Z.ltb_spec y x); f_equal.
  - apply (int_inj _ _ (x - y)); [apply int_of_Z; lia|done|lia].
  - apply (int_inj _ _ (x - y + MRG.m1)); [apply int_of_Z; lia| |lia]. apply int_add; [done|apply int_m1|lia..].
Qed.

Lemma inner_complement u : inner u -> inner (sub (of_Z 1) u).
Proof.
  intros (v & Hv & Hb). rewrite F64Exact.sub_add. pose proof F64Exact.one_pos.
  assert (2 ^ 1040 * 2 ^ 34 = one) as E34 by (by vm_compute).
  assert (2 ^ 600 <= 2 ^ 1040 /\ one < 2 ^ 1500) as [E1 E2] by (split; [by apply Z.leb_le|by apply Z.ltb_lt]).
  destruct (F64Exact.add_spec (of_Z 1) (F64.opp u) (1 * one) (- v)) as [_ Ha];
    [by apply int_of_Z|by apply F64Exact.fin_opp|unfold F64Exact.normal; lia..|].
  destruct Ha as (w & Hw & Hap); [lia|]. rewrite (proj2 (Z.ltb_ge _ 0)) in Hw by lia. rewrite Z.abs_eq in Hap by lia.
  exists w. split; [done|]. split.
  - apply (F64Exact.approx_ge _ _ _ _ Hap); lia.
  - apply (F64Exact.approx_le _ _ _ _ 1040 Hap); [lia|lia|lia|exists (2 ^ 34 - 1); lia|lia].
Qed.

Lemma draw_inner anti s : MRG.legal s -> inner (draw anti s).
Proof.
  intros Hs. unfold draw.
  assert (inner (mul (of_Z (MRG.output s)) norm)) by (apply scaled_inner, output_range; apply Hs).
  destruct anti; [by apply inner_complement|done].
Qed.

(** A number scaled to the range of an integer stays in it. *)
Lemma scaled_range n u :
  1 <= n <= 2 ^ 32 -> inner u -> exists k, F64.trunc (mul (of_Z n) u) = Some k /\ 0 <= k < n.
Proof.
  intros Hn (v & Hv & Hb). pose proof F64Exact.one_pos.
  assert (2 ^ 1040 * 2 ^ 34 = one) as E34 by (by vm_compute).
  assert (2 ^ 600 <= 2 ^ 1040 /\ one < 2 ^ 1500) as [E1 E2] by (split; [by apply Z.leb_le|by apply Z.ltb_lt]).
  assert (2 ^ 52 <= 2 ^ 1040) as E3 by (by apply Z.leb_le).
  destruct (F64Exact.mul_spec (of_Z n) u (n * one) v) as (w & Hw & Hap);
    [apply int_of_Z; lia|done|apply F64Exact.int_normal; lia|unfold F64Exact.normal; lia|].
  rewrite F64Exact.sign_one, !(proj2 (Z.ltb_ge _ 0)) in Hw by lia. cbn [xorb F64Exact.signed] in Hw.
  rewrite !Z.abs_eq in Hap by lia. replace (n * one * v) with (n * v * one) in Hap by ring.
  rewrite <- (Z.mul_1_l one) in Hap at 2. apply F64Exact.approx_scale in Hap; [|done].
  pose proof (F64Exact.approx_error _ _ _ Hap ltac:(lia) ltac:(nia)) as [He1 He2].
  rewrite (F64Exact.fin_trunc _ _ Hw).
  assert (0 <= w) by nia. assert (w < n * one).
  { set (q := 2 ^ 1040) in *. clearbody q. nia. }
  eexists. split; [done|]. rewrite Z.quot_div_nonneg by lia. split; [apply Z.div_pos; lia|].
  apply Z.div_lt_upper_bound; lia.
Qed.

Lemma signed64_id z : - 2 ^ 63 <= z < 2 ^ 63 -> signed64 (z mod 2 ^ 64) = z.
Proof.
  intros Hz. unfold signed64. rewrite Z.add_mod_idemp_l by lia. rewrite Z.mod_small by lia. lia.
Qed.

Lemma in_long_ok z : - 2 ^ 63 <= z < 2 ^ 63 -> in_long z = Ok z.
Proof. intros. unfold in_long. by rewrite (proj2 (Z.leb_le _ _)), (proj2 (Z.ltb_lt _ _)) by lia. Qed.

Lemma rand_int_spec r s low high :
  holds r.(Cg_) s -> MRG.legal s -> r.(inc_prec_) = false ->
  - 2 ^ 63 <= low <= high -> high < 2 ^ 63 -> high - low < 2 ^ 32 ->
  exists x k, rand_int r low high = Ok (r <| Cg_ := x |>, k) /\ holds x (MRG.step s) /\ low <= k <= high.
Proof.
  intros Hx Hs Hp Hl Hh Hd. unfold rand_int.
  rewrite (in_long_ok (high - low)) by lia. cbn [res_bind]. rewrite in_long_ok by lia. cbn [res_bind]. unfold rand_u01. rewrite Hp.
  destruct (U01_spec r s Hx Hs) as (x & -> & Hx'). cbn [res_bind].
  rewrite (Z.mod_small (high - low + 1)) by lia.
  assert (MRG.legal (MRG.step s)) as Hs'.
  { rewrite MRG.step_move by apply Hs. by apply MRG.legal_move. }
  destruct (scaled_range (high - low + 1) (draw r.(anti_) (MRG.step s))) as (k & Ek & Hk); [lia|by apply draw_inner|].
  unfold to_ulong. rewrite Ek. cbn [deref res_bind]. rewrite (proj2 (Z.leb_le _ _)), (proj2 (Z.ltb_lt _ _)) by lia. cbn [andb res_bind].
  eexists _, _. split; [done|]. split; [done|].
  replace (signed64 (low mod 2 ^ 64 + k)) with (low + k); [lia|].
  rewrite <- (signed64_id (low + k)) by lia. unfold signed64. rewrite !Z.add_mod_idemp_l by lia.
  replace (low mod 2 ^ 64 + k + 2 ^ 63) with (low mod 2 ^ 64 + (k + 2 ^ 63)) by lia.
  rewrite Z.add_mod_idemp_l by lia. do 2 f_equal. lia.
Qed.

(** ** Seeds *)

Lemma of_Z_large z : 2 ^ 53 <= z < 2 ^ 64 -> exists v, fin (of_Z z) v /\ 2 ^ 53 * one <= v.
Proof.
  intros Hz. destruct (F64Exact.binary_normalize_spec z 0 false) as [_ H]; [lia| |].
  { change (2 ^ (0 + 1074)) with one. apply Z.lt_le_trans with (2 ^ 64 * one); [|by apply Z.leb_le].
    apply Z.mul_lt_mono_pos_r; [done|lia]. }
  destruct H as (v & Hv & Hap); [lia|]. change (2 ^ (0 + 1074)) with one in Hap. rewrite (proj2 (Z.ltb_ge _ 0)) in Hv by lia.
  exists v. split; [done|]. change (2 ^ 53 * one) with (2 ^ (53 + 1074)). apply (F64Exact.approx_ge _ _ _ _ Hap); [lia|lia|].
  change (2 ^ (53 + 1074)) with (2 ^ 53 * one). rewrite Z.mul_1_r, Z.abs_eq by lia. apply Z.mul_le_mono_nonneg_r; [done|lia].
Qed.

Lemma ge_seed z x m : int x m -> 2 ^ 31 < m < 2 ^ 32 -> 0 <= z < 2 ^ 64 -> F64.ge (of_Z z) x = (m <=? z).
Proof.
  intros Hx Hm Hz. destruct (Z.lt_ge_cases z (2 ^ 53)) as [Hl|Hg].
  - assert (int (of_Z z) z) as Hi by (apply int_of_Z; lia).
    rewrite (ge_lt _ _ (int_not_nan _ _ Hi) (int_not_nan _ _ Hx)), (int_lt _ _ _ _ Hi Hx). lia.
  - destruct (of_Z_large z) as (v & Hv & Hb); [lia|]. pose proof F64Exact.one_pos.
    rewrite (ge_lt _ _ (F64Exact.fin_not_nan _ _ Hv) (int_not_nan _ _ Hx)), (F64Exact.fin_lt _ _ _ _ Hv Hx). nia.
Qed.

Definition ulong (z : Z) : Prop := 0 <= z < 2 ^ 64.
Definition ulongs (s : six Z) : Prop := vall ulong s.(mrg1) /\ vall ulong s.(mrg2).

Lemma CheckSeed_spec s : ulongs s -> CheckSeed s = true <-> MRG.legal s.
Proof.
  destruct s as [[a b c] [d e f]]. intros [(Ha & Hb & Hc) (Hd & He & Hf)]. unfold ulong in *. cbn in Ha, Hb, Hc, Hd, He, Hf.
  unfold CheckSeed. cbn [mrg1 mrg2 t0 t1 t2].
  rewrite !(ge_seed _ m1 MRG.m1 int_m1 range_m1), !(ge_seed _ m2 MRG.m2 int_m2 range_m2) by done.
  rewrite !andb_true_iff, !negb_true_iff, !andb_false_iff, !Z.leb_gt, !Z.eqb_neq. split.
  - intros [[[[[H1 H2] H3] [[H4 H5] H6]] H7] H8]. split; cbn; [unfold MRG.reduced; cbn; lia..| |];
      unfold MRG.zero3; intros [=]; lia.
  - intros [(H1 & H2 & H3) (H4 & H5 & H6) H7 H8]. unfold MRG.zero3 in *. cbn in *.
    assert (0 <> a \/ 0 <> b \/ 0 <> c).
    { destruct (Z.eq_dec a 0) as [->|]; [|lia]. destruct (Z.eq_dec b 0) as [->|]; [|lia]. destruct (Z.eq_dec c 0) as [->|]; [done|lia]. }
    assert (0 <> d \/ 0 <> e \/ 0 <> f).
    { destruct (Z.eq_dec d 0) as [->|]; [|lia]. destruct (Z.eq_dec e 0) as [->|]; [|lia]. destruct (Z.eq_dec f 0) as [->|]; [done|lia]. }
    repeat split; lia || tauto.
Qed.

Lemma legal_ulongs s : MRG.legal s -> ulongs s.
Proof.
  intros [(H1 & H2 & H3) (H4 & H5 & H6) _ _]. pose proof range_m1. pose proof range_m2.
  unfold ulongs, vall, ulong. lia.
Qed.

Lemma holds_of_Z s : MRG.legal s -> holds (six_map of_Z s) s.
Proof.
  intros [(H1 & H2 & H3) (H4 & H5 & H6) _ _]. pose proof range_m1. pose proof range_m2.
  repeat split; apply int_of_Z; lia.
Qed.

Lemma get_state_spec r s : holds r.(Cg_) s -> MRG.legal s -> get_state r = Ok s.
Proof.
  intros [(X0 & X1 & X2) (Y0 & Y1 & Y2)] [(H1 & H2 & H3) (H4 & H5 & H6) _ _]. pose proof range_m1. pose proof range_m2.
  assert (forall x z, int x z -> 0 <= z < 2 ^ 32 -> to_ulong x = Ok z) as Hu.
  { intros x z Hx Hz. unfold to_ulong. rewrite (F64Exact.int_trunc _ _ Hx). cbn [deref res_bind].
    by rewrite (proj2 (Z.leb_le _ _)), (proj2 (Z.ltb_lt _ _)) by lia. }
  unfold get_state, tri_mapM.
  rewrite (Hu _ _ X0), (Hu _ _ X1), (Hu _ _ X2), (Hu _ _ Y0), (Hu _ _ Y1), (Hu _ _ Y2) by lia.
  by destruct s as [[] []].
Qed.

Lemma predef_seed i :
  0 <= i < 64 -> predef_seeds !! Z.to_nat i = Some (nth (Z.to_nat i) predef_seeds 0) /\
    0 < nth (Z.to_nat i) predef_seeds 0 < 2 ^ 31.
Proof.
  intros Hi. assert (Forall (fun z => 0 < z < 2 ^ 31) predef_seeds) as Hall by (unfold predef_seeds; repeat constructor).
  destruct (lookup_lt_is_Some_2 predef_seeds (Z.to_nat i)) as [z Hz]; [cbn; lia|].
  rewrite nth_lookup, Hz. split; [done|]. exact (Forall_lookup_1 _ _ _ _ Hall Hz).
Qed.

(** ** Running a generator *)

Inductive op :=
  | Draw | NextSubstream | StartSubstream | StartStream
  | Advance (e c : Z) | SetSeed (seed : six Z) | Antithetic (a : bool) | Precision (incp : bool).

Definition exec (r : t) (o : op) : res t :=
  match o with
  | Draw => let! (r, _) := rand_u01 r in Ok r
  | NextSubstream => reset_next_substream r
  | StartSubstream => Ok (reset_start_substream r)
  | StartStream => Ok (reset_start_stream r)
  | Advance e c => advance_state r e c
  | SetSeed s => set_seed_six r s
  | Antithetic a => Ok (set_antithetic r a)
  | Precision b => Ok (increased_precis r b)
  end.

Fixpoint exec_all (r : t) (l : list op) : res t :=
  match l with [] => Ok r | o :: l => let! r := exec r o in exec_all r l end.

(** Arguments in range: jumps of less than 2^(2^31) steps, legal seeds. *)
Definition lawful (o : op) : Prop :=
  match o with
  | Advance e c => - 2 ^ 31 < e < 2 ^ 31 /\ - 2 ^ 63 < c < 2 ^ 63
  | SetSeed s => MRG.legal s
  | _ => True
  end.

Definition statics_ok (g : statics) : Prop := exists s, holds g.(next_seed_) s /\ MRG.legal s.

Lemma legal_step s : MRG.legal s -> MRG.legal (MRG.step s).
Proof. intros Hs. rewrite MRG.step_move by apply Hs. by apply MRG.legal_move. Qed.

Lemma U01_well_formed r : well_formed r -> exists r' u, U01 r = Ok (r', u) /\ well_formed r'.
Proof.
  intros [(s & Hs & Hl) HB HI]. destruct (U01_spec r s Hs Hl) as (x & -> & Hx).
  eexists _, _. split; [done|]. split; [|done..]. exists (MRG.step s). split; [done|by apply legal_step].
Qed.

Lemma exec_well_formed r o : well_formed r -> lawful o -> exists r', exec r o = Ok r' /\ well_formed r'.
Proof.
  intros Hw Ho. pose proof Hw as [(s & Hs & Hl) (b & Hb & Hbl) (i & Hi & Hil)].
  destruct o as [| | | |e c|sd|a|incp]; cbn [exec].
  - unfold rand_u01, U01d. destruct r.(inc_prec_).
    + destruct (U01_well_formed r Hw) as (r1 & u1 & -> & Hw1). cbn [res_bind].
      destruct (U01_well_formed r1 Hw1) as (r2 & u2 & -> & Hw2). cbn [res_bind].
      destruct r2.(anti_); cbn [res_bind]; by eauto.
    + destruct (U01_well_formed r Hw) as (r1 & u1 & -> & Hw1). cbn [res_bind]. by eauto.
  - unfold reset_next_substream. destruct (next_substream_spec _ b Hb Hbl) as (y & -> & Hy). cbn [res_bind].
    pose proof (MRG.legal_move (2 ^ 76) b Hbl) as Hy'. eexists. split; [reflexivity|].
    split; [exact (ex_intro _ _ (conj Hy Hy'))|exact (ex_intro _ _ (conj Hy Hy'))|by exists i].
  - eexists. split; [done|]. split; cbn; by eauto.
  - eexists. split; [done|]. split; cbn; by eauto.
  - destruct Ho as [He Hc]. destruct (advance_spec r s e c Hs Hl He Hc) as (x & -> & Hx).
    pose proof (MRG.legal_move (jump e c) s Hl) as Hl'. eexists. split; [reflexivity|].
    split; [exact (ex_intro _ _ (conj Hx Hl'))|by exists b|by exists i].
  - unfold set_seed_six. rewrite (proj2 (CheckSeed_spec sd (legal_ulongs _ Ho)) Ho).
    pose proof (holds_of_Z _ Ho). eexists. split; [done|]. split; cbn; by eauto.
  - eexists. split; [done|]. split; cbn; by eauto.
  - eexists. split; [done|]. split; cbn; by eauto.
Qed.

Lemma init_spec g r s :
  holds g.(next_seed_) s -> MRG.legal s ->
  exists g' r', init g r = Ok (g', r') /\ holds g'.(next_seed_) (MRG.move (2 ^ 127) s) /\
    r'.(Cg_) = g.(next_seed_) /\ r'.(Bg_) = g.(next_seed_) /\ r'.(Ig_) = g.(next_seed_) /\ r'.(inc_prec_) = false.
Proof.
  intros Hs Hl. unfold init. destruct (next_stream_spec _ s Hs Hl) as (y & -> & Hy). cbn [res_bind].
  eexists _, _. split; [reflexivity|]. split; [exact Hy|]. by repeat split.
Qed.

Lemma legal_all_equal z : 0 < z < MRG.m2 -> MRG.legal (all_equal z).
Proof.
  intros Hz. assert (MRG.m2 < MRG.m1) by done.
  split; cbn; [unfold MRG.reduced; cbn; lia..| |]; unfold MRG.zero3; intros [=]; lia.
Qed.

Lemma set_seed_long_spec clock fuel g r z :
  0 < z < 2 ^ 31 ->
  exists g' r', set_seed_long clock fuel g r z = Ok (g', r') /\
    holds r'.(Cg_) (all_equal z) /\ holds g'.(next_seed_) (MRG.move (2 ^ 127) (all_equal z)).
Proof.
  intros Hz. assert (2 ^ 31 < MRG.m2) by done. pose proof (legal_all_equal z ltac:(lia)) as Hl.
  assert (ulongs (all_equal z)) as Hu by (unfold ulongs, vall, ulong; cbn; lia).
  assert (set_seed_long clock fuel g r z = let! g := set_package_seed g (all_equal z) in init g r) as ->.
  { destruct fuel; cbn [set_seed_long]; by rewrite (proj2 (Z.eqb_neq z 0)), Z.mod_small by lia. }
  unfold set_package_seed. rewrite (proj2 (CheckSeed_spec _ Hu) Hl). cbn [res_bind].
  destruct (init_spec (g <| next_seed_ := six_map of_Z (all_equal z) |>) r (all_equal z)) as (g' & r' & -> & Hn & HC & _);
    [by apply holds_of_Z|done|].
  eexists _, _. split; [done|]. rewrite HC. split; [by apply holds_of_Z|exact Hn].
Qed.
End RngFacts.

Module RngProps.
Import RNG RngFacts.
Import F64Exact(int_of_Z).

(** C10: The floating-point code of [U01] is the integer generator MRG32k3a:
    from doubles that hold a legal state it computes, without any rounding,
    the doubles that hold the next state, and returns the difference of the
    two components modulo [m1] scaled by [norm] (or its complement to 1), a
    number strictly between 0 and 1. *)
Theorem u01_exact r s :
  holds r.(Cg_) s -> MRG.legal s ->
  exists x, U01 r = Ok (r <| Cg_ := x |>, draw r.(anti_) (MRG.step s)) /\
    holds x (MRG.step s) /\ MRG.legal (MRG.step s) /\
    F64.lt F64.zero (draw r.(anti_) (MRG.step s)) = true /\
    F64.lt (draw r.(anti_) (MRG.step s)) (F64.of_Z 1) = true.
Proof.
  intros Hx Hs. destruct (U01_spec r s Hx Hs) as (x & E & Hx'). pose proof (legal_step s Hs) as Hl.
  exists x. do 3 (split; [done|]). destruct (draw_inner r.(anti_) _ Hl) as (v & Hv & Hb).
  assert (0 < 2 ^ 1040) by done. split.
  - rewrite (F64Exact.fin_lt _ _ 0 _ (eq_refl : F64Exact.fin F64.zero 0) Hv). lia.
  - rewrite (F64Exact.fin_lt _ _ _ (1 * F64Exact.one) Hv); [lia|]. by apply int_of_Z.
Qed.

(** C33: [rand_int (low, high)] returns an integer of the interval, for every
    interval of at most 2^32 numbers, negative ones included: the product of
    the width and the draw is never rounded up to the width. *)
Theorem rand_int_in_range r s low high :
  holds r.(Cg_) s -> MRG.legal s -> r.(inc_prec_) = false ->
  - 2 ^ 63 <= low <= high -> high < 2 ^ 63 -> high - low < 2 ^ 32 ->
  exists r' k, rand_int r low high = Ok (r', k) /\ low <= k <= high /\ holds r'.(Cg_) (MRG.step s).
Proof.
  intros Hx Hs Hp Hl Hh Hd. destruct (rand_int_spec r s low high Hx Hs Hp Hl Hh Hd) as (x & k & E & Hx' & Hk).
  by exists (r <| Cg_ := x |>), k.
Qed.

(** C19: Streams and substreams do not overlap by accident: the stream of a
    generator starts exactly 2^127 steps of the generator after that of the
    generator created before it, and [reset_next_substream] moves to the state
    exactly 2^76 steps after the start of the current substream. *)
Theorem streams_apart g s :
  holds g.(next_seed_) s -> MRG.legal s ->
  exists g1 r1 g2 r2, RNG g = Ok (g1, r1) /\ RNG g1 = Ok (g2, r2) /\
    holds r1.(Cg_) s /\ holds r2.(Cg_) (N.iter (2 ^ 127) MRG.step s) /\
    exists r1', reset_next_substream r1 = Ok r1' /\
      holds r1'.(Cg_) (N.iter (2 ^ 76) MRG.step s) /\ holds r1'.(Bg_) (N.iter (2 ^ 76) MRG.step s).
Proof.
  intros Hx Hs. unfold RNG.
  destruct (init_spec g blank s Hx Hs) as (g1 & r1 & -> & Hn1 & HC1 & HB1 & _).
  pose proof (MRG.legal_move (2 ^ 127) s Hs) as Hs1.
  destruct (init_spec g1 blank _ Hn1 Hs1) as (g2 & r2 & E2 & Hn2 & HC2 & _).
  exists g1, r1, g2, r2. split; [reflexivity|]. split; [exact E2|]. rewrite HC1, HC2.
  rewrite !MRG.iter_step_move by apply Hs. split; [exact Hx|]. split; [exact Hn1|].
  unfold reset_next_substream. rewrite HB1. destruct (next_substream_spec _ s Hx Hs) as (y & -> & Hy).
  exists (r1 <| Bg_ := y |> <| Cg_ := y |>). split; [reflexivity|]. split; exact Hy.
Qed.

(** C20: Every jump can be undone, and jumps are what they say: after
    [advance_state (e, c)] the state is [2^e + c] steps ahead (or
    [c - 2^-e], for negative [e]) and [advance_state (-e, -c)] brings back the
    very state there was before. *)
Theorem advance_roundtrip r s e c :
  holds r.(Cg_) s -> MRG.legal s ->
  - 2 ^ 31 < e < 2 ^ 31 -> - 2 ^ 63 < c < 2 ^ 63 ->
  exists r1 r2, advance_state r e c = Ok r1 /\ advance_state r1 (- e) (- c) = Ok r2 /\
    get_state r1 = Ok (MRG.move (RngExact.jump e c) s) /\ get_state r = Ok s /\ get_state r2 = Ok s.
Proof.
  intros Hx Hs He Hc. destruct (advance_spec r s e c Hx Hs He Hc) as (x & E1 & Hx1).
  pose proof (MRG.legal_move (RngExact.jump e c) s Hs) as Hs1.
  set (r1 := r <| Cg_ := x |>) in *. change x with r1.(Cg_) in Hx1.
  destruct (advance_spec r1 (MRG.move (RngExact.jump e c) s) (- e) (- c) Hx1 Hs1 ltac:(lia) ltac:(lia)) as (y & E2 & Hy).
  rewrite MRG.move_add, RngExact.jump_opp, MRG.move_0 in Hy by apply Hs.
  exists r1, (r1 <| Cg_ := y |>).
  split; [exact E1|]. split; [exact E2|]. do 2 (split; [by apply get_state_spec|]). by apply get_state_spec.
Qed.

(** C28: A generator always is in a legal state: from the moment it is created
    (the package seed being legal), through any sequence of draws, jumps,
    resets and changes of seed and options, no operation fails, and current
    state, start of substream and start of stream each hold six integers
    below their moduli, not all three of a component zero; the seed for the
    next stream stays legal too. *)
Theorem generator_well_formed g l :
  statics_ok g -> Forall lawful l ->
  exists g' r r', RNG g = Ok (g', r) /\ statics_ok g' /\ exec_all r l = Ok r' /\ well_formed r'.
Proof.
  intros (s & Hx & Hs) Hl. destruct (init_spec g blank s Hx Hs) as (g' & r & E & Hn & HC & HB & HI & _).
  assert (exists r', exec_all r l = Ok r' /\ well_formed r') as (r' & El & Hw).
  { assert (well_formed r) as Hw by (split; exists s; rewrite ?HC, ?HB, ?HI; done). clear -Hl Hw.
    revert r Hw. induction Hl as [|o l Ho _ IH]; intros r Hw; [by exists r|]. cbn [exec_all].
    destruct (exec_well_formed r o Hw Ho) as (r1 & -> & Hw1). by apply IH. }
  exists g', r, r'. split; [exact E|]. split; [|done]. eexists. split; [exact Hn|]. by apply MRG.legal_move.
Qed.

(** Seeding: the raw source takes exactly the seeds from 1 to
    [MAXINT - 1] and the predefined one the indices 0 to 63, and aborts
    otherwise; a seed that is taken becomes all six numbers of the state, and
    the next stream will start 2^127 steps on.  [set_seed] with six numbers
    takes exactly the legal states, which [get_state] gives back. *)
Theorem seeding_exact clock fuel g r source seed six_seeds :
  source <> HEURISTIC_SEED_SOURCE -> ulongs six_seeds ->
  let ok := match source with RAW_SEED_SOURCE => 0 < seed < MAXINT | _ => 0 <= seed < N_SEEDS_ end in
  (ok -> exists g' r' z, set_seed clock fuel g r source seed = Ok (g', r') /\
     z = (if source is RAW_SEED_SOURCE then seed else nth (Z.to_nat seed) predef_seeds 0) /\
     holds r'.(Cg_) (all_equal z) /\ holds g'.(next_seed_) (MRG.move (2 ^ 127) (all_equal z))) /\
  (~ ok -> set_seed clock fuel g r source seed = Err Abort) /\
  (MRG.legal six_seeds -> exists r', set_seed_six r six_seeds = Ok r' /\ get_state r' = Ok six_seeds) /\
  (~ MRG.legal six_seeds -> set_seed_six r six_seeds = Err Abort).
Proof.
  intros Hsrc Hu ok. split; [|split; [|split]].
  - intros Hok. destruct source; [| |done]; unfold ok, MAXINT, N_SEEDS_ in Hok; unfold set_seed, MAXINT, N_SEEDS_.
    + rewrite (proj2 (Z.leb_gt _ _)), (proj2 (Z.leb_gt _ _)) by lia. cbn [orb].
      destruct (set_seed_long_spec clock fuel g r seed) as (g' & r' & E & H1 & H2); [lia|].
      exact (ex_intro _ g' (ex_intro _ r' (ex_intro _ seed (conj E (conj eq_refl (conj H1 H2)))))).
    + rewrite (proj2 (Z.ltb_ge _ _)), (proj2 (Z.leb_gt _ _)) by lia. cbn [orb].
      destruct (predef_seed seed Hok) as [-> Hr]. cbn [deref res_bind].
      destruct (set_seed_long_spec clock fuel g r _ Hr) as (g' & r' & E & H1 & H2).
      exact (ex_intro _ g' (ex_intro _ r' (ex_intro _ _ (conj E (conj eq_refl (conj H1 H2)))))).
  - intros Hok. destruct source; [| |done]; unfold ok, MAXINT, N_SEEDS_ in Hok; unfold set_seed, MAXINT, N_SEEDS_.
    + by destruct (Z.leb_spec seed 0), (Z.leb_spec 2147483647 seed); cbn [orb]; [..|lia].
    + by destruct (Z.ltb_spec seed 0), (Z.leb_spec 64 seed); cbn [orb]; [..|lia].
  - intros Hl. unfold set_seed_six. rewrite (proj2 (CheckSeed_spec _ Hu) Hl). eexists. split; [reflexivity|].
    apply get_state_spec; [|done]. by apply holds_of_Z.
  - intros Hl. unfold set_seed_six. destruct (CheckSeed six_seeds) eqn:E; [|done]. by apply CheckSeed_spec in E.
Qed.
End RngProps.

Module RngWitness.
Import RNG RngFacts RngProps.

(** The first generator of a simulation. *)
Definition first : t :=
  let s := all_equal (F64.of_Z 12345) in {| Cg_ := s; Bg_ := s; Ig_ := s; anti_ := false; inc_prec_ := false |}.

Lemma first_legal : MRG.legal (all_equal 12345).
Proof. by apply legal_all_equal. Qed.

Lemma first_holds : holds first.(Cg_) (all_equal 12345).
Proof. apply (holds_of_Z (all_equal 12345)), first_legal. Qed.

(** Its first draw is 0.12701112204657714, to the last bit. *)
Lemma u01_exact_witness :
  exists x, U01 first = Ok (first <| Cg_ := x |>, draw false (MRG.step (all_equal 12345))) /\
    draw false (MRG.step (all_equal 12345)) = S754_finite false 4576057935366987 (-55) /\
    F64.lt F64.zero (draw false (MRG.step (all_equal 12345))) = true.
Proof.
  destruct (u01_exact first (all_equal 12345) first_holds first_legal) as (x & E & _ & _ & H & _).
  exists x. split; [exact E|]. split; [vm_compute; reflexivity|exact H].
Defined.

Lemma rand_int_in_range_witness :
  exists r' k, rand_int first (-5) 5 = Ok (r', k) /\ -5 <= k <= 5 /\ holds r'.(Cg_) (MRG.step (all_equal 12345)).
Proof.
  refine (rand_int_in_range first (all_equal 12345) (-5) 5 first_holds first_legal _ _ _ _);
    [reflexivity|split; vm_compute; discriminate|reflexivity|reflexivity].
Defined.

Lemma default_holds : holds default_statics.(next_seed_) (all_equal 12345).
Proof. apply (holds_of_Z (all_equal 12345)), first_legal. Qed.

Lemma streams_apart_witness :
  exists g1 r1 g2 r2, RNG default_statics = Ok (g1, r1) /\ RNG g1 = Ok (g2, r2) /\
    holds r1.(Cg_) (all_equal 12345) /\ holds r2.(Cg_) (N.iter (2 ^ 127) MRG.step (all_equal 12345)) /\
    exists r1', reset_next_substream r1 = Ok r1' /\
      holds r1'.(Cg_) (N.iter (2 ^ 76) MRG.step (all_equal 12345)) /\
      holds r1'.(Bg_) (N.iter (2 ^ 76) MRG.step (all_equal 12345)).
Proof. exact (streams_apart default_statics (all_equal 12345) default_holds first_legal). Defined.

Lemma advance_roundtrip_witness :
  exists r1 r2, advance_state first 7 (-3) = Ok r1 /\ advance_state r1 (-7) 3 = Ok r2 /\
    get_state r1 = Ok (MRG.move 125 (all_equal 12345)) /\
    get_state first = Ok (all_equal 12345) /\ get_state r2 = Ok (all_equal 12345).
Proof.
  refine (advance_roundtrip first (all_equal 12345) 7 (-3) first_holds first_legal _ _); split; reflexivity.
Defined.

Definition operations : list op :=
  [Draw; Antithetic true; Draw; NextSubstream; Precision true; Draw; Advance (-4) 10; SetSeed (all_equal 99);
   StartStream; Draw].

Lemma operations_lawful : Forall lawful operations.
Proof. repeat constructor; try done; apply legal_all_equal; done. Qed.

Lemma default_ok : statics_ok default_statics.
Proof. exists (all_equal 12345). split; [apply default_holds|apply first_legal]. Qed.

Lemma generator_well_formed_witness :
  exists g' r r', RNG default_statics = Ok (g', r) /\ statics_ok g' /\ exec_all r operations = Ok r' /\ well_formed r'.
Proof. exact (generator_well_formed default_statics operations default_ok operations_lawful). Defined.

Lemma seeds_ulongs : ulongs (all_equal 99).
Proof. unfold ulongs, RngExact.vall, ulong. cbn. lia. Qed.

(** A good and a bad seed. *)
Lemma seeding_exact_witness :
  (exists g' r' z, set_seed (fun _ => (0, 0)) 0 default_statics first PREDEF_SEED_SOURCE 3 = Ok (g', r') /\ z = 694388766 /\
     holds r'.(Cg_) (all_equal z) /\ holds g'.(next_seed_) (MRG.move (2 ^ 127) (all_equal z))) /\
  set_seed (fun _ => (0, 0)) 0 default_statics first RAW_SEED_SOURCE 0 = Err Abort.
Proof.
  split.
  - refine (proj1 (seeding_exact (fun _ => (0, 0)) 0 default_statics first PREDEF_SEED_SOURCE 3 (all_equal 99) _ seeds_ulongs) _);
      [discriminate|split; vm_compute; [discriminate|reflexivity]].
  - refine (proj1 (proj2 (seeding_exact (fun _ => (0, 0)) 0 default_statics first RAW_SEED_SOURCE 0 (all_equal 99) _ seeds_ulongs)) _);
      [discriminate|intros [H _]; vm_compute in H; discriminate].
Defined.
End RngWitness.
