(* ===== verification/RanVar.v ===== *)
(** * Random variables

    The distributions of src/ns2/tools/ranvar.h, ranvar.cc that the simulation
    scripts draw flow sizes and times from: the variables that are one call of
    the generator, and [EmpiricalRandomVariable], the inverse of a tabulated
    distribution function, found by binary search.

    The file a table is loaded from is given as the list of its parsed
    lines. *)

From Stdlib Require Import ZArith Lia Bool SpecFloat Sorted.
From stdpp Require Import base list.
From S2P Require Import Prelude F64 F64Exact Rng RngSpec RngExact RngProps.

(** The least integer not below a double. *)
Definition ceil (x : f64) : f64 :=
  match x with
  | S754_finite s m e =>
      if 0 <=? e then x
      else let d := 2 ^ (- e) in
           let z := if s then - (Z.pos m / d) else - (- Z.pos m / d) in
           if z =? 0 then S754_zero s else F64.of_Z z
  | _ => x
  end.

Module RanVar.
Import F64(add, sub, mul, div, lt, le, gt, of_Z, zero).

Section Simple.
Context `{Libm}.

Record UniformRandomVariable := { min_ : f64; max_ : f64 }.
Definition uniform_value (v : UniformRandomVariable) (r : RNG.t) : res (RNG.t * f64) :=
  RNG.uniform r v.(min_) v.(max_).

Definition exponential_value (avg_ : f64) (r : RNG.t) : res (RNG.t * f64) := RNG.exponential r avg_.

Fixpoint erlang_loop (k : nat) (lambda_ result : f64) (r : RNG.t) : res (RNG.t * f64) :=
  match k with
  | O => Ok (r, result)
  | S k => let! (r, x) := RNG.exponential r lambda_ in erlang_loop k lambda_ (add result x) r
  end.

Definition erlang_value (lambda_ : f64) (k_ : Z) (r : RNG.t) : res (RNG.t * f64) :=
  erlang_loop (Z.to_nat k_) lambda_ zero r.

Definition pareto_value (avg_ shape_ : f64) (r : RNG.t) : res (RNG.t * f64) :=
  RNG.pareto r (div (mul avg_ (sub shape_ (of_Z 1))) shape_) shape_.

Definition paretoII_value (avg_ shape_ : f64) (r : RNG.t) : res (RNG.t * f64) :=
  RNG.paretoII r (mul avg_ (sub shape_ (of_Z 1))) shape_.

Definition normal_value (fuel : nat) (g : RNG.statics) (avg_ std_ : f64) (r : RNG.t) : res (RNG.statics * RNG.t * f64) :=
  RNG.normal fuel g r avg_ std_.

Definition lognormal_value (fuel : nat) (g : RNG.statics) (avg_ std_ : f64) (r : RNG.t) : res (RNG.statics * RNG.t * f64) :=
  RNG.lognormal fuel g r avg_ std_.

Definition weibull_value (scale_ shape_ : f64) (r : RNG.t) : res (RNG.t * f64) := RNG.rweibull r scale_ shape_.

Definition constant_value (val_ : f64) : f64 := val_.

(** A Gamma variable, by rejection: [gamma_candidate] repeats until [v] is
    positive, [gamma_loop] until a candidate is accepted. *)
Fixpoint gamma_candidate (fuel : nat) (g : RNG.statics) (c : f64) (r : RNG.t) : res (RNG.statics * RNG.t * f64 * f64) :=
  match fuel with
  | O => Err Fuel
  | S n =>
      let! (g, r, x) := RNG.normal fuel g r zero (of_Z 1) in
      let v := add (of_Z 1) (mul c x) in
      if le v zero then gamma_candidate n g c r else Ok (g, r, x, v)
  end.

Fixpoint gamma_loop (fuel : nat) (g : RNG.statics) (d c : f64) (r : RNG.t) : res (RNG.statics * RNG.t * f64) :=
  match fuel with
  | O => Err Fuel
  | S n =>
      let! (g, r, x, v) := gamma_candidate fuel g c r in
      let v := mul (mul v v) v in
      let! (r, u) := RNG.uniform_up_to r (of_Z 1) in
      if lt u (sub (of_Z 1) (mul (mul (mul (mul (F64.ratio 331 10000) x) x) x) x)) then Ok (g, r, v)
      else if lt (log u) (add (mul (mul (F64.ratio 1 2) x) x) (mul d (add (sub (of_Z 1) v) (log v)))) then Ok (g, r, v)
      else gamma_loop n g d c r
  end.

Definition gamma_from (fuel : nat) (g : RNG.statics) (alpha_ beta_ : f64) (r : RNG.t) : res (RNG.statics * RNG.t * f64) :=
  let third := div (of_Z 1) (of_Z 3) in
  let d := sub alpha_ third in
  let c := div third (SFsqrt F64.prec F64.emax d) in
  let! (g, r, v) := gamma_loop fuel g d c r in
  Ok (g, r, mul (mul beta_ d) v).

(** Below 1 the variable of parameter [1 + alpha_] is scaled down: built on
    the spot, it draws from the default generator [r0], which is the same
    object as [rng_] unless the script has set another. *)
Definition gamma_value (fuel : nat) (g : RNG.statics) (alpha_ beta_ : f64) (r r0 : RNG.t) (same : bool) :
    res (RNG.statics * RNG.t * RNG.t * f64) :=
  if lt alpha_ (of_Z 1) then
    let! (r, u) := RNG.uniform_up_to r (of_Z 1) in
    let! (g, r0, x) := gamma_from fuel g (add (of_Z 1) alpha_) beta_ (if same then r else r0) in
    Ok (g, if same then r0 else r, r0, mul x (pow u (div (of_Z 1) alpha_)))
  else let! (g, r, x) := gamma_from fuel g alpha_ beta_ r in Ok (g, r, if same then r else r0, x).

(** The numbers of a hyperexponential variable come from the default
    generator. *)
Definition hyperexponential_value (alpha_ avg_ cov_ : f64) (r : RNG.t) : res (RNG.t * f64) :=
  let! (r, u) := RNG.uniform_double r in
  let temp := SFsqrt F64.prec F64.emax
    (div (sub (mul cov_ cov_) (of_Z 1)) (mul (mul (of_Z 2) alpha_) (sub (of_Z 1) alpha_))) in
  if lt u alpha_ then RNG.exponential r (sub avg_ (mul (mul temp (sub (of_Z 1) alpha_)) avg_))
  else RNG.exponential r (add avg_ (mul (mul temp alpha_) avg_)).
End Simple.

(** ** The empirical variable *)

Record CDFentry := { cdf_ : f64; val_ : f64 }.

Definition INTER_DISCRETE : Z := 0.
Definition INTER_CONTINUOUS : Z := 1.
Definition INTER_INTEGRAL : Z := 2.

Record EmpiricalRandomVariable := {
  minCDF_ : f64;
  maxCDF_ : f64;
  interpolation_ : Z;
  numEntry_ : Z;
  maxEntry_ : Z;
  table_ : list CDFentry      (* the cells written so far *)
}.

#[export] Instance eta_empirical : Eta EmpiricalRandomVariable := fun v =>
  Build_EmpiricalRandomVariable v.(minCDF_) v.(maxCDF_) v.(interpolation_) v.(numEntry_) v.(maxEntry_) v.(table_).

(** A line of the file goes to the next cell; a full table is doubled first. *)
Definition load_line (v : EmpiricalRandomVariable) (e : CDFentry) : res EmpiricalRandomVariable :=
  let! max := if v.(maxEntry_) <=? v.(numEntry_) then imul v.(maxEntry_) 2 else Ok v.(maxEntry_) in
  if max <=? v.(numEntry_) then Err UB else
  let i := Z.to_nat v.(numEntry_) in
  let table := take i v.(table_) ++ e :: drop (S i) v.(table_) in
  Ok (v <| maxEntry_ := max |> <| table_ := table |> <| numEntry_ := v.(numEntry_) + 1 |>).

Fixpoint load_lines (v : EmpiricalRandomVariable) (lines : list CDFentry) : res EmpiricalRandomVariable :=
  match lines with [] => Ok v | e :: lines => let! v := load_line v e in load_lines v lines end.

Definition loadCDF (v : EmpiricalRandomVariable) (lines : list CDFentry) : res EmpiricalRandomVariable :=
  load_lines (v <| numEntry_ := 0 |>) lines.

Definition entry (v : EmpiricalRandomVariable) (i : Z) : res CDFentry :=
  if i <? 0 then Err UB else deref (v.(table_) !! Z.to_nat i).

Fixpoint lookup_loop (fuel : nat) (v : EmpiricalRandomVariable) (u : f64) (lo hi : Z) : res Z :=
  if lo <? hi then
    match fuel with
    | O => Err Fuel
    | S fuel =>
        let! sum := iadd lo hi in
        let mid := Z.quot sum 2 in
        let! e := entry v mid in
        if gt u e.(cdf_) then lookup_loop fuel v u (mid + 1) hi else lookup_loop fuel v u lo mid
    end
  else Ok lo.

Definition lookup (v : EmpiricalRandomVariable) (u : f64) : res Z :=
  let! e := entry v 0 in
  if le u e.(cdf_) then Ok 0 else lookup_loop (Z.to_nat v.(numEntry_)) v u 1 (v.(numEntry_) - 1).

Definition interpolate (v : EmpiricalRandomVariable) (x x1 y1 x2 y2 : f64) : f64 :=
  let value := add y1 (div (mul (sub x x1) (sub y2 y1)) (sub x2 x1)) in
  if v.(interpolation_) =? INTER_INTEGRAL then ceil value else value.

Definition value (v : EmpiricalRandomVariable) (r : RNG.t) : res (RNG.t * f64) :=
  if v.(numEntry_) <=? 0 then Ok (r, zero)
  else
    let! (r, u) := RNG.uniform r v.(minCDF_) v.(maxCDF_) in
    let! mid := lookup v u in
    let! e := entry v mid in
    if negb (mid =? 0) && negb (v.(interpolation_) =? 0) && lt u e.(cdf_) then
      let! p := entry v (mid - 1) in
      Ok (r, interpolate v u p.(cdf_) p.(val_) e.(cdf_) e.(val_))
    else Ok (r, e.(val_)).
End RanVar.

Module RanVarFacts.
Import RanVar.

(** The table as a distribution function: no cell is NaN, cells in order. *)
Definition cdf_table (l : list CDFentry) : Prop :=
  StronglySorted (fun a b => F64.le a.(cdf_) b.(cdf_) = true) l /\ Forall (fun e => F64.is_nan e.(cdf_) = false) l.

(** The first index whose cell reaches [u]. *)
Definition inverse (l : list CDFentry) (u : f64) (i : Z) (e : CDFentry) : Prop :=
  l !! Z.to_nat i = Some e /\ 0 <= i /\ F64.le u e.(cdf_) = true /\ forall j e', 0 <= j < i -> l !! Z.to_nat j = Some e' -> F64.lt e'.(cdf_) u = true.

Record loaded (v : EmpiricalRandomVariable) : Prop := {
  loaded_count : numEntry_ v = Z.of_nat (length (table_ v));
  loaded_small : numEntry_ v < 2 ^ 29;
  loaded_table : cdf_table (table_ v)
}.

Lemma entry_some v i e : 0 <= i -> table_ v !! Z.to_nat i = Some e -> entry v i = Ok e.
Proof. intros Hi He. unfold entry. rewrite (proj2 (Z.ltb_ge i 0)) by done. by rewrite He. Qed.

Lemma sorted_lookup l i j a b :
  cdf_table l -> (i < j)%nat -> l !! i = Some a -> l !! j = Some b -> F64.le a.(cdf_) b.(cdf_) = true.
Proof.
  intros [Hs _]. revert i j. induction Hs as [|x l Hs IH Hx]; intros i j Hij; [done|].
  destruct j as [|j]; [lia|]. destruct i as [|i]; cbn.
  - intros [= ->] Hb. exact (Forall_lookup_1 _ _ _ _ Hx Hb).
  - intros Ha Hb. by apply (IH i j); [lia|..].
Qed.

(** The binary search, between a cell that is too small and one that is large
    enough. *)
Lemma binary_search_spec fuel v u lo hi e :
  loaded v -> F64.is_nan u = false -> 0 < lo <= hi -> hi < 2 ^ 29 -> hi - lo < Z.of_nat fuel ->
  table_ v !! Z.to_nat hi = Some e -> F64.le u e.(cdf_) = true ->
  (forall j e', 0 <= j < lo -> table_ v !! Z.to_nat j = Some e' -> F64.lt e'.(cdf_) u = true) ->
  exists i e', lookup_loop fuel v u lo hi = Ok i /\ inverse (table_ v) u i e'.
Proof.
  intros [Hc Hsm Ht] Hu. revert lo hi e. induction fuel as [|fuel IH]; intros lo hi e Hl H29 Hf He Hle Hlow; [lia|].
  cbn [lookup_loop]. destruct (Z.ltb_spec lo hi) as [Hlt|Hge].
  2:{ assert (lo = hi) as -> by lia. exists hi, e. split; [done|]. by repeat split; [..|lia| |]. }
  unfold iadd. rewrite chk_ok by (unfold in_int; lia). cbn [res_bind]. rewrite Z.quot_div_nonneg by lia. set (mid := (lo + hi) / 2).
  assert (lo <= mid < hi) as Hm by (unfold mid; split; [apply Z.div_le_lower_bound; lia|apply Z.div_lt_upper_bound; lia]).
  destruct (lookup_lt_is_Some_2 (table_ v) (Z.to_nat mid)) as [em Hem].
  { apply lookup_lt_Some in He. lia. }
  rewrite (entry_some v mid em) by (done || lia). cbn [res_bind].
  assert (F64.is_nan em.(cdf_) = false) as Hn by (exact (Forall_lookup_1 _ _ _ _ (proj2 Ht) Hem)).
  unfold F64.gt. destruct (F64.lt em.(cdf_) u) eqn:E.
  - apply (IH (mid + 1) hi e); [lia|lia|lia|done|done|]. intros j e' Hj Hj'.
    destruct (Z.eq_dec j mid) as [->|Hne]; [by rewrite Hem in Hj'; injection Hj' as <-|].
    apply (F64.le_lt_trans _ em.(cdf_)); [|done]. by apply (sorted_lookup (table_ v) (Z.to_nat j) (Z.to_nat mid)); [|lia|..].
  - apply (IH lo mid em); [lia|lia|lia|done|by apply F64.le_total|done].
Qed.

Lemma lookup_spec v u e :
  loaded v -> F64.is_nan u = false -> last (table_ v) = Some e -> F64.le u e.(cdf_) = true ->
  exists i e', lookup v u = Ok i /\ inverse (table_ v) u i e'.
Proof.
  intros Hv Hu He Hle. pose proof Hv as [Hc Hsm Ht]. rewrite last_lookup in He.
  assert (length (table_ v) <> 0)%nat as Hne by (intros E; apply lookup_lt_Some in He; lia).
  destruct (lookup_lt_is_Some_2 (table_ v) 0) as [e0 H0]; [lia|].
  unfold lookup. rewrite (entry_some v 0 e0) by done. cbn [res_bind].
  destruct (F64.le u e0.(cdf_)) eqn:E.
  { exists 0, e0. split; [done|]. repeat split; [done..|lia]. }
  assert (F64.is_nan e0.(cdf_) = false) as Hn by (exact (Forall_lookup_1 _ _ _ _ (proj2 Ht) H0)).
  assert (F64.lt e0.(cdf_) u = true) as Hlt.
  { destruct (F64.lt e0.(cdf_) u) eqn:E'; [done|]. by rewrite (F64.le_total e0.(cdf_) u) in E. }
  assert (length (table_ v) <> 1)%nat.
  { intros E1. rewrite E1 in He. cbn in He. rewrite H0 in He. injection He as <-. by rewrite Hle in E. }
  apply (binary_search_spec _ v u 1 (numEntry_ v - 1) e); [done|done|lia|lia|lia| |done|].
  - replace (Z.to_nat (numEntry_ v - 1)) with (pred (length (table_ v))) by lia. done.
  - intros j e' Hj Hj'. assert (j = 0) as -> by lia. change (Z.to_nat 0) with 0%nat in Hj'. rewrite H0 in Hj'. by injection Hj' as <-.
Qed.
End RanVarFacts.

Module RanVarProps.
Import RNG.
Import RanVar RanVarFacts RngFacts.

Lemma mul_1_l u : inner u -> F64.mul (F64.of_Z 1) u = u.
Proof.
  intros (v & Hv & Hb). assert (F64Exact.normal v) as Hn.
  { unfold F64Exact.normal. assert (2 ^ 600 <= 2 ^ 1040 /\ F64Exact.one < 2 ^ 1500) as [E1 E2] by (split; [by apply Z.leb_le|by apply Z.ltb_lt]). lia. }
  assert (0 < v) as Hpos by (assert (0 < 2 ^ 1040) by done; lia).
  destruct (F64Exact.mul_spec (F64.of_Z 1) u (1 * F64Exact.one) v) as (w & Hw & Hap);
    [by apply F64Exact.int_of_Z|done|by apply F64Exact.int_normal|done|].
  rewrite F64Exact.sign_one, !(proj2 (Z.ltb_ge _ 0)) in Hw by lia. cbn [xorb F64Exact.signed] in Hw.
  rewrite !Z.abs_eq in Hap by (pose proof F64Exact.one_pos; lia).
  destruct (F64Exact.fin_normal u v Hv Hn) as (s & p & e & _ & Hp & He & _ & Ea & _). rewrite Z.abs_eq in Ea by lia.
  assert (w = v) as ->; [|apply (F64Exact.fin_inj _ _ v Hw Hv); lia].
  pose proof (F64Exact.pow2_pos (e + 1074) ltac:(lia)).
  apply (F64Exact.approx_exact _ _ _ v (e + 1074) Hap); [lia|done|lia|by exists (Z.pos p)|nia].
Qed.

Lemma uniform_0_1 r s :
  holds r.(Cg_) s -> MRG.legal s -> r.(inc_prec_) = false ->
  exists r', uniform r F64.zero (F64.of_Z 1) = Ok (r', draw r.(anti_) (MRG.step s)) /\ holds r'.(Cg_) (MRG.step s).
Proof.
  intros Hx Hs Hp. destruct (U01_spec r s Hx Hs) as (x & E & Hx').
  exists (r <| Cg_ := x |>). split; [|exact Hx'].
  unfold uniform, uniform_up_to, uniform_double, next_double, rand_u01. rewrite Hp, E. cbn [res_bind].
  assert (inner (draw r.(anti_) (MRG.step s))) as Hi by (by apply draw_inner, legal_step).
  replace (F64.sub (F64.of_Z 1) F64.zero) with (F64.of_Z 1) by (by vm_compute). rewrite mul_1_l by done.
  destruct Hi as (v & Hv & Hb). destruct (draw _ _) as [sg| | |sg p e]; try done.
  exfalso. cbn in Hv. assert (0 < 2 ^ 1040) by done. lia.
Qed.

(** Loading fills the table with the lines of the file, growing it as needed. *)
Lemma load_lines_spec lines v :
  numEntry_ v = Z.of_nat (length (table_ v)) -> 0 < maxEntry_ v < 2 ^ 30 -> numEntry_ v <= maxEntry_ v ->
  Z.of_nat (length (table_ v) + length lines) < 2 ^ 29 ->
  exists v', load_lines v lines = Ok v' /\ table_ v' = table_ v ++ lines /\
    numEntry_ v' = Z.of_nat (length (table_ v')) /\ minCDF_ v' = minCDF_ v /\ maxCDF_ v' = maxCDF_ v /\
    interpolation_ v' = interpolation_ v.
Proof.
  revert v. induction lines as [|e lines IH]; intros v Hn Hm Hle Hlen.
  { exists v. cbn. by rewrite app_nil_r. }
  cbn [load_lines length] in *. assert (exists max, load_line v e = Ok (v <| maxEntry_ := max |> <| table_ := table_ v ++ [e] |> <| numEntry_ := numEntry_ v + 1 |>) /\
    0 < max < 2 ^ 30 /\ numEntry_ v < max) as (max & -> & Hmax & Hlt).
  { assert (exists max, (if maxEntry_ v <=? numEntry_ v then imul (maxEntry_ v) 2 else Ok (maxEntry_ v)) = Ok max /\
      0 < max < 2 ^ 30 /\ numEntry_ v < max) as (max & E & Hb & Hlt).
    { destruct (Z.leb_spec (maxEntry_ v) (numEntry_ v)).
      - exists (maxEntry_ v * 2). unfold imul. rewrite chk_ok by (unfold in_int; lia). split; [done|lia].
      - by exists (maxEntry_ v). }
    exists max. split; [|by split]. unfold load_line. rewrite E. cbn [res_bind]. rewrite (proj2 (Z.leb_gt _ _)) by done.
    rewrite Hn, Nat2Z.id. rewrite take_ge, drop_ge by lia. done. }
  cbn [res_bind]. destruct (IH (v <| maxEntry_ := max |> <| table_ := table_ v ++ [e] |> <| numEntry_ := numEntry_ v + 1 |>)) as (v' & -> & Ht & Hn' & H1 & H2 & H3);
    try (cbn; rewrite ?length_app; cbn; lia).
  exists v'. split; [done|]. cbn in Ht. rewrite <- app_assoc in Ht. done.
Qed.

(** C29: Flow sizes have the tabulated distribution: once a table of at least
    one line is loaded whose last cell reaches 1, every draw ends, reads no
    cell outside the table, and returns what belongs to the first cell that
    reaches the number drawn by the generator: that cell's value, or, when
    interpolation is asked for, the point between it and the cell before. *)
Theorem empirical_inverts v lines v' last_line r s :
  table_ v = [] -> 0 < maxEntry_ v < 2 ^ 30 -> Z.of_nat (length lines) < 2 ^ 29 ->
  minCDF_ v = F64.zero -> maxCDF_ v = F64.of_Z 1 -> cdf_table lines ->
  last lines = Some last_line -> F64.le (F64.of_Z 1) last_line.(cdf_) = true ->
  loadCDF v lines = Ok v' -> holds r.(Cg_) s -> MRG.legal s -> r.(inc_prec_) = false ->
  let u := draw r.(anti_) (MRG.step s) in
  exists r' i e, inverse lines u i e /\ holds r'.(Cg_) (MRG.step s) /\
    value v' r = Ok (r',
      match (if negb (interpolation_ v =? 0) && F64.lt u e.(cdf_) then lines !! (Z.to_nat i - 1)%nat else None) with
      | Some p => if i =? 0 then e.(val_) else interpolate v u p.(cdf_) p.(val_) e.(cdf_) e.(val_)
      | None => e.(val_)
      end).
Proof.
  intros Ht Hm Hlen Hmin Hmax Hcdf Hlast H1 Hload Hx Hs Hp u. unfold loadCDF in Hload.
  destruct (load_lines_spec lines (v <| numEntry_ := 0 |>)) as (v1 & E & Ht1 & Hn1 & Hmin1 & Hmax1 & Hi1);
    [cbn; by rewrite Ht|exact Hm|cbn; lia|cbn; rewrite Ht; cbn; lia|].
  rewrite E in Hload. injection Hload as ->. cbn in Ht1, Hmin1, Hmax1, Hi1. rewrite Ht in Ht1. cbn [app] in Ht1.
  assert (numEntry_ v' <> 0) as Hne.
  { rewrite Hn1, Ht1. destruct lines; [done|]. cbn. lia. }
  destruct (uniform_0_1 r s Hx Hs Hp) as (r' & Eu & Hx'). fold u in Eu.
  destruct (draw_inner r.(anti_) _ (legal_step s Hs)) as (w & Hw & Hb). fold u in Hw.
  assert (F64.le u last_line.(cdf_) = true) as Hle.
  { apply (F64.le_trans _ (F64.of_Z 1)); [|done]. apply F64.lt_le.
    rewrite (F64Exact.fin_lt _ _ _ (1 * F64Exact.one) Hw); [|by apply F64Exact.int_of_Z].
    assert (0 < 2 ^ 1040) by done. lia. }
  destruct (lookup_spec v' u last_line) as (i & e & El & Hinv); [by split; rewrite ?Hn1, ?Ht1|by apply (F64Exact.fin_not_nan _ w)|by rewrite Ht1|done|].
  rewrite Ht1 in Hinv. pose proof Hinv as (He & Hi0 & _). exists r', i, e. split; [done|]. split; [exact Hx'|].
  unfold value. rewrite (proj2 (Z.leb_gt _ _)) by lia. rewrite Hmin1, Hmax1, Hmin, Hmax, Eu. cbn [res_bind].
  rewrite El. cbn [res_bind]. rewrite (entry_some v' i e) by (by rewrite ?Ht1). cbn [res_bind]. rewrite Hi1.
  destruct (Z.eqb_spec i 0) as [->|Hi]; cbn [negb andb].
  - by destruct (_ && _), (lines !! _).
  - destruct (negb (interpolation_ v =? 0) && F64.lt u e.(cdf_)); [|done].
    destruct (lookup_lt_is_Some_2 lines (Z.to_nat i - 1)) as [p Hp1]; [apply lookup_lt_Some in He; lia|].
    rewrite Hp1, (entry_some v' (i - 1) p) by (lia || (rewrite Ht1; replace (Z.to_nat (i - 1)) with (Z.to_nat i - 1)%nat by lia; done)).
    cbn [res_bind]. unfold interpolate. by rewrite Hi1.
Qed.

(** A table of one line whose cell the number passes is read beyond its end. *)
Lemma lookup_overruns v e u :
  table_ v = [e] -> numEntry_ v = 1 -> F64.le u e.(cdf_) = false ->
  lookup v u = Ok 1 /\ entry v 1 = Err UB.
Proof.
  intros Ht Hn Hu. unfold lookup, entry. rewrite Ht, Hn. split; [|done].
  change (0 <? 0) with false.
  change (deref _) with (Ok e). cbn [res_bind]. rewrite Hu. done.
Qed.
End RanVarProps.

Module RanVarWitness.
Import RanVar RanVarFacts RanVarProps RngFacts RngWitness.

(** Three sizes with probabilities 0.25, 0.25 and 0.5. *)
Definition lines : list CDFentry :=
  [{| cdf_ := F64.ratio 1 4; val_ := F64.of_Z 6 |}; {| cdf_ := F64.ratio 1 2; val_ := F64.of_Z 13 |};
   {| cdf_ := F64.of_Z 1; val_ := F64.of_Z 19 |}].

Definition fresh : EmpiricalRandomVariable :=
  {| minCDF_ := F64.zero; maxCDF_ := F64.of_Z 1; interpolation_ := INTER_INTEGRAL; numEntry_ := 0; maxEntry_ := 2;
     table_ := [] |}.

Definition table : EmpiricalRandomVariable :=
  fresh <| table_ := lines |> <| numEntry_ := 3 |> <| maxEntry_ := 4 |>.

Lemma lines_table : cdf_table lines.
Proof. split; unfold lines; repeat constructor. Qed.

Lemma empirical_inverts_witness :
  let u := draw false (MRG.step (RNG.all_equal 12345)) in
  exists r' i e, inverse lines u i e /\ holds r'.(RNG.Cg_) (MRG.step (RNG.all_equal 12345)) /\
    value table first = Ok (r',
      match (if negb (interpolation_ fresh =? 0) && F64.lt u e.(cdf_) then lines !! (Z.to_nat i - 1)%nat else None) with
      | Some p => if i =? 0 then e.(val_) else interpolate fresh u p.(cdf_) p.(val_) e.(cdf_) e.(val_)
      | None => e.(val_)
      end).
Proof.
  refine (empirical_inverts fresh lines table {| cdf_ := F64.of_Z 1; val_ := F64.of_Z 19 |} first (RNG.all_equal 12345)
    _ _ _ _ _ lines_table _ _ _ first_holds first_legal _);
    first [reflexivity | split; reflexivity | vm_compute; reflexivity].
Defined.
End RanVarWitness.
