(* ===== verification/Link.v ===== *)
(** * The delay link, and the hop it makes with a queue

    [LinkDelay] (src/ns2/link/delay.h, delay.cc): a packet given to the link
    occupies it for its transmission time, after which the handler of the
    sender is called, and arrives at the other end a propagation delay later.
    Both are events of the scheduler; a packet is an event itself.

    [Hop] puts a queue, a link and the scheduler together: the link's
    interrupt event is what calls [Queue::resume].  [QueueBase] assumes of its
    link that it asks for the next packet exactly once for each packet it is
    given; this file shows that the code keeps that promise. *)

From Stdlib Require Import ZArith Lia Bool Sorted SpecFloat.
From stdpp Require Import base list gmap.
From S2P Require Import Prelude F64 F64Exact PktQueue QueueBase Prio Sched ListSched Timer.

Module LinkDelay.

(** [this] and [target_] are the link and its receiver in their role as
    handlers. *)
Record t := mk {
  this : positive;
  target_ : positive;
  bandwidth_ : f64;            (* bandwidth of underlying link (bits/sec) *)
  delay_ : f64;                (* line latency *)
  intr_ : addr;
  dynamic_ : bool;
  latest_time_ : f64;
  itq_ : option PacketQueue.t; (* packets in transit, on a dynamic link *)
  avoidReordering_ : bool
}.

#[global] Instance eta_t : Eta t := fun k =>
  mk (this k) (target_ k) (bandwidth_ k) (delay_ k) (intr_ k) (dynamic_ k) (latest_time_ k) (itq_ k)
    (avoidReordering_ k).

(** The constructor, given the bound variables. *)
Definition create (self target : positive) (bandwidth delay : f64) (intr : addr) (avoid : bool) : t :=
  mk self target bandwidth delay intr false F64.zero None avoid.

(** The command isDynamic. *)
Definition isDynamic (k : t) : t := k <| dynamic_ := true |> <| itq_ := Some PacketQueue.create |>.

Section Ops.
Context {Q : Type} `{EventQueue Q}.
Implicit Types (m : mem) (s : Scheduler.t Q) (k : t) (p e : addr).

Definition txtime m k p : res f64 :=
  let! pk := deref (m !! p) in
  Ok (F64.div (F64.mul (F64.of_Z 8) (F64.of_Z pk.(size_))) k.(bandwidth_)).

(** Scheduling the arrival of [p]. *)
Definition schedule_arrival m s k p (txt : f64) : res (mem * Scheduler.t Q * t) :=
  let flight := F64.add txt k.(delay_) in
  if k.(dynamic_) then
    let! ev := deref (s.(Scheduler.events) !! p) in
    let s := s <| Scheduler.events := <[p := ev <| time_ := flight |>]> s.(Scheduler.events) |> in
    let! itq := deref k.(itq_) in
    let! (m, itq, _) := PacketQueue.enque m itq p in
    let! s := Scheduler.schedule s (Some k.(this)) p flight in
    Ok (m, s, k <| itq_ := Some itq |>)
  else if k.(avoidReordering_) then
    let now_ := s.(Scheduler.clock_) in
    if F64.lt flight (F64.sub k.(latest_time_) now_) && F64.gt k.(latest_time_) F64.zero then
      let k := k <| latest_time_ := F64.add k.(latest_time_) txt |> in
      let! s := Scheduler.schedule s (Some k.(target_)) p (F64.sub k.(latest_time_) now_) in
      Ok (m, s, k)
    else
      let k := k <| latest_time_ := F64.add (F64.add now_ txt) k.(delay_) |> in
      let! s := Scheduler.schedule s (Some k.(target_)) p flight in
      Ok (m, s, k)
  else
    let! s := Scheduler.schedule s (Some k.(target_)) p flight in
    Ok (m, s, k).

Definition recv m s k p (h : option positive) : res (mem * Scheduler.t Q * t) :=
  let! txt := txtime m k p in
  let! (m, s, k) := schedule_arrival m s k p txt in
  let! s := Scheduler.schedule s h k.(intr_) txt in
  Ok (m, s, k).

(** [handle], on a dynamic link; the packet returned is sent to the target. *)
Definition handle m s k e : res (t * addr) :=
  let! itq := deref k.(itq_) in
  let! (itq, p) := PacketQueue.deque m itq in
  let! p := deref p in
  let! pe := deref (s.(Scheduler.events) !! p) in
  let! ev := deref (s.(Scheduler.events) !! e) in
  if F64.eq pe.(time_) ev.(time_) then Ok (k <| itq_ := Some itq |>, p) else Err Abort.

(** The packets in transit are taken out of the schedule and dropped. *)
Fixpoint reset_loop (fuel : nat) m s (itq : PacketQueue.t) : res (Scheduler.t Q * PacketQueue.t * list addr) :=
  let! (itq, np) := PacketQueue.deque m itq in
  match np with
  | None => Ok (s, itq, [])
  | Some np =>
      match fuel with
      | O => Err Fuel
      | S fuel =>
          let! s := Scheduler.cancel s np in
          let! (s, itq, ds) := reset_loop fuel m s itq in
          Ok (s, itq, np :: ds)
      end
  end.

Definition reset m s k : res (Scheduler.t Q * t * list addr) :=
  match k.(itq_) with
  | None => Ok (s, k, [])
  | Some itq =>
      if PacketQueue.length itq =? 0 then Ok (s, k, [])
      else
        let! (s, itq, ds) := reset_loop (size m) m s itq in
        Ok (s, k <| itq_ := Some itq |>, ds)
  end.
End Ops.
End LinkDelay.

(** ** A hop: queue, link and scheduler *)

Module Hop.

(** [queue] is the state of the queue; [arrived], [delivered] and [dropped]
    are the packets given to the queue, to the receiver of the link and to
    the drop target so far. *)
Record world (D Q : Type) := World {
  mem_ : mem;
  sched : Scheduler.t Q;
  queue : Queue.t D;
  link : LinkDelay.t;
  arrived : list addr;
  delivered : list addr;
  dropped : list addr
}.
Arguments World {D Q}. Arguments mem_ {D Q}. Arguments sched {D Q}. Arguments queue {D Q}. Arguments link {D Q}.
Arguments arrived {D Q}. Arguments delivered {D Q}. Arguments dropped {D Q}.

#[global] Instance eta_world {D Q} : Eta (world D Q) := fun w =>
  World (mem_ w) (sched w) (queue w) (link w) (arrived w) (delivered w) (dropped w).

Section Ops.
Context {D Q : Type} `{Discipline D} `{EventQueue Q}.
Context (exp : f64 -> f64).
(** The queue's [qh_] in its role as handler. *)
Context (qh_ : positive).
Implicit Types (w : world D Q) (p e : addr) (h : positive).

Definition clock w : f64 := w.(sched).(Scheduler.clock_).

(** [target_->recv (p, &qh_)] of the queue. *)
Definition to_link w (r : option addr) : res (world D Q) :=
  match r with
  | None => Ok w
  | Some p =>
      let! (m, s, k) := LinkDelay.recv w.(mem_) w.(sched) w.(link) p (Some qh_) in
      Ok (w <| mem_ := m |> <| sched := s |> <| link := k |>)
  end.

Definition recv w p : res (world D Q) :=
  let! (m, q, ds, r) := Queue.recv exp (clock w) w.(mem_) w.(queue) p in
  to_link (w <| mem_ := m |> <| queue := q |> <| arrived := p :: w.(arrived) |>
             <| dropped := ds ++ w.(dropped) |>) r.

Definition resume w : res (world D Q) :=
  let! (m, q, ds, r) := Queue.resume exp (clock w) w.(mem_) w.(queue) in
  to_link (w <| mem_ := m |> <| queue := q |> <| dropped := ds ++ w.(dropped) |>) r.

(** The handlers: [QueueHandler::handle], [NsObject::handle] of the receiver
    and [LinkDelay::handle].  Other handlers leave the hop alone. *)
Definition handle w h e : res (world D Q) :=
  if decide (h = qh_) then resume w
  else if decide (h = w.(link).(LinkDelay.target_)) then Ok (w <| delivered := e :: w.(delivered) |>)
  else if decide (h = w.(link).(LinkDelay.this)) then
    let! (k, p) := LinkDelay.handle w.(mem_) w.(sched) w.(link) e in
    Ok (w <| link := k |> <| delivered := p :: w.(delivered) |>)
  else Ok w.

(** [Scheduler::run], with these handlers. *)
Fixpoint run (fuel : nat) w : res (world D Q) :=
  if w.(sched).(Scheduler.halted_) then Ok w
  else
    let! (q, p) := eq_deque w.(sched).(Scheduler.events) w.(sched).(Scheduler.queue) in
    let w := w <| sched := w.(sched) <| Scheduler.queue := q |> |> in
    match p with
    | None => Ok w
    | Some p =>
        match fuel with
        | O => Err Fuel
        | S fuel =>
            let! ev := deref (w.(sched).(Scheduler.events) !! p) in
            let! (s, h) := Scheduler.dispatch w.(sched) p ev.(time_) in
            let! w := handle (w <| sched := s |>) h p in
            run fuel w
        end
    end.
End Ops.

(** ** Steps

    Packets arrive, events are dispatched, and other parts of the simulation
    schedule and cancel events of their own. *)
Section Steps.
Context {D Q : Type} `{DisciplineLaws D} `{EventQueueLaws Q}.
Context (exp : f64 -> f64) (qh_ : positive).
Implicit Types (w : world D Q) (p e : addr) (h : positive).

(** A packet that has not been here before. *)
Record fresh w p : Prop := {
  fresh_new : p ∉ w.(arrived);
  fresh_event : is_Some (w.(sched).(Scheduler.events) !! p) /\ p <> w.(link).(LinkDelay.intr_);
  fresh_idle : uid_of w.(sched).(Scheduler.events) p <= 0;
  fresh_size : 0 < size_of w.(mem_) p < 2 ^ 31
}.

(** An event and a handler that belong to none of the parts of the hop. *)
Definition foreign_event w e : Prop := e <> w.(link).(LinkDelay.intr_) /\ e ∉ w.(arrived).
Definition foreign_handler w h : Prop :=
  h <> qh_ /\ h <> w.(link).(LinkDelay.target_) /\ h <> w.(link).(LinkDelay.this).

Inductive step : world D Q -> world D Q -> Prop :=
| step_arrive w w' p :
    fresh w p -> TimerFacts.has_room w.(sched) 2 -> recv exp qh_ w p = Ok w' -> step w w'
| step_dispatch w w' q p ev s h :
    TimerFacts.has_room w.(sched) 2 ->
    eq_deque w.(sched).(Scheduler.events) w.(sched).(Scheduler.queue) = Ok (q, Some p) ->
    w.(sched).(Scheduler.events) !! p = Some ev ->
    Scheduler.dispatch (w.(sched) <| Scheduler.queue := q |>) p ev.(time_) = Ok (s, h) ->
    handle exp qh_ (w <| sched := s |>) h p = Ok w' -> step w w'
| step_schedule w s e h delay :
    foreign_event w e -> foreign_handler w h -> F64Exact.nonneg delay -> TimerFacts.has_room w.(sched) 1 ->
    Scheduler.schedule w.(sched) (Some h) e delay = Ok s -> step w (w <| sched := s |>)
| step_cancel w s e :
    foreign_event w e -> is_Some (w.(sched).(Scheduler.events) !! e) ->
    Scheduler.cancel w.(sched) e = Ok s -> step w (w <| sched := s |>).
End Steps.
End Hop.

(** * Facts *)

Module HopFacts.
Import LinkDelay SchedFacts TimerFacts.
Import F64Exact(nonneg, nonneg_add, nonneg_not_nan, nonneg_sub_above, nonneg_int_div).

Section Sched.
Context {Q : Type} `{EL : EventQueueLaws Q}.
Implicit Types (s : Scheduler.t Q) (L : list addr) (tr : Scheduler.trace) (h : positive) (es : evs).

Definition handler_of es (a : addr) : option positive := es !! a ≫= handler_.

(** The queued events of a handler. *)
Definition pending h es L : list addr := filter (fun a => handler_of es a = Some h) L.

Lemma pending_ext h es es' L :
  (forall a, a ∈ L -> handler_of es' a = handler_of es a) -> pending h es' L = pending h es L.
Proof. intros He. apply filter_ext_elem. intros a Ha. by rewrite He. Qed.

Lemma pending_perm h es L L' : L ≡ₚ L' -> pending h es L ≡ₚ pending h es L'.
Proof. intros HP. unfold pending. by rewrite HP. Qed.

Lemma pending_cons h h' es a L :
  handler_of es a = Some h' ->
  pending h es (a :: L) = (if decide (h = h') then [a] else []) ++ pending h es L.
Proof.
  intros Ha. unfold pending. rewrite filter_cons. destruct (decide (handler_of es a = Some h)), (decide (h = h')); done || congruence.
Qed.

Lemma elem_of_pending h es L a : a ∈ pending h es L <-> handler_of es a = Some h /\ a ∈ L.
Proof. unfold pending. by rewrite list_elem_of_filter. Qed.

(** All times are between zero and infinity. *)
Definition times s L : Prop :=
  nonneg s.(Scheduler.clock_) /\ forall a, a ∈ L -> nonneg (time_of s.(Scheduler.events) a).

Lemma has_room_le s n n' : has_room s n -> (n' <= n)%nat -> has_room s n'.
Proof. intros [Hr Hu] Hn. split; [by eapply eq_room_le|lia]. Qed.

(** What [schedule] writes. *)
Lemma schedule_writes s h e d s' :
  Scheduler.schedule s (Some h) e d = Ok s' ->
  s'.(Scheduler.events) = <[e := mkEvent (Some h) (F64.add s.(Scheduler.clock_) d) s.(Scheduler.uid)]> s.(Scheduler.events) /\
  s'.(Scheduler.halted_) = s.(Scheduler.halted_).
Proof.
  unfold Scheduler.schedule. intros (ev & Hev & E)%res_bind_Ok. destruct (0 <? uid_ ev); [done|].
  destruct (_ <? 0); [done|]. destruct (_ =? _); [done|]. apply res_bind_Ok in E as (q & _ & [= <-]). by destruct ev.
Qed.

(** An event that is not queued, scheduled in the future. *)
Record scheduled s L tr h e d n s' L' : Prop := {
  sc_inv : sinv s' L' tr;
  sc_queue : L' ≡ₚ e :: L;
  sc_times : times s' L';
  sc_room : has_room s' n;
  sc_clock : s'.(Scheduler.clock_) = s.(Scheduler.clock_);
  sc_halted : s'.(Scheduler.halted_) = s.(Scheduler.halted_);
  sc_events : s'.(Scheduler.events) =
    <[e := mkEvent (Some h) (F64.add s.(Scheduler.clock_) d) s.(Scheduler.uid)]> s.(Scheduler.events)
}.

Lemma schedule_new s L tr h e d n :
  sinv s L tr -> times s L -> is_Some (s.(Scheduler.events) !! e) -> e ∉ L -> nonneg d -> has_room s (S n) ->
  exists s' L', Scheduler.schedule s (Some h) e d = Ok s' /\ scheduled s L tr h e d n s' L'.
Proof.
  intros Hi [Hc Ht] [ev He] HeL Hd [Hroom Hu]. destruct (nonneg_add _ d Hc Hd) as [Hcd Hle].
  pose proof (schedule_ok s L tr h e ev d n Hi He Hroom Hle ltac:(lia)) as Hok.
  pose proof (sinv_free _ _ _ Hi e HeL) as Hfree. rewrite (uid_of_Some _ _ _ He) in Hfree.
  rewrite (proj2 (Z.ltb_ge _ _) Hfree) in Hok. destruct Hok as (s' & E & Hi' & Ec & Et & Eu & Hr' & _).
  destruct (schedule_writes _ _ _ _ _ E) as [Ee Eh].
  exists s', (stable_insert (not_later (Scheduler.events s')) e L). split; [done|]. split; try done.
  - apply stable_insert_perm.
  - split; [by rewrite Ec|]. intros a Ha. rewrite stable_insert_perm in Ha.
    destruct (decide (a = e)) as [->|Hne]; [by rewrite Et|]. apply elem_of_cons in Ha as [->|Ha]; [done|].
    rewrite Ee. unfold time_of. rewrite lookup_insert_ne by done. by apply Ht.
  - split; [done|lia].
Qed.

(** A queued event that is due. *)
Lemma dispatch_due s p L tr :
  sinv s (p :: L) tr -> times s (p :: L) ->
  exists q ev h s', eq_deque s.(Scheduler.events) s.(Scheduler.queue) = Ok (q, Some p) /\
    s.(Scheduler.events) !! p = Some ev /\ handler_of s.(Scheduler.events) p = Some h /\
    Scheduler.dispatch (s <| Scheduler.queue := q |>) p ev.(time_) = Ok (s', h) /\
    sinv s' L ((ev.(time_), ev.(uid_)) :: tr) /\ times s' L /\ (p ∉ L) /\
    (forall n, has_room s n -> has_room s' n) /\ s'.(Scheduler.halted_) = s.(Scheduler.halted_) /\
    s'.(Scheduler.events) = <[p := ev <| uid_ := - ev.(uid_) |>]> s.(Scheduler.events).
Proof.
  intros Hi [Hc Ht]. pose proof (queued_nodup _ _ (sinv_queued _ _ _ Hi)) as Hd. apply NoDup_cons in Hd as [HpL _].
  destruct (dispatch_ok s (p :: L) tr Hi) as (q & E & Hroom & ev & h & s' & Hev & Ed & Hi' & _ & Es).
  assert (handler_of (Scheduler.events s) p = Some h) as Hh.
  { unfold handler_of. rewrite Hev. cbn. revert Ed. unfold Scheduler.dispatch. destruct (F64.lt _ _); [done|].
    cbn [Scheduler.events field_update]. intros (ev' & Ev & E')%res_bind_Ok. apply deref_Ok in Ev.
    cbn in Ev. rewrite Hev in Ev. injection Ev as <-. apply res_bind_Ok in E' as (h' & Eh & [= _ ->]). by apply deref_Ok in Eh. }
  exists q, ev, h, s'. split; [done|]. split; [done|]. split; [done|]. split; [done|]. split; [done|].
  split; [|split; [done|]].
  - rewrite Es. split; cbn.
    + rewrite <- (time_of_Some _ _ _ Hev). apply Ht. set_solver.
    + intros a Ha. unfold time_of. rewrite lookup_insert_ne by set_solver. apply Ht. set_solver.
  - rewrite Es. split; [|done]. intros n [Hr Hu]. split; cbn; [by apply Hroom|done].
Qed.

(** Cancelling an event leaves the handlers alone. *)
Lemma cancel_event s L tr e :
  sinv s L tr -> times s L -> is_Some (s.(Scheduler.events) !! e) ->
  exists s', Scheduler.cancel s e = Ok s' /\ sinv s' (remove_one e L) tr /\ times s' (remove_one e L) /\
    (forall n, has_room s n -> has_room s' n) /\ s'.(Scheduler.halted_) = s.(Scheduler.halted_) /\
    s'.(Scheduler.clock_) = s.(Scheduler.clock_) /\
    (forall a, handler_of s'.(Scheduler.events) a = handler_of s.(Scheduler.events) a) /\
    (forall a, is_Some (s.(Scheduler.events) !! a) -> is_Some (s'.(Scheduler.events) !! a)).
Proof.
  intros Hi [Hc Ht] He. destruct (cancel_ok s L tr e Hi He) as (s' & E & Hi' & Ec & Eu & Hr & Hs).
  assert ((forall a, handler_of s'.(Scheduler.events) a = handler_of s.(Scheduler.events) a) /\
    (forall a, time_of s'.(Scheduler.events) a = time_of s.(Scheduler.events) a) /\
    s'.(Scheduler.halted_) = s.(Scheduler.halted_)) as (Hh & Htm & Hhalt).
  { destruct (eq_cancel_law (Scheduler.events s) (Scheduler.queue s) L e) as (es & q & Ec' & _ & Hcase);
      [apply Hi|apply Hi|done| |].
    { intros Hp. destruct (decide (e ∈ L)) as [|Hn]; [done|]. apply (sinv_free _ _ _ Hi) in Hn. lia. }
    unfold Scheduler.cancel in E. rewrite Ec' in E. injection E as <-. cbn.
    assert (es = Scheduler.events s \/ es = negate_uid (Scheduler.events s) e) as [->| ->]
      by (destruct (0 <? _); tauto); [done|].
    split; [|split; [|done]]; intros a; unfold handler_of, time_of, negate_uid;
      (destruct (decide (a = e)) as [->|]; [rewrite lookup_alter_eq; by destruct (_ !! _)|by rewrite lookup_alter_ne]). }
  exists s'. split; [done|]. split; [done|]. split.
  { split; [by rewrite Ec|]. intros a Ha. rewrite Htm. apply Ht. by eapply sublist_subseteq, Ha; apply remove_one_sublist. }
  split; [|done]. intros n [Hr1 Hr2]. split; [by apply Hr|lia].
Qed.
End Sched.

(** ** The link *)

(** A link that is not dynamic, of a bandwidth the arithmetic does not
    overflow with; the three handlers of the hop are different. *)
Record link_ok (qh_ : positive) (k : LinkDelay.t) : Prop := {
  link_static : k.(dynamic_) = false;
  link_handlers : qh_ <> k.(target_) /\ qh_ <> k.(this) /\ k.(target_) <> k.(this);
  link_bandwidth : exists b, F64Exact.fin k.(bandwidth_) b /\ F64Exact.normal b /\ 0 < b;
  link_delay : nonneg k.(delay_);
  link_latest : nonneg k.(latest_time_)
}.

(** Two states of a link that differ at most in its record of the last
    arrival. *)
Definition same_link (k k' : LinkDelay.t) : Prop := k' = k <| latest_time_ := k'.(latest_time_) |>.

Lemma same_link_ok qh_ k k' : same_link k k' -> link_ok qh_ k -> nonneg k'.(latest_time_) -> link_ok qh_ k'.
Proof. intros -> [] Hn. by split. Qed.

Lemma txtime_ok m k p b :
  F64Exact.fin k.(bandwidth_) b -> F64Exact.normal b -> 0 < b -> 0 < size_of m p < 2 ^ 31 ->
  exists txt, txtime m k p = Ok txt /\ nonneg txt.
Proof.
  intros Hx Hn Hb Hs. unfold txtime, size_of in *. destruct (m !! p) as [pk|]; cbn [from_option deref res_bind] in *; [|lia].
  eexists. split; [done|]. assert (F64.mul (F64.of_Z 8) (F64.of_Z (size_ pk)) = F64.of_Z (8 * size_ pk)) as ->.
  { apply (F64Exact.int_inj _ _ (8 * size_ pk)); [|apply F64Exact.int_of_Z; lia|lia].
    apply F64Exact.int_mul; [apply F64Exact.int_of_Z; lia..|lia]. }
  apply (nonneg_int_div _ _ b); [lia|done..].
Qed.

Section Link.
Context {Q : Type} `{EL : EventQueueLaws Q}.
Implicit Types (s : Scheduler.t Q) (L : list addr) (tr : Scheduler.trace) (m : mem) (k : LinkDelay.t) (p : addr).

Lemma schedule_arrival_ok qh_ m s k p L tr n txt :
  link_ok qh_ k -> sinv s L tr -> times s L -> is_Some (s.(Scheduler.events) !! p) -> p ∉ L -> nonneg txt ->
  has_room s (S n) ->
  exists s' k' L' d, schedule_arrival m s k p txt = Ok (m, s', k') /\ same_link k k' /\ nonneg k'.(latest_time_) /\
    scheduled s L tr k.(target_) p d n s' L' /\ (k.(avoidReordering_) = false -> d = F64.add txt k.(delay_)).
Proof.
  intros [Hst _ _ Hd Hlat] Hi Ht Hp HpL Htxt Hroom. pose proof Ht as [Hc _].
  destruct (nonneg_add txt (delay_ k) Htxt Hd) as [Hf _].
  unfold schedule_arrival. rewrite Hst.
  destruct (avoidReordering_ k) eqn:Ea; [destruct (F64.lt _ _ && F64.gt _ _) eqn:El|].
  - apply andb_true_iff in El as [El _].
    destruct (nonneg_add _ _ Hlat Htxt) as [Hlat' Hle].
    pose proof (nonneg_sub_above _ _ _ Hlat Hc Hf El _ Hlat' Hle) as Hd'.
    destruct (schedule_new s L tr (target_ k) p _ n Hi Ht Hp HpL Hd' Hroom) as (s' & L' & E & Hs).
    eexists s', _, L', _. cbn [target_ latest_time_ field_update]. split; [by rewrite E|]. split; [done|].
    split; [exact Hlat'|by split].
  - destruct (schedule_new s L tr (target_ k) p _ n Hi Ht Hp HpL Hf Hroom) as (s' & L' & E & Hs).
    eexists s', _, L', _. cbv zeta. cbn [target_ field_update]. split; [by rewrite E|]. split; [done|].
    split; [|by split]. do 2 (apply nonneg_add; [|done]). exact Hc.
  - destruct (schedule_new s L tr (target_ k) p _ n Hi Ht Hp HpL Hf Hroom) as (s' & L' & E & Hs).
    exists s', k, L', (F64.add txt (delay_ k)). rewrite E. split; [done|]. split; [by destruct k|]. by split.
Qed.

(** The link takes a packet: its arrival and the interrupt are scheduled. *)
Lemma link_recv_ok qh_ m s k p L tr n :
  link_ok qh_ k -> sinv s L tr -> times s L ->
  is_Some (s.(Scheduler.events) !! p) -> p ∉ L -> is_Some (s.(Scheduler.events) !! k.(intr_)) -> k.(intr_) ∉ L ->
  p <> k.(intr_) -> 0 < size_of m p < 2 ^ 31 -> has_room s (S (S n)) ->
  exists s' k' L', recv m s k p (Some qh_) = Ok (m, s', k') /\ same_link k k' /\ link_ok qh_ k' /\
    sinv s' L' tr /\ L' ≡ₚ k.(intr_) :: p :: L /\ times s' L' /\ has_room s' n /\
    s'.(Scheduler.halted_) = s.(Scheduler.halted_) /\ s'.(Scheduler.clock_) = s.(Scheduler.clock_) /\
    (exists e1 e2, s'.(Scheduler.events) = <[k.(intr_) := e1]> (<[p := e2]> s.(Scheduler.events)) /\
       e1.(handler_) = Some qh_ /\ e2.(handler_) = Some k.(target_)) /\
    exists txt, txtime m k p = Ok txt /\
      time_of s'.(Scheduler.events) k.(intr_) = F64.add s.(Scheduler.clock_) txt /\
      (k.(avoidReordering_) = false ->
       time_of s'.(Scheduler.events) p = F64.add s.(Scheduler.clock_) (F64.add txt k.(delay_))).
Proof.
  intros Hk Hi Ht Hp HpL Hn HnL Hne Hsz Hroom. pose proof Hk as [_ _ (b & Hb & Hbn & Hbp) _ _].
  destruct (txtime_ok m k p b Hb Hbn Hbp Hsz) as (txt & Etx & Htxt).
  destruct (schedule_arrival_ok qh_ m s k p L tr (S n) txt Hk Hi Ht Hp HpL Htxt Hroom)
    as (s1 & k' & L1 & d & E1 & Hsame & Hlat & [Hi1 HP1 Ht1 Hr1 Hc1 Hh1 He1] & Hd).
  assert (intr_ k' = intr_ k) as Eintr by (by rewrite Hsame).
  destruct (schedule_new s1 L1 tr qh_ (intr_ k) txt n Hi1 Ht1) as (s2 & L2 & E2 & [Hi2 HP2 Ht2 Hr2 Hc2 Hh2 He2]);
    [by rewrite He1, lookup_insert_ne by congruence|by rewrite HP1, not_elem_of_cons|done|done|].
  exists s2, k', L2. unfold recv. rewrite Etx. cbn [res_bind]. rewrite E1. cbn [res_bind]. rewrite Eintr, E2. cbn [res_bind].
  split; [done|]. split; [done|]. split; [by eapply same_link_ok|]. split; [done|]. split; [by rewrite HP2, HP1|].
  split; [done|]. split; [done|]. split; [congruence|]. split; [congruence|]. split.
  - eexists _, _. rewrite He2, He1. by split.
  - exists txt. split; [done|]. rewrite He2, He1. unfold time_of. rewrite lookup_insert_eq. cbn. rewrite Hc1. split; [done|].
    intros Hav. rewrite lookup_insert_ne, lookup_insert_eq by congruence. cbn. by rewrite (Hd Hav).
Qed.
End Link.

(** ** The hop *)

Section Hop.
Context {D Q : Type} `{DL : DisciplineLaws D} `{EL : EventQueueLaws Q}.
Context (exp : f64 -> f64) (qh_ : positive).
Import Hop QueueFacts.
Implicit Types (w : world D Q) (r : option addr) (l L busy : list addr) (tr : Scheduler.trace) (p e : addr).

Abbreviation events w := w.(sched).(Scheduler.events).

(** The queue holds [l] and has just served [r]; the scheduler holds the
    events [L], [busy] of them interrupts of the link; the packets in transit
    are the pending events of the receiver. *)
Record hinv w busy r l L tr : Prop := {
  hi_sched : sinv w.(sched) L tr;
  hi_times : times w.(sched) L;
  hi_link : link_ok qh_ w.(link);
  hi_queue : qrep w.(mem_) w.(queue) l;
  hi_unblock : w.(queue).(Queue.unblock_on_resume_) = true;
  hi_busy : pending qh_ (events w) L ≡ₚ busy;
  hi_this : pending w.(link).(this) (events w) L ≡ₚ [];
  hi_packets : w.(delivered) ++ w.(dropped) ++ pending w.(link).(target_) (events w) L ++ option_list r ++ l ≡ₚ w.(arrived);
  hi_nodup : NoDup w.(arrived);
  hi_valid : forall p, p ∈ w.(arrived) -> is_Some (events w !! p) /\ p <> w.(link).(intr_) /\ 0 < size_of w.(mem_) p < 2 ^ 31;
  hi_held : forall p, p ∈ option_list r ++ l -> p ∉ L;
  hi_intr : is_Some (events w !! w.(link).(intr_)) /\
    (w.(link).(intr_) ∈ L -> handler_of (events w) w.(link).(intr_) = Some qh_)
}.

(** Between two calls the queue is blocked exactly while the interrupt is
    scheduled. *)
Definition stable w l L tr : Prop :=
  hinv w (if w.(queue).(Queue.blocked_) then [w.(link).(intr_)] else []) None l L tr.

Lemma not_queued s L tr p : sinv s L tr -> uid_of s.(Scheduler.events) p <= 0 -> p ∉ L.
Proof. intros Hi Hu Hp. pose proof (proj2 (proj2 (queued_valid _ _ (sinv_queued _ _ _ Hi) p Hp))). lia. Qed.

Lemma hinv_intr_free w r l L tr : hinv w [] r l L tr -> w.(link).(intr_) ∉ L.
Proof.
  intros Hw Hin. pose proof (hi_busy _ _ _ _ _ _ Hw) as Hb. symmetry in Hb. apply Permutation_nil_l in Hb.
  pose proof (proj2 (hi_intr _ _ _ _ _ _ Hw) Hin) as Hh.
  assert (intr_ (link w) ∈ pending qh_ (events w) L) as Hp by (by apply elem_of_pending). rewrite <- Hb in Hp. set_solver.
Qed.

(** What is left alone when the link takes the packets [r]: they are in
    transit then. *)
Record linked w w' r L L' : Prop := {
  ln_mem : w'.(mem_) = w.(mem_);
  ln_queue : w'.(queue) = w.(queue);
  ln_arrived : w'.(arrived) = w.(arrived);
  ln_dropped : w'.(dropped) = w.(dropped);
  ln_delivered : w'.(delivered) = w.(delivered);
  ln_halted : w'.(sched).(Scheduler.halted_) = w.(sched).(Scheduler.halted_);
  ln_length : length L' = (2 * length (option_list r) + length L)%nat;
  ln_transit : pending w'.(link).(target_) (events w') L' ≡ₚ option_list r ++ pending w.(link).(target_) (events w) L
}.

(** The packet served is given to the link. *)
Lemma to_link_ok w p l L tr n :
  hinv w [] (Some p) l L tr -> w.(queue).(Queue.blocked_) = true -> has_room w.(sched) (S (S n)) ->
  exists w' L', to_link qh_ w (Some p) = Ok w' /\ stable w' l L' tr /\ has_room w'.(sched) n /\
    linked w w' (Some p) L L'.
Proof.
  intros Hw Hb Hroom. pose proof (hinv_intr_free _ _ _ _ _ Hw) as HnL.
  destruct Hw as [Hi Ht Hk Hq Hu Hbusy Hthis HP Hnd Hv Hheld [Hie Hih]].
  assert (p ∈ arrived w) as Hpa by (rewrite <- HP; set_solver). destruct (Hv p Hpa) as (Hpe & Hpi & Hps).
  assert (p ∉ L) as HpL by (apply Hheld; set_solver).
  destruct (link_recv_ok qh_ (mem_ w) (sched w) (link w) p L tr n Hk Hi Ht Hpe HpL Hie HnL Hpi Hps Hroom)
    as (s' & k' & L' & E & Hsame & Hk' & Hi' & HL' & Ht' & Hr' & Hh' & Hc' & (e1 & e2 & He & He1 & He2) & _).
  unfold to_link. rewrite E. cbn [res_bind]. eexists _, L'. split; [done|]. cbn.
  assert (this k' = this (link w) /\ target_ k' = target_ (link w) /\ intr_ k' = intr_ (link w)) as (E1 & E2 & E3)
    by (by rewrite Hsame).
  pose proof (link_handlers _ _ Hk) as (N1 & N2 & N3).
  assert (forall h, pending h (Scheduler.events s') L' ≡ₚ
    (if decide (h = qh_) then [intr_ (link w)] else []) ++ (if decide (h = target_ (link w)) then [p] else []) ++
    pending h (events w) L) as Hpend.
  { intros h. rewrite (pending_perm _ _ _ _ HL'), He, (pending_cons h qh_), (pending_cons h (target_ (link w))).
    - do 2 f_equiv. apply reflexive_eq, pending_ext. intros a Ha. unfold handler_of. by rewrite !lookup_insert_ne by set_solver.
    - unfold handler_of. by rewrite lookup_insert_ne, lookup_insert_eq by congruence.
    - unfold handler_of. by rewrite lookup_insert_eq. }
  assert (forall a, is_Some (events w !! a) -> is_Some (Scheduler.events s' !! a)) as Hsome.
  { intros a Ha. rewrite He, !lookup_insert_is_Some. destruct (decide (intr_ (link w) = a)), (decide (p = a)); tauto. }
  split; [|split; [done|split; try done]; cbn].
  - unfold stable. cbn. rewrite Hb, E3. split; cbn; rewrite ?E1, ?E2, ?E3; try done.
    + rewrite Hpend, decide_True, decide_False, Hbusy by done. done.
    + rewrite Hpend, !decide_False, Hthis by done. done.
    + rewrite Hpend, decide_False, decide_True by done. rewrite <- HP. cbn. solve_perm.
    + intros a Ha. destruct (Hv a Ha) as (? & ? & ?). split; [by apply Hsome|done].
    + intros a Ha. rewrite HL', !not_elem_of_cons. assert (a ∈ arrived w) as Haa by (rewrite <- HP; set_solver).
      destruct (Hv a Haa) as (_ & ? & _). split; [done|]. split; [|apply Hheld; set_solver]. intros ->.
      rewrite <- HP in Hnd. apply NoDup_app in Hnd as (_ & _ & Hnd). apply NoDup_app in Hnd as (_ & _ & Hnd).
      apply NoDup_app in Hnd as (_ & _ & Hnd). by apply NoDup_cons in Hnd as [? _].
    + split; [by apply Hsome|]. intros _. unfold handler_of. by rewrite He, lookup_insert_eq.
  - by rewrite HL'.
  - by rewrite E2, Hpend, decide_False, decide_True by done.
Qed.

Lemma to_link_any w r l L tr n :
  hinv w (if w.(queue).(Queue.blocked_) && bool_decide (r = None) then [w.(link).(intr_)] else []) r l L tr ->
  (r <> None -> w.(queue).(Queue.blocked_) = true) -> has_room w.(sched) (S (S n)) ->
  exists w' L', to_link qh_ w r = Ok w' /\ stable w' l L' tr /\ has_room w'.(sched) n /\ linked w w' r L L'.
Proof.
  intros Hw Hb Hroom. destruct r as [p|].
  - rewrite bool_decide_eq_false_2, andb_false_r in Hw by done. by apply to_link_ok; [|apply Hb|].
  - rewrite bool_decide_eq_true_2, andb_true_r in Hw by done. exists w, L. split; [done|]. split; [exact Hw|].
    split; [eapply has_room_le; [done|lia]|]. by split.
Qed.

(** A packet arrives. *)
Lemma arrive_ok w l L tr p n :
  stable w l L tr -> fresh w p -> has_room w.(sched) (S (S n)) ->
  exists w' l' L' r ds, recv exp qh_ w p = Ok w' /\ stable w' l' L' tr /\ has_room w'.(sched) n /\
    w'.(sched).(Scheduler.halted_) = w.(sched).(Scheduler.halted_) /\
    Queue.recv exp (clock w) w.(mem_) w.(queue) p = Ok (w'.(mem_), w'.(queue), ds, r) /\
    w'.(queue).(Queue.blocked_) = w.(queue).(Queue.blocked_) || bool_decide (r <> None) /\
    w'.(arrived) = p :: w.(arrived) /\ w'.(dropped) = ds ++ w.(dropped) /\ w'.(delivered) = w.(delivered) /\
    pending w'.(link).(target_) (events w') L' ≡ₚ option_list r ++ pending w.(link).(target_) (events w) L.
Proof.
  intros [Hi Ht Hk Hq Hu Hbusy Hthis HP Hnd Hv Hheld Hin] [Hpn [Hpe Hpi] Hpu Hps] Hroom.
  assert (p ∉ L) as HpL by (by eapply not_queued).
  destruct (recv_ok exp (clock w) (mem_ w) (queue w) l p Hq) as (m & q & ds & r & l' & E & Hq' & P & Hsz & Hu' & Hb & Hn);
    [intros Hpl; apply Hpn; rewrite <- HP; set_solver|lia|].
  unfold recv. rewrite E. cbn [res_bind].
  assert (forall a, size_of m a = size_of (mem_ w) a) as Hsize by (intros a; by rewrite !size_of_sizes, Hsz).
  destruct (to_link_any (w <| mem_ := m |> <| queue := q |> <| arrived := p :: arrived w |> <| dropped := ds ++ dropped w |>)
    r l' L tr n) as (w' & L' & E' & Hw' & Hr' & [M1 M2 M3 M4 M5 M6 _ M8]); [|cbn; intros Hr; rewrite Hb; by rewrite bool_decide_eq_true_2, orb_true_r|done|].
  - split; cbn; try done.
    + congruence.
    + rewrite Hbusy. destruct (Queue.blocked_ (queue w)).
      * rewrite (Hn eq_refl). by rewrite Hb, (Hn eq_refl).
      * rewrite Hb. by destruct r.
    + solve_perm.
    + by constructor.
    + intros a Ha. rewrite Hsize. apply elem_of_cons in Ha as [->|Ha]; [done|by apply Hv].
    + intros a Ha. assert (a ∈ p :: l) as Hal by (rewrite <- P; set_solver).
      apply elem_of_cons in Hal as [->|Hal]; [done|]. apply Hheld. cbn. done.
  - exists w', l', L', r, ds. cbn in *. rewrite M1, M2. by rewrite E', M3, M4, M5, M6.
Qed.

(** The interrupt of the link is dispatched. *)
Lemma interrupt_ok w l L tr n :
  hinv w [] None l L tr -> w.(queue).(Queue.blocked_) = true -> has_room w.(sched) (S (S n)) ->
  exists w' l' L' r ds, resume exp qh_ w = Ok w' /\ stable w' l' L' tr /\ has_room w'.(sched) n /\
    w'.(sched).(Scheduler.halted_) = w.(sched).(Scheduler.halted_) /\
    Queue.resume exp (clock w) w.(mem_) w.(queue) = Ok (w'.(mem_), w'.(queue), ds, r) /\
    w'.(queue).(Queue.blocked_) = bool_decide (r <> None) /\
    w'.(arrived) = w.(arrived) /\ w'.(dropped) = ds ++ w.(dropped) /\ w'.(delivered) = w.(delivered) /\
    pending w'.(link).(target_) (events w') L' ≡ₚ option_list r ++ pending w.(link).(target_) (events w) L /\
    (2 * length l' + length L' <= 2 * length l + length L)%nat.
Proof.
  intros [Hi Ht Hk Hq Hu Hbusy Hthis HP Hnd Hv Hheld Hin] Hb Hroom.
  destruct (resume_ok exp (clock w) (mem_ w) (queue w) l Hq Hb)
    as (m & q & ds & r & l' & E & Hr & Hut & P & Hsz & Hu' & Hn & Hb').
  rewrite Hu, orb_false_r in Hb'.
  unfold resume. rewrite E. cbn [res_bind].
  assert (forall a, size_of m a = size_of (mem_ w) a) as Hsize by (intros a; by rewrite !size_of_sizes, Hsz).
  destruct (to_link_any (w <| mem_ := m |> <| queue := q |> <| dropped := ds ++ dropped w |>)
    r l' L tr n) as (w' & L' & E' & Hw' & Hr' & [M1 M2 M3 M4 M5 M6 M7 M8]); [|cbn; intros Hne; rewrite Hb'; by rewrite bool_decide_eq_true_2|done|].
  - split; cbn; try done.
    + split; [done|done|]. rewrite Hb'. intros Hne. apply Hn. by apply bool_decide_eq_false, dec_stable in Hne.
    + congruence.
    + rewrite Hbusy, Hb'. by destruct r.
    + solve_perm.
    + intros a Ha. rewrite Hsize. by apply Hv.
    + intros a Ha. apply Hheld. cbn. rewrite <- P. set_solver.
  - exists w', l', L', r, ds. cbn in *. rewrite M1, M2, E', M3, M4, M5, M6.
    do 10 (split; [done|]). apply Permutation_length in P. rewrite !length_app in P. lia.
Qed.

(** The queue of the hop, with the packets it has sent, as [QueueBase]'s
    machine. *)
Definition qworld w (sent : list addr) : Queue.world :=
  Queue.World w.(mem_) w.(queue) w.(queue).(Queue.blocked_) w.(arrived) sent w.(dropped).

(** The packets sent are those delivered and those in transit. *)
Definition accounts w L (sent : list addr) : Prop :=
  sent ≡ₚ w.(delivered) ++ pending w.(link).(target_) (events w) L.

(** A change of the hop that its queue sees as at most one of its steps. *)
Definition simulated w L w' L' : Prop :=
  forall sent, accounts w L sent ->
    exists sent', rtc (Queue.step exp) (qworld w sent) (qworld w' sent') /\ accounts w' L' sent'.

Lemma simulated_same w L w' L' :
  (forall sent, qworld w' sent = qworld w sent) -> (forall sent, accounts w L sent -> accounts w' L' sent) ->
  simulated w L w' L'.
Proof. intros Hq Ha sent Hs. exists sent. rewrite Hq. split; [done|by apply Ha]. Qed.

(** An event is dispatched. *)
Lemma dispatch_hop_ok w l e L tr n :
  stable w l (e :: L) tr -> has_room w.(sched) (S (S n)) ->
  exists q ev h s' w' l' L' tr', eq_deque (events w) w.(sched).(Scheduler.queue) = Ok (q, Some e) /\
    events w !! e = Some ev /\
    Scheduler.dispatch (w.(sched) <| Scheduler.queue := q |>) e ev.(time_) = Ok (s', h) /\
    handle exp qh_ (w <| sched := s' |>) h e = Ok w' /\ stable w' l' L' tr' /\ has_room w'.(sched) n /\
    w'.(sched).(Scheduler.halted_) = w.(sched).(Scheduler.halted_) /\ w'.(arrived) = w.(arrived) /\
    simulated w (e :: L) w' L' /\ (2 * length l' + length L' < 2 * length l + length (e :: L))%nat.
Proof.
  intros [Hi Ht Hk Hq Hu Hbusy Hthis HP Hnd Hv Hheld [Hie Hih]] Hroom.
  destruct (dispatch_due (sched w) e L tr Hi Ht) as (q & ev & h & s' & E1 & E2 & Eh & E3 & Hi' & Ht' & HeL & Hr' & Hh' & Ee).
  exists q, ev, h, s'.
  assert (forall a, handler_of (Scheduler.events s') a = handler_of (events w) a) as Hsame.
  { intros a. unfold handler_of. rewrite Ee. destruct (decide (a = e)) as [->|]; [by rewrite lookup_insert_eq, E2|by rewrite lookup_insert_ne]. }
  assert (forall a, is_Some (events w !! a) -> is_Some (Scheduler.events s' !! a)) as Hsome.
  { intros a Ha. rewrite Ee, lookup_insert_is_Some. destruct (decide (e = a)); tauto. }
  assert (forall h', pending h' (events w) (e :: L) = (if decide (h' = h) then [e] else []) ++ pending h' (Scheduler.events s') L) as Hpend.
  { intros h'. rewrite (pending_cons h' h) by done. f_equal. symmetry. by apply pending_ext. }
  rewrite Hpend in Hbusy, Hthis, HP. pose proof (link_handlers _ _ Hk) as (N1 & N2 & N3).
  assert (forall busy d, pending qh_ (Scheduler.events s') L ≡ₚ busy ->
    d ++ dropped w ++ pending (target_ (link w)) (Scheduler.events s') L ++ l ≡ₚ arrived w ->
    pending (this (link w)) (Scheduler.events s') L ≡ₚ [] ->
    hinv (w <| sched := s' |> <| delivered := d |>) busy None l L ((time_ ev, uid_ ev) :: tr)) as Hmk.
  { intros busy d H1 H2 H3. split; cbn; try done.
    - intros a Ha. destruct (Hv a Ha) as (? & ? & ?). split; [by apply Hsome|done].
    - intros a Ha HaL. apply (Hheld a Ha). set_solver.
    - split; [by apply Hsome|]. intros HiL. rewrite Hsame. apply Hih. set_solver. }
  unfold handle. destruct (decide (h = qh_)) as [->|Hq1].
  - rewrite decide_True in Hbusy by done. rewrite decide_False in Hthis by congruence. rewrite decide_False in HP by congruence.
    destruct (Queue.blocked_ (queue w)) eqn:Hb; [|by apply Permutation_nil_r in Hbusy].
    assert (pending qh_ (Scheduler.events s') L ≡ₚ []) as Hb1.
    { apply Permutation_length in Hbusy. cbn in Hbusy. by apply Permutation_nil_r, nil_length_inv; lia. }
    destruct (interrupt_ok (w <| sched := s' |>) l L ((time_ ev, uid_ ev) :: tr) n)
      as (w' & l' & L' & r & ds & Er & Hw' & Hroom' & Hhalt & Eq & Hbl & Ha & Hdr & Hdel & Htr & Hlen);
      [by apply (Hmk [] (delivered w))|done|by apply Hr'|].
    exists w', l', L', ((time_ ev, uid_ ev) :: tr). split; [done|]. split; [done|]. split; [done|]. split; [done|]. split; [done|]. split; [done|].
    split; [by rewrite Hhalt|]. split; [done|]. cbn in Hlen, Htr, Eq. split; [|cbn; lia]. intros sent Hs. exists (option_list r ++ sent).
    cbn in Ha, Hdr, Hdel. split.
    + apply rtc_once. unfold qworld. rewrite Hbl, Ha, Hdr, Hb. assert (bool_decide (r <> None) = if r is Some _ then true else false) as -> by (by destruct r).
      eapply Queue.step_resume. exact Eq.
    + unfold accounts in *. rewrite Hpend, decide_False in Hs by congruence. rewrite Htr, Hdel, Hs. cbn. solve_perm.
  - rewrite decide_False in Hbusy by congruence. destruct (decide (h = target_ (link (w <| sched := s' |>)))) as [->|Hq2].
    + cbn -[pending] in *. rewrite decide_False in Hthis by congruence. rewrite decide_True in HP by done.
      eexists _, l, L, _. split; [done|]. split; [done|]. split; [done|]. split; [done|]. split; [|split; [|split; [|split; [|split]]]].
      * apply (Hmk _ (e :: delivered w)); [done| |done]. rewrite <- HP. cbn. solve_perm.
      * cbn. eapply has_room_le; [by apply Hr'|lia].
      * done.
      * done.
      * apply simulated_same; [done|]. intros sent. unfold accounts. cbn -[pending]. rewrite Hpend, decide_True by done. intros ->. solve_perm.
      * cbn. lia.
    + cbn in Hq2 |- *. rewrite decide_False in HP by congruence. destruct (decide (h = this (link w))) as [->|Hq3].
      { rewrite decide_True in Hthis by done. by apply Permutation_nil_r in Hthis. }
      rewrite decide_False in Hthis by congruence.
      eexists _, l, L, _. split; [done|]. split; [done|]. split; [done|]. split; [done|]. split; [|split; [|split; [|split; [|split]]]].
      * apply (Hmk _ (delivered w)); done.
      * cbn. eapply has_room_le; [by apply Hr'|lia].
      * done.
      * done.
      * apply simulated_same; [done|]. intros sent. unfold accounts. cbn -[pending]. by rewrite Hpend, decide_False by congruence.
      * cbn. lia.
Qed.

(** A foreign event is none of the pending events of the hop. *)
Lemma foreign_handler_of w l L tr e h :
  stable w l L tr -> foreign_event w e -> e ∈ L -> handler_of (events w) e = Some h ->
  h <> qh_ /\ h <> w.(link).(target_) /\ h <> w.(link).(this).
Proof.
  intros [_ _ _ _ _ Hbusy Hthis HP _ _ _ _] [He1 He2] HeL Hh.
  assert (e ∈ pending h (events w) L) as Hp by (by apply elem_of_pending).
  repeat split; intros ->.
  - rewrite Hbusy in Hp. destruct (Queue.blocked_ _); set_solver.
  - apply He2. rewrite <- HP. set_solver.
  - rewrite Hthis in Hp. set_solver.
Qed.

(** The rest of the simulation schedules or cancels something. *)
Lemma environment_ok w l L tr s' L' :
  stable w l L tr -> sinv s' L' tr -> times s' L' ->
  (forall h, h = qh_ \/ h = w.(link).(target_) \/ h = w.(link).(this) ->
     pending h s'.(Scheduler.events) L' ≡ₚ pending h (events w) L) ->
  (forall a, is_Some (events w !! a) -> is_Some (s'.(Scheduler.events) !! a)) ->
  (forall a, a ∈ L' -> a ∈ L \/ foreign_event w a) ->
  handler_of s'.(Scheduler.events) w.(link).(intr_) = handler_of (events w) w.(link).(intr_) ->
  stable (w <| sched := s' |>) l L' tr /\ simulated w L (w <| sched := s' |>) L'.
Proof.
  intros [Hi Ht Hk Hq Hu Hbusy Hthis HP Hnd Hv Hheld [Hie Hih]] Hi' Ht' Hpend Hsome HL Hhi. split.
  - split; cbn -[pending]; try done.
    + rewrite Hpend by auto. exact Hbusy.
    + rewrite Hpend by auto. exact Hthis.
    + rewrite Hpend by auto. exact HP.
    + intros a Ha. destruct (Hv a Ha) as (? & ? & ?). split; [by apply Hsome|done].
    + intros a Ha HaL. destruct (HL a HaL) as [|[_ Hf]]; [by apply (Hheld a)|]. apply Hf. rewrite <- HP. set_solver.
    + split; [by apply Hsome|]. intros HiL. rewrite Hhi. destruct (HL _ HiL) as [|[Hf _]]; [by apply Hih|done].
  - apply simulated_same; [done|]. intros sent. unfold accounts. cbn -[pending]. rewrite Hpend by auto. done.
Qed.

Lemma foreign_schedule_ok w l L tr s e h delay :
  stable w l L tr -> foreign_event w e -> foreign_handler qh_ w h -> nonneg delay -> has_room w.(sched) 1 ->
  Scheduler.schedule w.(sched) (Some h) e delay = Ok s ->
  exists L', stable (w <| sched := s |>) l L' tr /\ simulated w L (w <| sched := s |>) L'.
Proof.
  intros Hw He (N1 & N2 & N3) Hd Hroom E. pose proof Hw as [Hi Ht _ _ _ _ _ _ _ _ _ _].
  assert (is_Some (events w !! e) /\ uid_of (events w) e <= 0) as [Hse Hue].
  { revert E. unfold Scheduler.schedule, uid_of. intros (ev & Hev & E)%res_bind_Ok. apply deref_Ok in Hev. rewrite Hev.
    split; [by eexists|]. cbn. destruct (Z.ltb_spec 0 (uid_ ev)); [done|lia]. }
  pose proof (not_queued _ _ _ _ Hi Hue) as HeL.
  destruct (schedule_new (sched w) L tr h e delay 0 Hi Ht Hse HeL Hd Hroom) as (s' & L' & E' & [Hi' HL' Ht' _ _ _ Ee]).
  rewrite E in E'. injection E' as <-. exists L'. apply (environment_ok w l L tr); try done.
  - intros h' Hh'. rewrite (pending_perm _ _ _ _ HL'), Ee, (pending_cons h' h).
    + rewrite decide_False by (intros ->; naive_solver). cbn [app]. apply reflexive_eq, pending_ext. intros a Ha. unfold handler_of. rewrite lookup_insert_ne by set_solver. done.
    + unfold handler_of. by rewrite lookup_insert_eq.
  - intros a Ha. rewrite Ee, lookup_insert_is_Some. destruct (decide (e = a)); tauto.
  - intros a. rewrite HL', elem_of_cons. intros [->|]; [by right|by left].
  - unfold handler_of. rewrite Ee, lookup_insert_ne; [done|]. by destruct He.
Qed.

Lemma foreign_cancel_ok w l L tr s e :
  stable w l L tr -> foreign_event w e -> is_Some (events w !! e) ->
  Scheduler.cancel w.(sched) e = Ok s ->
  exists L', stable (w <| sched := s |>) l L' tr /\ simulated w L (w <| sched := s |>) L'.
Proof.
  intros Hw He Hse E. pose proof Hw as [Hi Ht _ _ _ _ _ _ _ _ _ _].
  destruct (cancel_event (sched w) L tr e Hi Ht Hse) as (s' & E' & Hi' & Ht' & _ & _ & _ & Hh & Hs).
  rewrite E in E'. injection E' as <-. exists (remove_one e L).
  assert (forall h, pending h (Scheduler.events s) (remove_one e L) = pending h (events w) (remove_one e L)) as Hp
    by (intros h; by apply pending_ext).
  apply (environment_ok w l L tr); try done.
  - intros h Hh'. rewrite Hp. destruct (decide (e ∈ L)) as [HeL|HeL]; [|by rewrite remove_one_not_in].
    rewrite (pending_perm h (events w) L _ (remove_one_perm e L HeL)).
    destruct (handler_of (events w) e) as [h2|] eqn:E2.
    + rewrite (pending_cons h h2) by done. destruct (foreign_handler_of w l L tr e h2 Hw He HeL E2) as (N1 & N2 & N3).
      by rewrite decide_False by naive_solver.
    + unfold pending. by rewrite filter_cons_False by congruence.
  - intros a Ha. left. eapply sublist_subseteq, Ha. apply remove_one_sublist.
Qed.

Lemma step_stable w w' l L tr :
  stable w l L tr -> step exp qh_ w w' ->
  exists l' L' tr', stable w' l' L' tr' /\ simulated w L w' L'.
Proof.
  intros Hw Hs. destruct Hs as [w w' p Hf Hroom E|w w' q p ev s h Hroom E1 E2 E3 E4|w s e h delay He Hh Hd Hroom E|w s e He Hse E].
  - destruct (arrive_ok w l L tr p 0 Hw Hf Hroom) as (w2 & l' & L' & r & ds & E' & Hw' & _ & _ & Eq & Hb & Ha & Hdr & Hdel & Htr).
    rewrite E in E'. injection E' as <-. exists l', L', tr. split; [done|]. intros sent Hs.
    exists (option_list r ++ sent). split; [|unfold accounts in *; rewrite Htr, Hdel, Hs; solve_perm].
    apply rtc_once. unfold qworld. rewrite Ha, Hdr, Hb.
    assert (Queue.blocked_ (queue w) || bool_decide (r <> None) = if r is Some _ then true else Queue.blocked_ (queue w)) as ->
      by (destruct r; [by rewrite orb_true_r|by rewrite orb_false_r]).
    eapply Queue.step_recv; [apply (fresh_size _ _ Hf)|apply (fresh_new _ _ Hf)|exact Eq].
  - destruct L as [|e L].
    { destruct (dispatch_ok (sched w) [] tr (hi_sched _ _ _ _ _ _ Hw)) as (q2 & E & _). by rewrite E in E1. }
    destruct (dispatch_hop_ok w l e L tr 0 Hw Hroom) as (q2 & ev2 & h2 & s2 & w2 & l' & L' & tr' & F1 & F2 & F3 & F4 & Hw' & _ & _ & _ & Hsim & _).
    rewrite E1 in F1. injection F1 as <- ->. rewrite E2 in F2. injection F2 as <-. rewrite E3 in F3. injection F3 as <- <-.
    rewrite E4 in F4. injection F4 as <-. by exists l', L', tr'.
  - destruct (foreign_schedule_ok w l L tr s e h delay Hw He Hh Hd Hroom E) as (L' & Hw' & Hsim). by exists l, L', tr.
  - destruct (foreign_cancel_ok w l L tr s e Hw He Hse E) as (L' & Hw' & Hsim). by exists l, L', tr.
Qed.

(** The scheduler alone drains the hop. *)
Lemma run_drains fuel w l L tr :
  stable w l L tr -> w.(sched).(Scheduler.halted_) = false ->
  (2 * length l + length L <= fuel)%nat -> has_room w.(sched) (2 * fuel) ->
  exists w' tr', run exp qh_ fuel w = Ok w' /\ stable w' [] [] tr' /\ w'.(arrived) = w.(arrived).
Proof.
  revert w l L tr. induction fuel as [|fuel IH]; intros w l L tr Hw Hh Hf Hroom; cbn [run]; rewrite Hh.
  - destruct l; [|cbn in Hf; lia]. destruct L; [|cbn in Hf; lia].
    destruct (dispatch_ok (sched w) [] tr (hi_sched _ _ _ _ _ _ Hw)) as (q & E & _ & Hi). rewrite E. cbn [res_bind head].
    eexists _, tr. split; [done|]. split; [|done]. destruct Hw. by split.
  - destruct L as [|e L].
    + destruct (dispatch_ok (sched w) [] tr (hi_sched _ _ _ _ _ _ Hw)) as (q & E & _ & Hi). rewrite E. cbn [res_bind head].
      assert (l = []) as ->.
      { apply (qrep_idle _ _ _ (hi_queue _ _ _ _ _ _ Hw)). pose proof (hi_busy _ _ _ _ _ _ Hw) as Hb.
        destruct (Queue.blocked_ _); [|done]. by apply Permutation_nil_l in Hb. }
      eexists _, tr. split; [done|]. split; [|done]. destruct Hw. by split.
    + destruct (dispatch_hop_ok w l e L tr (2 * fuel) Hw) as (q & ev & h & s' & w1 & l1 & L1 & tr1 & E1 & E2 & E3 & E4 & Hw1 & Hr1 & Hh1 & Ha1 & _ & Hlt);
        [by replace (S (S (2 * fuel))) with (2 * S fuel)%nat by lia|].
      rewrite E1. cbn [res_bind]. change (events (w <| sched := w.(sched) <| Scheduler.queue := q |> |>)) with (events w). rewrite E2. cbn [deref res_bind].
      change (sched (w <| sched := w.(sched) <| Scheduler.queue := q |> |>)) with (w.(sched) <| Scheduler.queue := q |>). rewrite E3. cbn [res_bind].
      change (handle exp qh_ (w <| sched := w.(sched) <| Scheduler.queue := q |> |> <| sched := s' |>) h e) with (handle exp qh_ (w <| sched := s' |>) h e).
      rewrite E4. cbn [res_bind]. rewrite <- Ha1. apply (IH w1 l1 L1 tr1 Hw1); [congruence|lia|done].
Qed.
End Hop.
(** ** A dynamic link that goes down *)

Section Reset.
Context {Q : Type} `{EL : EventQueueLaws Q}.
Implicit Types (s : Scheduler.t Q) (l L : list addr) (tr : Scheduler.trace).

Lemma reset_loop_drops fuel m s itq l L tr :
  PacketQueue.rep m itq l -> sinv s L tr -> times s L -> (forall p, p ∈ l -> p ∈ L) -> (length l <= fuel)%nat ->
  exists s' itq' L', reset_loop fuel m s itq = Ok (s', itq', l) /\ PacketQueue.rep m itq' [] /\
    sinv s' L' tr /\ L ≡ₚ l ++ L'.
Proof.
  revert s itq l L. induction fuel as [|fuel IH]; intros s itq l L Hr Hi Ht Hl Hf; cbn [reset_loop];
    destruct (PacketQueue.deque_rep m itq l Hr) as (itq1 & -> & Hr1 & _); cbn [res_bind];
    (destruct l as [|p l]; cbn [head tail] in *; [by exists s, itq1, L|]); [cbn in Hf; lia|].
  assert (p ∈ L) as HpL by (apply Hl; set_solver).
  pose proof (PacketQueue.rep_nodup _ _ _ Hr) as Hd. apply NoDup_cons in Hd as [Hpl Hd].
  destruct (cancel_event s L tr p Hi Ht) as (s1 & -> & Hi1 & Ht1 & _); [by apply (queued_valid _ _ (sinv_queued _ _ _ Hi))|].
  cbn [res_bind]. pose proof (queued_nodup _ _ (sinv_queued _ _ _ Hi)) as HdL.
  destruct (IH s1 itq1 l (remove_one p L) Hr1 Hi1 Ht1) as (s2 & itq2 & L2 & -> & Hr2 & Hi2 & HP).
  - intros a Ha. apply elem_of_remove_one; [done|]. split; [set_solver|apply Hl; set_solver].
  - cbn in Hf. lia.
  - cbn [res_bind]. exists s2, itq2, L2. split; [done|]. split; [done|]. split; [done|].
    rewrite (remove_one_perm p L HpL), HP. done.
Qed.

(** [reset] takes every packet in transit out of the schedule and drops it. *)
Lemma link_reset_drops m s k itq l L tr :
  k.(itq_) = Some itq -> PacketQueue.rep m itq l -> sinv s L tr -> times s L -> (forall p, p ∈ l -> p ∈ L) ->
  exists s' k' L', reset m s k = Ok (s', k', l) /\ sinv s' L' tr /\ L ≡ₚ l ++ L' /\
    exists itq', k'.(itq_) = Some itq' /\ PacketQueue.rep m itq' [].
Proof.
  intros Hk Hr Hi Ht Hl. unfold reset. rewrite Hk. unfold PacketQueue.length.
  rewrite (PacketQueue.rep_len _ _ _ Hr). destruct (Z.eqb_spec (Z.of_nat (length l)) 0) as [E|E].
  - destruct l; [|done]. exists s, k, L. split; [done|]. split; [done|]. split; [done|]. by exists itq.
  - destruct (reset_loop_drops (size m) m s itq l L tr Hr Hi Ht Hl) as (s' & itq' & L' & -> & Hr' & Hi' & HP).
    { eapply lseg_length; apply Hr. }
    cbn [res_bind]. eexists s', _, L'. split; [done|]. split; [done|]. split; [done|]. by exists itq'.
Qed.
End Reset.
End HopFacts.

(** * Properties *)

Module HopProps.
Import LinkDelay Hop SchedFacts TimerFacts QueueFacts HopFacts.

Section Props.
Context {D Q : Type} `{DL : DisciplineLaws D} `{EL : EventQueueLaws Q}.
Context (exp : f64 -> f64) (qh_ : positive).
Implicit Types (w : world D Q) (p e : addr).

(** An idle hop: nothing queued, nothing scheduled. *)
Record initial w : Prop := {
  in_sched : SchedProps.initial w.(sched);
  in_clock : F64Exact.nonneg w.(sched).(Scheduler.clock_);
  in_link : link_ok qh_ w.(link);
  in_intr : is_Some (w.(sched).(Scheduler.events) !! w.(link).(intr_));
  in_disc : disc_rep w.(mem_) w.(queue).(Queue.disc) [];
  in_util : util_ok w.(queue);
  in_free : w.(queue).(Queue.blocked_) = false /\ w.(queue).(Queue.unblock_on_resume_) = true;
  in_counts : w.(arrived) = [] /\ w.(delivered) = [] /\ w.(dropped) = []
}.

Lemma initial_stable w : initial w -> stable qh_ w [] [] [].
Proof.
  intros [Hs Hc Hk Hi Hd Hu [Hb Hub] (E1 & E2 & E3)]. unfold stable. rewrite Hb.
  split; rewrite ?E1, ?E2, ?E3; try done; try set_solver.
  - by apply SchedProps.initial_sinv.
  - split; [done|set_solver].
  - constructor.
Qed.

Lemma reachable_stable w0 w :
  initial w0 -> rtc (step exp qh_) w0 w -> exists l L tr, stable qh_ w l L tr /\ simulated exp w0 [] w L.
Proof.
  intros Hin0 Hs. assert (exists l L0 tr, stable qh_ w0 l L0 tr /\ L0 = []) as (l & L0 & tr & Hw & EL0)
    by (exists [], [], []; split; [by apply initial_stable|done]).
  rewrite <- EL0. clear Hin0 EL0. revert l L0 tr Hw. induction Hs as [w|w1 w2 w3 Hs1 _ IH]; intros l L0 tr Hw.
  - exists l, L0, tr. split; [done|]. by apply simulated_same.
  - destruct (step_stable exp qh_ w1 w2 l L0 tr Hw Hs1) as (l2 & L2 & tr2 & Hw2 & S1).
    destruct (IH l2 L2 tr2 Hw2) as (l3 & L3 & tr3 & Hw3 & S2). exists l3, L3, tr3. split; [done|].
    intros sent Ha. destruct (S1 sent Ha) as (sent1 & R1 & A1). destruct (S2 sent1 A1) as (sent2 & R2 & A2).
    exists sent2. split; [by etrans|done].
Qed.

(** C11: every packet gets through.  In whatever state a hop is reached, if no
    more packets arrive the scheduler's main loop brings it to rest: after
    finitely many turns nothing is queued and nothing is in transit, the queue
    is unblocked, and each packet that ever arrived has been delivered or
    dropped, exactly once. *)
Theorem link_drains w0 w :
  initial w0 -> rtc (step exp qh_) w0 w -> w.(sched).(Scheduler.halted_) = false ->
  exists n, forall fuel, (n <= fuel)%nat -> has_room w.(sched) (2 * fuel) ->
    exists w', run exp qh_ fuel w = Ok w' /\ w'.(delivered) ++ w'.(dropped) ≡ₚ w.(arrived) /\
      disc_rep w'.(mem_) w'.(queue).(Queue.disc) [] /\ w'.(queue).(Queue.blocked_) = false.
Proof.
  intros Hin0 Hs Hh. destruct (reachable_stable w0 w Hin0 Hs) as (l & L & tr & Hw & _).
  exists (2 * length l + length L)%nat. intros fuel Hf Hroom.
  destruct (run_drains exp qh_ fuel w l L tr Hw Hh Hf Hroom) as (w' & tr' & E & Hw' & Ha).
  exists w'. split; [done|]. destruct Hw' as [_ _ _ Hq _ Hb _ HP _ _ _ _]. rewrite <- Ha, <- HP, app_nil_r.
  split; [done|]. split; [apply Hq|]. destruct (Queue.blocked_ _); [|done]. by apply Permutation_nil_l in Hb.
Qed.

(** C13: the link keeps the promise the queue relies on.  A hop, with the rest
    of the simulation scheduling and cancelling events of its own, refines the
    machine of [QueueBase], whose link asks for the next packet exactly once
    for each packet it was given: every state reached is one the machine
    reaches, with the packets delivered and those in transit as the packets
    sent.  The packets in transit are scheduled, each once, for the receiver,
    and the interrupt is scheduled exactly while the queue is blocked. *)
Theorem hop_refines_queue w0 w :
  initial w0 -> rtc (step exp qh_) w0 w ->
  exists sent transit,
    rtc (Queue.step exp) (Queue.World w0.(mem_) w0.(queue) false [] [] [])
      (Queue.World w.(mem_) w.(queue) w.(queue).(Queue.blocked_) w.(arrived) sent w.(dropped)) /\
    sent ≡ₚ w.(delivered) ++ transit /\ NoDup (sent ++ w.(dropped)) /\
    Forall (fun p => exists ev, w.(sched).(Scheduler.events) !! p = Some ev /\ 0 < ev.(uid_) /\
      ev.(handler_) = Some w.(link).(target_)) transit /\
    (0 < uid_of w.(sched).(Scheduler.events) w.(link).(intr_) <-> w.(queue).(Queue.blocked_) = true).
Proof.
  intros Hin0 Hs. destruct (reachable_stable w0 w Hin0 Hs) as (l & L & tr & Hw & Hsim).
  pose proof Hin0 as [_ _ _ _ _ _ [Hb0 _] (E1 & E2 & E3)].
  destruct (Hsim []) as (sent & Hr & Ha); [unfold accounts; by rewrite E2|].
  exists sent, (pending w.(link).(target_) w.(sched).(Scheduler.events) L).
  split; [by unfold qworld in Hr; rewrite Hb0, E1, E3 in Hr|]. split; [exact Ha|].
  destruct Hw as [Hi _ _ _ _ Hb _ HP Hnd _ _ [_ Hih]]. split; [|split].
  - unfold accounts in Ha. rewrite Ha. assert (NoDup ((w.(delivered) ++ pending w.(link).(target_) w.(sched).(Scheduler.events) L) ++ w.(dropped) ++ l)) as Hn.
    { eapply NoDup_Permutation_proper; [|exact Hnd]. rewrite <- HP. cbn [option_list app]. solve_perm. }
    rewrite app_assoc in Hn. by apply NoDup_app in Hn as [? _].
  - apply Forall_forall. intros p [Hh HpL]%elem_of_pending. unfold handler_of in Hh.
    destruct (queued_valid _ _ (sinv_queued _ _ _ Hi) p HpL) as ([ev Hev] & _ & Hu). rewrite Hev in Hh. cbn in Hh.
    rewrite (uid_of_Some _ _ _ Hev) in Hu. by exists ev.
  - split.
    + intros Hu. destruct (decide (w.(link).(intr_) ∈ L)) as [Hin|Hn]; [|apply (sinv_free _ _ _ Hi) in Hn; lia].
      assert (w.(link).(intr_) ∈ pending qh_ w.(sched).(Scheduler.events) L) as Hp by (apply elem_of_pending; auto).
      rewrite Hb in Hp. destruct (Queue.blocked_ _); set_solver.
    + intros Hbl. rewrite Hbl in Hb. assert (w.(link).(intr_) ∈ pending qh_ w.(sched).(Scheduler.events) L) as Hp by (rewrite Hb; set_solver).
      apply elem_of_pending in Hp as [_ Hp]. apply (queued_valid _ _ (sinv_queued _ _ _ Hi) _ Hp).
Qed.

(** No abort: in every state reached, an arriving packet and every event
    that is due are handled; in particular neither a packet nor the interrupt
    is ever scheduled while it is scheduled already. *)
Theorem hop_never_aborts w0 w :
  initial w0 -> rtc (step exp qh_) w0 w -> has_room w.(sched) 2 ->
  (forall p, fresh w p -> exists w', recv exp qh_ w p = Ok w') /\
  exists q r, eq_deque w.(sched).(Scheduler.events) w.(sched).(Scheduler.queue) = Ok (q, r) /\
    forall e, r = Some e -> exists ev s h w', w.(sched).(Scheduler.events) !! e = Some ev /\
      Scheduler.dispatch (w.(sched) <| Scheduler.queue := q |>) e ev.(time_) = Ok (s, h) /\
      handle exp qh_ (w <| sched := s |>) h e = Ok w'.
Proof.
  intros Hin0 Hs Hroom. destruct (reachable_stable w0 w Hin0 Hs) as (l & L & tr & Hw & _). split.
  - intros p Hp. destruct (arrive_ok exp qh_ w l L tr p 0 Hw Hp Hroom) as (w' & _ & _ & _ & _ & E & _). by exists w'.
  - destruct L as [|e L].
    + destruct (dispatch_ok (sched w) [] tr (hi_sched _ _ _ _ _ _ _ Hw)) as (q & E & _). by exists q, None.
    + destruct (dispatch_hop_ok exp qh_ w l e L tr 0 Hw Hroom) as (q & ev & h & s & w' & _ & _ & _ & E1 & E2 & E3 & E4 & _).
      exists q, (Some e). split; [done|]. intros e' [= <-]. by exists ev, s, h, w'.
Qed.

End Props.

(** The timing of a packet: the link is busy for the transmission time and the
    packet arrives the propagation delay after that. *)
Theorem link_times {Q} `{EL : EventQueueLaws Q} qh_ m (s : Scheduler.t Q) k p L tr :
  link_ok qh_ k -> k.(avoidReordering_) = false -> sinv s L tr -> times s L ->
  is_Some (s.(Scheduler.events) !! p) -> p ∉ L -> is_Some (s.(Scheduler.events) !! k.(intr_)) -> k.(intr_) ∉ L ->
  p <> k.(intr_) -> 0 < size_of m p < 2 ^ 31 -> has_room s 2 ->
  exists s' L' txt, LinkDelay.recv m s k p (Some qh_) = Ok (m, s', k) /\ sinv s' L' tr /\ L' ≡ₚ k.(intr_) :: p :: L /\
    txt = F64.div (F64.mul (F64.of_Z 8) (F64.of_Z (size_of m p))) k.(bandwidth_) /\
    time_of s'.(Scheduler.events) k.(intr_) = F64.add s.(Scheduler.clock_) txt /\
    time_of s'.(Scheduler.events) p = F64.add s.(Scheduler.clock_) (F64.add txt k.(delay_)).
Proof.
  intros Hk Hav Hi Ht Hp HpL Hn HnL Hne Hsz Hroom.
  destruct (link_recv_ok qh_ m s k p L tr 0 Hk Hi Ht Hp HpL Hn HnL Hne Hsz Hroom)
    as (s' & k' & L' & E & Hsame & _ & Hi' & HL' & _ & _ & _ & _ & _ & txt & Etx & T1 & T2).
  exists s', L', txt. assert (k' = k) as ->.
  { revert E. unfold LinkDelay.recv. rewrite Etx. cbn [res_bind]. unfold schedule_arrival. rewrite (link_static _ _ Hk), Hav.
    intros (((m1 & s1) & k1) & E1 & E2)%res_bind_Ok. apply res_bind_Ok in E1 as (s2 & _ & [= _ _ <-]).
    apply res_bind_Ok in E2 as (s3 & _ & [= _ <-]). done. }
  split; [done|]. split; [done|]. split; [done|]. split; [|by split; [|apply T2]].
  unfold txtime, size_of in *. destruct (m !! p); [by injection Etx as <-|done].
Qed.
End HopProps.

(** * Witnesses: three packets of 1500 bytes, a link of 1 Gbit/s and 1 ms. *)

Module HopWitness.
Import Hop SchedFacts TimerFacts QueueFacts HopFacts HopProps.

Definition packet : Packet := mkPacket None 1500 0 1 2 3 1 0.
Definition packets : mem := {[ 2%positive := packet; 3%positive := packet; 4%positive := packet ]}.
Definition idle_events : evs :=
  {[ 1%positive := new_event; 2%positive := new_event; 3%positive := new_event; 4%positive := new_event ]}.

Definition wire : LinkDelay.t := LinkDelay.create 3 2 (F64.of_Z 1000000000) (F64.ratio 1 1000) 1 false.

Definition start : world Prio.t ListScheduler.t :=
  World packets (Scheduler.create idle_events ListScheduler.create)
    (Queue.create (Prio.create 100 1500 40 8 Prio.PER_PORT) false true F64.zero F64.zero 0) wire [] [] [].

Definition exp1 (x : f64) : f64 := F64.of_Z 1.

(** Packets 2 and 3 arrive. *)
Definition after (w : world Prio.t ListScheduler.t) (p : addr) : world Prio.t ListScheduler.t :=
  match recv exp1 1 w p with Ok w' => w' | Err _ => w end.
Definition one : world Prio.t ListScheduler.t := Eval vm_compute in after start 2.
Definition two : world Prio.t ListScheduler.t := Eval vm_compute in after one 3.

Lemma wire_ok : link_ok 1 wire.
Proof.
  split.
  - done.
  - done.
  - exists (1000000000 * F64Exact.one). change (F64Exact.int (F64.of_Z 1000000000) 1000000000 /\ F64Exact.normal (1000000000 * F64Exact.one) /\ 0 < 1000000000 * F64Exact.one).
    split; [by apply F64Exact.int_of_Z|]. split; [by apply F64Exact.int_normal|done].
  - right. exists (4611686018427388 * 2 ^ (-62 + 1074)). split; [split; vm_compute; reflexivity|vm_compute; discriminate].
  - right. by exists 0.
Qed.

Lemma start_initial : initial 1 start.
Proof.
  split; try done.
  - split; [done|]. split; [done|]. split; [done|]. intros a.
    apply (ListWitness.uid_of_all idle_events (fun _ u => u <= 0)); [done|]. apply (bool_decide_unpack _). vm_compute. exact I.
  - right. by exists 0.
  - exact wire_ok.
  - exists (replicate 8 []). split; [|done]. apply PrioWitness.prepb_sound. vm_compute. reflexivity.
Qed.

Lemma fresh_step w w' p :
  bool_decide (p ∉ w.(arrived)) && bool_decide (is_Some (w.(sched).(Scheduler.events) !! p)) &&
    bool_decide (p <> w.(link).(LinkDelay.intr_)) && (uid_of w.(sched).(Scheduler.events) p <=? 0) &&
    (0 <? size_of w.(mem_) p) && (size_of w.(mem_) p <? 2 ^ 31) && (w.(sched).(Scheduler.uid) + 2 <? 2 ^ 63) = true ->
  recv exp1 1 w p = Ok w' -> step exp1 1 w w'.
Proof.
  intros Hb E. bool_prop. apply (step_arrive _ _ w w' p); [split| |exact E]; try (split; [done|lia]); try lia.
  - by eapply bool_decide_eq_true_1.
  - split; by eapply bool_decide_eq_true_1.
Qed.

Lemma two_reached : rtc (step exp1 1) start two.
Proof.
  eapply rtc_l; [apply (fresh_step start one 2); vm_compute; reflexivity|].
  apply rtc_once, (fresh_step one two 3); vm_compute; reflexivity.
Qed.

Lemma two_room n : Z.of_nat n < 100 -> has_room two.(sched) n.
Proof. intros H. split; [done|]. cbn. lia. Qed.

Lemma link_drains_witness :
  exists n, forall fuel, (n <= fuel)%nat -> has_room two.(sched) (2 * fuel) ->
    exists w', run exp1 1 fuel two = Ok w' /\ w'.(delivered) ++ w'.(dropped) ≡ₚ two.(arrived) /\
      disc_rep w'.(mem_) w'.(queue).(Queue.disc) [] /\ w'.(queue).(Queue.blocked_) = false.
Proof. exact (link_drains exp1 1 start two start_initial two_reached eq_refl). Defined.

Lemma hop_refines_queue_witness :
  exists sent transit,
    rtc (Queue.step exp1) (Queue.World start.(mem_) start.(queue) false [] [] [])
      (Queue.World two.(mem_) two.(queue) two.(queue).(Queue.blocked_) two.(arrived) sent two.(dropped)) /\
    sent ≡ₚ two.(delivered) ++ transit /\ NoDup (sent ++ two.(dropped)) /\
    Forall (fun p => exists ev, two.(sched).(Scheduler.events) !! p = Some ev /\ 0 < ev.(uid_) /\
      ev.(handler_) = Some two.(link).(LinkDelay.target_)) transit /\
    (0 < uid_of two.(sched).(Scheduler.events) two.(link).(LinkDelay.intr_) <-> two.(queue).(Queue.blocked_) = true).
Proof. exact (hop_refines_queue exp1 1 start two start_initial two_reached). Defined.

Lemma hop_never_aborts_witness :
  (forall p, fresh two p -> exists w', recv exp1 1 two p = Ok w') /\
  exists q r, eq_deque two.(sched).(Scheduler.events) two.(sched).(Scheduler.queue) = Ok (q, r) /\
    forall e, r = Some e -> exists ev s h w', two.(sched).(Scheduler.events) !! e = Some ev /\
      Scheduler.dispatch (two.(sched) <| Scheduler.queue := q |>) e ev.(time_) = Ok (s, h) /\
      handle exp1 1 (two <| sched := s |>) h e = Ok w'.
Proof. exact (hop_never_aborts exp1 1 start two start_initial two_reached (two_room 2 eq_refl)). Defined.

Lemma link_times_witness :
  exists s' L' txt, LinkDelay.recv packets start.(sched) wire 2 (Some 1%positive) = Ok (packets, s', wire) /\
    sinv s' L' [] /\ L' ≡ₚ [1%positive; 2%positive] /\
    txt = F64.div (F64.mul (F64.of_Z 8) (F64.of_Z (size_of packets 2))) wire.(LinkDelay.bandwidth_) /\
    time_of s'.(Scheduler.events) 1 = F64.add F64.zero txt /\
    time_of s'.(Scheduler.events) 2 = F64.add F64.zero (F64.add txt wire.(LinkDelay.delay_)).
Proof.
  apply (link_times 1 packets start.(sched) wire 2 [] []).
  - exact wire_ok.
  - reflexivity.
  - exact (SchedProps.initial_sinv _ (in_sched _ _ start_initial)).
  - split; [exact (in_clock _ _ start_initial)|set_solver].
  - by eexists.
  - set_solver.
  - by eexists.
  - set_solver.
  - done.
  - vm_compute. split; reflexivity.
  - split; [done|]. reflexivity.
Defined.
End HopWitness.
