(* ===== verification/App.v ===== *)
(** * The applications that feed flows to the agents

    [ChunksApplication] (src/ns2/apps/app-chunks.h, app-chunks.cc) hands the
    bytes of a flow to its agent in chunks at random times, [PIASApplication]
    (app-pias.cc) all at once, [Application] (app.cc) without marking the
    flow.  A call of [agent_->sendmsg] is the command [sendmsg_cmd] of
    [FullTcp], returned in order.

    [std::generate_canonical] over [std::minstd_rand0] is a parameter: a
    function of the generator's state.  The theorems hold for every such
    function. *)

From Stdlib Require Import ZArith Lia Bool Sorted SpecFloat.
From stdpp Require Import base list gmap.
From S2P Require Import Prelude F64 PktQueue Sched ListSched Timer FullTcp.
Import FullTcp(cmd, sendmsg_cmd, msg_flag, DAT_NEW, DAT_EOF, NO_FLAG).

Module Application.
Definition send (nbytes : Z) : list cmd := [sendmsg_cmd nbytes NO_FLAG].
End Application.

Module PIASApplication.
Definition send (nbytes : Z) : list cmd := [sendmsg_cmd 0 DAT_NEW; sendmsg_cmd nbytes DAT_EOF].
End PIASApplication.

Module ChunksApplication.

Record Chunk := mkChunk { time : f64; size_in_bytes : Z }.

(** [operator<]: the tuples (time, size_in_bytes) in lexicographic order. *)
Definition chunk_lt (a b : Chunk) : bool :=
  F64.lt a.(time) b.(time) ||
  negb (F64.lt b.(time) a.(time)) && (a.(size_in_bytes) <? b.(size_in_bytes)).

(** [std::sort]. *)
Definition sort_chunks (l : list Chunk) : list Chunk :=
  foldr (stable_insert (fun y x => negb (chunk_lt x y))) [] l.

Section App.
Context {G : Type} (canonical : G -> G * f64).

Record t := mk {
  rng_ : option G;
  next_chunk_timer_ : TimerHandler.t;
  cur_chunks_ : list Chunk;
  next_chunk_idx_ : Z;
  use_alpha_probability_ : f64;
  alpha_ : f64;
  link_rate_gbps_ : f64;
  max_num_chunks_ : Z;
  packet_size_bytes_ : Z;
  header_size_bytes_ : Z
}.

#[global] Instance eta_t : Eta t := fun a =>
  mk (rng_ a) (next_chunk_timer_ a) (cur_chunks_ a) (next_chunk_idx_ a) (use_alpha_probability_ a) (alpha_ a)
    (link_rate_gbps_ a) (max_num_chunks_ a) (packet_size_bytes_ a) (header_size_bytes_ a).

Definition BITS_IN_BYTE : Z := 8.

(** The next random number; there is no generator before the command
    set-seed. *)
Definition draw (a : t) : res (t * f64) :=
  let! g := deref a.(rng_) in
  let '(g, x) := canonical g in
  Ok (a <| rng_ := Some g |>, x).

Definition get_next_random_double (a : t) (min max : f64) : res (t * f64) :=
  let! (a, x) := draw a in Ok (a, F64.add min (F64.mul x (F64.sub max min))).

Definition check_if_using_alpha (a : t) : res (t * bool) :=
  if F64.lt a.(use_alpha_probability_) F64.zero then Ok (a, true)
  else let! (a, x) := draw a in Ok (a, F64.lt x a.(use_alpha_probability_)).

(** The loop of [generate_chunks], from index [i] on; [n] chunks are left. *)
Fixpoint chunk_loop (n : nat) (i : Z) (a : t) (min max : f64) (chunk_size_pkts num_bigger_chunks total_size : Z) :
    res (t * list Chunk * Z) :=
  match n with
  | O => Ok (a, [], total_size)
  | S n =>
      let! (a, x) := get_next_random_double a min max in
      let! size := imul a.(packet_size_bytes_)
        (if i <? num_bigger_chunks then chunk_size_pkts + 1 else chunk_size_pkts) in
      if size <=? 0 then Err Throw else
      let! total_size := iadd total_size size in
      let! (a, l, total_size) := chunk_loop n (i + 1) a min max chunk_size_pkts num_bigger_chunks total_size in
      Ok (a, mkChunk x size :: l, total_size)
  end.

(** Integer division: by zero, or of [INT_MIN] by -1, it is undefined. *)
Definition idiv (a b : Z) : res Z := if b =? 0 then Err UB else chk (Z.quot a b).

Definition generate_chunks (a : t) (start_time : f64) (num_bytes : Z) : res (t * list Chunk) :=
  let! num_packets := idiv num_bytes a.(packet_size_bytes_) in
  let! bytes := iadd a.(packet_size_bytes_) a.(header_size_bytes_) in
  let! bits := imul bytes BITS_IN_BYTE in
  let packet_time := F64.div (F64.of_Z bits) (F64.mul a.(link_rate_gbps_) (F64.of_Z 1000000000)) in
  let num_chunks := Z.min num_packets a.(max_num_chunks_) in
  let! chunk_size_pkts := idiv num_packets num_chunks in
  let num_bigger_chunks := Z.rem num_packets num_chunks in
  if num_chunks <? 0 then Err Throw     (* std::vector of a negative length *)
  else
    let stop := F64.add start_time (F64.mul (F64.mul a.(alpha_) packet_time) (F64.of_Z num_packets)) in
    let! (a, chunks, total_size) :=
      chunk_loop (Z.to_nat num_chunks) 0 a start_time stop chunk_size_pkts num_bigger_chunks 0 in
    if negb (total_size =? num_bytes) then Err Throw
    else Ok (a, sort_chunks chunks).

Definition init_chunks (a : t) (clock : f64) (num_bytes : Z) : res t :=
  let! (a, chunks) := generate_chunks a clock num_bytes in
  Ok (a <| cur_chunks_ := chunks |> <| next_chunk_idx_ := 0 |>).

Definition get_next_chunk (a : t) : res Chunk :=
  if a.(next_chunk_idx_) <? 0 then Err UB else deref (a.(cur_chunks_) !! Z.to_nat a.(next_chunk_idx_)).

(** [send_next_chunk], with what it asks of the agent and of its timer. *)
Definition next_chunk (a : t) (clock : f64) : res (t * cmd * list TimerHandler.cmd) :=
  let! c := get_next_chunk a in
  let len := Z.of_nat (length a.(cur_chunks_)) in
  let message := sendmsg_cmd c.(size_in_bytes) (if a.(next_chunk_idx_) + 1 =? len then DAT_EOF else NO_FLAG) in
  let a := a <| next_chunk_idx_ := a.(next_chunk_idx_) + 1 |> in
  if a.(next_chunk_idx_) <? len then
    let! c := get_next_chunk a in
    Ok (a, message, [TimerHandler.Resched (F64.sub c.(time) clock)])
  else Ok (a, message, []).

Section Scheduled.
Context {Q : Type} `{EventQueue Q}.
Implicit Types (s : Scheduler.t Q).

Definition send_next_chunk (a : t) s : res (t * Scheduler.t Q * list cmd) :=
  let! (a, message, ops) := next_chunk a s.(Scheduler.clock_) in
  let! (x, s) := TimerHandler.expire a.(next_chunk_timer_) s ops in
  Ok (a <| next_chunk_timer_ := x |>, s, [message]).

Definition send (a : t) s (nbytes : Z) : res (t * Scheduler.t Q * list cmd) :=
  let! (a, alpha) := check_if_using_alpha a in
  if alpha then
    let! a := init_chunks a s.(Scheduler.clock_) nbytes in
    let! (a, s, ms) := send_next_chunk a s in
    Ok (a, s, sendmsg_cmd 0 DAT_NEW :: ms)
  else Ok (a, s, [sendmsg_cmd 0 DAT_NEW; sendmsg_cmd nbytes DAT_EOF]).

(** The timer's [handle], whose [expire] sends the next chunk. *)
Definition expire (a : t) s : res (t * Scheduler.t Q * list cmd) :=
  let! (a, message, ops) := next_chunk a s.(Scheduler.clock_) in
  let! (x, s) := TimerHandler.handle a.(next_chunk_timer_) s ops in
  Ok (a <| next_chunk_timer_ := x |>, s, [message]).
End Scheduled.

(** The chunks of one flow, one after the other, at the given times. *)
Fixpoint send_chunks (a : t) (clocks : list f64) : res (t * list cmd * list (list TimerHandler.cmd)) :=
  match clocks with
  | [] => Ok (a, [], [])
  | clock :: clocks =>
      let! (a, message, ops) := next_chunk a clock in
      let! (a, messages, opss) := send_chunks a clocks in
      Ok (a, message :: messages, ops :: opss)
  end.
End App.
Arguments mk {G}. Arguments rng_ {G}. Arguments next_chunk_timer_ {G}. Arguments cur_chunks_ {G}.
Arguments next_chunk_idx_ {G}. Arguments use_alpha_probability_ {G}. Arguments alpha_ {G}. Arguments link_rate_gbps_ {G}.
Arguments max_num_chunks_ {G}. Arguments packet_size_bytes_ {G}. Arguments header_size_bytes_ {G}.
End ChunksApplication.

(** * Facts *)

Module ChunksFacts.
Import ChunksApplication.

Section Facts.
Context {G : Type} (canonical : G -> G * f64).
Implicit Types (a : t (G := G)) (l : list Chunk).

Definition bytes l : Z := sum_Z size_in_bytes l.

(** The chunks of a flow of [np] packets cut in [nc]: one packet more in the
    first [np mod nc]. *)
Definition packets_of (np nc i : Z) : Z := if i <? np mod nc then np / nc + 1 else np / nc.

Lemma draw_some a g : rng_ a = Some g -> exists g' x, draw canonical a = Ok (a <| rng_ := Some g' |>, x).
Proof. intros Hg. unfold draw. rewrite Hg. cbn. destruct (canonical g) as [g' x]. by exists g', x. Qed.

Lemma random_some a g lo hi :
  rng_ a = Some g -> exists g' x, get_next_random_double canonical a lo hi = Ok (a <| rng_ := Some g' |>, x).
Proof.
  intros Hg. destruct (draw_some a g Hg) as (g' & x & E). unfold get_next_random_double. rewrite E. by eexists _, _.
Qed.

(** The packets of the chunks from [i] on. *)
Fixpoint packets_from (np nc : Z) (n : nat) (i : Z) : Z :=
  match n with O => 0 | S n => packets_of np nc i + packets_from np nc n (i + 1) end.

Lemma packets_from_bounds np nc n i : 0 < nc <= np -> 0 <= packets_from np nc n i.
Proof.
  intros H. revert i. induction n as [|n IH]; intros i; cbn; [done|]. specialize (IH (i + 1)).
  pose proof (Z.div_pos np nc). unfold packets_of. destruct (_ <? _); lia.
Qed.

Lemma packets_from_sum np nc n i :
  0 < nc -> 0 <= i ->
  packets_from np nc n i = Z.of_nat n * (np / nc) + Z.max 0 (Z.min (Z.of_nat n) (np mod nc - i)).
Proof.
  intros Hn. revert i. induction n as [|n IH]; intros i Hi; cbn [packets_from]; [lia|].
  rewrite IH by lia. unfold packets_of. destruct (Z.ltb_spec i (np mod nc)); lia.
Qed.

Lemma packets_all np nc : 0 < nc -> packets_from np nc (Z.to_nat nc) 0 = np.
Proof.
  intros Hn. rewrite packets_from_sum by lia. pose proof (Z.div_mod np nc). pose proof (Z.mod_pos_bound np nc). lia.
Qed.

(** The loop cuts the flow. *)
Lemma chunk_loop_spec n i a g lo hi np nc total :
  rng_ a = Some g -> 0 < packet_size_bytes_ a -> 0 < nc <= np -> 0 <= total ->
  total + packet_size_bytes_ a * packets_from np nc n i < 2 ^ 31 ->
  exists g' l, chunk_loop canonical n i a lo hi (np / nc) (np mod nc) total =
    Ok (a <| rng_ := Some g' |>, l, total + packet_size_bytes_ a * packets_from np nc n i) /\
    length l = n /\ bytes l = packet_size_bytes_ a * packets_from np nc n i /\
    Forall (fun c => exists k, size_in_bytes c = packet_size_bytes_ a * k /\ (k = np / nc \/ k = np / nc + 1)) l.
Proof.
  intros Hg Hps Hn. revert i a g total Hg Hps. induction n as [|n IH]; intros i a g total Hg Hps Ht Hb; cbn [chunk_loop packets_from].
  { exists g, []. rewrite Z.mul_0_r, Z.add_0_r. split; [|done]. rewrite <- Hg. by destruct a. }
  destruct (random_some a g lo hi Hg) as (g1 & x & ->). cbn [res_bind]. cbn [packets_from] in Hb.
  pose proof (packets_from_bounds np nc n (i + 1) Hn) as Hp.
  assert (1 <= np / nc) as Hq by (apply Z.div_le_lower_bound; lia).
  assert (1 <= packets_of np nc i) as Hpo by (unfold packets_of; destruct (_ <? _); lia).
  fold (packets_of np nc i). set (ps := packet_size_bytes_ a) in *.
  change (packet_size_bytes_ (a <| rng_ := Some g1 |>)) with ps.
  assert (ps <= ps * packets_of np nc i) by nia. assert (0 <= ps * packets_from np nc n (i + 1)) by nia.
  unfold imul. rewrite chk_ok by (unfold in_int; lia). cbn [res_bind]. rewrite (proj2 (Z.leb_gt _ 0)) by lia.
  unfold iadd. rewrite chk_ok by (unfold in_int; lia). cbn [res_bind].
  destruct (IH (i + 1) (a <| rng_ := Some g1 |>) g1 (total + ps * packets_of np nc i)) as (g2 & l & E & Hl & Hs & Hf);
    [done|done|lia|change (packet_size_bytes_ (a <| rng_ := Some g1 |>)) with ps; lia|].
  change (packet_size_bytes_ (a <| rng_ := Some g1 |>)) with ps in *. rewrite E. cbn [res_bind].
  exists g2, (mkChunk x (ps * packets_of np nc i) :: l). split; [f_equal; f_equal; lia|].
  split; [cbn; lia|]. split; [unfold bytes, sum_Z in *; cbn; lia|]. constructor; [|done].
  exists (packets_of np nc i). split; [done|]. unfold packets_of. destruct (_ <? _); lia.
Qed.

Lemma sort_perm l : sort_chunks l ≡ₚ l.
Proof. induction l as [|c l IH]; [done|]. cbn [sort_chunks foldr]. rewrite stable_insert_perm. by rewrite <- IH at 2. Qed.

Lemma sort_sorted l :
  Forall (fun c => F64.is_nan (time c) = false) l ->
  StronglySorted (fun x y => F64.le (time x) (time y) = true) (sort_chunks l).
Proof.
  induction 1 as [|c l Hc Hl IH]; [constructor|]. cbn [sort_chunks foldr]. fold (sort_chunks l).
  assert (Forall (fun c => F64.is_nan (time c) = false) (sort_chunks l)) as Hs by (by rewrite sort_perm).
  revert IH Hs. generalize (sort_chunks l). clear Hl. intros k IH Hs. induction IH as [|d k IH1 IH2 Hd]; cbn [stable_insert].
  { by repeat constructor. }
  apply Forall_cons in Hs as [Hnd Hs]. destruct (negb (chunk_lt c d)) eqn:E.
  - constructor; [by apply IH2|]. apply Forall_forall. intros x Hx. rewrite stable_insert_perm in Hx.
    apply elem_of_cons in Hx as [->|Hx]; [|by rewrite Forall_forall in Hd; apply Hd].
    apply F64.le_total; [done|done|]. unfold chunk_lt in E. by destruct (F64.lt (time c) (time d)).
  - assert (F64.le (time c) (time d) = true) as Hcd.
    { apply negb_false_iff in E. unfold chunk_lt in E. apply orb_true_iff in E as [E|E]; [by apply F64.lt_le|].
      apply andb_true_iff in E as [E _]. apply negb_true_iff in E. by apply F64.le_total. }
    constructor; [by constructor|]. constructor; [done|]. eapply Forall_impl; [exact Hd|]. intros x Hx. cbn in Hx. by eapply F64.le_trans.
Qed.

(** What [generate_chunks] computes for a flow of [np] packets. *)
Lemma generate_cases a g start num_bytes :
  rng_ a = Some g -> 0 < packet_size_bytes_ a -> 0 <= header_size_bytes_ a ->
  (packet_size_bytes_ a + header_size_bytes_ a) * 8 < 2 ^ 31 -> 0 <= num_bytes < 2 ^ 31 ->
  let np := num_bytes / packet_size_bytes_ a in
  let nc := Z.min np (max_num_chunks_ a) in
  if nc =? 0 then generate_chunks canonical a start num_bytes = Err UB
  else if nc <? 0 then - 2 ^ 31 <= nc -> generate_chunks canonical a start num_bytes = Err Throw
  else if negb (num_bytes mod packet_size_bytes_ a =? 0) then generate_chunks canonical a start num_bytes = Err Throw
  else exists g' l, generate_chunks canonical a start num_bytes = Ok (a <| rng_ := Some g' |>, l) /\
    Z.of_nat (length l) = nc /\ bytes l = num_bytes /\
    Forall (fun c => exists k, size_in_bytes c = packet_size_bytes_ a * k /\ (k = np / nc \/ k = np / nc + 1)) l /\
    (Forall (fun c => F64.is_nan (time c) = false) l ->
     StronglySorted (fun x y => F64.le (time x) (time y) = true) l).
Proof.
  intros Hg Hps Hh Hbits Hb np nc. set (ps := packet_size_bytes_ a) in *.
  assert (0 <= np <= num_bytes) as Hnp by (split; [by apply Z.div_pos; lia|by apply Z.div_le_upper_bound; nia]).
  assert (Z.quot num_bytes ps = np) as Eq by (apply Z.quot_div_nonneg; lia).
  remember (generate_chunks canonical a start num_bytes) as r eqn:Er.
  unfold generate_chunks in Er. fold ps in Er. unfold idiv at 1 in Er. rewrite (proj2 (Z.eqb_neq ps 0)) in Er by lia.
  rewrite Eq, chk_ok in Er by (unfold in_int; lia). cbn [res_bind] in Er. unfold iadd at 1 in Er.
  rewrite chk_ok in Er by (unfold in_int; lia). cbn [res_bind] in Er.
  unfold imul at 1 in Er. rewrite chk_ok in Er by (unfold in_int, BITS_IN_BYTE; lia). cbn [res_bind] in Er. fold nc in Er. unfold idiv in Er.
  destruct (Z.eqb_spec nc 0) as [E0|E0]; [done|].
  destruct (Z.ltb_spec nc 0) as [Hneg|Hpos].
  { intros Hnc. rewrite Er, chk_ok; [done|]. assert (Z.abs (Z.quot np nc) <= np) as Hq.
    { rewrite <- Z.quot_abs by lia. rewrite (Z.abs_eq np), Z.quot_div_nonneg by lia. apply Z.div_le_upper_bound; nia. }
    unfold in_int. lia. }
  assert (0 < nc <= np) as Hnc by lia. pose proof (Z.div_mod num_bytes ps ltac:(lia)) as Hdm.
  pose proof (Z.mod_pos_bound num_bytes ps Hps) as Hmod. fold np in Hdm.
  rewrite Z.quot_div_nonneg, Z.rem_mod_nonneg in Er by lia.
  pose proof (Z.div_pos np nc ltac:(lia) ltac:(lia)). assert (np / nc <= np) by (apply Z.div_le_upper_bound; nia).
  rewrite chk_ok in Er by (unfold in_int; lia). cbn [res_bind] in Er.
  destruct (chunk_loop_spec (Z.to_nat nc) 0 a g start (F64.add start (F64.mul (F64.mul (alpha_ a) (F64.div (F64.of_Z ((ps + header_size_bytes_ a) * BITS_IN_BYTE))
    (F64.mul (link_rate_gbps_ a) (F64.of_Z 1000000000)))) (F64.of_Z np))) np nc 0 Hg Hps Hnc) as (g' & l & E & Hl & Hs & Hf);
    [lia|fold ps; rewrite packets_all by lia; lia|].
  rewrite E in Er. cbn [res_bind] in Er. fold ps in Hs, Hf, Er. rewrite packets_all in Er, Hs by lia. rewrite Er.
  destruct (Z.eqb_spec (num_bytes mod ps) 0) as [Em|Em]; cbn [negb].
  - rewrite (proj2 (Z.eqb_eq _ num_bytes)) by lia. cbn [negb]. exists g', (sort_chunks l). split; [done|].
    pose proof (sort_perm l) as HP. split; [rewrite HP; lia|]. split; [unfold bytes; rewrite (sum_Z_perm _ _ _ HP); unfold bytes in Hs; lia|].
    split; [by rewrite HP|]. intros Hn. apply sort_sorted. by rewrite HP in Hn.
  - rewrite (proj2 (Z.eqb_neq _ num_bytes)) by lia. done.
Qed.

(** Sending the chunks from index [i] on. *)
Lemma send_chunks_from l i a clocks :
  drop i (cur_chunks_ a) = l -> next_chunk_idx_ a = Z.of_nat i -> length clocks = length l ->
  exists messages opss, send_chunks a clocks =
      Ok (a <| next_chunk_idx_ := Z.of_nat i + Z.of_nat (length l) |>, messages, opss) /\
    messages = imap (fun j c => sendmsg_cmd (size_in_bytes c) (if decide (S j = length l) then DAT_EOF else NO_FLAG)) l /\
    opss = map (fun p => [TimerHandler.Resched (F64.sub (time (snd p)) (fst p))]) (zip clocks (tail l)) ++ (if l is [] then [] else [[]]).
Proof.
  revert i a clocks. induction l as [|c l IH]; intros i a clocks Hd Hi Hlen.
  { destruct clocks; [|done]. exists [], []. cbn. split; [|done]. rewrite Z.add_0_r, <- Hi. by destruct a. }
  destruct clocks as [|clock clocks]; [done|]. cbn [send_chunks].
  assert (cur_chunks_ a !! i = Some c /\ drop (S i) (cur_chunks_ a) = l) as [Hc Hd'].
  { split; [rewrite <- (Nat.add_0_r i), <- lookup_drop, Hd; done|]. rewrite <- Nat.add_1_r, <- drop_drop, Hd. done. }
  assert (length (cur_chunks_ a) = i + S (length l))%nat as Hlc.
  { apply (f_equal length) in Hd. rewrite length_drop in Hd. cbn in Hd. apply lookup_lt_Some in Hc. lia. }
  set (a1 := a <| next_chunk_idx_ := next_chunk_idx_ a + 1 |>).
  destruct (IH (S i) a1 clocks) as (ms & ops & E & -> & ->); [done|cbn; lia|cbn in Hlen; lia|].
  unfold next_chunk, get_next_chunk. rewrite Hi, (proj2 (Z.ltb_ge _ 0)), Nat2Z.id, Hc by lia. cbn [deref res_bind].
  change (next_chunk_idx_ (a <| next_chunk_idx_ := Z.of_nat i + 1 |>)) with (Z.of_nat i + 1). rewrite Hlc.
  assert (a <| next_chunk_idx_ := Z.of_nat i + 1 |> = a1) as -> by (unfold a1; by rewrite Hi).
  change (cur_chunks_ a1) with (cur_chunks_ a).
  destruct l as [|d l].
  - rewrite (proj2 (Z.eqb_eq _ _)), (proj2 (Z.ltb_ge _ _)) by (cbn; lia). cbn [res_bind]. rewrite E. cbn [res_bind].
    eexists _, _. split; [f_equal; f_equal; f_equal; cbn [length]; unfold a1; cbn; f_equal; lia|].
    destruct clocks; [|done]. done.
  - rewrite (proj2 (Z.eqb_neq _ _)), (proj2 (Z.ltb_lt _ _)) by (cbn; lia).
    rewrite (proj2 (Z.ltb_ge _ 0)) by lia.
    assert (cur_chunks_ a !! Z.to_nat (Z.of_nat i + 1) = Some d) as ->.
    { replace (Z.to_nat (Z.of_nat i + 1)) with (S i + 0)%nat by lia. by rewrite <- lookup_drop, Hd'. }
    cbn [deref res_bind]. rewrite E. cbn [res_bind]. eexists _, _.
    split; [f_equal; f_equal; f_equal; unfold a1; cbn [length]; cbn -[Z.of_nat]; f_equal; lia|].
    split; [|done]. rewrite (imap_cons _ c). f_equal. apply imap_ext. intros j x _. cbn [compose length]. destruct (decide _), (decide _); done || lia.
Qed.
End Facts.
End ChunksFacts.

(** * Properties *)

Module ChunksProps.
Import ChunksApplication ChunksFacts.

Section Props.
Context {G : Type} (canonical : G -> G * f64).
Implicit Types (a : t (G := G)).

(** The parameters of the scripts: packets of a positive size, and a seed. *)
Record configured a (g : G) : Prop := {
  cf_seed : rng_ a = Some g;
  cf_packet : 0 < packet_size_bytes_ a /\ 0 <= header_size_bytes_ a /\
    (packet_size_bytes_ a + header_size_bytes_ a) * 8 < 2 ^ 31;
  cf_max : in_int (max_num_chunks_ a)
}.

(** C32: which flows can be cut in chunks, and into what.  With [np] whole
    packets in the flow and [nc] the smaller of [np] and the largest number of
    chunks: [generate_chunks] divides by zero when [nc] is 0, so also for a
    flow of less than one packet; it throws when [nc] is negative or the flow
    is not a whole number of packets; in all other cases it returns [nc]
    chunks, ordered by time, of [np / nc] or [np / nc + 1] packets each, which
    add up to the flow. *)
Theorem chunks_or_error a g start num_bytes :
  configured a g -> 0 <= num_bytes < 2 ^ 31 ->
  let np := num_bytes / packet_size_bytes_ a in
  let nc := Z.min np (max_num_chunks_ a) in
  if nc =? 0 then generate_chunks canonical a start num_bytes = Err UB
  else if nc <? 0 then generate_chunks canonical a start num_bytes = Err Throw
  else if negb (num_bytes mod packet_size_bytes_ a =? 0) then generate_chunks canonical a start num_bytes = Err Throw
  else exists g' l, generate_chunks canonical a start num_bytes = Ok (a <| rng_ := Some g' |>, l) /\
    Z.of_nat (length l) = nc /\ sum_Z size_in_bytes l = num_bytes /\
    Forall (fun c => exists k, size_in_bytes c = packet_size_bytes_ a * k /\ (k = np / nc \/ k = np / nc + 1)) l /\
    (Forall (fun c => F64.is_nan (time c) = false) l ->
     StronglySorted (fun x y => F64.le (time x) (time y) = true) l).
Proof.
  intros [Hg (Hps & Hh & Hbits) Hmax] Hb np nc.
  pose proof (generate_cases canonical a g start num_bytes Hg Hps Hh Hbits Hb) as H. fold np nc in H. cbv zeta in H. fold np nc in H.
  destruct (nc =? 0); [done|]. destruct (Z.ltb_spec nc 0) as [Hn|Hn]; [|done]. apply H.
  assert (0 <= np) by (by apply Z.div_pos; lia). unfold in_int in Hmax. lia.
Qed.

Definition nbytes (m : cmd) : Z := match m with sendmsg_cmd n _ => n | _ => 0 end.

(** C23: the flow arrives at the agent whole: when the chunks are sent one
    after the other, at whatever times, each call of the agent hands over a
    positive number of bytes, together they are the bytes of the flow, exactly
    the last one marks the end of the flow (DAT_EOF), and the timer is set
    again after every chunk but the last. *)
Theorem flow_in_chunks a g clock num_bytes a' clocks :
  configured a g -> 0 <= num_bytes < 2 ^ 31 ->
  init_chunks canonical a clock num_bytes = Ok a' -> length clocks = length (cur_chunks_ a') ->
  exists a'' ms n os, send_chunks a' clocks = Ok (a'', ms ++ [sendmsg_cmd n DAT_EOF], os ++ [[]]) /\
    sum_Z nbytes ms + n = num_bytes /\ 0 < n /\
    Forall (fun m => exists k, 0 < k /\ m = sendmsg_cmd k NO_FLAG) ms /\
    Forall (fun o => exists d, o = [TimerHandler.Resched d]) os /\ length os = length ms /\
    Z.of_nat (S (length ms)) = Z.min (num_bytes / packet_size_bytes_ a) (max_num_chunks_ a).
Proof.
  intros [Hg (Hps & Hh & Hbits) Hmax] Hb Hinit Hlen. unfold init_chunks in Hinit.
  pose proof (generate_cases canonical a g clock num_bytes Hg Hps Hh Hbits Hb) as H. cbv zeta in H.
  set (np := num_bytes / packet_size_bytes_ a) in *. set (nc := Z.min np (max_num_chunks_ a)) in *.
  assert (0 <= np) as Hnp by (by apply Z.div_pos; lia).
  destruct (Z.eqb_spec nc 0) as [|Hn0]; [by rewrite H in Hinit|].
  destruct (Z.ltb_spec nc 0) as [Hn|Hn]; [rewrite H in Hinit; [done|unfold in_int in Hmax; lia]|].
  destruct (negb _); [by rewrite H in Hinit|].
  destruct H as (g' & l & E & Hl & Hs & Hf & _). rewrite E in Hinit. cbn [res_bind] in Hinit. injection Hinit as <-.
  cbn [cur_chunks_ field_update] in Hlen.
  destruct (send_chunks_from l 0 (a <| rng_ := Some g' |> <| cur_chunks_ := l |> <| next_chunk_idx_ := 0 |>) clocks)
    as (messages & opss & Es & -> & ->); [done..|].
  destruct (snoc_cases l) as [->|(k & c & ->)]; [cbn in Hl; lia|].
  assert (1 <= np / nc) as Hq by (apply Z.div_le_lower_bound; lia).
  assert (Forall (fun c => 0 < size_in_bytes c) (k ++ [c])) as Hpos.
  { eapply Forall_impl; [exact Hf|]. intros d (j & -> & Hj). cbn. nia. }
  apply Forall_app in Hpos as [Hk Hc]. apply Forall_cons in Hc as [Hc _].
  rewrite length_app in Hl. cbn in Hl. unfold bytes in Hs. rewrite sum_Z_app in Hs. cbn in Hs.
  rewrite imap_app in Es. cbn [imap] in Es. rewrite length_app in Es. cbn [length] in Es.
  rewrite decide_True in Es by lia.
  assert ((if k ++ [c] is [] then [] else [[]]) = [[]] :> list (list TimerHandler.cmd)) as Eif by (by destruct k).
  rewrite Eif in Es. eexists _, _, _, _. split; [exact Es|]. rewrite length_imap, length_map.
  assert (forall n, (length k <= n)%nat -> imap (fun j c => sendmsg_cmd (size_in_bytes c) (if decide (S j = (n + 1)%nat) then DAT_EOF else NO_FLAG)) k =
    map (fun c => sendmsg_cmd (size_in_bytes c) NO_FLAG) k) as Emap.
  { intros n Hn'. apply list_eq. intros j. rewrite list_lookup_imap, list_lookup_fmap. destruct (k !! j) as [d|] eqn:Ed; [|done].
    apply lookup_lt_Some in Ed. cbn. by rewrite decide_False by lia. }
  rewrite (Emap (length k)) by lia. split; [|split; [lia|split; [|split; [|split]]]].
  - enough (sum_Z nbytes (map (fun c => sendmsg_cmd (size_in_bytes c) NO_FLAG) k) = sum_Z size_in_bytes k) as -> by lia.
    unfold sum_Z. clear. induction k as [|d k IH]; cbn; [done|]. by rewrite IH.
  - apply Forall_map. eapply Forall_impl; [exact Hk|]. intros d Hd. by exists (size_in_bytes d).
  - apply Forall_map, Forall_forall. intros p _. by eexists.
  - rewrite length_zip_with. rewrite length_app in Hlen. destruct k; cbn in *; rewrite ?length_app; cbn; lia.
  - lia.
Qed.
End Props.
End ChunksProps.

(** * Witnesses: four packets of 1460 bytes in at most three chunks. *)

Module ChunksWitness.
Import ChunksApplication ChunksFacts ChunksProps.

(** A generator that counts. *)
Definition count (n : Z) : Z * f64 := ((n + 1) mod 8, F64.ratio n 8).

Definition app : t (G := Z) :=
  mk (Some 5) (TimerHandler.create 1 1) [] 0 (F64.of_Z (-1)) (F64.of_Z 2) (F64.of_Z 10) 3 1460 40.

Lemma app_configured : configured app 5.
Proof. split; [done|by split|done]. Qed.

Lemma chunks_or_error_witness :
  exists g' l, generate_chunks count app F64.zero 5840 = Ok (app <| rng_ := Some g' |>, l) /\
    Z.of_nat (length l) = 3 /\ sum_Z size_in_bytes l = 5840 /\
    Forall (fun c => exists k, size_in_bytes c = 1460 * k /\ (k = 1 \/ k = 2)) l /\
    (Forall (fun c => F64.is_nan (time c) = false) l ->
     StronglySorted (fun x y => F64.le (time x) (time y) = true) l).
Proof. exact (chunks_or_error count app 5 F64.zero 5840 app_configured ltac:(lia)). Defined.

Definition app' : t (G := Z) :=
  Eval vm_compute in match init_chunks count app F64.zero 5840 with Ok a => a | Err _ => app end.

Lemma flow_in_chunks_witness :
  exists a'' ms n os, send_chunks app' (replicate 3 F64.zero) = Ok (a'', ms ++ [sendmsg_cmd n DAT_EOF], os ++ [[]]) /\
    sum_Z nbytes ms + n = 5840 /\ 0 < n /\
    Forall (fun m => exists k, 0 < k /\ m = sendmsg_cmd k NO_FLAG) ms /\
    Forall (fun o => exists d, o = [TimerHandler.Resched d]) os /\ length os = length ms /\
    Z.of_nat (S (length ms)) = Z.min (5840 / 1460) 3.
Proof.
  apply (flow_in_chunks count app 5 F64.zero 5840 app' (replicate 3 F64.zero)).
  - exact app_configured.
  - lia.
  - vm_compute. reflexivity.
  - reflexivity.
Defined.
End ChunksWitness.
