(* ===== verification/MapSched.v ===== *)
(** * The map scheduler

    [MapScheduler] (src/ns2/common/scheduler-map.cc): the events are a
    [std::set] of pointers ordered by time and uid.  The set is the list of
    its elements in that order; [begin], [find], [insert] and [erase] are what
    the standard says of them.  Reading through an iterator that does not
    point to an element (the end of the set, or an element that has been
    erased) is undefined behaviour, so this scheduler implements only half of
    [EventQueue]. *)

From Stdlib Require Import ZArith Lia Bool Sorted SpecFloat.
From stdpp Require Import base list gmap.
From S2P Require Import Prelude F64 PktQueue Sched ListSched.

Module MapScheduler.

Record t := mk { EventQueue_ : list addr }.

#[global] Instance eta_t : Eta t := fun q => mk (EventQueue_ q).

Definition create : t := mk [].

(** [event_less_adapter]. *)
Definition less (s : evs) (e1 e2 : addr) : res bool :=
  let! v1 := deref (s !! e1) in
  let! v2 := deref (s !! e2) in
  Ok (F64.lt v1.(time_) v2.(time_) || F64.eq v1.(time_) v2.(time_) && (v1.(uid_) <? v2.(uid_))).

(** [std::set::insert]: nothing happens when an equivalent element is there. *)
Fixpoint set_insert (s : evs) (e : addr) (l : list addr) : res (list addr) :=
  match l with
  | [] => Ok [e]
  | x :: l' =>
      let! b := less s x e in
      if b then let! r := set_insert s e l' in Ok (x :: r)
      else let! b := less s e x in Ok (if b then e :: l else l)
  end.

(** [std::set::find] and [erase]: the elements before and after the one that
    is equivalent. *)
Fixpoint set_find (s : evs) (e : addr) (l : list addr) : res (option (list addr * list addr)) :=
  match l with
  | [] => Ok None
  | x :: l' =>
      let! b := less s x e in
      if b then
        let! r := set_find s e l' in
        Ok (match r with Some (l1, l2) => Some (x :: l1, l2) | None => None end)
      else let! b := less s e x in Ok (if b then None else Some ([], l'))
  end.

Definition insert (s : evs) (q : t) (e : addr) : res t :=
  let! l := set_insert s e q.(EventQueue_) in Ok (q <| EventQueue_ := l |>).

Definition cancel (s : evs) (q : t) (p : addr) : res (evs * t) :=
  let! r := set_find s p q.(EventQueue_) in
  match r with
  | None => Ok (s, q)
  | Some (l1, l2) =>
      let! ev := deref (s !! p) in
      Ok (<[p := ev <| uid_ := - ev.(uid_) |>]> s, q <| EventQueue_ := l1 ++ l2 |>)
  end.

Fixpoint lookup_loop (s : evs) (uid : Z) (l : list addr) : res (option addr) :=
  match l with
  | [] => Ok None
  | e :: l' =>
      let! ev := deref (s !! e) in
      if ev.(uid_) =? uid then Ok (Some e) else lookup_loop s uid l'
  end.

Definition lookup (s : evs) (q : t) (uid : Z) : res (option addr) := lookup_loop s uid q.(EventQueue_).

(** [*eIT], the iterator having been erased. *)
Definition deque (q : t) : res (t * option addr) :=
  match q.(EventQueue_) with
  | [] => Ok (q, None)
  | _ :: _ => Err UB
  end.

(** [*EventQueue_.begin ()]. *)
Definition head (q : t) : res addr := deref (list.head q.(EventQueue_)).
End MapScheduler.

(** * Facts *)

Module MapFacts.
Import MapScheduler SchedFacts.

Lemma less_before s a b :
  is_Some (s !! a) -> is_Some (s !! b) ->
  exists r, less s a b = Ok r /\ (r = true <-> before s a b).
Proof.
  intros [ea Ha] [eb Hb]. unfold less, before. rewrite Ha, Hb, (key_of_Some _ _ _ Ha), (key_of_Some _ _ _ Hb).
  eexists. split; [done|]. unfold key_before. cbn. rewrite orb_true_iff, andb_true_iff, Z.ltb_lt. done.
Qed.

Lemma less_true s a b : is_Some (s !! a) -> is_Some (s !! b) -> before s a b -> less s a b = Ok true.
Proof. intros Ha Hb H. destruct (less_before s a b Ha Hb) as (r & -> & Hr). by rewrite (proj2 Hr H). Qed.

Lemma less_false s a b : is_Some (s !! a) -> is_Some (s !! b) -> ~ before s a b -> less s a b = Ok false.
Proof. intros Ha Hb H. destruct (less_before s a b Ha Hb) as (r & -> & Hr). destruct r; [|done]. by destruct H; apply Hr. Qed.

Lemma before_asym s a b : before s a b -> ~ before s b a.
Proof. intros H1 H2. apply (key_before_irrefl (key_of s a)). by transitivity (key_of s b). Qed.

(** Inserting an event with the largest uid is the insertion of the other
    schedulers. *)
Lemma set_insert_ok s e l :
  queued s l -> is_Some (s !! e) -> F64.is_nan (time_of s e) = false ->
  (forall b, b ∈ l -> uid_of s b < uid_of s e) ->
  set_insert s e l = Ok (stable_insert (not_later s) e l).
Proof.
  induction l as [|x l IH]; intros Hq He Hn Hu; [done|]. cbn [set_insert stable_insert].
  destruct (queued_valid _ _ Hq x) as (Hx & Hnx & _); [set_solver|].
  pose proof (not_later_before s x e Hnx Hn (Hu x ltac:(set_solver))) as Hb.
  destruct (not_later s x e).
  - rewrite (less_true s x e) by done. cbn [res_bind]. rewrite IH; [done|by apply queued_tail in Hq as [? _]|done|done|set_solver].
  - rewrite (less_false s x e); [|done|done|by apply before_asym]. cbn [res_bind]. by rewrite (less_true s e x).
Qed.

Lemma set_find_in s l1 e l2 :
  queued s (l1 ++ e :: l2) -> set_find s e (l1 ++ e :: l2) = Ok (Some (l1, l2)).
Proof.
  intros Hq. destruct (queued_valid _ _ Hq e) as (He & _); [set_solver|].
  induction l1 as [|x l1 IH]; cbn [app set_find].
  - rewrite !(less_false s e e); try done. by apply key_before_irrefl.
  - destruct (queued_valid _ _ Hq x) as (Hx & _); [set_solver|]. apply queued_tail in Hq as [Hq Hb].
    rewrite Forall_forall in Hb. rewrite (less_true s x e); [|done|done|apply Hb; set_solver]. cbn [res_bind]. by rewrite IH.
Qed.

(** An event that is not in the set has no equivalent there, uids being
    unique. *)
Lemma set_find_out s e l :
  queued s l -> is_Some (s !! e) -> (forall b, b ∈ l -> uid_of s b <> uid_of s e) ->
  F64.is_nan (time_of s e) = false -> set_find s e l = Ok None.
Proof.
  induction l as [|x l IH]; intros Hq He Hu Hn; [done|]. cbn [set_find].
  destruct (queued_valid _ _ Hq x) as (Hx & Hnx & _); [set_solver|]. pose proof (Hu x ltac:(set_solver)) as Hux.
  destruct (less_before s x e Hx He) as ([] & -> & Hr); cbn [res_bind].
  - rewrite IH; [done|by apply queued_tail in Hq as [? _]|done|set_solver|done].
  - assert (before s e x) as Hb.
    { pose proof (Z.lt_trichotomy (uid_of s x) (uid_of s e)) as [H|[H|H]]; [|done|].
      - pose proof (not_later_before s x e Hnx Hn H) as Hc. destruct (not_later s x e); [|done]. by apply Hr in Hc.
      - pose proof (not_later_before s e x Hn Hnx H) as Hc. destruct (not_later s e x); [done|]. by apply Hr in Hc. }
    by rewrite (less_true s e x).
Qed.

Lemma lookup_loop_ok s u l :
  (forall a, a ∈ l -> is_Some (s !! a)) ->
  exists r, lookup_loop s u l = Ok r /\
    match r with Some a => a ∈ l /\ uid_of s a = u | None => Forall (fun a => uid_of s a <> u) l end.
Proof.
  induction l as [|p l IH]; intros Hv; cbn; [by exists None|].
  destruct (Hv p) as [ev Hp]; [set_solver|]. rewrite Hp. cbn.
  destruct (Z.eqb_spec (uid_ ev) u) as [E|E].
  - exists (Some p). split; [done|]. split; [set_solver|]. by rewrite (uid_of_Some _ _ _ Hp).
  - destruct IH as (r & -> & Hr); [set_solver|]. exists r. split; [done|].
    destruct r as [a|]; [set_solver|]. constructor; [|done]. by rewrite (uid_of_Some _ _ _ Hp).
Qed.
End MapFacts.

(** * Properties *)

Module MapProps.
Import MapScheduler SchedFacts MapFacts.

(** The map scheduler can be filled but not emptied.  On a set that holds
    the events of [L], [insert] of a new event, [cancel] of a queued one (which
    leaves the set alone for any other) and [lookup] do what the contract of the event queues asks; but [deque] is
    undefined behaviour whenever an event is queued, for it reads through the
    iterator it has erased, and [head] is undefined when none is. *)
Theorem map_deque_undefined s L :
  queued s L ->
  (forall e, is_Some (s !! e) -> F64.is_nan (time_of s e) = false -> (forall b, b ∈ L -> uid_of s b < uid_of s e) ->
    insert s (mk L) e = Ok (mk (stable_insert (not_later s) e L))) /\
  (forall e, e ∈ L -> cancel s (mk L) e = Ok (negate_uid s e, mk (remove_one e L))) /\
  (forall e, is_Some (s !! e) -> F64.is_nan (time_of s e) = false -> (forall b, b ∈ L -> uid_of s b <> uid_of s e) ->
    cancel s (mk L) e = Ok (s, mk L)) /\
  (forall u, exists r, lookup s (mk L) u = Ok r /\
    match r with Some a => a ∈ L /\ uid_of s a = u | None => Forall (fun a => uid_of s a <> u) L end) /\
  (deque (mk L) = if L is [] then Ok (mk [], None) else Err UB) /\
  (head (mk L) = match L with [] => Err UB | e :: _ => Ok e end).
Proof.
  intros Hq. split; [|split; [|split; [|split; [|split; by destruct L]]]].
  - intros e He Hn Hu. unfold insert. cbn. by rewrite set_insert_ok.
  - intros e He. destruct (queued_valid _ _ Hq e He) as ([ev Hev] & _).
    pose proof (queued_nodup _ _ Hq) as Hd. apply list_elem_of_split in He as (l1 & l2 & ->).
    unfold cancel. cbn [EventQueue_]. rewrite set_find_in by done. cbn [res_bind]. rewrite Hev. cbn [deref res_bind].
    rewrite (negate_uid_Some _ _ _ Hev), remove_one_split; [done|]. apply NoDup_app in Hd as (_ & Hd & _). intros Hin. apply (Hd e Hin). set_solver.
  - intros e He Hn Hu. unfold cancel. cbn [EventQueue_]. by rewrite set_find_out.
  - intros u. apply lookup_loop_ok. intros a Ha. by apply (queued_valid _ _ Hq).
Qed.
End MapProps.

Module MapWitness.
Import MapScheduler SchedFacts MapProps ListWitness.

Lemma map_deque_undefined_witness :
  (forall e, is_Some (demo_events !! e) -> F64.is_nan (time_of demo_events e) = false ->
    (forall b, b ∈ [1%positive; 2%positive] -> uid_of demo_events b < uid_of demo_events e) ->
    insert demo_events (mk [1%positive; 2%positive]) e =
      Ok (mk (stable_insert (not_later demo_events) e [1%positive; 2%positive]))) /\
  (forall e, e ∈ [1%positive; 2%positive] -> cancel demo_events (mk [1%positive; 2%positive]) e =
    Ok (negate_uid demo_events e, mk (remove_one e [1%positive; 2%positive]))) /\
  (forall e, is_Some (demo_events !! e) -> F64.is_nan (time_of demo_events e) = false ->
    (forall b, b ∈ [1%positive; 2%positive] -> uid_of demo_events b <> uid_of demo_events e) ->
    cancel demo_events (mk [1%positive; 2%positive]) e = Ok (demo_events, mk [1%positive; 2%positive])) /\
  (forall u, exists r, lookup demo_events (mk [1%positive; 2%positive]) u = Ok r /\
    match r with
    | Some a => a ∈ [1%positive; 2%positive] /\ uid_of demo_events a = u
    | None => Forall (fun a => uid_of demo_events a <> u) [1%positive; 2%positive]
    end) /\
  deque (mk [1%positive; 2%positive]) = Err UB /\
  head (mk [1%positive; 2%positive]) = Ok 1%positive.
Proof. exact (map_deque_undefined demo_events [1%positive; 2%positive] (sinv_queued _ _ _ demo_sinv)). Defined.
End MapWitness.
