(* ===== verification/Route.v ===== *)
(** * Route computation

    [RouteLogic] (src/ns2/routing/route.h, route.cc) with flat addresses: the
    matrix of link costs, Dijkstra's algorithm from every source, and the
    table of next hops that the nodes' classifiers are filled from.

    The matrices are arrays of [size_] rows; node [i] has index [i + 1], index
    0 is a sentinel.  An element of the array [hopcnt] of [compute_routes] is
    [None] until it is assigned. *)

From Stdlib Require Import ZArith Lia Bool SpecFloat.
From stdpp Require Import base list.
From S2P Require Import Prelude F64 F64Exact PktQueue.

Module RouteLogic.

Record adj_entry := mkAdj { cost : f64; entry : option addr }.

Record route_entry := mkRoute { next_hop : Z; rt_entry : option addr }.

Record t := mk {
  adj_ : option (list adj_entry);
  route_ : option (list route_entry);
  size_ : Z
}.

#[global] Instance eta_adj : Eta adj_entry := fun a => mkAdj (cost a) (entry a).
#[global] Instance eta_t : Eta t := fun q => mk (adj_ q) (route_ q) (size_ q).

Definition INFINITY : f64 := F64.of_Z 16383.

Definition INDEX (i j N : Z) : res Z := let! a := imul N i in iadd a j.

Definition create : t := mk None None 0.

Definition reset_all (q : t) : t := mk None None 0.

(** ** The matrix of costs *)

Definition alloc (q : t) (n : Z) : res t :=
  let! nn := imul n n in
  Ok (q <| size_ := n |> <| adj_ := Some (replicate (Z.to_nat nn) (mkAdj INFINITY None)) |>).

(** The copy of the old costs, element by element. *)
Definition copy_costs (old : list adj_entry) (osize m : Z) (new : list adj_entry) : res (list adj_entry) :=
  for_range 0 osize (fun i new => for_range 0 osize (fun j new =>
    let! to := INDEX i j m in
    let! from := INDEX i j osize in
    let! a := aget old from in
    let! b := aget new to in
    aset new to (b <| cost := a.(cost) |>)) new) new.

Definition check (q : t) (n : Z) : res t :=
  if n <? q.(size_) then Ok q
  else
    let osize := q.(size_) in
    let! m := doubled 32 (if osize =? 0 then 16 else osize) n in
    let! q' := alloc q m in
    let! new := deref q'.(adj_) in
    let! new := match q.(adj_) with
                | Some old => copy_costs old osize m new
                | None => if osize =? 0 then Ok new else Err UB
                end in
    Ok (q' <| adj_ := Some new |>).

Definition set_adj (q : t) (i j : Z) (f : adj_entry -> adj_entry) : res t :=
  let! l := deref q.(adj_) in
  let! k := INDEX i j q.(size_) in
  let! a := aget l k in
  let! l := aset l k (f a) in
  Ok (q <| adj_ := Some l |>).

Definition insert (q : t) (src dst : Z) (c : f64) : res t :=
  let! q := check q src in
  let! q := check q dst in
  set_adj q src dst (fun a => a <| cost := c |>).

Definition insert_with (q : t) (src dst : Z) (c : f64) (e : option addr) : res t :=
  let! q := check q src in
  let! q := check q dst in
  set_adj q src dst (fun _ => mkAdj c e).

Definition reset (q : t) (src dst : Z) : res t :=
  if (src <? q.(size_)) && (dst <? q.(size_))
  then set_adj q src dst (fun a => a <| cost := INFINITY |>)
  else Err Abort.

(** ** Dijkstra's algorithm *)

Record work := mkWork {
  parent : list Z;
  hopcnt : list (option f64);
  routes : list route_entry
}.

#[global] Instance eta_work : Eta work := fun w => mkWork (parent w) (hopcnt w) (routes w).

Definition ADJ (q : t) (i j : Z) : res adj_entry :=
  let! l := deref q.(adj_) in
  let! k := INDEX i j q.(size_) in
  aget l k.

Definition hops (w : work) (v : Z) : res f64 := let! h := aget w.(hopcnt) v in deref h.

Definition set_route (q : t) (w : work) (i j : Z) (r : route_entry) : res work :=
  let! k := INDEX i j q.(size_) in
  let! l := aset w.(routes) k r in
  Ok (w <| routes := l |>).

Definition set_hops (w : work) (v : Z) (x : f64) : res work :=
  let! l := aset w.(hopcnt) v (Some x) in
  Ok (w <| hopcnt := l |>).

(** The route to a neighbour. *)
Definition neighbour (q : t) (k v : Z) (w : work) : res work :=
  let! p := aget w.(parent) v in
  if p =? k then Ok w
  else
    let! a := ADJ q k v in
    let! w := set_hops w v a.(cost) in
    if F64.eq a.(cost) INFINITY then Ok w else set_route q w k v (mkRoute v a.(entry)).

(** The node nearest to the tree, or 0. *)
Definition nearer (k : Z) (w : work) (v o : Z) : res Z :=
  let! p := aget w.(parent) v in
  if p =? k then Ok o
  else
    let! hv := hops w v in
    let! ho := hops w o in
    Ok (if F64.lt hv ho then v else o).

(** The distance over [o]. *)
Definition relax (q : t) (k o v : Z) (w : work) : res work :=
  let! p := aget w.(parent) v in
  if p =? k then Ok w
  else
    let! ho := hops w o in
    let! a := ADJ q o v in
    let! hv := hops w v in
    if F64.lt (F64.add ho a.(cost)) hv then
      let! i := INDEX k o q.(size_) in
      let! r := aget w.(routes) i in
      let! w := set_route q w k v r in
      set_hops w v (F64.add ho a.(cost))
    else Ok w.

(** One turn of the main loop. *)
Definition turn (q : t) (k : Z) (w : work) : res work :=
  let! w := set_hops w 0 INFINITY in
  let! o := for_range 1 q.(size_) (nearer k w) 0 in
  let! l := aset w.(parent) o k in
  let w := w <| parent := l |> in
  if o =? 0 then Ok w else for_range 1 q.(size_) (relax q k o) w.

(** The routes from source [k]. *)
Definition source (q : t) (k : Z) (w : work) : res work :=
  let w := w <| parent := map Z.of_nat (seq 0 (Z.to_nat q.(size_))) |> in   (* parent[v] = v *)
  let! w := for_range 1 q.(size_) (neighbour q k) w in
  for_range 1 q.(size_) (fun _ => turn q k) w.

Definition compute_routes (q : t) : res t :=
  let n := q.(size_) in
  let! nn := imul n n in
  let w := mkWork [] (replicate (Z.to_nat n) None) (replicate (Z.to_nat nn) (mkRoute 0 None)) in
  let! w := for_range 1 n (source q) w in
  let! w := for_range 1 n (fun k w => set_route q w k k (mkRoute k None)) w in
  Ok (q <| route_ := Some w.(routes) |>).

(** ** Commands *)

(** The command insert: [false] is an error. *)
Definition command_insert (q : t) (src dst : Z) (c : f64) : res (t * bool) :=
  let! src := iadd src 1 in
  let! dst := iadd dst 1 in
  if (src <=? 0) || (dst <=? 0) then Ok (q, false) else let! q := insert q src dst c in Ok (q, true).

Definition command_reset (q : t) (src dst : Z) : res (t * bool) :=
  let! src := iadd src 1 in
  let! dst := iadd dst 1 in
  if (src <=? 0) || (dst <=? 0) then Ok (q, false) else let! q := reset q src dst in Ok (q, true).

Definition command_compute (q : t) : res t :=
  match q.(adj_) with None => Ok q | Some _ => compute_routes q end.

(** The next hop, or -1: routes are not computed yet, or there is none; -2: a
    node is out of range. *)
Definition lookup_flat (q : t) (sid did : Z) : res Z :=
  let! src := iadd sid 1 in
  let! dst := iadd did 1 in
  match q.(route_) with
  | None => Ok (-1)
  | Some l =>
      if (q.(size_) <=? src) || (q.(size_) <=? dst) then Ok (-2)
      else
        let! k := INDEX src dst q.(size_) in
        let! r := aget l k in
        isub r.(next_hop) 1
  end.

(** The command lookup: [None] is an error. *)
Definition lookup_command (q : t) (asrc adst : Z) : res (option Z) :=
  let! src := iadd asrc 1 in
  let! dst := iadd adst 1 in
  match q.(route_) with
  | None => Ok None
  | Some l =>
      if (q.(size_) <=? src) || (q.(size_) <=? dst) then Ok None
      else
        let! k := INDEX src dst q.(size_) in
        let! r := aget l k in
        let! nh := isub r.(next_hop) 1 in
        Ok (Some nh)
  end.
End RouteLogic.
