(* ===== verification/RouteSpec.v ===== *)
(** * Shortest paths

    Walks over weighted links, and Dijkstra's algorithm on functions: the
    invariant of a tree of visited nodes with tentative distances, kept by
    visiting the nearest node. *)

From Stdlib Require Import ZArith Lia Bool.
From stdpp Require Import base list.
From S2P Require Import Prelude.

Module ShortestPaths.

Section dijkstra.
(** Nodes are [1 .. n - 1]; a weight of [inf] is no link. *)
Context (n inf : Z) (W : Z -> Z -> Z).

Definition node (v : Z) : Prop := 1 <= v < n.

Hypothesis Winf : forall i j, node i -> node j -> 1 <= W i j <= inf.

(** A walk from a node over the nodes of a list to the last of them. *)
Inductive walk : Z -> list Z -> Z -> Z -> Prop :=
  | walk_here i : node i -> walk i [] i 0
  | walk_hop i h l j c : node i -> W i h < inf -> walk h l j c -> walk i (h :: l) j (W i h + c).

Definition shortest (i j d : Z) : Prop :=
  (exists l, walk i l j d) /\ forall l c, walk i l j c -> d <= c.

Lemma walk_nodes i l j c : walk i l j c -> node i /\ node j /\ 0 <= c.
Proof.
  induction 1 as [i Hi|i h l j c Hi HW _ (Hh & Hj & Hc)]; [done|].
  pose proof (Winf i h Hi Hh). repeat split; [apply Hi..|apply Hj|apply Hj|lia].
Qed.

Lemma walk_app i l j c l' k c' : walk i l j c -> walk j l' k c' -> walk i (l ++ l') k (c + c').
Proof.
  induction 1 as [i Hi|i h l j c Hi HW _ IH]; intros H'; [done|].
  rewrite <- Z.add_assoc. cbn. constructor; auto.
Qed.

Lemma walk_snoc i l j c k : walk i l j c -> node k -> W j k < inf -> walk i (l ++ [k]) k (c + W j k).
Proof.
  intros H Hk HW. apply (walk_app _ _ _ _ [k] k _ H). rewrite <- (Z.add_0_r (W j k)).
  destruct (walk_nodes _ _ _ _ H) as (_ & Hj & _). constructor; [done..|by constructor].
Qed.

(** Walks are positive, so that only the empty one is free. *)
Lemma walk_pos i h l j c : walk i (h :: l) j c -> 1 <= c.
Proof.
  inversion 1 as [|? ? ? ? c' Hi HW Hw]; subst. destruct (walk_nodes _ _ _ _ Hw) as (Hh & _ & Hc).
  pose proof (Winf i h Hi Hh). lia.
Qed.

Context (k : Z).
Hypothesis Hk : node k.

Definition distance (h : Z -> Z) (v : Z) : Z := if v =? k then 0 else h v.

(** The tree of the visited nodes [V], with distances [h] and first hops [r]. *)
Record tree (V : Z -> bool) (h r : Z -> Z) : Prop := {
  tr_source : V k = true;
  tr_bound : forall v, node v -> v <> k -> 1 <= h v <= inf;
  tr_edge : forall u v, node u -> V u = true -> node v -> V v = false -> h v <= distance h u + W u v;
  tr_walk : forall v, node v -> v <> k -> h v < inf ->
      node (r v) /\ W k (r v) < inf /\ exists l, walk (r v) l v (h v - W k (r v));
  tr_none : forall v, node v -> v <> k -> h v = inf -> r v = 0;
  tr_order : forall u v, node u -> V u = true -> node v -> V v = false -> distance h u <= h v;
  tr_least : forall u l c, V u = true -> walk k l u c -> distance h u <= c
}.

(** A walk that leaves the tree does so at a node that is no farther. *)
Lemma walk_leaves V h r b l0 i l j c :
  tree V h r -> walk k l0 i b -> V i = true -> walk i l j c -> V j = false ->
  exists v, node v /\ V v = false /\ h v <= b + c.
Proof.
  intros T H0 Vi Hw Vj. revert b l0 H0 Vi. induction Hw as [i _|i x l j c Hi HW Hw IH]; intros b l0 H0 Vi.
  { congruence. }
  destruct (walk_nodes _ _ _ _ Hw) as (Hx & _ & Hc). destruct (V x) eqn:Vx.
  - destruct (IH Vj (b + W i x) (l0 ++ [x])) as (v & Hv & Vv & Hle); [by apply walk_snoc|done|].
    exists v. split; [done|]. split; [done|lia].
  - exists x. split; [done|]. split; [done|]. pose proof (tr_edge _ _ _ T i x Hi Vi Hx Vx).
    pose proof (tr_least _ _ _ T i l0 b Vi H0). lia.
Qed.

Lemma leaves_tree V h r l j c :
  tree V h r -> walk k l j c -> V j = false -> exists v, node v /\ V v = false /\ h v <= c.
Proof.
  intros T Hw Vj. apply (walk_leaves V h r 0 [] k l j c T); [by constructor|apply T|done..].
Qed.

(** ** The start *)

Lemma tree_start : tree (fun v => v =? k) (W k) (fun v => if W k v =? inf then 0 else v).
Proof.
  constructor.
  - apply Z.eqb_refl.
  - intros v Hv _. by apply Winf.
  - intros u v Hu ->%Z.eqb_eq Hv _. unfold distance. rewrite Z.eqb_refl. lia.
  - intros v Hv Hne Hlt. rewrite (proj2 (Z.eqb_neq _ _)) by lia. split; [done|]. split; [done|].
    exists []. rewrite Z.sub_diag. by constructor.
  - intros v _ _ ->. by rewrite Z.eqb_refl.
  - intros u v Hu ->%Z.eqb_eq Hv _. unfold distance. rewrite Z.eqb_refl. pose proof (Winf k v Hk Hv). lia.
  - intros u l c ->%Z.eqb_eq Hw. unfold distance. rewrite Z.eqb_refl. by destruct (walk_nodes _ _ _ _ Hw) as (_ & _ & Hc).
Qed.

(** ** Visiting the nearest node *)

Definition visit (V : Z -> bool) (o v : Z) : bool := V v || (v =? o).

Definition relaxed (V : Z -> bool) (h : Z -> Z) (o v : Z) : bool := negb (visit V o v) && (h o + W o v <? h v).

Definition visit_h V h o v : Z := if relaxed V h o v then h o + W o v else h v.
Definition visit_r V h (r : Z -> Z) o v : Z := if relaxed V h o v then r o else r v.

Section visit.
Context (V : Z -> bool) (h r : Z -> Z) (o : Z).
Hypothesis T : tree V h r.
Hypothesis Ho : node o.
Hypothesis Vo : V o = false.
Hypothesis Hreach : h o < inf.
Hypothesis Hnear : forall v, node v -> V v = false -> h o <= h v.

Lemma o_not_source : o <> k.
Proof. intros E. pose proof (tr_source _ _ _ T). congruence. Qed.

Lemma visit_kept v : visit V o v = true -> visit_h V h o v = h v /\ visit_r V h r o v = r v.
Proof. intros Hv. unfold visit_h, visit_r, relaxed. by rewrite Hv. Qed.

Lemma visit_cases v :
  visit V o v = false -> V v = false /\ v <> o /\ visit_h V h o v <= h v /\ visit_h V h o v <= h o + W o v.
Proof.
  intros Hv. unfold visit_h, relaxed. rewrite Hv. cbn [negb andb]. unfold visit in Hv.
  apply orb_false_iff in Hv as [Hv Hne%Z.eqb_neq]. destruct (Z.ltb_spec (h o + W o v) (h v)); (split; [done|split; [done|lia]]).
Qed.

Lemma visit_distance u : visit V o u = true -> distance (visit_h V h o) u = distance h u.
Proof. intros Hu. unfold distance. by rewrite (proj1 (visit_kept u Hu)). Qed.

Lemma visited u : visit V o u = true -> V u = true \/ u = o /\ distance h u = h o.
Proof.
  unfold visit. intros [Hu| ->%Z.eqb_eq]%orb_true_iff; [by left|right]. split; [done|].
  unfold distance. by rewrite (proj2 (Z.eqb_neq _ _) o_not_source).
Qed.

Lemma o_least l c : walk k l o c -> h o <= c.
Proof.
  intros Hw. destruct (leaves_tree V h r l o c T Hw Vo) as (v & Hv & Vv & Hle). pose proof (Hnear v Hv Vv). lia.
Qed.

Lemma visit_tree : tree (visit V o) (visit_h V h o) (visit_r V h r o).
Proof.
  pose proof o_not_source as Hne. pose proof (tr_bound _ _ _ T o Ho Hne) as Hob. constructor.
  - unfold visit. by rewrite (tr_source _ _ _ T).
  - intros v Hv Hvk. pose proof (tr_bound _ _ _ T v Hv Hvk). unfold visit_h, relaxed. pose proof (Winf o v Ho Hv).
    destruct (negb (visit V o v) && (h o + W o v <? h v)) eqn:E; [|done]. bool_prop. lia.
  - intros u v Hu Vu Hv Vv. rewrite visit_distance by done. destruct (visit_cases v Vv) as (Vv' & _ & H1 & H2).
    destruct (visited u Vu) as [Vu'|[-> ->]]; [|done]. pose proof (tr_edge _ _ _ T u v Hu Vu' Hv Vv'). lia.
  - intros v Hv Hvk. unfold visit_h, visit_r. destruct (relaxed V h o v) eqn:E; [|apply (tr_walk _ _ _ T v Hv Hvk)].
    intros Hlt. destruct (tr_walk _ _ _ T o Ho Hne Hreach) as (Hr & HW & l & Hw). split; [done|]. split; [done|].
    exists (l ++ [v]). replace (h o + W o v - W k (r o)) with (h o - W k (r o) + W o v) by lia.
    apply walk_snoc; [done..|lia].
  - intros v Hv Hvk. unfold visit_h, visit_r. pose proof (tr_bound _ _ _ T v Hv Hvk). pose proof (Winf o v Ho Hv).
    destruct (relaxed V h o v) eqn:E; [|by apply (tr_none _ _ _ T)]. unfold relaxed in E. bool_prop. lia.
  - intros u v Hu Vu Hv Vv. rewrite visit_distance by done. destruct (visit_cases v Vv) as (Vv' & _ & _ & _).
    assert (distance h u <= h v /\ distance h u <= h o) as [H1 H2].
    { destruct (visited u Vu) as [Vu'|[-> ->]].
      - split; by apply (tr_order _ _ _ T).
      - pose proof (Hnear v Hv Vv'). lia. }
    unfold visit_h. pose proof (Winf o v Ho Hv). destruct (relaxed V h o v); lia.
  - intros u l c Vu Hw. rewrite visit_distance by done. destruct (visited u Vu) as [Vu'|[-> ->]].
    + by apply (tr_least _ _ _ T u l).
    + by apply (o_least l).
Qed.
End visit.

(** ** The end *)

(** No node that is left can be reached. *)
Definition complete (V : Z -> bool) (h : Z -> Z) : Prop := forall v, node v -> V v = false -> h v = inf.

(** The routes to a node: the first hop of a shortest walk, or none. *)
Definition routed (r : Z -> Z) (v : Z) : Prop :=
  (exists d, d < inf /\ shortest k v d /\ node (r v) /\ W k (r v) < inf /\ shortest (r v) v (d - W k (r v))) \/
  r v = 0 /\ forall l c, walk k l v c -> inf <= c.

Lemma tree_routed V h r v : tree V h r -> complete V h -> node v -> v <> k -> routed r v.
Proof.
  intros T Hc Hv Hne. pose proof (tr_bound _ _ _ T v Hv Hne).
  assert (forall l c, walk k l v c -> h v <= c) as Hleast.
  { intros l c Hw. destruct (V v) eqn:Vv.
    - pose proof (tr_least _ _ _ T v l c Vv Hw) as Hle. unfold distance in Hle. by rewrite (proj2 (Z.eqb_neq _ _) Hne) in Hle.
    - destruct (leaves_tree V h r l v c T Hw Vv) as (x & Hx & Vx & Hle). rewrite (Hc v Hv Vv), <- (Hc x Hx Vx). done. }
  destruct (Z.eq_dec (h v) inf) as [E|E].
  - right. split; [by apply (tr_none _ _ _ T)|]. intros l c Hw. rewrite <- E. by apply (Hleast l).
  - left. exists (h v). split; [lia|]. destruct (tr_walk _ _ _ T v Hv Hne ltac:(lia)) as (Hr & HW & l & Hw).
    split; [split; [|exact Hleast]|].
    + exists (r v :: l). replace (h v) with (W k (r v) + (h v - W k (r v))) by lia. by constructor.
    + split; [done|]. split; [done|]. split; [by exists l|]. intros l' c Hw'.
      pose proof (Hleast (r v :: l') _ (walk_hop _ _ _ _ _ Hk HW Hw')). lia.
Qed.
End dijkstra.
End ShortestPaths.
