(* ===== verification/RouteFacts.v ===== *)
(** * Route computation: the arrays

    The loops of [compute_routes] do on arrays of doubles what [RouteSpec]
    does on functions. *)

From Stdlib Require Import ZArith Lia Bool SpecFloat.
From stdpp Require Import base list sets.
From S2P Require Import Prelude F64 F64Exact PktQueue Route RouteSpec.

Module RouteFacts.
Import RouteLogic ShortestPaths.

Abbreviation inf := 16383.

(** ** Arrays *)

Lemma get_identity m i : 0 <= i < m -> aget (map Z.of_nat (seq 0 (Z.to_nat m))) i = Ok i.
Proof.
  intros Hi. unfold aget. rewrite (proj2 (Z.ltb_ge _ _)) by lia. rewrite list_lookup_fmap, lookup_seq_lt by lia. cbn. f_equal. lia.
Qed.

Lemma index_inj n i j i' j' : 0 <= j < n -> 0 <= j' < n -> n * i + j = n * i' + j' -> i = i' /\ j = j'.
Proof. intros Hj Hj' E. assert (i = i') by nia. lia. Qed.

Lemma index_bound n i j : 0 <= i < n -> 0 <= j < n -> 0 <= n * i + j < n * n.
Proof. nia. Qed.

Lemma INDEX_ok n i j : 1 <= n <= 32768 -> 0 <= i < n -> 0 <= j < n -> INDEX i j n = Ok (n * i + j).
Proof.
  intros Hn Hi Hj. unfold INDEX, imul, iadd. pose proof (index_bound n i j Hi Hj).
  rewrite chk_ok by (unfold in_int; nia). cbn [res_bind]. rewrite chk_ok by (unfold in_int; nia). done.
Qed.

(** ** Networks *)

Definition weight (l : list adj_entry) (n i j : Z) : Z :=
  match aget l (n * i + j) with Ok a => default 0 (F64.trunc a.(cost)) | Err _ => 0 end.

(** The link by which a route leaves. *)
Definition link_entry (l : list adj_entry) (n k x : Z) : option addr :=
  if x =? 0 then None else match aget l (n * k + x) with Ok a => a.(entry) | Err _ => None end.

(** A matrix of whole costs. *)
Record network (q : t) (l : list adj_entry) : Prop := {
  nw_adj : q.(adj_) = Some l;
  nw_size : 1 <= q.(size_) <= 32768;
  nw_length : Z.of_nat (length l) = q.(size_) * q.(size_);
  nw_cost : forall i j, 1 <= i < q.(size_) -> 1 <= j < q.(size_) ->
    exists a c, aget l (q.(size_) * i + j) = Ok a /\ F64Exact.int a.(cost) c /\ 1 <= c <= inf
}.

Section network.
Context (q : t) (l : list adj_entry).
Hypothesis N : network q l.
Abbreviation n := q.(size_).
Abbreviation node := (node n).
Abbreviation W := (weight l n).

Lemma adj_ok i j :
  node i -> node j -> exists a, ADJ q i j = Ok a /\ F64Exact.int a.(cost) (W i j) /\ 1 <= W i j <= inf /\
    a.(entry) = link_entry l n i j.
Proof.
  unfold ShortestPaths.node. intros Hi Hj. destruct (nw_cost _ _ N i j Hi Hj) as (a & c & E & Hc & Hb). exists a.
  pose proof (nw_size _ _ N). unfold ADJ. rewrite (nw_adj _ _ N). cbn [deref res_bind].
  rewrite INDEX_ok by lia. cbn [res_bind]. unfold weight, link_entry. rewrite E, (F64Exact.int_trunc _ _ Hc).
  rewrite (proj2 (Z.eqb_neq j 0)) by lia. done.
Qed.

Lemma weights i j : node i -> node j -> 1 <= W i j <= inf.
Proof. intros Hi Hj. by destruct (adj_ok i j Hi Hj) as (a & _ & _ & H & _). Qed.

(** ** The state of a source *)

Context (k : Z).
Hypothesis Hk : node k.

Definition row (rs : list route_entry) (r : Z -> Z) : Prop :=
  forall v, node v -> v <> k -> aget rs (n * k + v) = Ok (mkRoute (r v) (link_entry l n k (r v))).

(** The arrays hold the tree [V], the routes [r], and the distances [h] of the
    nodes below [m]; the other rows are those of [rs]. *)
Record holds (rs : list route_entry) (m : Z) (w : work) (V : Z -> bool) (h r : Z -> Z) : Prop := {
  hd_parent : Z.of_nat (length w.(parent)) = n;
  hd_visited : forall v, node v -> exists p, aget w.(parent) v = Ok p /\ (p =? k) = V v;
  hd_length : Z.of_nat (length w.(hopcnt)) = n;
  hd_hops : forall v, node v -> v < m -> v <> k -> exists x, hops w v = Ok x /\ F64Exact.int x (h v);
  hd_row : row w.(routes) r;
  hd_routes : Z.of_nat (length w.(routes)) = n * n;
  hd_rest : forall i v, 0 <= i < n -> 0 <= v < n -> i <> k \/ v = k -> aget w.(routes) (n * i + v) = aget rs (n * i + v)
}.

Lemma holds_ext rs m m' w V h h' r r' V' :
  holds rs m w V h r ->
  (forall v, node v -> V' v = V v) ->
  (forall v, node v -> v <> k -> v < m' -> v < m /\ h' v = h v) -> (forall v, node v -> v <> k -> r' v = r v) ->
  holds rs m' w V' h' r'.
Proof.
  intros [H1 H2 H3 H4 H5 H6 H7] HV Hh Hr. split; try done.
  - intros v Hv. rewrite (HV v Hv). by apply H2.
  - intros v Hv Hm Hne. destruct (Hh v Hv Hne Hm) as [Hm' ->]. by apply H4.
  - intros v Hv Hne. rewrite Hr by done. by apply H5.
Qed.

Lemma hops_put w (l' : list (option f64)) u v x :
  (forall j, aget l' j = if j =? v then Ok (Some x) else aget w.(hopcnt) j) ->
  hops (w <| hopcnt := l' |>) u = if u =? v then Ok x else hops w u.
Proof. intros Hg. unfold hops. cbn. rewrite Hg. by destruct (u =? v). Qed.

Lemma set_hops_holds rs m m' w V h h' r v x :
  holds rs m w V h r -> 0 <= v < n -> (node v -> F64Exact.int x (h' v)) ->
  (forall u, node u -> u <> k -> u <> v -> u < m' -> u < m /\ h' u = h u) ->
  exists w', set_hops w v x = Ok w' /\ holds rs m' w' V h' r /\ hops w' v = Ok x.
Proof.
  intros [H1 H2 H3 H4 H5 H6 H7] Hv Hx Hh. unfold set_hops.
  destruct (aset_ok w.(hopcnt) v (Some x)) as (l' & -> & El & Eg); [lia|]. cbn [res_bind].
  exists (w <| hopcnt := l' |>). split; [done|]. split.
  - split; [exact H1|exact H2|change (Z.of_nat (length l') = n); by rewrite El| |exact H5|exact H6|exact H7]. intros u Hu Hm Hne. rewrite (hops_put w l' u v x Eg).
    destruct (Z.eqb_spec u v) as [->|Huv]; [exists x; split; [done|by apply Hx]|].
    destruct (Hh u Hu Hne Huv Hm) as [Hm' ->]. by apply H4.
  - rewrite (hops_put w l' v v x Eg). by rewrite Z.eqb_refl.
Qed.

Lemma set_route_holds rs m w V h r r' v :
  holds rs m w V h r -> node v -> v <> k -> (forall u, node u -> u <> k -> u <> v -> r' u = r u) ->
  exists w', set_route q w k v (mkRoute (r' v) (link_entry l n k (r' v))) = Ok w' /\ holds rs m w' V h r' /\
    hopcnt w' = hopcnt w.
Proof.
  intros [H1 H2 H3 H4 H5 H6 H7] Hv Hne Hr. unfold set_route, ShortestPaths.node in *. pose proof (nw_size _ _ N).
  rewrite INDEX_ok by lia. cbn [res_bind].
  destruct (aset_ok w.(routes) (n * k + v) (mkRoute (r' v) (link_entry l n k (r' v)))) as (l' & -> & El & Eg).
  { rewrite H6. apply index_bound; lia. }
  cbn [res_bind]. exists (w <| routes := l' |>). split; [done|]. split; [|done]. split; cbn; try done.
  - intros u Hu Huk. rewrite Eg. unfold ShortestPaths.node in Hu. destruct (Z.eqb_spec (n * k + u) (n * k + v)) as [E|E].
    + assert (u = v) as -> by lia. done.
    + rewrite Hr by (lia || done). by apply H5.
  - by rewrite El.
  - intros i u Hi Hu Hor. rewrite Eg. destruct (Z.eqb_spec (n * i + u) (n * k + v)) as [E|E]; [|by apply H7].
    apply index_inj in E; [|lia..]. destruct E, Hor; congruence.
Qed.

(** ** The neighbours *)

Definition first_route (i v : Z) : Z := if v <? i then if W k v =? inf then 0 else v else 0.

Lemma int_inf : F64Exact.int INFINITY inf.
Proof. apply F64Exact.int_of_Z. lia. Qed.

Lemma eq_inf x c : F64Exact.int x c -> F64.eq x INFINITY = (c =? inf).
Proof.
  intros Hx. apply eq_true_iff_eq. rewrite Z.eqb_eq.
  pose proof (F64Exact.int_lt x INFINITY c inf Hx int_inf) as H1.
  pose proof (F64Exact.int_lt INFINITY x inf c int_inf Hx) as H2. split.
  - intros He. rewrite (F64.eq_not_lt _ _ He) in H1. rewrite (F64.eq_not_lt _ _ (F64.eq_sym _ _ He)) in H2. lia.
  - intros ->. rewrite Z.ltb_irrefl in H1, H2. pose proof (F64Exact.fin_not_nan _ _ Hx). apply F64.le_antisym; by apply F64.le_total.
Qed.

Lemma neighbour_ok rs v w :
  node v -> holds rs v w (fun u => u =? k) (W k) (first_route v) ->
  exists w', neighbour q k v w = Ok w' /\ holds rs (v + 1) w' (fun u => u =? k) (W k) (first_route (v + 1)).
Proof.
  intros Hv Hw. unfold neighbour. destruct (hd_visited _ _ _ _ _ _ Hw v Hv) as (p & -> & Ep). cbn [res_bind]. rewrite Ep. clear Ep.
  destruct (Z.eqb_spec v k) as [->|Hne].
  { exists w. split; [done|]. eapply holds_ext; [exact Hw|done|lia|].
    intros u Hu Huk. unfold first_route. destruct (Z.ltb_spec u k), (Z.ltb_spec u (k + 1)); try done; lia. }
  destruct (adj_ok k v Hk Hv) as (a & -> & Ha & _ & He). cbn [res_bind].
  destruct (set_hops_holds rs v (v + 1) w _ _ (W k) _ v a.(cost) Hw) as (w1 & -> & Hw1 & _); [unfold ShortestPaths.node in Hv; lia|done|lia|].
  cbn [res_bind]. rewrite (eq_inf _ _ Ha). destruct (Z.eqb_spec (W k v) inf) as [E|E].
  - exists w1. split; [done|]. eapply holds_ext; [exact Hw1|done|done|]. intros u Hu Huk. unfold first_route.
    destruct (Z.ltb_spec u v), (Z.ltb_spec u (v + 1)); try done; [lia|]. assert (u = v) as -> by lia. by rewrite E.
  - destruct (set_route_holds rs (v + 1) w1 _ _ _ (first_route (v + 1)) v Hw1 Hv Hne) as (w2 & E2 & Hw2 & _).
    { intros u Hu Huk Huv. unfold first_route. destruct (Z.ltb_spec u v), (Z.ltb_spec u (v + 1)); try done; lia. }
    exists w2. split; [|done]. rewrite <- E2. f_equal. unfold first_route.
    rewrite (proj2 (Z.ltb_lt _ _)), (proj2 (Z.eqb_neq _ _) E) by lia. by rewrite He.
Qed.

(** ** The nearest node *)

Definition nearest (V : Z -> bool) (h : Z -> Z) (i o : Z) : Prop :=
  (o = 0 /\ forall v, node v -> v < i -> V v = false -> inf <= h v) \/
  (node o /\ V o = false /\ h o < inf /\ forall v, node v -> v < i -> V v = false -> h o <= h v).

Lemma nearer_ok rs w V h r v o :
  holds rs n w V h r -> V k = true -> hops w 0 = Ok INFINITY -> node v -> nearest V h v o ->
  exists o', nearer k w v o = Ok o' /\ nearest V h (v + 1) o'.
Proof.
  intros Hw Vk H0 Hv Ho. unfold nearer. destruct (hd_visited _ _ _ _ _ _ Hw v Hv) as (p & -> & Ep). cbn [res_bind]. rewrite Ep. clear Ep.
  assert (forall u, node u -> V u = false -> exists x, hops w u = Ok x /\ F64Exact.int x (h u)) as Hh.
  { intros u Hu Vu. apply (hd_hops _ _ _ _ _ _ Hw); [done|apply Hu|congruence]. }
  assert (forall u, u < v + 1 -> u < v \/ u = v) as Hlast by lia.
  destruct (V v) eqn:Vv.
  { exists o. split; [done|]. destruct Ho as [[-> Ho]|(H1 & H2 & H3 & Ho)]; [left|right]; repeat split; try done.
    all: try (apply H1). all: intros u Hu Hlt Vu; destruct (Hlast u Hlt) as [| ->]; [by apply Ho|congruence]. }
  destruct (Hh v Hv Vv) as (x & -> & Hx). cbn [res_bind].
  assert (exists y d, hops w o = Ok y /\ F64Exact.int y d /\ (forall u, node u -> u < v -> V u = false -> d <= h u) /\
    (o = 0 /\ d = inf \/ node o /\ V o = false /\ h o < inf /\ d = h o)) as (y & d & -> & Hy & Hall & Hcase).
  { destruct Ho as [[-> Ho]|(H1 & H2 & H3 & Ho)].
    - exists INFINITY, inf. split; [done|]. split; [apply int_inf|]. split; [done|by left].
    - destruct (Hh o H1 H2) as (y & Ey & Hy). exists y, (h o). split; [done|]. split; [done|]. split; [done|by right]. }
  cbn [res_bind]. rewrite (F64Exact.int_lt x y _ _ Hx Hy). destruct (Z.ltb_spec (h v) d) as [Hlt|Hge].
  - exists v. split; [done|]. right. split; [done|]. split; [done|]. split; [lia|].
    intros u Hu Hle Vu. destruct (Hlast u Hle) as [Hu'| ->]; [|lia]. pose proof (Hall u Hu Hu' Vu). lia.
  - exists o. split; [done|]. destruct Hcase as [[-> ->]|(H1 & H2 & H3 & ->)]; [left|right].
    + split; [done|]. intros u Hu Hle Vu. destruct (Hlast u Hle) as [Hu'| ->]; [by apply Hall|lia].
    + split; [done|]. split; [done|]. split; [done|]. intros u Hu Hle Vu. destruct (Hlast u Hle) as [Hu'| ->]; [by apply Hall|lia].
Qed.
Lemma nearest_ok rs w V h r :
  holds rs n w V h r -> V k = true -> hops w 0 = Ok INFINITY ->
  exists o, for_range 1 n (nearer k w) 0 = Ok o /\ nearest V h n o.
Proof.
  intros Hw Vk H0. pose proof (nw_size _ _ N). apply (for_range_inv (nearest V h)); [lia| |].
  - left. split; [done|]. unfold ShortestPaths.node. lia.
  - intros v o Hv Ho. by apply (nearer_ok rs w V h r).
Qed.

(** ** Visiting a node *)

Section visiting.
Context (rs : list route_entry) (V : Z -> bool) (h r : Z -> Z) (o : Z).
Hypothesis T : tree n inf W k V h r.
Hypothesis Ho : node o.
Hypothesis Vo : V o = false.
Hypothesis Hreach : h o < inf.
Hypothesis Hnear : forall v, node v -> V v = false -> h o <= h v.

Definition up_to (i : Z) (f g : Z -> Z) (v : Z) : Z := if v <? i then g v else f v.

Lemma up_to_step (f g : Z -> Z) i u : (u = i -> g u = f u) -> up_to (i + 1) f g u = up_to i f g u.
Proof. unfold up_to. intros Hi. destruct (Z.ltb_spec u (i + 1)), (Z.ltb_spec u i); try done; [apply Hi; lia|lia]. Qed.

Lemma up_to_other (f g : Z -> Z) i u : u <> i -> up_to (i + 1) f g u = up_to i f g u.
Proof. intros Hu. by apply up_to_step. Qed.

Lemma up_to_at (f g : Z -> Z) i : up_to i f g i = f i /\ up_to (i + 1) f g i = g i.
Proof. unfold up_to. rewrite Z.ltb_irrefl, (proj2 (Z.ltb_lt i (i + 1))) by lia. done. Qed.

Lemma up_to_eq (f g : Z -> Z) i u : g u = f u -> up_to i f g u = f u.
Proof. unfold up_to. by destruct (u <? i). Qed.

Definition relaxing (i : Z) (w : work) : Prop :=
  holds rs n w (visit V o) (up_to i h (visit_h W V h o)) (up_to i r (visit_r W V h r o)).

Lemma relax_ok v w :
  node v -> relaxing v w -> exists w', relax q k o v w = Ok w' /\ relaxing (v + 1) w'.
Proof.
  intros Hv Hw. pose proof (o_not_source _ _ _ _ _ _ _ _ T Vo) as Hok. unfold relax.
  destruct (hd_visited _ _ _ _ _ _ Hw v Hv) as (p & -> & Ep). cbn [res_bind]. rewrite Ep. clear Ep p.
  assert (visit V o v = true \/ relaxed W V h o v = false -> relaxing (v + 1) w) as Hskip.
  { intros Hs. assert (visit_h W V h o v = h v /\ visit_r W V h r o v = r v) as [Eh Er].
    { destruct Hs as [Hs|Hs]; [by apply visit_kept|]. unfold visit_h, visit_r. by rewrite Hs. }
    eapply holds_ext; [exact Hw|done|..].
    - intros u _ _ Hu. split; [done|]. apply up_to_step. by intros ->.
    - intros u _ _. apply up_to_step. by intros ->. }
  destruct (visit V o v) eqn:Vv; [exists w; split; [done|by apply Hskip; left]|].
  assert (v <> k) as Hvk. { intros ->. unfold visit in Vv. by rewrite (tr_source _ _ _ _ _ _ _ T) in Vv. }
  assert (visit V o o = true) as Voo by (unfold visit; by rewrite Z.eqb_refl, orb_true_r).
  destruct (visit_kept W V h r o o Voo) as [Eho Ero].
  destruct (hd_hops _ _ _ _ _ _ Hw o Ho ltac:(apply Ho) Hok) as (y & -> & Hy). cbn [res_bind].
  destruct (hd_hops _ _ _ _ _ _ Hw v Hv ltac:(apply Hv) Hvk) as (x & Ex & Hx).
  rewrite up_to_eq in Hy by done. rewrite (proj1 (up_to_at _ _ _)) in Hx.
  destruct (adj_ok o v Ho Hv) as (a & -> & Ha & Hb & _). cbn [res_bind]. rewrite Ex. cbn [res_bind].
  pose proof (tr_bound _ _ _ _ _ _ _ T o Ho Hok).
  assert (F64Exact.int (F64.add y a.(cost)) (h o + W o v)) as Hs by (apply F64Exact.int_add; [done..| | |]; lia).
  rewrite (F64Exact.int_lt _ _ _ _ Hs Hx).
  assert (relaxed W V h o v = (h o + W o v <? h v)) as Er by (unfold relaxed; by rewrite Vv). rewrite <- Er.
  destruct (relaxed W V h o v) eqn:Hrel; [|exists w; split; [done|by apply Hskip; right]].
  pose proof (nw_size _ _ N). rewrite INDEX_ok by (unfold ShortestPaths.node in *; lia). cbn [res_bind].
  rewrite (hd_row _ _ _ _ _ _ Hw o Ho Hok), up_to_eq by done. cbn [res_bind].
  destruct (set_route_holds rs n w _ _ _ (up_to (v + 1) r (visit_r W V h r o)) v Hw Hv Hvk) as (w1 & E1 & Hw1 & _).
  { intros u _ _ Hu. by apply up_to_other. }
  rewrite (proj2 (up_to_at _ _ _)) in E1. unfold visit_r in E1 at 1 2. rewrite Hrel in E1. rewrite E1. cbn [res_bind].
  destruct (set_hops_holds rs n n w1 _ _ (up_to (v + 1) h (visit_h W V h o)) _ v (F64.add y a.(cost)) Hw1) as (w2 & -> & Hw2 & _).
  - unfold ShortestPaths.node in Hv. lia.
  - intros _. rewrite (proj2 (up_to_at _ _ _)). unfold visit_h. by rewrite Hrel.
  - intros u _ _ Hu Hun. split; [done|]. by apply up_to_other.
  - by exists w2.
Qed.

Lemma relax_all_ok w :
  holds rs n w (visit V o) h r ->
  exists w', for_range 1 n (relax q k o) w = Ok w' /\ holds rs n w' (visit V o) (visit_h W V h o) (visit_r W V h r o).
Proof.
  intros Hw. pose proof (nw_size _ _ N). destruct (for_range_inv relaxing 1 n (relax q k o) w) as (w' & E & Hw').
  - lia.
  - eapply holds_ext; [exact Hw|done|..]; unfold up_to, ShortestPaths.node; intros u Hu; by rewrite (proj2 (Z.ltb_ge _ _)) by lia.
  - intros v w1 Hv. by apply relax_ok.
  - exists w'. split; [done|]. eapply holds_ext; [exact Hw'|done|..]; unfold up_to, ShortestPaths.node; intros u Hu;
      by rewrite (proj2 (Z.ltb_lt _ _)) by lia.
Qed.
End visiting.

(** ** The main loop *)

(** The number of nodes that are not visited. *)
Definition left_nodes (V : Z -> bool) (vs : list Z) : Z := Z.of_nat (length (filter (fun v => V v = false) vs)).

Lemma visit_left V o vs : left_nodes (visit V o) vs <= left_nodes V vs /\
  (o ∈ vs -> V o = false -> left_nodes (visit V o) vs < left_nodes V vs).
Proof.
  unfold left_nodes. induction vs as [|v vs [IH1 IH2]]; [split; [done|set_solver]|].
  rewrite !filter_cons. assert (visit V o v = V v || (v =? o)) as Ev by done.
  destruct (decide (visit V o v = false)) as [E1|E1], (decide (V v = false)) as [E2|E2]; cbn [length]; rewrite Ev in E1.
  - split; [lia|]. intros [->|Hin]%elem_of_cons Vo; [|specialize (IH2 Hin Vo); lia]. by rewrite Z.eqb_refl, orb_true_r in E1.
  - by apply orb_false_iff in E1 as [? _].
  - split; lia.
  - split; [lia|]. intros [->|Hin]%elem_of_cons Vo; [done|by apply IH2].
Qed.

Definition all_nodes : list Z := seqZ 1 (n - 1).

Definition in_tree (rs : list route_entry) (i : Z) (w : work) : Prop :=
  exists V h r, holds rs n w V h r /\ tree n inf W k V h r /\
    (complete n inf V h \/ left_nodes V all_nodes <= n - 1 - i).

Lemma visit_parent rs w V h r o (lp : list Z) :
  holds rs n w V h r -> (forall j, aget lp j = if j =? o then Ok k else aget w.(parent) j) -> length lp = length w.(parent) ->
  holds rs n (w <| parent := lp |>) (visit V o) h r.
Proof.
  intros [H1 H2 H3 H4 H5 H6 H7] Hg El. split; try done.
  - cbn. by rewrite El.
  - intros v Hv. cbn. rewrite Hg. unfold visit. destruct (Z.eqb_spec v o) as [->|Hne].
    + exists k. by rewrite Z.eqb_refl, orb_true_r.
    + destruct (H2 v Hv) as (p & -> & Ep). exists p. by rewrite Ep, orb_false_r.
Qed.

Lemma turn_ok rs i w : 1 <= i -> in_tree rs i w -> exists w', turn q k w = Ok w' /\ in_tree rs (i + 1) w'.
Proof.
  intros Hi (V & h & r & Hw & T & Hleft). pose proof (nw_size _ _ N). unfold turn.
  destruct (set_hops_holds rs n n w V h h r 0 INFINITY Hw) as (w1 & -> & Hw1 & H0); [lia|unfold ShortestPaths.node; lia|done|].
  cbn [res_bind]. destruct (nearest_ok rs w1 V h r Hw1 (tr_source _ _ _ _ _ _ _ T) H0) as (o & -> & Ho). cbn [res_bind].
  assert (0 <= o < n) as Hob. { unfold nearest, ShortestPaths.node in Ho. lia. }
  destruct (aset_ok w1.(parent) o k) as (lp & -> & Elp & Eg); [rewrite (hd_parent _ _ _ _ _ _ Hw1); done|]. cbn [res_bind].
  pose proof (visit_parent rs w1 V h r o lp Hw1 Eg Elp) as Hw2.
  destruct Ho as [[-> Hall]|(Hon & Vo & Hreach & Hnear)].
  - exists (w1 <| parent := lp |>). split; [done|]. exists V, h, r. split.
    + eapply holds_ext; [exact Hw2| |done..]. intros v Hv. unfold visit. unfold ShortestPaths.node in Hv.
      rewrite (proj2 (Z.eqb_neq v 0)) by lia. by rewrite orb_false_r.
    + split; [done|]. left. intros v Hv Vv. assert (v <> k) by (intros ->; by rewrite (tr_source _ _ _ _ _ _ _ T) in Vv).
      pose proof (tr_bound _ _ _ _ _ _ _ T v Hv ltac:(done)). pose proof (Hall v Hv ltac:(apply Hv) Vv). lia.
  - rewrite (proj2 (Z.eqb_neq o 0)) by (unfold ShortestPaths.node in Hon; lia).
    destruct (relax_all_ok rs V h r o T Hon Vo Hreach (w1 <| parent := lp |>) Hw2) as (w' & -> & Hw'). exists w'. split; [done|].
    exists (visit V o), (visit_h W V h o), (visit_r W V h r o). split; [done|]. split.
    + apply visit_tree; try done; [by apply weights|]. intros v Hv Vv. apply Hnear; [done|apply Hv|done].
    + right. destruct Hleft as [Hc|Hc]; [pose proof (Hc o Hon Vo); lia|].
      destruct (visit_left V o all_nodes) as [_ Hlt]. specialize (Hlt ltac:(apply elem_of_seqZ; unfold ShortestPaths.node in Hon; lia) Vo). lia.
Qed.

Lemma start_ok rs w :
  Z.of_nat (length w.(hopcnt)) = n -> Z.of_nat (length w.(routes)) = n * n -> w.(routes) = rs ->
  (forall v, node v -> aget rs (n * k + v) = Ok (mkRoute 0 None)) ->
  exists w', for_range 1 n (neighbour q k) (w <| parent := map Z.of_nat (seq 0 (Z.to_nat n)) |>) = Ok w' /\ in_tree rs 1 w'.
Proof.
  intros Hlen Hrl Hrs Hrow. pose proof (nw_size _ _ N).
  destruct (for_range_inv (fun i w => holds rs i w (fun u => u =? k) (W k) (first_route i)) 1 n (neighbour q k)
    (w <| parent := map Z.of_nat (seq 0 (Z.to_nat n)) |>)) as (w' & E & Hw').
  - lia.
  - split; cbn; try done.
    + rewrite length_map, length_seq. lia.
    + intros v Hv. exists v. split; [|done]. apply get_identity. unfold ShortestPaths.node in Hv. lia.
    + unfold ShortestPaths.node. lia.
    + intros v Hv Hne. rewrite Hrs, Hrow by done. unfold first_route, ShortestPaths.node in *. rewrite (proj2 (Z.ltb_ge v 1)) by lia. done.
    + intros i v _ _ _. by rewrite Hrs.
  - intros v w1 Hv. by apply neighbour_ok.
  - exists w'. split; [done|]. exists (fun u => u =? k), (W k), (fun v => if W k v =? inf then 0 else v). split.
    + eapply holds_ext; [exact Hw'|done|done|]. intros v Hv _. unfold first_route, ShortestPaths.node in *.
      by rewrite (proj2 (Z.ltb_lt v n)) by lia.
    + split; [apply tree_start; [by apply weights|done]|]. right.
      destruct (visit_left (fun _ => false) k all_nodes) as [_ Hlt].
      specialize (Hlt ltac:(apply elem_of_seqZ; unfold ShortestPaths.node in Hk; lia) eq_refl).
      assert (left_nodes (fun _ => false) all_nodes = n - 1) as Eall.
      { unfold left_nodes. rewrite filter_all by (by apply Forall_forall). unfold all_nodes. rewrite length_seqZ. lia. }
      change (visit (fun _ => false) k) with (fun v => v =? k) in Hlt. lia.
Qed.

(** The routes from one source. *)
Lemma source_ok rs w :
  Z.of_nat (length w.(hopcnt)) = n -> Z.of_nat (length w.(routes)) = n * n -> w.(routes) = rs ->
  (forall v, node v -> aget rs (n * k + v) = Ok (mkRoute 0 None)) ->
  exists w' r, source q k w = Ok w' /\ Z.of_nat (length w'.(hopcnt)) = n /\ Z.of_nat (length w'.(routes)) = n * n /\
    row w'.(routes) r /\ (forall v, node v -> v <> k -> routed n inf W k r v) /\
    forall i v, 0 <= i < n -> 0 <= v < n -> i <> k \/ v = k -> aget w'.(routes) (n * i + v) = aget rs (n * i + v).
Proof.
  intros Hlen Hrl Hrs Hrow. pose proof (nw_size _ _ N). unfold source.
  destruct (start_ok rs w Hlen Hrl Hrs Hrow) as (w1 & -> & Hw1). cbn [res_bind].
  destruct (for_range_inv (in_tree rs) 1 n (fun _ => turn q k) w1) as (w2 & -> & V & h & r & Hw2 & T & Hleft); [lia|done| |].
  { intros i w' Hi. apply turn_ok. lia. }
  assert (complete n inf V h) as Hc. { destruct Hleft as [|Hc]; [done|]. unfold left_nodes in Hc. lia. }
  exists w2, r. split; [done|]. split; [apply Hw2|]. split; [apply Hw2|]. split; [apply Hw2|]. split; [|apply Hw2].
  intros v Hv Hne. apply (tree_routed n inf W weights k Hk V h r v T Hc Hv Hne).
Qed.
End network.
End RouteFacts.
