(* ===== verification/RouteProps.v ===== *)
(** * Route computation: properties

    The matrix of costs is the network that was inserted, and the computed
    routes lead every packet to its destination over a cheapest path. *)

From Stdlib Require Import ZArith Lia Bool SpecFloat.
From stdpp Require Import base list sets.
From S2P Require Import Prelude F64 F64Exact PktQueue Route RouteSpec RouteFacts.

(** ** The matrix *)

Module RouteMatrix.
Import RouteLogic RouteFacts.

(** The cost of a link between two indices; none is stored outside. *)
Definition cost_of (q : t) (i j : Z) : f64 :=
  if (0 <=? i) && (i <? q.(size_)) && (0 <=? j) && (j <? q.(size_))
  then match ADJ q i j with Ok a => a.(cost) | Err _ => INFINITY end
  else INFINITY.

Definition square (q : t) (l : list adj_entry) (e : Z) : Prop :=
  q.(adj_) = Some l /\ q.(size_) = 2 ^ e /\ 4 <= e <= 15 /\ Z.of_nat (length l) = q.(size_) * q.(size_).

(** Nothing is stored yet, or a square of a power of two. *)
Definition stored (q : t) : Prop := q = mk None q.(route_) 0 \/ exists l e, square q l e.

Lemma size_bound e : 4 <= e <= 15 -> 16 <= 2 ^ e <= 32768.
Proof.
  intros He. split; [change 16 with (2 ^ 4)|change 32768 with (2 ^ 15)]; apply Z.pow_le_mono_r; lia.
Qed.

Lemma square_get q l e i j :
  square q l e -> 0 <= i < q.(size_) -> 0 <= j < q.(size_) ->
  exists a, ADJ q i j = Ok a /\ aget l (q.(size_) * i + j) = Ok a /\ cost_of q i j = a.(cost) /\
    INDEX i j q.(size_) = Ok (q.(size_) * i + j).
Proof.
  intros (Hl & Hs & He & Hlen) Hi Hj. pose proof (size_bound e He) as Hb. rewrite <- Hs in Hb.
  destruct (aget_ok l (q.(size_) * i + j)) as [a Ea]; [rewrite Hlen; by apply index_bound|].
  assert (INDEX i j q.(size_) = Ok (q.(size_) * i + j)) as Ei by (apply INDEX_ok; lia).
  assert (ADJ q i j = Ok a) as EA by (unfold ADJ; rewrite Hl; cbn [deref res_bind]; by rewrite Ei).
  exists a. split; [done|]. split; [done|]. split; [|done]. unfold cost_of. rewrite EA.
  rewrite !(proj2 (Z.leb_le _ _)), !(proj2 (Z.ltb_lt _ _)) by lia. done.
Qed.

Lemma cost_outside q i j : (0 <= i < q.(size_) -> 0 <= j < q.(size_) -> False) -> cost_of q i j = INFINITY.
Proof.
  intros Ho. unfold cost_of. destruct ((0 <=? i) && (i <? q.(size_)) && (0 <=? j) && (j <? q.(size_))) eqn:E; [|done].
  bool_prop. exfalso. apply Ho; lia.
Qed.

Lemma doubled_ok fuel e n :
  4 <= e <= 15 -> n < 32768 -> 15 - e < Z.of_nat fuel ->
  exists e', doubled fuel (2 ^ e) n = Ok (2 ^ e') /\ e <= e' <= 15 /\ n < 2 ^ e'.
Proof.
  revert e. induction fuel as [|fuel IH]; intros e He Hn Hf; [lia|].
  cbn [doubled]. destruct (Z.leb_spec (2 ^ e) n) as [H|H]; [|exists e; split; [done|lia]].
  destruct (Z.eq_dec e 15) as [->|Hne]; [lia|]. unfold imul. pose proof (size_bound e He).
  rewrite chk_ok by (unfold in_int; lia). cbn [res_bind]. rewrite Z.mul_comm, <- Z.pow_succ_r by lia.
  destruct (IH (Z.succ e)) as (e' & -> & H1 & H2); [lia..|]. exists e'. split; [done|lia].
Qed.

(** The copy, row by row. *)
Definition copied (old : list adj_entry) (osize m i j : Z) (new : list adj_entry) : Prop :=
  Z.of_nat (length new) = m * m /\
  forall a b, 0 <= a < m -> 0 <= b < m ->
    aget new (m * a + b) = Ok (mkAdj
      (if (a <? osize) && (b <? osize) && ((a <? i) || (a =? i) && (b <? j))
       then match aget old (osize * a + b) with Ok x => x.(cost) | Err _ => INFINITY end else INFINITY) None).

Lemma copy_costs_ok old osize m new :
  1 <= osize <= m -> m <= 32768 -> Z.of_nat (length old) = osize * osize -> copied old osize m 0 0 new ->
  exists new', copy_costs old osize m new = Ok new' /\ copied old osize m osize 0 new'.
Proof.
  intros Ho Hm Hold H0. apply (for_range_inv (fun i => copied old osize m i 0)); [lia|done|].
  intros i new1 Hi Hc.
  destruct (for_range_inv (copied old osize m i) 0 osize (fun j new => let! to := INDEX i j m in
    let! from := INDEX i j osize in let! a := aget old from in let! b := aget new to in aset new to (b <| cost := a.(cost) |>)) new1)
    as (new2 & E & Hlen & Hg); [lia|done| |].
  - intros j new2 Hj [Hlen Hg]. rewrite !INDEX_ok by lia. cbn [res_bind].
    destruct (aget_ok old (osize * i + j)) as [x Ex]; [rewrite Hold; apply index_bound; lia|]. rewrite Ex. cbn [res_bind].
    rewrite Hg by lia. cbn [res_bind].
    match goal with |- context [aset new2 _ ?b] => destruct (aset_ok new2 (m * i + j) b) as (new3 & -> & El & Eg) end.
    { rewrite Hlen. apply index_bound; lia. }
    exists new3. split; [done|]. split; [by rewrite El|]. intros a b Ha Hb. rewrite Eg.
    destruct (Z.eqb_spec (m * a + b) (m * i + j)) as [E|E].
    + apply index_inj in E as [-> ->]; [|lia..]. cbn. rewrite Ex, Z.eqb_refl. f_equal. f_equal.
      rewrite (proj2 (Z.ltb_lt i osize)), (proj2 (Z.ltb_lt j osize)), (proj2 (Z.ltb_lt j (j + 1))) by lia. cbn. by rewrite orb_true_r.
    + rewrite Hg by lia. do 3 f_equal. f_equal. destruct (Z.eqb_spec a i) as [->|]; [|done]. f_equal. cbn [andb].
      assert (b <> j) by congruence. destruct (Z.ltb_spec b j), (Z.ltb_spec b (j + 1)); try done; lia.
  - exists new2. split; [exact E|]. split; [done|]. intros a b Ha Hb. rewrite Hg by lia. do 2 f_equal.
    destruct (Z.ltb_spec b osize), (Z.ltb_spec b 0); try lia; rewrite ?andb_false_r; try done. rewrite !andb_true_r, ?orb_false_r.
    destruct (Z.ltb_spec a i), (Z.eqb_spec a i), (Z.ltb_spec a (i + 1)); try lia; cbn [orb]; done.
Qed.

(** ** Growing and inserting *)

Lemma check_ok q n :
  stored q -> 0 <= n < 32768 ->
  exists q' l e, check q n = Ok q' /\ square q' l e /\ q.(size_) <= q'.(size_) /\ n < q'.(size_) /\ q'.(route_) = q.(route_) /\
    forall i j, cost_of q' i j = cost_of q i j.
Proof.
  intros Hq Hn. unfold check. destruct (Z.ltb_spec n q.(size_)) as [Hlt|Hge].
  { destruct Hq as [Hq|(l & e & Hq)]; [rewrite Hq in Hlt; cbn in Hlt; lia|].
    exists q, l, e. split; [done|]. split; [done|]. split; [lia|]. split; [done|]. by split. }
  assert (exists e0, (if q.(size_) =? 0 then 16 else q.(size_)) = 2 ^ e0 /\ 4 <= e0 <= 15) as (e0 & -> & He0).
  { destruct Hq as [->|(l & e & _ & -> & He & _)]; [by exists 4|]. exists e. pose proof (size_bound e He).
    rewrite (proj2 (Z.eqb_neq _ _)) by lia. done. }
  destruct (doubled_ok 32 e0 n He0) as (e & -> & He & Hne); [lia..|]. cbn [res_bind].
  pose proof (size_bound e ltac:(lia)) as Hb. set (m := 2 ^ e) in *. unfold alloc, imul.
  rewrite chk_ok by (unfold in_int; nia). cbn [res_bind deref adj_].
  set (new := replicate (Z.to_nat (m * m)) (mkAdj INFINITY None)).
  assert (Z.of_nat (length new) = m * m) as Hnew by (unfold new; rewrite length_replicate; nia).
  assert (forall q' l' osize old, q'.(adj_) = Some l' -> q'.(size_) = m -> copied old osize m osize 0 l' ->
    (forall i j, 0 <= i < osize -> 0 <= j < osize -> exists x, aget old (osize * i + j) = Ok x /\ cost_of q i j = x.(cost)) ->
    q.(size_) = osize -> square q' l' e /\ forall i j, cost_of q' i j = cost_of q i j) as Hfin.
  { intros q' l' osize old Hl Hs [Hlen Hg] Hold Hsz. assert (square q' l' e) as Hsq by (unfold square; rewrite Hs; split; [done|lia]).
    split; [done|]. intros i j. destruct (decide (0 <= i < m /\ 0 <= j < m)) as [[Hi Hj]|Hout].
    - rewrite <- Hs in Hi, Hj. destruct (square_get q' l' e i j Hsq Hi Hj) as (a & _ & Ea & -> & _). rewrite Hs in Hi, Hj, Ea.
      rewrite Hg in Ea by lia. injection Ea as <-. cbn [cost].
      destruct ((i <? osize) && (j <? osize) && ((i <? osize) || (i =? osize) && (j <? 0))) eqn:E; bool_prop.
      + destruct (Hold i j) as (x & -> & ->); [lia..|done].
      + symmetry. apply cost_outside. rewrite Hsz. intros Hi' Hj'.
        rewrite (proj2 (Z.ltb_lt i _)), (proj2 (Z.ltb_lt j osize)) in E by lia. done.
    - rewrite !cost_outside; [done|..]; intros Hi Hj; apply Hout; lia. }
  destruct Hq as [Eq|(l & e1 & Hq)].
  - rewrite Eq. cbn. eexists _, new, e. split; [done|]. destruct (Hfin (mk (Some new) q.(route_) m) new 0 []) as [H1 H2]; try done.
    + split; [done|]. intros a b Ha Hb'. unfold new. rewrite aget_replicate by (apply index_bound; lia).
      rewrite (proj2 (Z.ltb_ge a 0)) by lia. done.
    + lia.
    + by rewrite Eq.
    + split; [exact H1|]. split; [cbn; lia|]. split; [exact Hne|]. split; [done|]. intros i j. rewrite H2. by rewrite Eq at 1.
  - pose proof Hq as (El & Es & He1 & Hlen). rewrite El. pose proof (size_bound e1 He1).
    change (adj_ (q <| size_ := m |> <| adj_ := Some new |>)) with (Some new). cbn [deref res_bind].
    destruct (copy_costs_ok l q.(size_) m new) as (new' & -> & Hcp); [lia..|done| |].
    { split; [done|]. intros a b Ha Hb'. unfold new. rewrite aget_replicate by (apply index_bound; lia).
      rewrite (proj2 (Z.ltb_ge a 0)), (proj2 (Z.ltb_ge b 0)) by lia. by rewrite (andb_false_r (a =? 0)), andb_false_r. }
    cbn. eexists _, new', e. split; [done|]. destruct (Hfin (mk (Some new') q.(route_) m) new' q.(size_) l) as [H1 H2]; try done.
    + intros i j Hi Hj. destruct (square_get q l e1 i j Hq Hi Hj) as (x & _ & Ex & Ec & _). by exists x.
    + split; [exact H1|]. split; [cbn; lia|]. split; [exact Hne|]. split; [done|exact H2].
Qed.

(** The matrix of costs is a map: inserting a link sets its cost and no other,
    however far the matrix has to grow. *)
Lemma route_insert_ok q src dst c :
  stored q -> 0 <= src < 32768 -> 0 <= dst < 32768 ->
  exists q', insert q src dst c = Ok q' /\ stored q' /\ src < q'.(size_) /\ dst < q'.(size_) /\ q'.(route_) = q.(route_) /\
    forall i j, cost_of q' i j = if (i =? src) && (j =? dst) then c else cost_of q i j.
Proof.
  intros Hq Hsrc Hdst. unfold insert. destruct (check_ok q src Hq Hsrc) as (q1 & l1 & e1 & -> & H1 & _ & Hs1 & Hr1 & Hc1).
  cbn [res_bind]. destruct (check_ok q1 dst) as (q2 & l2 & e2 & -> & H2 & Hle & Hs2 & Hr2 & Hc2); [right; eauto|done|].
  cbn [res_bind]. destruct (square_get q2 l2 e2 src dst H2) as (a & EA & Ea & _ & Ei); [lia..|]. unfold set_adj.
  pose proof H2 as (El & Es & He & Hlen). rewrite El. cbn [deref res_bind]. rewrite Ei. cbn [res_bind]. rewrite Ea. cbn [res_bind].
  destruct (aset_ok l2 (q2.(size_) * src + dst) (a <| cost := c |>)) as (l3 & -> & El3 & Eg); [rewrite Hlen; apply index_bound; lia|].
  cbn [res_bind]. eexists. split; [done|].
  assert (square (q2 <| adj_ := Some l3 |>) l3 e2) as H3 by (split; [done|]; split; [done|]; split; [done|]; cbn; by rewrite El3).
  split; [right; eauto|]. cbn [size_ route_]. split; [cbn; lia|]. split; [cbn; lia|]. split; [cbn; congruence|].
  intros i j. rewrite <- Hc1, <- Hc2. destruct (decide (0 <= i < q2.(size_) /\ 0 <= j < q2.(size_))) as [[Hi Hj]|Hout].
  - destruct (square_get _ l3 e2 i j H3 Hi Hj) as (b & _ & Eb & -> & _). rewrite Eg in Eb. cbn in Eb.
    destruct (square_get q2 l2 e2 i j H2 Hi Hj) as (b' & _ & Eb' & Ec' & _).
    destruct (Z.eqb_spec (q2.(size_) * i + j) (q2.(size_) * src + dst)) as [E|E].
    + apply index_inj in E as [-> ->]; [|lia..]. rewrite !Z.eqb_refl. by injection Eb as <-.
    + rewrite Eb' in Eb. injection Eb as <-. rewrite Ec'.
      destruct (Z.eqb_spec i src) as [->|], (Z.eqb_spec j dst) as [->|]; try done.
  - rewrite !cost_outside; [|by intros; apply Hout..].
    destruct (Z.eqb_spec i src) as [->|], (Z.eqb_spec j dst) as [->|]; try done. exfalso. apply Hout. lia.
Qed.
End RouteMatrix.

(** ** Computing the routes *)

Module RouteProps.
Import RouteLogic ShortestPaths RouteFacts RouteMatrix.

(** The routes of source [i] are in the table. *)
Definition source_done (q : t) (l : list adj_entry) (rs : list route_entry) (i : Z) : Prop :=
  exists r, row q l i rs r /\ forall v, node q.(size_) v -> v <> i -> routed q.(size_) inf (weight l q.(size_)) i r v.

Definition to_itself (q : t) (rs : list route_entry) (i : Z) : Prop := aget rs (q.(size_) * i + i) = Ok (mkRoute i None).

Section compute.
Context (q : t) (l : list adj_entry).
Hypothesis N : network q l.
Abbreviation n := q.(size_).

Lemma row_ext k rs rs' r :
  node n k -> row q l k rs r -> (forall v, node n v -> v <> k -> aget rs' (n * k + v) = aget rs (n * k + v)) -> row q l k rs' r.
Proof. intros Hk Hr He v Hv Hne. rewrite He by done. by apply Hr. Qed.

(** The sources below [k] are done; the others have no routes yet. *)
Definition computing (k : Z) (w : work) : Prop :=
  Z.of_nat (length w.(hopcnt)) = n /\ Z.of_nat (length w.(routes)) = n * n /\
  (forall i, node n i -> i < k -> source_done q l w.(routes) i) /\
  forall i v, node n i -> k <= i -> node n v -> aget w.(routes) (n * i + v) = Ok (mkRoute 0 None).

Lemma computing_step k w :
  node n k -> computing k w -> exists w', source q k w = Ok w' /\ computing (k + 1) w'.
Proof.
  intros Hk (H1 & H2 & H3 & H4).
  destruct (source_ok q l N k Hk w.(routes) w H1 H2 eq_refl) as (w' & r & E & L1 & L2 & Hrow & Hrt & Hrest).
  { intros v Hv. apply H4; [done|lia|done]. }
  exists w'. split; [done|]. split; [done|]. split; [done|]. unfold ShortestPaths.node in *. split.
  - intros i Hi Hlt. destruct (Z.eq_dec i k) as [->|Hne]; [by exists r|].
    destruct (H3 i Hi ltac:(lia)) as (r' & Hr' & Hall). exists r'. split; [|done].
    apply (row_ext i w.(routes)); [done..|]. intros v Hv _. unfold ShortestPaths.node in Hv. apply Hrest; lia.
  - intros i v Hi Hge Hv. rewrite Hrest by lia. apply H4; lia.
Qed.

(** The table is complete. *)
Definition table (rs : list route_entry) : Prop :=
  Z.of_nat (length rs) = n * n /\ forall i, node n i -> source_done q l rs i /\ to_itself q rs i.

Lemma compute_ok : exists rs, compute_routes q = Ok (q <| route_ := Some rs |>) /\ table rs.
Proof.
  pose proof (nw_size _ _ N) as Hn. unfold compute_routes, imul. rewrite chk_ok by (unfold in_int; nia). cbn [res_bind].
  match goal with |- context [for_range 1 n (source q) ?w] =>
    destruct (for_range_inv computing 1 n (source q) w) as (w1 & -> & H1 & H2 & H3 & _) end.
  - lia.
  - split; [cbn; rewrite length_replicate; lia|]. split; [cbn; rewrite length_replicate; nia|]. split; unfold ShortestPaths.node.
    + intros i Hi Hlt. lia.
    + intros i v Hi _ Hv. cbn. apply aget_replicate, index_bound; lia.
  - intros k w Hk. by apply computing_step.
  - cbn [res_bind].
    destruct (for_range_inv (fun k w => Z.of_nat (length w.(routes)) = n * n /\ forall i, node n i ->
        source_done q l w.(routes) i /\ (i < k -> to_itself q w.(routes) i)) 1 n
        (fun k w => set_route q w k k (mkRoute k None)) w1) as (w2 & -> & H4 & H5).
    + lia.
    + split; [done|]. unfold ShortestPaths.node in *. intros i Hi. split; [apply H3; lia|lia].
    + intros k w Hk [H4 H5]. unfold set_route. rewrite INDEX_ok by lia. cbn [res_bind].
      destruct (aset_ok w.(routes) (n * k + k) (mkRoute k None)) as (l' & -> & El & Eg); [rewrite H4; apply index_bound; lia|].
      eexists. split; [done|]. cbn. split; [by rewrite El|]. intros i Hi. unfold ShortestPaths.node in Hi.
      destruct (H5 i Hi) as [(r & Hr & Hall) Hs]. split.
      * exists r. split; [|done]. apply (row_ext i w.(routes)); [done..|]. intros v Hv Hne. rewrite Eg. unfold ShortestPaths.node in Hv.
        destruct (Z.eqb_spec (n * i + v) (n * k + k)) as [E|]; [|done]. apply index_inj in E; lia.
      * intros Hlt. unfold to_itself. rewrite Eg. destruct (Z.eqb_spec (n * i + i) (n * k + k)) as [E|E].
        -- apply index_inj in E as [-> _]; [done|lia..].
        -- apply Hs. assert (i <> k) by congruence. lia.
    + cbn [res_bind]. exists w2.(routes). split; [done|]. split; [done|]. intros i Hi. destruct (H5 i Hi) as [Hd Hs].
      split; [done|]. apply Hs. apply Hi.
Qed.
End compute.

(** ** Following the routes *)

(** The nodes a packet for [j] visits from [i] on; [None]: it gets stuck. *)
Fixpoint journey (fuel : nat) (q : t) (i j : Z) : res (option (list Z)) :=
  if i =? j then Ok (Some [])
  else
    match fuel with
    | O => Err Fuel
    | S fuel =>
        let! nh := lookup_flat q i j in
        if nh <? 0 then Ok None
        else let! r := journey fuel q nh j in Ok (option_map (cons nh) r)
    end.

Section follow.
Context (q : t) (l : list adj_entry) (rs : list route_entry).
Hypothesis N : network q l.
Hypothesis Htable : table q l rs.
Abbreviation n := q.(size_).
Abbreviation W := (weight l n).
Abbreviation q' := (q <| route_ := Some rs |>).

Lemma lookup_flat_ok i j :
  node n (i + 1) -> node n (j + 1) -> i <> j ->
  exists x, lookup_flat q' i j = Ok (x - 1) /\ 0 <= x < n /\
    ((exists d, d < inf /\ shortest n inf W (i + 1) (j + 1) d /\ node n x /\ W (i + 1) x < inf /\
       shortest n inf W x (j + 1) (d - W (i + 1) x)) \/
     x = 0 /\ forall hs c, walk n inf W (i + 1) hs (j + 1) c -> inf <= c).
Proof.
  intros Hi Hj Hne. pose proof (nw_size _ _ N) as Hn. destruct Htable as [Hlen Ht]. destruct (Ht _ Hi) as [(r & Hr & Hall) _].
  specialize (Hr _ Hj ltac:(lia)). specialize (Hall _ Hj ltac:(lia)). exists (r (j + 1)).
  assert (0 <= r (j + 1) < n) as Hb.
  { unfold ShortestPaths.node in *. destruct Hall as [(d & _ & _ & H & _)|[-> _]]; [unfold ShortestPaths.node in H|]; lia. }
  split; [|split; [done|exact Hall]]. unfold lookup_flat, iadd, ShortestPaths.node in *.
  rewrite !chk_ok by (unfold in_int; lia). cbn [res_bind]. cbn -[INDEX aget isub Z.leb Z.mul Z.sub].
  rewrite !(proj2 (Z.leb_gt _ _)) by lia. cbn [orb]. rewrite INDEX_ok by lia. cbn [res_bind]. rewrite Hr. cbn [res_bind next_hop].
  apply isub_ok. unfold in_int. lia.
Qed.

Lemma shortest_unique i j d d' : shortest n inf W i j d -> shortest n inf W i j d' -> d = d'.
Proof. intros [[l1 H1] H2] [[l3 H3] H4]. pose proof (H2 _ _ H3). pose proof (H4 _ _ H1). lia. Qed.

Lemma journey_ok fuel i j d :
  node n (i + 1) -> node n (j + 1) -> shortest n inf W (i + 1) (j + 1) d -> d < inf -> d <= Z.of_nat fuel ->
  exists hs, journey fuel q' i j = Ok (Some hs) /\ walk n inf W (i + 1) (map Z.succ hs) (j + 1) d.
Proof.
  revert i d. induction fuel as [|fuel IH]; intros i d Hi Hj Hd Hlt Hf.
  all: pose proof Hd as [(hs0 & H0) Hleast]; cbn [journey]; destruct (Z.eqb_spec i j) as [->|Hne].
  1,3: exists []; split; [done|]; replace d with 0;
    [by constructor|pose proof (Hleast [] 0 ltac:(by constructor)); pose proof (walk_nodes _ _ _ (weights q l N) _ _ _ _ H0); lia].
  { destruct hs0; [inversion H0; lia|]. pose proof (walk_pos _ _ _ (weights q l N) _ _ _ _ _ H0). lia. }
  destruct (lookup_flat_ok i j Hi Hj Hne) as (x & -> & Hx & [(d' & _ & Hd' & Hnx & HW & Hs)|[_ Hnone]]);
    [|pose proof (Hnone _ _ H0); lia].
  pose proof (shortest_unique _ _ _ _ Hd Hd') as <-. cbn [res_bind]. unfold ShortestPaths.node in Hnx.
  rewrite (proj2 (Z.ltb_ge (x - 1) 0)) by lia. pose proof (weights q l N (i + 1) x Hi Hnx).
  destruct (IH (x - 1) (d - W (i + 1) x)) as (hs & -> & Hw); [by replace (x - 1 + 1) with x by lia|done| |lia..|].
  { by replace (x - 1 + 1) with x by lia. }
  replace (x - 1 + 1) with x in Hw by lia.
  cbn [res_bind option_map]. eexists. split; [done|]. cbn [map]. replace (Z.succ (x - 1)) with x by lia.
  replace d with (W (i + 1) x + (d - W (i + 1) x)) by lia. by constructor.
Qed.

Lemma journey_stuck fuel i j :
  node n (i + 1) -> node n (j + 1) -> i <> j -> (forall hs c, walk n inf W (i + 1) hs (j + 1) c -> inf <= c) ->
  lookup_flat q' i j = Ok (-1) /\ journey (S fuel) q' i j = Ok None.
Proof.
  intros Hi Hj Hne Hnone. destruct (lookup_flat_ok i j Hi Hj Hne) as (x & E & Hx & [(d' & Hlt & [[hs Hw] _] & _)|[-> _]]).
  - pose proof (Hnone _ _ Hw). lia.
  - split; [done|]. cbn [journey]. rewrite (proj2 (Z.eqb_neq _ _) Hne), E. done.
Qed.
End follow.

(** ** Topologies *)

(** The commands [insert] of a script: source, destination, cost. *)
Definition topology := list (Z * Z * Z).

Fixpoint build (q : t) (tp : topology) : res t :=
  match tp with
  | [] => Ok q
  | (src, dst, c) :: tp => let! (q, ok) := command_insert q src dst (F64.of_Z c) in build q tp
  end.

(** The last cost given for a link. *)
Definition link (tp : topology) (i j : Z) : option Z :=
  fold_left (fun o '(src, dst, c) => if (i =? src) && (j =? dst) then Some c else o) tp None.

Inductive path (tp : topology) : Z -> list Z -> Z -> Z -> Prop :=
  | path_here i : path tp i [] i 0
  | path_hop i h hs j c d : link tp i h = Some c -> path tp h hs j d -> path tp i (h :: hs) j (c + d).

Definition whole (tp : topology) : Prop :=
  Forall (fun '(src, dst, c) => 0 <= src < 32767 /\ 0 <= dst < 32767 /\ 1 <= c < inf) tp.

Definition stored_cost (o : option Z) : f64 := match o with Some c => F64.of_Z c | None => INFINITY end.

Lemma build_ok (tp : topology) q (f : Z -> Z -> option Z) :
  whole tp -> stored q -> (forall i j, 0 <= i -> 0 <= j -> cost_of q (i + 1) (j + 1) = stored_cost (f i j)) ->
  exists q', build q tp = Ok q' /\ stored q' /\ q'.(route_) = q.(route_) /\
    forall i j, 0 <= i -> 0 <= j -> cost_of q' (i + 1) (j + 1) =
      stored_cost (fold_left (fun o '(src, dst, c) => if (i =? src) && (j =? dst) then Some c else o) tp (f i j)).
Proof.
  intros Htp. revert q f. induction Htp as [|[[src dst] c] tp (Hs & Hd & Hc) _ IH]; intros q f Hq Hf; [by exists q|].
  cbn [build fold_left]. unfold command_insert, iadd. rewrite !chk_ok by (unfold in_int; lia). cbn [res_bind].
  rewrite !(proj2 (Z.leb_gt _ _)) by lia. cbn [orb].
  destruct (route_insert_ok q (src + 1) (dst + 1) (F64.of_Z c) Hq) as (q1 & -> & Hq1 & _ & _ & Hr1 & Hc1); [lia..|]. cbn [res_bind].
  destruct (IH q1 (fun i j => if (i =? src) && (j =? dst) then Some c else f i j) Hq1) as (q2 & -> & Hq2 & Hr2 & Hc2).
  { intros i j Hi Hj. rewrite Hc1. destruct (Z.eqb_spec i src), (Z.eqb_spec (i + 1) (src + 1)),
      (Z.eqb_spec j dst), (Z.eqb_spec (j + 1) (dst + 1)); try lia; try (by apply Hf); done. }
  exists q2. split; [done|]. split; [done|]. split; [congruence|exact Hc2].
Qed.

Lemma link_in tp i j c : link tp i j = Some c -> (i, j, c) ∈ tp.
Proof.
  unfold link. enough (forall o, fold_left (fun o '(src, dst, c) => if (i =? src) && (j =? dst) then Some c else o) tp o = Some c ->
    o = Some c \/ (i, j, c) ∈ tp) as H by (intros E; by destruct (H None E)).
  induction tp as [|[[src dst] x] tp IH]; intros o; cbn [fold_left]; [by left|].
  intros [E|E]%IH; [|right; by apply elem_of_cons; right]. destruct ((i =? src) && (j =? dst)) eqn:Eij; [|by left].
  right. bool_prop. injection E as ->. subst. by apply elem_of_cons; left.
Qed.

Lemma link_whole tp i j c :
  whole tp -> link tp i j = Some c -> 0 <= i < 32767 /\ 0 <= j < 32767 /\ 1 <= c < inf.
Proof. intros Htp Hl%link_in. unfold whole in Htp. rewrite Forall_forall in Htp. by specialize (Htp _ Hl). Qed.

Lemma stored_cost_int tp i j :
  whole tp -> F64Exact.int (stored_cost (link tp i j)) (default inf (link tp i j)) /\ 1 <= default inf (link tp i j) <= inf.
Proof.
  intros Htp. destruct (link tp i j) as [c|] eqn:E; cbn; [|split; [apply int_inf|lia]].
  pose proof (link_whole tp i j c Htp E). split; [apply F64Exact.int_of_Z|]; lia.
Qed.

Section network.
Context (tp : topology) (q : t).
Hypothesis Htp : whole tp.
Hypothesis Hcost : forall i j, 0 <= i -> 0 <= j -> cost_of q (i + 1) (j + 1) = stored_cost (link tp i j).

Lemma link_nodes i h c : link tp i h = Some c -> node q.(size_) (i + 1) /\ node q.(size_) (h + 1).
Proof.
  intros E. destruct (link_whole tp i h c Htp E) as (Hi & Hh & Hc). pose proof (stored_cost_int tp i h Htp) as [Hint _].
  rewrite E in Hint. cbn [default] in Hint. unfold ShortestPaths.node.
  destruct (decide (i + 1 < q.(size_) /\ h + 1 < q.(size_))) as [[H1 H2]|Hout]; [lia|exfalso].
  pose proof (Hcost i h ltac:(lia) ltac:(lia)) as Hq. rewrite cost_outside, E in Hq by (intros; apply Hout; lia).
  rewrite <- Hq in Hint. apply F64Exact.int_trunc in Hint. rewrite (F64Exact.int_trunc _ _ int_inf) in Hint. injection Hint. lia.
Qed.

Lemma path_nodes i hs j c : path tp i hs j c -> i <> j -> node q.(size_) (i + 1) /\ node q.(size_) (j + 1).
Proof.
  intros Hp Hne. assert (hs <> []) as Hhs by (intros ->; inversion Hp; lia). clear Hne.
  induction Hp as [i|i h hs j c d E Hp IH]; [done|]. destruct (link_nodes i h c E) as [Hi Hh]. split; [done|].
  destruct hs as [|h' hs]; [by inversion Hp; subst|]. by apply IH.
Qed.

Section routes.
Context (l : list adj_entry) (e : Z).
Hypothesis Hsq : square q l e.
Abbreviation n := q.(size_).

Lemma weight_link i j : node n (i + 1) -> node n (j + 1) -> weight l n (i + 1) (j + 1) = default inf (link tp i j).
Proof.
  unfold ShortestPaths.node. intros Hi Hj.
  destruct (square_get q l e (i + 1) (j + 1) Hsq) as (a & _ & Ea & Ec & _); [lia..|]. unfold weight. rewrite Ea, <- Ec, Hcost by lia.
  by rewrite (F64Exact.int_trunc _ _ (proj1 (stored_cost_int tp i j Htp))).
Qed.

Lemma square_network : network q l.
Proof.
  pose proof Hsq as (H1 & H2 & H3 & H4). pose proof (size_bound e H3). split; [done|lia|done|]. intros i j Hi Hj.
  destruct (square_get q l e i j Hsq) as (a & _ & Ea & Ec & _); [lia..|]. exists a, (default inf (link tp (i - 1) (j - 1))).
  split; [done|]. rewrite <- Ec. pose proof (Hcost (i - 1) (j - 1) ltac:(lia) ltac:(lia)) as Hq.
  replace (i - 1 + 1) with i in Hq by lia. replace (j - 1 + 1) with j in Hq by lia. rewrite Hq. by apply stored_cost_int.
Qed.

Lemma path_walk i hs j c :
  path tp i hs j c -> node n (i + 1) -> walk n inf (weight l n) (i + 1) (map Z.succ hs) (j + 1) c.
Proof.
  induction 1 as [i|i h hs j c d E Hp IH]; intros Hi; [by constructor|]. destruct (link_nodes i h c E) as [_ Hh].
  pose proof (link_whole tp i h c Htp E). pose proof (weight_link i h Hi Hh) as EW. rewrite E in EW. change (default inf (Some c)) with c in EW.
  rewrite <- EW. cbn [map]. replace (Z.succ h) with (h + 1) by lia. constructor; [done|lia|by apply IH].
Qed.

Lemma walk_path i hs j c :
  walk n inf (weight l n) (i + 1) (map Z.succ hs) (j + 1) c -> path tp i hs j c.
Proof.
  revert i c. induction hs as [|h hs IH]; intros i c Hw.
  - inversion Hw; subst. replace j with i by lia. constructor.
  - inversion Hw as [|? ? ? ? d Hi HW Hw']; subst. replace (Z.succ h) with (h + 1) in * by lia.
    destruct (walk_nodes _ _ _ (weights q l square_network) _ _ _ _ Hw') as (Hh & _ & _).
    rewrite (weight_link i h Hi Hh) in HW |- *. destruct (link tp i h) as [x|] eqn:E; cbn [default] in *; [|lia].
    constructor; [done|by apply IH].
Qed.

Lemma routes_from_matrix i j :
  i <> j -> 0 <= i < 32767 -> 0 <= j < 32767 -> exists q', compute_routes q = Ok q' /\
  (exists nh, lookup_flat q' i j = Ok nh /\ (nh < 0 \/ is_Some (link tp i nh))) /\
  ((exists hs d, journey (Z.to_nat inf) q' i j = Ok (Some hs) /\ path tp i hs j d /\ d < inf /\
      forall hs' c, path tp i hs' j c -> d <= c) \/
   journey (Z.to_nat inf) q' i j = Ok None /\ forall hs c, path tp i hs j c -> inf <= c).
Proof.
  intros Hne Hi Hj. pose proof square_network as N. destruct (compute_ok q l N) as (rs & E & Ht).
  exists (q <| route_ := Some rs |>). split; [done|]. change (Z.to_nat inf) with (S (Z.to_nat 16382)).
  destruct (decide (i + 1 < n /\ j + 1 < n)) as [[Hin Hjn]|Hout].
  - assert (node n (i + 1) /\ node n (j + 1)) as [Hin' Hjn'] by (unfold ShortestPaths.node; lia).
    destruct (lookup_flat_ok q l rs N Ht i j Hin' Hjn' Hne) as (x & El & _ & [(d & Hlt & Hd & Hx & HW & _)|[-> Hnone]]).
    + split.
      { exists (x - 1). split; [exact El|right]. replace x with (x - 1 + 1) in Hx, HW by lia.
        rewrite (weight_link i (x - 1) Hin' Hx) in HW. destruct (link tp i (x - 1)) as [c|]; [by exists c|cbn in HW; lia]. }
      left. destruct (journey_ok q l rs N Ht (S (Z.to_nat 16382)) i j d Hin' Hjn' Hd Hlt ltac:(lia)) as (hs & EJ & Hw).
      exists hs, d. split; [done|]. split; [by apply walk_path|]. split; [done|].
      intros hs' c Hp. by apply (proj2 Hd (map Z.succ hs')), path_walk.
    + split; [exists (-1); split; [exact El|by left]|].
      right. split; [by apply (journey_stuck q l rs N Ht)|].
      intros hs c Hp. by apply (Hnone (map Z.succ hs)), path_walk.
  - assert (lookup_flat (q <| route_ := Some rs |>) i j = Ok (-2)) as El.
    { unfold lookup_flat, iadd. rewrite !chk_ok by (unfold in_int; lia). cbn [res_bind]. cbn -[Z.leb Z.add].
      destruct (Z.leb_spec n (i + 1)), (Z.leb_spec n (j + 1)); try done. lia. }
    split; [exists (-2); split; [exact El|by left]|]. right. split.
    + cbn [journey]. by rewrite (proj2 (Z.eqb_neq _ _) Hne), El.
    + intros hs c Hp. destruct (path_nodes i hs j c Hp Hne) as [H1 H2]. unfold ShortestPaths.node in *. lia.
Qed.
End routes.
End network.

Lemma lookup_empty i j r : 0 <= i < 32767 -> 0 <= j < 32767 -> lookup_flat (mk None None r) i j = Ok (-1).
Proof. intros Hi Hj. unfold lookup_flat, iadd. by rewrite !chk_ok by (unfold in_int; lia). Qed.

(** The routes of a topology. *)
Lemma topology_routes (tp : topology) :
  whole tp ->
  exists q q', build create tp = Ok q /\ command_compute q = Ok q' /\
    forall i j, 0 <= i < 32767 -> 0 <= j < 32767 -> i <> j ->
      (exists nh, lookup_flat q' i j = Ok nh /\ (nh < 0 \/ is_Some (link tp i nh))) /\
      ((exists hs d, journey (Z.to_nat inf) q' i j = Ok (Some hs) /\ path tp i hs j d /\ d < inf /\
         forall hs' c, path tp i hs' j c -> d <= c) \/
       journey (Z.to_nat inf) q' i j = Ok None /\ forall hs c, path tp i hs j c -> inf <= c).
Proof.
  intros Htp. destruct (build_ok tp create (fun _ _ => None) Htp) as (q & Eq & Hq & Hr & Hcost);
    [by left|intros i j _ _; apply cost_outside; cbn; lia|].
  exists q. rewrite Eq. destruct Hq as [Hq|(l & e & Hsq)].
  - exists q. split; [done|]. rewrite Hr in Hq. rewrite Hq. split; [done|]. intros i j Hi Hj Hne.
    split; [exists (-1); split; [by apply lookup_empty|by left]|]. right. split.
    + change (Z.to_nat inf) with (S (Z.to_nat 16382)). cbn [journey]. rewrite (proj2 (Z.eqb_neq _ _) Hne).
      cbn [create route_]. by rewrite lookup_empty.
    + intros hs c Hp. destruct (path_nodes tp q Htp Hcost i hs j c Hp Hne) as [H1 _]. rewrite Hq in H1.
      unfold ShortestPaths.node in H1. cbn in H1. lia.
  - assert (square q l e) as (Ha & _) by done. unfold command_compute. rewrite Ha.
    destruct (compute_ok q l (square_network tp q Htp Hcost l e Hsq)) as (rs & E & _). exists (q <| route_ := Some rs |>).
    split; [done|]. split; [done|]. intros i j Hi Hj Hne.
    destruct (routes_from_matrix tp q Htp Hcost l e Hsq i j Hne Hi Hj) as (q' & E' & H). rewrite E in E'. by injection E' as <-.
Qed.

(** C5: packets take cheapest paths: of any network of links with whole
    costs, [compute_routes] makes a table that leads, hop by hop, from every
    node to every other over a path of links whose cost is least, and leads
    nowhere if no path costs less than INFINITY. *)
Theorem routes_shortest (tp : topology) :
  whole tp ->
  exists q q', build create tp = Ok q /\ command_compute q = Ok q' /\
    forall i j, 0 <= i < 32767 -> 0 <= j < 32767 -> i <> j ->
      (exists hs d, journey (Z.to_nat 16383) q' i j = Ok (Some hs) /\ path tp i hs j d /\ d < 16383 /\
         forall hs' c, path tp i hs' j c -> d <= c) \/
      journey (Z.to_nat 16383) q' i j = Ok None /\ forall hs c, path tp i hs j c -> 16383 <= c.
Proof.
  intros Htp. destruct (topology_routes tp Htp) as (q & q' & E & E' & H). exists q, q'. split; [done|]. split; [done|].
  intros i j Hi Hj Hne. apply (H i j Hi Hj Hne).
Qed.

(** A link of cost above INFINITY is not seen as missing, and a missing link
    counts as one of cost INFINITY: the route from 0 to 2 goes through node 1,
    which has no link to 2, and packets get stuck there. *)
Lemma expensive_link_misroutes :
  exists q q', build create [(0, 1, 1); (0, 2, 20000)] = Ok q /\ command_compute q = Ok q' /\
    lookup_flat q' 0 2 = Ok 1 /\ lookup_flat q' 1 2 = Ok (-1).
Proof. eexists _, _. split; [reflexivity|]. split; [vm_compute; reflexivity|]. by split. Qed.

(** Growing the matrix forgets the links' entries. *)
Lemma growing_forgets_entries :
  exists q q' a, insert_with create 1 2 (F64.of_Z 1) (Some 7%positive) = Ok q /\ insert q 1 16 (F64.of_Z 1) = Ok q' /\
    ADJ q' 1 2 = Ok a /\ a.(entry) = None.
Proof. eexists _, _, _. split; [vm_compute; reflexivity|]. split; [vm_compute; reflexivity|]. split; [vm_compute; reflexivity|done]. Qed.
End RouteProps.

(** * Witnesses *)

Module RouteWitness.
Import RouteLogic RouteProps.

(** Two leaves, two spines, one of them farther away, and one host each. *)
Definition spine_leaf : topology :=
  [(0, 2, 1); (2, 0, 1); (1, 3, 1); (3, 1, 1); (2, 4, 1); (4, 2, 1); (3, 4, 1); (4, 3, 1); (2, 5, 1); (5, 2, 1); (3, 5, 3); (5, 3, 3)].

Definition routed : t := match (let! q := build create spine_leaf in command_compute q) with Ok q => q | Err _ => create end.

Lemma routes_shortest_witness :
  journey (Z.to_nat 16383) routed 0 1 = Ok (Some [2; 4; 3; 1]) /\
  exists d, path spine_leaf 0 [2; 4; 3; 1] 1 d /\ forall hs c, path spine_leaf 0 hs 1 c -> d <= c.
Proof.
  assert (journey (Z.to_nat 16383) routed 0 1 = Ok (Some [2; 4; 3; 1])) as EJ by (vm_compute; reflexivity).
  split; [exact EJ|].
  destruct (routes_shortest spine_leaf) as (q & q' & Eq & Eq' & H); [by repeat constructor|].
  assert (routed = q') as Er by (unfold routed; rewrite Eq; cbn [res_bind]; by rewrite Eq'). rewrite <- Er in H.
  destruct (H 0 1 ltac:(lia) ltac:(lia) ltac:(lia)) as [(hs & d & EJ' & Hp & _ & Hall)|[EJ' _]]; rewrite EJ in EJ'; [|discriminate EJ'].
  injection EJ' as <-. exists d. split; [exact Hp|exact Hall].
Defined.
End RouteWitness.

