(* ===== verification/Classifier.v ===== *)
(** * Classifiers, connectors and the time-to-live checker

    [Classifier] (src/ns2/classifier/classifier.h, classifier.cc), a table of
    slots that a packet is sent through by the slot its header selects, and
    its classes [AddressClassifier], [PortClassifier] with their variants that
    reserve slots or know a broadcast receiver (classifier-addr, -port),
    [MultiPathForwarder] (classifier-mpath.cc) and the hash classifiers
    (classifier-hash); [Connector] (common/connector) and [TTLChecker]
    (common/ttl.cc).

    [Obj] is the type of the objects a table points to.  The commands that
    Tcl runs for a packet without a slot or of an unknown flow are parameters,
    and so is the hash table of the Tcl library ([TclHash]). *)

From Stdlib Require Import ZArith Lia Bool.
From stdpp Require Import base list gmap.
From S2P Require Import Prelude.

(** The fields of [hdr_ip] that classifiers look at. *)
Record hdr_ip := mkIp { saddr : Z; daddr : Z; dport : Z; flowid : Z; prio : Z; ttl : Z }.

#[global] Instance eta_hdr_ip : Eta hdr_ip := fun h => mkIp (saddr h) (daddr h) (dport h) (flowid h) (prio h) (ttl h).

(** What becomes of a packet given to an object. *)
Inductive outcome (Obj : Type) := Sent (o : Obj) (p : hdr_ip) | Freed (p : hdr_ip).
Arguments Sent {Obj} o p.
Arguments Freed {Obj} p.

(** * The base class *)

Module Classifier.

Record t (Obj : Type) := mk {
  slot_ : option (list (option Obj));
  nslot_ : Z;
  maxslot_ : Z;
  shift_ : Z;
  mask_ : Z;
  default_target_ : option Obj;
  nsize_ : Z
}.
Arguments mk {Obj}.
Arguments slot_ {Obj}. Arguments nslot_ {Obj}. Arguments maxslot_ {Obj}. Arguments shift_ {Obj}.
Arguments mask_ {Obj}. Arguments default_target_ {Obj}. Arguments nsize_ {Obj}.

#[global] Instance eta_t {Obj} : Eta (t Obj) := fun c =>
  mk (slot_ c) (nslot_ c) (maxslot_ c) (shift_ c) (mask_ c) (default_target_ c) (nsize_ c).

(** The answers of [classify] for a packet without a slot. *)
Definition TWICE : Z := -1.

Section Classifier.
Context {Obj : Type} `{EqDecision Obj}.

(** [shift] and [mask] as Tcl has bound them. *)
Definition create (shift mask : Z) : t Obj := mk None 0 (-1) shift mask None 0.

Definition set_default_target (c : t Obj) (o : option Obj) : t Obj := c <| default_target_ := o |>.

Definition set_table_size (c : t Obj) (nn : Z) : t Obj := c <| nsize_ := nn |>.

Definition mshift (c : t Obj) (val : Z) : res Z :=
  if (c.(shift_) <? 0) || (32 <=? c.(shift_)) then Err UB else Ok (Z.land (Z.shiftr val c.(shift_)) c.(mask_)).

Definition slot (c : t Obj) (i : Z) : res (option Obj) :=
  if (0 <=? i) && (i <? c.(nslot_)) then let! l := deref c.(slot_) in aget l i else Ok None.

Definition alloc (c : t Obj) (i : Z) : res (t Obj) :=
  let n := c.(nslot_) in
  let! nslot := doubled 32 (match c.(slot_) with
                            | None => if c.(nsize_) =? 0 then 32 else c.(nsize_)
                            | Some _ => n
                            end) i in
  if nslot <? 0 then Err Throw
  else
    let new := replicate (Z.to_nat nslot) None in
    let! new := match c.(slot_) with
                | Some old => for_range 0 n (fun i new => let! o := aget old i in aset new i o) new
                | None => if 0 <? n then Err UB else Ok new
                end in
    Ok (c <| slot_ := Some new |> <| nslot_ := nslot |>).

Definition set_slot (c : t Obj) (i : Z) (o : option Obj) : res (t Obj) :=
  let! l := deref c.(slot_) in
  let! l := aset l i o in
  Ok (c <| slot_ := Some l |>).

Definition install (c : t Obj) (i : Z) (o : option Obj) : res (t Obj) :=
  let! c := if c.(nslot_) <=? i then alloc c i else Ok c in
  let! c := set_slot c i o in
  Ok (if c.(maxslot_) <=? i then c <| maxslot_ := i |> else c).

(** [while (--maxslot_ >= low && slot_[maxslot_] == 0);] *)
Fixpoint lower (fuel : nat) (l : list (option Obj)) (low m : Z) : res Z :=
  let m := m - 1 in
  if m <? low then Ok m
  else
    match fuel with
    | O => Err Fuel
    | S fuel => let! o := aget l m in match o with None => lower fuel l low m | Some _ => Ok m end
    end.

Definition clear_above (low : Z) (c : t Obj) (i : Z) : res (t Obj) :=
  let! c := set_slot c i None in
  if i =? c.(maxslot_) then
    let! l := deref c.(slot_) in
    let! m := lower (length l) l low i in
    Ok (c <| maxslot_ := m |>)
  else Ok c.

Definition clear (c : t Obj) (i : Z) : res (t Obj) := clear_above 0 c i.

(** The first slot from [i] on that is empty or holds [nullagent]. *)
Fixpoint free_slot (l : list (option Obj)) (nullagent : option Obj) (i : Z) : Z :=
  match l with
  | [] => i
  | o :: l => if bool_decide (o = None) || bool_decide (o = nullagent) then i else free_slot l nullagent (i + 1)
  end.

Definition getnxt_from (low : Z) (c : t Obj) (nullagent : option Obj) : res (t Obj * Z) :=
  let l := match c.(slot_) with Some l => drop (Z.to_nat low) l | None => [] end in
  if low <? 0 then Err UB
  else
    let i := free_slot l nullagent low in
    if i <? c.(nslot_) then Ok (c, i)
    else let! c' := alloc c c.(nslot_) in Ok (c', c.(nslot_)).

Definition getnxt (c : t Obj) (nullagent : option Obj) : res (t Obj * Z) := getnxt_from 0 c nullagent.

Definition allocPort (c : t Obj) (nullagent : option Obj) : res (t Obj * Z) := getnxt c nullagent.

Definition install_next (c : t Obj) (o : option Obj) : res (t Obj * Z) :=
  let! i := iadd c.(maxslot_) 1 in
  let! c := install c i o in
  Ok (c, i).
End Classifier.
End Classifier.

(** A class of classifiers: its table, and its virtual function [classify]. *)
Class Classify (C Obj : Type) := {
  table : C -> Classifier.t Obj;
  classify : C -> hdr_ip -> res (C * Z)
}.

Module Find.
Import Classifier.

Section find.
Context {C Obj : Type} `{Classify C Obj}.

(** The Tcl command [no-slot]. *)
Context (no_slot : C -> Z -> res C).

Definition find (c : C) (p : hdr_ip) : res (C * option Obj) :=
  let! (c, cl) := classify c p in
  let! node := slot (table c) cl in
  match node with
  | Some _ => Ok (c, node)
  | None =>
      match (table c).(default_target_) with
      | Some o => Ok (c, Some o)
      | None =>
          let! c := no_slot c cl in
          if cl =? TWICE then
            let! (c, cl) := classify c p in
            let! node := slot (table c) cl in Ok (c, node)
          else Ok (c, None)
      end
  end.

Definition recv (c : C) (p : hdr_ip) : res (C * outcome Obj) :=
  let! (c, node) := find c p in
  Ok (c, match node with Some o => Sent o p | None => Freed p end).
End find.
End Find.

(** * Addresses and ports *)

Module AddressClassifier.
Record t (Obj : Type) := mk { base : Classifier.t Obj }.
Arguments mk {Obj}. Arguments base {Obj}.

Definition classify {Obj} (c : t Obj) (p : hdr_ip) : res (t Obj * Z) :=
  let! cl := Classifier.mshift c.(base) p.(daddr) in Ok (c, cl).
End AddressClassifier.

#[export] Instance AddressClassifier_classify {Obj} : Classify (AddressClassifier.t Obj) Obj :=
  { table := AddressClassifier.base; classify := AddressClassifier.classify }.

Module PortClassifier.
Record t (Obj : Type) := mk { base : Classifier.t Obj }.
Arguments mk {Obj}. Arguments base {Obj}.

Definition classify {Obj} (c : t Obj) (p : hdr_ip) : res (t Obj * Z) := Ok (c, p.(dport)).
End PortClassifier.

#[export] Instance PortClassifier_classify {Obj} : Classify (PortClassifier.t Obj) Obj :=
  { table := PortClassifier.base; classify := PortClassifier.classify }.

(** [ReservePortClassifier], and [ReserveAddressClassifier], which has the
    same members. *)
Module ReservePortClassifier.
Record t (Obj : Type) := mk { base : Classifier.t Obj; reserved_ : Z }.
Arguments mk {Obj}. Arguments base {Obj}. Arguments reserved_ {Obj}.

#[global] Instance eta_t {Obj} : Eta (t Obj) := fun c => mk (base c) (reserved_ c).

Section Reserve.
Context {Obj : Type} `{EqDecision Obj}.

Definition classify (c : t Obj) (p : hdr_ip) : res (t Obj * Z) := Ok (c, p.(dport)).

Definition reserve_port (c : t Obj) (n : Z) : res (t Obj) :=
  let! m := isub n 1 in
  let! b := Classifier.alloc (c.(base) <| Classifier.maxslot_ := m |>) m in
  Ok (mk b n).

Definition clear (c : t Obj) (i : Z) : res (t Obj) :=
  let! b := Classifier.clear_above c.(reserved_) c.(base) i in Ok (c <| base := b |>).

Definition getnxt (c : t Obj) (nullagent : option Obj) : res (t Obj * Z) :=
  let! (b, i) := Classifier.getnxt_from c.(reserved_) c.(base) nullagent in Ok (c <| base := b |>, i).
End Reserve.
End ReservePortClassifier.

#[export] Instance ReservePortClassifier_classify {Obj} : Classify (ReservePortClassifier.t Obj) Obj :=
  { table := ReservePortClassifier.base; classify := ReservePortClassifier.classify }.

Module BcastAddressClassifier.
Import Classifier.
Record t (Obj : Type) := mk { base : Classifier.t Obj; bcast_recver_ : option Obj }.
Arguments mk {Obj}. Arguments base {Obj}. Arguments bcast_recver_ {Obj}.

Definition classify {Obj} (c : t Obj) (p : hdr_ip) : res (t Obj * Z) :=
  let! cl := mshift c.(base) p.(daddr) in Ok (c, cl).

Definition find {Obj} (no_slot : t Obj -> Z -> res (t Obj)) (c : t Obj) (p : hdr_ip) : res (t Obj * option Obj) :=
  let! (c, cl) := classify c p in
  let! node := slot c.(base) cl in
  match node with
  | Some _ => Ok (c, node)
  | None =>
      if cl =? c.(base).(mask_) then Ok (c, c.(bcast_recver_))
      else
        match c.(base).(default_target_) with
        | Some o => Ok (c, Some o)
        | None =>
            let! c := no_slot c cl in
            let! (c, cl) := classify c p in
            let! node := slot c.(base) cl in Ok (c, node)
        end
  end.
End BcastAddressClassifier.

(** * Several paths *)

Module MultiPathForwarder.
Record t (Obj : Type) := mk {
  base : Classifier.t Obj;
  ns_ : Z;
  nodeid_ : Z;
  nodetype_ : Z;
  perflow_ : bool;
  checkpathid_ : bool
}.
Arguments mk {Obj}.
Arguments base {Obj}. Arguments ns_ {Obj}. Arguments nodeid_ {Obj}. Arguments nodetype_ {Obj}.
Arguments perflow_ {Obj}. Arguments checkpathid_ {Obj}.

#[global] Instance eta_t {Obj} : Eta (t Obj) := fun c =>
  mk (base c) (ns_ c) (nodeid_ c) (nodetype_ c) (perflow_ c) (checkpathid_ c).

(** The four bytes of an [int] in memory, as signed [char]s. *)
Definition bytes_of_int (z : Z) : list Z :=
  map (fun i => let b := Z.land (Z.shiftr z (8 * i)) 255 in if 128 <=? b then b - 256 else b) [0; 1; 2; 3].

Definition HashString (bytes : list Z) : Z :=
  fold_left (fun result b => u32 (result + (u32 (Z.shiftl result 3) + b))) bytes 0.

(** The [do ... while]: slot [cur] and the next ones, until one is used or
    the search is back at [fail].  Also the next [cur]. *)
Fixpoint next_slot {Obj} (fuel : nat) (l : list (option Obj)) (m fail cur : Z) : res (Z * Z) :=
  match fuel with
  | O => Err Fuel
  | S fuel =>
      let next := Z.rem (cur + 1) m in
      let! o := aget l cur in
      match o with
      | None => if next =? fail then Ok (cur, next) else next_slot fuel l m fail next
      | Some _ => Ok (cur, next)
      end
  end.

Section MultiPath.
Context {Obj : Type}.

(** The struct [hkey]. *)
Definition hkey (c : t Obj) (h : hdr_ip) : res (list Z) :=
  let! src := Classifier.mshift c.(base) h.(saddr) in
  let! dst := Classifier.mshift c.(base) h.(daddr) in
  Ok (concat (map bytes_of_int [c.(nodeid_); src; dst; h.(flowid)])).

(** Remainders by [maxslot_ + 1], zero in an empty table. *)
Definition modulus (c : t Obj) : res Z :=
  let! m := iadd c.(base).(Classifier.maxslot_) 1 in if m =? 0 then Err UB else Ok m.

Definition classify (c : t Obj) (h : hdr_ip) : res (t Obj * Z) :=
  let! l := deref c.(base).(Classifier.slot_) in
  let fuel := S (length l) in
  if c.(perflow_) || c.(checkpathid_) then
    let! key := hkey c h in
    let ms := HashString key in
    let ms := if c.(checkpathid_) then u32 (ms + h.(prio)) else ms in
    let! m := modulus c in
    let ms := ms mod u32 m in
    let! (cl, _) := next_slot fuel l (u32 m) ms ms in
    Ok (c, cl)
  else
    let! m := modulus c in
    let! (cl, ns) := next_slot fuel l m c.(ns_) c.(ns_) in
    Ok (c <| ns_ := ns |>, cl).
End MultiPath.
End MultiPathForwarder.

#[export] Instance MultiPathForwarder_classify {Obj} : Classify (MultiPathForwarder.t Obj) Obj :=
  { table := MultiPathForwarder.base; classify := MultiPathForwarder.classify }.

(** * Hash classifiers *)

(** The hash table of the Tcl library, from keys of one or more words. *)
Class TclHash (H : Type) := {
  th_empty : H;
  th_find : H -> list Z -> option Z;
  th_set : H -> list Z -> Z -> H;
  th_delete : H -> list Z -> H
}.

(** Its documentation. *)
Class TclHashLaws (H : Type) `{TclHash H} := {
  th_find_empty k : th_find th_empty k = None;
  th_find_set h k k' v : th_find (th_set h k v) k' = if decide (k' = k) then Some v else th_find h k';
  th_find_delete h k k' : th_find (th_delete h k) k' = if decide (k' = k) then None else th_find h k'
}.

#[export] Instance gmap_hash : TclHash (gmap (list Z) Z) :=
  { th_empty := ∅; th_find h k := h !! k; th_set h k v := <[k := v]> h; th_delete h k := delete k h }.

#[export] Instance gmap_hash_laws : TclHashLaws (gmap (list Z) Z).
Proof.
  split.
  - intros k. apply lookup_empty.
  - intros h k k' v. cbn. destruct (decide (k' = k)) as [->|Hne]; [by rewrite lookup_insert_eq|by rewrite lookup_insert_ne].
  - intros h k k'. cbn. destruct (decide (k' = k)) as [->|Hne]; [by rewrite lookup_delete_eq|by rewrite lookup_delete_ne].
Qed.

Module HashClassifier.

(** The classes; [Dest] is DestHashClassifier. *)
Inductive kind := SrcDestFid | SrcDest | Fid | Dest.

Record t (H Obj : Type) := mk { base : Classifier.t Obj; default_ : Z; ht_ : H; class : kind }.
Arguments mk {H Obj}. Arguments base {H Obj}. Arguments default_ {H Obj}. Arguments ht_ {H Obj}. Arguments class {H Obj}.

#[global] Instance eta_t {H Obj} : Eta (t H Obj) := fun c => mk (base c) (default_ c) (ht_ c) (class c).

Section Hash.
Context {H Obj : Type} `{TclHash H} `{EqDecision Obj}.

(** The Tcl command [unknown-flow]. *)
Context (unknown_flow : t H Obj -> hdr_ip -> res (t H Obj)).

Definition create (k : kind) (shift mask default : Z) : t H Obj := mk (Classifier.create shift mask) default th_empty k.

Definition hashkey (c : t H Obj) (src dst fid : Z) : res (list Z) :=
  match c.(class) with
  | SrcDestFid =>
      let! src := Classifier.mshift c.(base) src in
      let! dst := Classifier.mshift c.(base) dst in Ok [src; dst; fid]
  | SrcDest =>
      let! src := Classifier.mshift c.(base) src in
      let! dst := Classifier.mshift c.(base) dst in Ok [src; dst]
  | Fid => Ok [fid]
  | Dest => let! dst := Classifier.mshift c.(base) dst in Ok [dst]
  end.

Definition set_hash (c : t H Obj) (src dst fid slot : Z) : res (t H Obj * Z) :=
  let! k := hashkey c src dst fid in Ok (c <| ht_ := th_set c.(ht_) k slot |>, slot).

Definition get_hash (c : t H Obj) (src dst fid : Z) : res Z :=
  let! k := hashkey c src dst fid in Ok (default (-1) (th_find c.(ht_) k)).

(** The command del-hash: the slot that was there; [None] is an error. *)
Definition del_hash (c : t H Obj) (src dst fid : Z) : res (t H Obj * option Z) :=
  let! k := hashkey c src dst fid in
  match th_find c.(ht_) k with
  | Some slot => Ok (c <| ht_ := th_delete c.(ht_) k |>, Some slot)
  | None => Ok (c, None)
  end.

Definition lookup (c : t H Obj) (p : hdr_ip) : res Z :=
  let! src := Classifier.mshift c.(base) p.(saddr) in
  let! dst := Classifier.mshift c.(base) p.(daddr) in
  get_hash c src dst p.(flowid).

Definition unknown (c : t H Obj) (p : hdr_ip) : res (t H Obj * Z) :=
  let! c := unknown_flow c p in let! slot := lookup c p in Ok (c, slot).

(** [HashClassifier::classify], and [DestHashClassifier::classify]. *)
Definition classify (c : t H Obj) (p : hdr_ip) : res (t H Obj * Z) :=
  let! slot := lookup c p in
  if (0 <=? slot) && (slot <=? c.(base).(Classifier.maxslot_)) then Ok (c, slot)
  else if 0 <=? c.(default_) then Ok (c, c.(default_))
  else match c.(class) with Dest => Ok (c, -1) | _ => unknown c p end.

(** [DestHashClassifier::do_install]. *)
Definition do_install (c : t H Obj) (d : Z) (target : option Obj) : res (t H Obj) :=
  let! (b, slot) := Classifier.getnxt c.(base) target in
  let! b := Classifier.install b slot target in
  let! (c, _) := set_hash (c <| base := b |>) 0 d 0 slot in
  Ok c.
End Hash.
End HashClassifier.

(** * Connectors *)

Module Connector.
Record t (Obj : Type) := mk { target_ : option Obj; drop_ : option Obj }.
Arguments mk {Obj}. Arguments target_ {Obj}. Arguments drop_ {Obj}.

#[global] Instance eta_t {Obj} : Eta (t Obj) := fun k => mk (target_ k) (drop_ k).

Definition create {Obj} : t Obj := mk None None.

Definition set_target {Obj} (k : t Obj) (o : option Obj) : t Obj := k <| target_ := o |>.

Definition setDropTarget {Obj} (k : t Obj) (dt : option Obj) : t Obj := k <| drop_ := dt |>.

Definition send {Obj} (k : t Obj) (p : hdr_ip) : res (outcome Obj) :=
  let! o := deref k.(target_) in Ok (Sent o p).

Definition recv {Obj} (k : t Obj) (p : hdr_ip) : res (outcome Obj) := send k p.

Definition drop {Obj} (k : t Obj) (p : hdr_ip) : outcome Obj :=
  match k.(drop_) with Some o => Sent o p | None => Freed p end.
End Connector.

Module TTLChecker.
Record t (Obj : Type) := mk { base : Connector.t Obj; tick_ : Z }.
Arguments mk {Obj}. Arguments base {Obj}. Arguments tick_ {Obj}.

#[global] Instance eta_t {Obj} : Eta (t Obj) := fun c => mk (base c) (tick_ c).

Definition create {Obj} : t Obj := mk Connector.create 1.

(** The command tick: [false] is an error. *)
Definition set_tick {Obj} (k : t Obj) (tick : Z) : t Obj * bool :=
  if 0 <? tick then (k <| tick_ := tick |>, true) else (k, false).

(** The command tick of [SessionTTLChecker], which is otherwise the same. *)
Definition session_set_tick {Obj} (k : t Obj) (tick : Z) : t Obj := k <| tick_ := tick |>.

Definition recv {Obj} (k : t Obj) (p : hdr_ip) : res (outcome Obj) :=
  let! n := isub p.(ttl) k.(tick_) in
  if n <=? 0 then Ok (Connector.drop k.(base) p) else Connector.send k.(base) (p <| ttl := n |>).
End TTLChecker.
