(* ===== verification/ClassifierFacts.v ===== *)
(** * Classifiers: the table

    What the operations of [Classifier] do to the object at every slot. *)

From Stdlib Require Import ZArith Lia Bool.
From stdpp Require Import base list sets.
From S2P Require Import Prelude Classifier.

Module TableFacts.
Import Classifier.

Section table.
Context {Obj : Type} `{EqDecision Obj}.
Implicit Types (b : Classifier.t Obj) (l : list (option Obj)) (o : option Obj).

(** The object at slot [i]. *)
Definition at_ b (i : Z) : option Obj := match slot b i with Ok o => o | Err _ => None end.

(** [l] is the array; above [maxslot_] it is empty. *)
Record array b l : Prop := {
  ar_slots : b.(slot_) = Some l \/ b.(slot_) = None /\ l = [];
  ar_length : Z.of_nat (length l) = b.(nslot_);
  ar_some : b.(slot_) = Some l -> 1 <= b.(nslot_);
  ar_int : b.(nslot_) < 2 ^ 31;
  ar_max : -1 <= b.(maxslot_) < b.(nslot_) \/ b.(maxslot_) = -1;
  ar_above : forall i, b.(maxslot_) < i -> at_ b i = None;
  ar_last : 0 <= b.(maxslot_) -> at_ b b.(maxslot_) <> None;
  ar_size : 0 <= b.(nsize_) < 2 ^ 30
}.

Definition table_ok b : Prop := exists l, array b l.

(** Fields that installing does not change. *)
Definition same_header b b' : Prop :=
  b'.(shift_) = b.(shift_) /\ b'.(mask_) = b.(mask_) /\ b'.(default_target_) = b.(default_target_) /\ b'.(nsize_) = b.(nsize_).

Lemma create_table_ok shift mask : table_ok (create (Obj := Obj) shift mask).
Proof. exists []. split; cbn; try lia; [by right|done|]. intros i _. unfold at_, slot. cbn. by destruct (0 <=? i), (i <? 0) eqn:?; bool_prop; try lia. Qed.

Lemma at_get b l i o : array b l -> aget l i = Ok o -> at_ b i = o.
Proof.
  intros A E. pose proof (aget_lt _ _ _ E). unfold at_, slot. rewrite <- (ar_length _ _ A).
  rewrite (proj2 (Z.leb_le _ _)), (proj2 (Z.ltb_lt _ _)) by lia. cbn [andb].
  destruct (ar_slots _ _ A) as [-> | [_ ->]]; [by cbn; rewrite E|cbn in *; lia].
Qed.

Lemma slot_ok b i : table_ok b -> slot b i = Ok (at_ b i).
Proof.
  intros [l A]. unfold at_, slot. destruct ((0 <=? i) && (i <? b.(nslot_))) eqn:E; [|done]. bool_prop.
  pose proof (ar_length _ _ A). destruct (ar_slots _ _ A) as [-> | [_ ->]]; [|cbn in *; lia].
  cbn [deref res_bind]. destruct (aget_ok l i) as [o ->]; [lia|done].
Qed.

Lemma entry_at b l i : array b l -> 0 <= i < b.(nslot_) -> aget l i = Ok (at_ b i).
Proof.
  intros A Hi. pose proof (ar_length _ _ A). destruct (aget_ok l i) as [o E]; [lia|]. by rewrite (at_get b l i o A E).
Qed.

Lemma at_outside b i : i < 0 \/ b.(nslot_) <= i -> at_ b i = None.
Proof.
  intros Hi. unfold at_, slot. destruct (Z.leb_spec 0 i), (Z.ltb_spec i b.(nslot_)); try done. lia.
Qed.

Lemma array_inj b l l' : array b l -> array b l' -> l = l'.
Proof. intros A A'. destruct (ar_slots _ _ A) as [E|[E ->]], (ar_slots _ _ A') as [E'|[E' ->]]; congruence. Qed.

(** The table of an array. *)
Lemma at_array (l : list (option Obj)) n m sh ma de ns i :
  Z.of_nat (length l) = n -> at_ (Classifier.mk (Some l) n m sh ma de ns) i = match aget l i with Ok o => o | Err _ => None end.
Proof.
  intros Hn. unfold at_, slot. cbn. destruct (Z.leb_spec 0 i), (Z.ltb_spec i n); cbn; try done.
  all: destruct (aget l i) eqn:E; [|done]; pose proof (aget_lt _ _ _ E); lia.
Qed.

Lemma doubled_stop m n fuel : n < m -> doubled (S fuel) m n = Ok m.
Proof. intros H. cbn [doubled]. by rewrite (proj2 (Z.leb_gt _ _)). Qed.

Lemma doubled_once m fuel : 1 <= m < 2 ^ 30 -> doubled (S (S fuel)) m m = Ok (2 * m).
Proof.
  intros H. cbn [doubled]. rewrite Z.leb_refl. unfold imul. rewrite chk_ok by (unfold in_int; lia). cbn [res_bind].
  rewrite (proj2 (Z.leb_gt _ _)) by lia. f_equal. lia.
Qed.

(** The first size of the array. *)
Definition first_size b : Z :=
  match b.(slot_) with None => if b.(nsize_) =? 0 then 32 else b.(nsize_) | Some _ => b.(nslot_) end.

Lemma first_size_bound b l : array b l -> 1 <= first_size b < 2 ^ 31.
Proof.
  intros A. pose proof (ar_size _ _ A). pose proof (ar_some _ _ A). pose proof (ar_int _ _ A). unfold first_size.
  destruct (ar_slots _ _ A) as [E|[E _]]; rewrite E in *; [split; [auto|lia]|]. destruct (Z.eqb_spec b.(nsize_) 0); lia.
Qed.

Lemma alloc_ok b l i n :
  array b l -> doubled 32 (first_size b) i = Ok n -> b.(nslot_) <= n -> 1 <= n < 2 ^ 31 ->
  exists b' l', alloc b i = Ok b' /\ array b' l' /\ b'.(nslot_) = n /\ b'.(maxslot_) = b.(maxslot_) /\ b'.(slot_) = Some l' /\
    same_header b b' /\ forall j, at_ b' j = at_ b j.
Proof.
  intros A Hd Hle Hn. unfold alloc. change (doubled 32 _ i) with (doubled 32 (first_size b) i). rewrite Hd. cbn [res_bind].
  rewrite (proj2 (Z.ltb_ge _ _)) by lia. set (new := replicate (Z.to_nat n) (@None Obj)).
  assert (Z.of_nat (length new) = n) as Hnew by (unfold new; rewrite length_replicate; lia).
  assert (exists l', match b.(slot_) with
      | Some old => for_range 0 b.(nslot_) (fun i new => let! o := aget old i in aset new i o) new
      | None => if 0 <? b.(nslot_) then Err UB else Ok new end = Ok l' /\ Z.of_nat (length l') = n /\
      forall j, 0 <= j < n -> aget l' j = Ok (at_ b j)) as (l' & -> & Hl' & Hg).
  { pose proof (ar_length _ _ A) as Hlen. destruct (ar_slots _ _ A) as [E|[E El]]; rewrite E.
    - destruct (for_range_inv (fun k new => Z.of_nat (length new) = n /\ forall j, 0 <= j < n ->
        aget new j = Ok (if j <? k then at_ b j else None)) 0 b.(nslot_) (fun i new => let! o := aget l i in aset new i o) new)
        as (l' & -> & H1 & H2).
      + lia.
      + split; [done|]. intros j Hj. rewrite (proj2 (Z.ltb_ge j 0)) by lia. by apply aget_replicate.
      + intros k l1 Hk [H1 H2]. rewrite (entry_at b l k A Hk). cbn [res_bind].
        destruct (aset_ok l1 k (at_ b k)) as (l2 & E2 & H3 & H4); [lia|]. exists l2. split; [done|]. split; [by rewrite H3|].
        intros j Hj. rewrite H4. destruct (Z.eqb_spec j k) as [->|Hne]; [by rewrite (proj2 (Z.ltb_lt k (k + 1))) by lia|].
        rewrite H2 by done. do 2 f_equal. destruct (Z.ltb_spec j k), (Z.ltb_spec j (k + 1)); try done; lia.
      + exists l'. split; [done|]. split; [done|]. intros j Hj. rewrite H2 by done. f_equal.
        destruct (Z.ltb_spec j b.(nslot_)); [done|]. symmetry. apply at_outside. lia.
    - rewrite El in Hlen. cbn in Hlen. rewrite <- Hlen. exists new. split; [done|]. split; [done|]. intros j Hj.
      rewrite at_outside by lia. by apply aget_replicate. }
  cbn [res_bind]. eexists _, l'. split; [done|].
  assert (forall j, at_ (b <| slot_ := Some l' |> <| nslot_ := n |>) j = at_ b j) as Hat.
  { intros j. cbn. rewrite at_array by done. destruct (decide (0 <= j < n)) as [Hj|Hj]; [by rewrite Hg|].
    rewrite (at_outside b) by lia. destruct (aget l' j) eqn:E; [|done]. apply aget_lt in E. lia. }
  split; [|by repeat split]. split.
  - by left.
  - exact Hl'.
  - intros _. apply Hn.
  - apply Hn.
  - cbn [maxslot_ nslot_ field_update]. destruct (ar_max _ _ A); cbn; lia.
  - intros j Hj. rewrite Hat. by apply (ar_above _ _ A).
  - intros H0. rewrite Hat. by apply (ar_last _ _ A).
  - apply (ar_size _ _ A).
Qed.

Lemma set_slot_ok b l i o :
  array b l -> b.(slot_) = Some l -> 0 <= i < b.(nslot_) ->
  exists l', set_slot b i o = Ok (b <| slot_ := Some l' |>) /\ Z.of_nat (length l') = b.(nslot_) /\
    forall j, match aget l' j with Ok o => o | Err _ => None end = if j =? i then o else at_ b j.
Proof.
  intros A E Hi. pose proof (ar_length _ _ A). unfold set_slot. rewrite E. cbn [deref res_bind].
  destruct (aset_ok l i o) as (l' & -> & H1 & H2); [lia|]. exists l'. split; [done|]. split; [by rewrite H1|].
  intros j. rewrite H2. destruct (Z.eqb_spec j i) as [->|Hne]; [done|]. destruct (aget l j) as [o'|] eqn:Eg.
  - by rewrite (at_get b l j o' A Eg).
  - destruct (decide (0 <= j < b.(nslot_))) as [Hj|Hj]; [by rewrite (entry_at b l j A Hj) in Eg|]. symmetry. apply at_outside. lia.
Qed.

(** The size of the array after making room for slot [i]. *)
Lemma install_ok b i x :
  table_ok b -> 0 <= i < 2 ^ 30 ->
  exists b', install b i (Some x) = Ok b' /\ table_ok b' /\ b'.(maxslot_) = Z.max b.(maxslot_) i /\ same_header b b' /\
    (forall j, at_ b' j = if j =? i then Some x else at_ b j) /\ (i < b.(nslot_) -> b'.(nslot_) = b.(nslot_)).
Proof.
  intros [l A] Hi. unfold install.
  assert (exists b1 l1, (if b.(nslot_) <=? i then alloc b i else Ok b) = Ok b1 /\ array b1 l1 /\ b1.(slot_) = Some l1 /\
    i < b1.(nslot_) /\ b1.(maxslot_) = b.(maxslot_) /\ same_header b b1 /\ (forall j, at_ b1 j = at_ b j) /\
    (i < b.(nslot_) -> b1.(nslot_) = b.(nslot_))) as (b1 & l1 & -> & A1 & E1 & Hi1 & Hm1 & Hh1 & Hat1 & Hn1).
  { destruct (Z.leb_spec b.(nslot_) i) as [Hge|Hlt].
    - pose proof (first_size_bound b l A). destruct (doubled_above 32 (first_size b) i) as (n & Hd & H1 & H2 & H3);
        [lia..|change (2 ^ Z.of_nat 32) with (2 ^ 32); nia|unfold in_int; lia|].
      destruct (alloc_ok b l i n A Hd) as (b1 & l1 & -> & A1 & Hn & Hm & E1 & Hh & Hat); [lia|unfold in_int in H3; lia|].
      exists b1, l1. split; [done|]. split; [done|]. split; [done|]. split; [lia|]. split; [done|]. split; [exact Hh|]. split; [exact Hat|lia].
    - exists b, l. split; [done|]. split; [done|]. split; [|by repeat split].
      destruct (ar_slots _ _ A) as [|[_ ->]]; [done|]. pose proof (ar_length _ _ A) as Hl. cbn in Hl. lia. }
  cbn [res_bind]. destruct (set_slot_ok b1 l1 i (Some x) A1 E1 ltac:(lia)) as (l' & -> & Hl' & Hg). cbn [res_bind].
  assert (forall j m, at_ (b1 <| slot_ := Some l' |> <| maxslot_ := m |>) j = if j =? i then Some x else at_ b j) as Hat.
  { intros j m. cbn. rewrite at_array by done. by rewrite Hg, Hat1. }
  set (b' := if maxslot_ (b1 <| slot_ := Some l' |>) <=? i then _ else _).
  assert (b' = b1 <| slot_ := Some l' |> <| maxslot_ := Z.max b.(maxslot_) i |>) as Eb.
  { unfold b'. change (maxslot_ (b1 <| slot_ := Some l' |>)) with (maxslot_ b1). rewrite Hm1. destruct (Z.leb_spec b.(maxslot_) i) as [H|H].
    - by rewrite Z.max_r by lia.
    - rewrite Z.max_l by lia. rewrite <- Hm1. by destruct b1. }
  exists b'. rewrite Eb. split; [done|]. split; [|].
  - exists l'. split.
    + by left.
    + exact Hl'.
    + intros _. cbn. lia.
    + apply (ar_int _ _ A1).
    + left. cbn. destruct (ar_max _ _ A1); lia.
    + intros j Hj. rewrite Hat. cbn in Hj. rewrite (proj2 (Z.eqb_neq j i)) by lia. apply (ar_above _ _ A). lia.
    + intros _. rewrite Hat. cbn [maxslot_ field_update]. cbn. destruct (Z.max_spec b.(maxslot_) i) as [[H ->]|[H ->]]; [by rewrite Z.eqb_refl|].
      destruct (Z.eqb_spec b.(maxslot_) i); [done|]. apply (ar_last _ _ A). lia.
    + apply (ar_size _ _ A1).
  - split; [done|]. split; [exact Hh1|]. split; [intros j; apply Hat|exact Hn1].
Qed.
(** ** Clearing *)

Lemma lower_ok fuel l m :
  m <= Z.of_nat fuel -> 0 <= m <= Z.of_nat (length l) ->
  exists m', lower fuel l 0 m = Ok m' /\ (-1 <= m' < m) /\ (forall j, m' < j < m -> aget l j = Ok None) /\
    (0 <= m' -> exists x, aget l m' = Ok (Some x)).
Proof.
  revert m. induction fuel as [|fuel IH]; intros m Hf Hm; cbn [lower]; destruct (Z.ltb_spec (m - 1) 0) as [H|H].
  1,3: exists (m - 1); split; [done|]; split; [lia|]; split; [intros; lia|lia].
  { lia. }
  destruct (aget_ok l (m - 1)) as [[x|] E]; [lia|..]; rewrite E; cbn [res_bind].
  - exists (m - 1). split; [done|]. split; [lia|]. split; [intros; lia|by exists x].
  - destruct (IH (m - 1)) as (m' & -> & H1 & H2 & H3); [lia..|]. exists m'. split; [done|]. split; [lia|]. split; [|done].
    intros j Hj. destruct (Z.eq_dec j (m - 1)) as [->|]; [done|]. apply H2. lia.
Qed.

Lemma used_slot b l i : array b l -> at_ b i <> None -> 0 <= i <= b.(maxslot_) /\ i < b.(nslot_) /\ b.(slot_) = Some l.
Proof.
  intros A Hi. assert (0 <= i < b.(nslot_)) as Hr.
  { destruct (decide (0 <= i < b.(nslot_))) as [|Hout]; [done|]. exfalso. apply Hi, at_outside. lia. }
  assert (i <= b.(maxslot_)). { destruct (Z.le_gt_cases i b.(maxslot_)); [done|]. exfalso. by apply Hi, (ar_above _ _ A). }
  split; [lia|]. split; [lia|]. destruct (ar_slots _ _ A) as [|[_ ->]]; [done|]. pose proof (ar_length _ _ A) as Hl. cbn in Hl. lia.
Qed.

Lemma clear_ok b i :
  table_ok b -> at_ b i <> None ->
  exists b', clear b i = Ok b' /\ table_ok b' /\ same_header b b' /\ forall j, at_ b' j = if j =? i then None else at_ b j.
Proof.
  intros [l A] Hi. destruct (used_slot b l i A Hi) as (Hr & Hn & E). unfold clear, clear_above.
  destruct (set_slot_ok b l i None A E ltac:(lia)) as (l' & -> & Hl' & Hg). cbn [res_bind].
  assert (forall j m, at_ (b <| slot_ := Some l' |> <| maxslot_ := m |>) j = if j =? i then None else at_ b j) as Hat.
  { intros j m. cbn. by rewrite at_array. }
  assert (forall m, -1 <= m <= b.(maxslot_) -> (forall j, m < j -> j <> i -> at_ b j = None) -> (0 <= m -> m <> i /\ at_ b m <> None) ->
    table_ok (b <| slot_ := Some l' |> <| maxslot_ := m |>)) as Hok.
  { intros m Hm Hab Hla. pose proof (ar_max _ _ A). exists l'. split; [by left|exact Hl'|intros _; cbn; lia|apply (ar_int _ _ A)|left; cbn; lia| | |apply (ar_size _ _ A)].
    - intros j Hj. rewrite Hat. cbn in Hj. destruct (Z.eqb_spec j i); [done|by apply Hab].
    - intros H0. rewrite Hat. cbn in *. destruct (Hla H0) as [H1 H2]. by rewrite (proj2 (Z.eqb_neq m i)). }
  change (maxslot_ (b <| slot_ := Some l' |>)) with (maxslot_ b). destruct (Z.eqb_spec i b.(maxslot_)) as [->|Hne].
  - change (slot_ (b <| slot_ := Some l' |>)) with (Some l'). cbn [deref res_bind].
    destruct (lower_ok (length l') l' b.(maxslot_)) as (m & -> & H1 & H2 & H3); [lia..|]. cbn [res_bind].
    eexists. split; [done|]. split; [|split; [by repeat split|intros j; apply Hat]]. apply Hok; [lia|..].
    + intros j Hj Hne. destruct (decide (j < b.(maxslot_))) as [Hlt|]; [|apply (ar_above _ _ A); lia].
      specialize (Hg j). rewrite (H2 j) in Hg by lia. by rewrite (proj2 (Z.eqb_neq _ _) Hne) in Hg.
    + intros H0. destruct (H3 H0) as [x Ex]. split; [lia|]. specialize (Hg m). rewrite Ex in Hg.
      rewrite (proj2 (Z.eqb_neq m _)) in Hg by lia. congruence.
  - exists (b <| slot_ := Some l' |>). split; [done|]. specialize (Hok b.(maxslot_)). 
    assert (b <| slot_ := Some l' |> <| maxslot_ := b.(maxslot_) |> = b <| slot_ := Some l' |>) as Eb by (by destruct b).
    rewrite Eb in Hok. split; [|split; [by repeat split|intros j; rewrite <- Eb; apply Hat]]. apply Hok; [lia|..].
    + intros j Hj _. by apply (ar_above _ _ A).
    + intros H0. split; [done|by apply (ar_last _ _ A)].
Qed.

(** ** A free slot *)

Lemma free_slot_ok l na i :
  exists k, free_slot l na i = i + Z.of_nat k /\ (k <= length l)%nat /\ (forall j o, (j < k)%nat -> l !! j = Some o -> o <> None) /\
    forall o, l !! k = Some o -> o = None \/ o = na.
Proof.
  revert i. induction l as [|o l IH]; intros i; cbn [free_slot].
  { exists 0%nat. split; [cbn; lia|]. split; [done|]. split; [lia|done]. }
  destruct (bool_decide (o = None) || bool_decide (o = na)) eqn:E.
  - exists 0%nat. split; [cbn; lia|]. split; [cbn; lia|]. split; [lia|]. intros o' [= <-].
    apply orb_true_iff in E as [E|E]; apply bool_decide_eq_true in E; auto.
  - destruct (IH (i + 1)) as (k & -> & H1 & H2 & H3). exists (S k). split; [lia|]. split; [cbn; lia|]. split; [|done].
    intros [|j] o' Hj Ho; [|by apply (H2 j o'); [lia|]]. injection Ho as <-. apply orb_false_iff in E as [E _].
    by apply bool_decide_eq_false in E.
Qed.

Lemma getnxt_ok b na :
  table_ok b -> b.(nslot_) < 2 ^ 30 ->
  exists b' i, getnxt b na = Ok (b', i) /\ table_ok b' /\ same_header b b' /\ b'.(maxslot_) = b.(maxslot_) /\
    (forall j, at_ b' j = at_ b j) /\ 0 <= i < b'.(nslot_) /\ (at_ b i = None \/ at_ b i = na) /\
    (forall j, 0 <= j < i -> at_ b j <> None) /\
    (b' = b \/ i = b.(nslot_) /\ (b'.(nslot_) = 2 * i \/ i = 0 /\ b'.(nslot_) = first_size b)).
Proof.
  intros [l A] Hn. pose proof (ar_length _ _ A) as Hlen. unfold getnxt, getnxt_from. cbn [Z.ltb Z.compare].
  assert (match b.(slot_) with Some l => drop (Z.to_nat 0) l | None => [] end = l) as ->.
  { destruct (ar_slots _ _ A) as [-> | [-> ->]]; done. }
  destruct (free_slot_ok l na 0) as (k & -> & Hk & Hused & Hfree). rewrite Z.add_0_l.
  assert (forall j, 0 <= j < Z.of_nat k -> at_ b j <> None) as Hall.
  { intros j Hj. apply (Hused (Z.to_nat j)); [lia|]. pose proof (entry_at b l j A ltac:(lia)) as E. unfold aget in E.
    rewrite (proj2 (Z.ltb_ge j 0)) in E by lia. by apply deref_Ok in E. }
  destruct (Z.ltb_spec (Z.of_nat k) b.(nslot_)) as [Hlt|Hge].
  - exists b, (Z.of_nat k). split; [done|]. split; [by exists l|]. split; [by repeat split|]. split; [done|]. split; [done|].
    split; [lia|]. split; [|split; [done|by left]]. apply Hfree. pose proof (entry_at b l (Z.of_nat k) A ltac:(lia)) as E. unfold aget in E.
    rewrite (proj2 (Z.ltb_ge _ 0)) in E by lia. apply deref_Ok in E. by rewrite Nat2Z.id in E.
  - assert (Z.of_nat k = b.(nslot_)) as Ek by lia. pose proof (first_size_bound b l A) as Hf.
    assert (exists n, doubled 32 (first_size b) b.(nslot_) = Ok n /\ b.(nslot_) < n < 2 ^ 31 /\
      (n = 2 * b.(nslot_) \/ b.(nslot_) = 0 /\ n = first_size b)) as (n & Hd & Hb & Hcase).
    { destruct (ar_slots _ _ A) as [E|[E El]].
      - assert (first_size b = b.(nslot_)) as Ef by (unfold first_size; by rewrite E). rewrite Ef in *.
        exists (2 * b.(nslot_)). split; [apply doubled_once; lia|]. split; [lia|by left].
      - rewrite El in Hlen. cbn in Hlen. exists (first_size b). split; [apply doubled_stop; lia|]. split; [lia|]. right. lia. }
    destruct (alloc_ok b l _ n A Hd) as (b' & l' & -> & A' & En & Em & _ & Hh & Hat); [lia..|]. cbn [res_bind].
    exists b', b.(nslot_). split; [done|]. split; [by exists l'|]. split; [done|]. split; [done|]. split; [done|]. split; [lia|].
    split; [left; apply at_outside; lia|]. split; [intros j Hj; apply Hall; lia|]. right. split; [done|]. rewrite En. lia.
Qed.
End table.
End TableFacts.
