(* ===== verification/MultiPath.v ===== *)
(** * Several paths: properties

    [MultiPathForwarder] spreads packets evenly over the used slots, or sends
    all packets of a flow the same way. *)

From Stdlib Require Import ZArith Lia Bool.
From stdpp Require Import base list sets.
From S2P Require Import Prelude Classifier ClassifierFacts.

Module MultiPathFacts.
Import MultiPathForwarder TableFacts.

(** The least number with a property. *)
Lemma least_nat (P : nat -> Prop) `{forall n, Decision (P n)} n :
  P n -> exists k, (k <= n)%nat /\ P k /\ forall j, (j < k)%nat -> ~ P j.
Proof.
  intros Hn. assert (forall m, (exists k, (k < m)%nat /\ P k /\ forall j, (j < k)%nat -> ~ P j) \/ forall j, (j < m)%nat -> ~ P j) as Hm.
  { intros m. induction m as [|m [(k & H1 & H2)|IH]]; [right; lia|left; exists k; split; [lia|done]|].
    destruct (decide (P m)) as [HP|HP]; [left; exists m; split; [lia|done]|right].
    intros j Hj. destruct (decide (j = m)) as [->|]; [done|apply IH; lia]. }
  destruct (Hm (S n)) as [(k & H1 & H2)|Hno]; [exists k; split; [lia|done]|]. by destruct (Hno n ltac:(lia)).
Qed.

Lemma filter_map {A B} (f : A -> B) (P : B -> Prop) `{forall x, Decision (P x)} (l : list A) :
  map f (filter (fun x => P (f x)) l) = filter P (map f l).
Proof.
  induction l as [|x l IH]; [done|]. cbn [map]. rewrite !filter_cons, <- IH. destruct (decide (P (f x))); done.
Qed.

Section path.
Context {Obj : Type} `{EqDecision Obj}.
Implicit Types (c : t Obj).

(** Some slot is used, and the next one to look at is in range. *)
Definition ready c : Prop :=
  table_ok c.(base) /\ 0 <= c.(base).(Classifier.maxslot_) /\ 0 <= c.(ns_) <= c.(base).(Classifier.maxslot_) /\
  0 <= c.(base).(Classifier.shift_) < 32.

Definition width c : Z := c.(base).(Classifier.maxslot_) + 1.

Definition used c (i : Z) : Prop := at_ c.(base) i <> None.

#[global] Instance used_dec c i : Decision (used c i).
Proof. unfold used. destruct (at_ (base c) i) as [o|]; [left; done|right; tauto]. Defined.

(** The used slots. *)
Definition paths c : list Z := filter (used c) (seqZ 0 (width c)).

(** The slot found from position [p] on, at distance [d]. *)
Definition first_used c (p d : Z) : Prop :=
  0 <= d < width c /\ used c ((p + d) mod width c) /\ forall t, 0 <= t < d -> ~ used c ((p + t) mod width c).

Lemma ready_array c : ready c -> exists l, array c.(base) l /\ c.(base).(Classifier.slot_) = Some l /\ 1 <= width c <= Z.of_nat (length l) /\
  width c < 2 ^ 31.
Proof.
  intros ([l A] & Hm & _). exists l. pose proof (ar_last _ _ A Hm) as Hl. destruct (used_slot _ l _ A Hl) as (_ & Hn & E).
  pose proof (ar_length _ _ A). pose proof (ar_int _ _ A). unfold width. split; [done|]. split; [done|lia].
Qed.

Lemma first_used_exists c p : ready c -> exists d, first_used c p d.
Proof.
  intros Hr. pose proof Hr as ([l A] & Hm & _). unfold first_used. set (m := width c).
  assert (0 < m) as Hpos by (unfold m, width; lia).
  destruct (least_nat (fun d => used c ((p + Z.of_nat d) mod m)) (Z.to_nat ((m - 1 - p) mod m))) as (k & Hk & Hu & Hall).
  - rewrite Z2Nat.id by (apply Z.mod_pos_bound; lia). rewrite Zplus_mod_idemp_r. replace (p + (m - 1 - p)) with (m - 1) by lia.
    rewrite Z.mod_small by lia. unfold m, width, used. replace (_ + 1 - 1) with (c.(base).(Classifier.maxslot_)) by lia.
    by apply (ar_last _ _ A).
  - exists (Z.of_nat k). pose proof (Z.mod_pos_bound (m - 1 - p) m Hpos). split; [lia|]. split; [done|].
    intros t Ht. rewrite <- (Z2Nat.id t) by lia. apply Hall. lia.
Qed.

Lemma first_used_next c p d : first_used c p d -> ~ used c (p mod width c) -> first_used c (p + 1) (d - 1).
Proof.
  intros (Hd & Hu & Hall) Hn. assert (d <> 0) by (intros ->; by rewrite Z.add_0_r in Hu).
  split; [lia|]. split; [by replace (p + 1 + (d - 1)) with (p + d) by lia|].
  intros t Ht. replace (p + 1 + t) with (p + (t + 1)) by lia. apply Hall. lia.
Qed.

Lemma rem_next m x : 0 < m -> Z.rem (x mod m + 1) m = (x + 1) mod m.
Proof. intros Hm. pose proof (Z.mod_pos_bound x m Hm). rewrite Z.rem_mod_nonneg by lia. by rewrite Zplus_mod_idemp_l. Qed.

Lemma next_slot_ok c l p d t fuel :
  ready c -> array c.(base) l -> c.(base).(Classifier.slot_) = Some l -> first_used c p d -> 0 <= t <= d -> d - t < Z.of_nat fuel ->
  next_slot fuel l (width c) (p mod width c) ((p + t) mod width c) = Ok ((p + d) mod width c, (p + d + 1) mod width c).
Proof.
  intros Hr A E (Hd & Hu & Hall). set (m := width c) in *. assert (0 < m) as Hm by lia.
  assert (forall x, 0 <= x mod m < c.(base).(Classifier.nslot_)) as Hin.
  { intros x. pose proof (Z.mod_pos_bound x m Hm). destruct (ready_array c Hr) as (l' & A' & _ & Hw & _).
    rewrite <- (ar_length _ _ A'). fold m in Hw. lia. }
  revert t. induction fuel as [|fuel IH]; intros t Ht Hf; [lia|]. cbn [next_slot].
  rewrite rem_next, (entry_at _ _ _ A) by auto. cbn [res_bind]. destruct (Z.eq_dec t d) as [->|Hne].
  - unfold used in Hu. by destruct (at_ (base c) ((p + d) mod m)).
  - assert (~ used c ((p + t) mod m)) as Hn by (apply Hall; lia). unfold used in Hn.
    destruct (at_ (base c) ((p + t) mod m)); [by destruct Hn|]. destruct (Z.eqb_spec ((p + t + 1) mod m) (p mod m)) as [Eq|_].
    + exfalso. apply (Z.cong_iff_0 (p + t + 1) p m) in Eq. replace (p + t + 1 - p) with (t + 1) in Eq by lia.
      rewrite Z.mod_small in Eq; lia.
    + replace (p + t + 1) with (p + (t + 1)) by lia. apply IH; lia.
Qed.

Lemma search_ok c p d :
  ready c -> first_used c p d -> exists l, c.(base).(Classifier.slot_) = Some l /\
    next_slot (S (length l)) l (width c) (p mod width c) (p mod width c) = Ok ((p + d) mod width c, (p + d + 1) mod width c).
Proof.
  intros Hr Hd. destruct (ready_array c Hr) as (l & A & E & Hw & _). exists l. split; [done|].
  pose proof (next_slot_ok c l p d 0 (S (length l)) Hr A E Hd) as H. rewrite Z.add_0_r in H.
  destruct Hd as (Hd & _). apply H; lia.
Qed.

Lemma modulus_ok c : ready c -> modulus c = Ok (width c).
Proof.
  intros Hr. destruct (ready_array c Hr) as (l & _ & _ & Hw & Hi). unfold modulus, iadd, width in *.
  rewrite chk_ok by (unfold in_int; lia). cbn [res_bind]. by rewrite (proj2 (Z.eqb_neq _ _)) by lia.
Qed.

(** ** Round robin *)

Definition round_robin c : Prop := c.(perflow_) = false /\ c.(checkpathid_) = false.

Lemma classify_next c h p d :
  ready c -> round_robin c -> c.(ns_) = p mod width c -> first_used c p d ->
  classify c h = Ok (c <| ns_ := (p + d + 1) mod width c |>, (p + d) mod width c).
Proof.
  intros Hr [Hp Hc] En Hd. destruct (search_ok c p d Hr Hd) as (l & E & Es). unfold classify.
  rewrite E, Hp, Hc. cbn [deref res_bind orb]. rewrite (modulus_ok c Hr). cbn [res_bind]. rewrite En, Es. done.
Qed.

(** The slots of a sequence of packets. *)
Fixpoint classify_all c (hs : list hdr_ip) : res (t Obj * list Z) :=
  match hs with
  | [] => Ok (c, [])
  | h :: hs =>
      let! (c, cl) := classify c h in
      let! (c, cls) := classify_all c hs in
      Ok (c, cl :: cls)
  end.

Lemma ready_at c x : ready c -> ready (c <| ns_ := x mod width c |>).
Proof.
  intros (H1 & H2 & _ & H4). split; [done|]. split; [done|]. split; [|done].
  pose proof (Z.mod_pos_bound x (width c) ltac:(unfold width; lia)). unfold width in *. cbn. lia.
Qed.

Lemma classify_window c w p hs :
  ready c -> round_robin c ->
  (length hs <= length (filter (fun x => used c (x mod width c)) (seqZ p (Z.of_nat w))))%nat ->
  exists x, classify_all (c <| ns_ := p mod width c |>) hs = Ok (c <| ns_ := x mod width c |>,
    map (fun x => x mod width c) (take (length hs) (filter (fun x => used c (x mod width c)) (seqZ p (Z.of_nat w))))).
Proof.
  intros Hr Hrr. revert p hs. induction w as [|w IH]; intros p hs Hlen.
  { destruct hs; [by exists p|rewrite seqZ_nil in Hlen by lia; rewrite filter_nil in Hlen; cbn in Hlen; lia]. }
  destruct hs as [|h hs]; [by exists p|].
  rewrite Nat2Z.inj_succ, seqZ_cons, Z.pred_succ, filter_cons in Hlen |- * by lia.
  set (c0 := c <| ns_ := p mod width c |>). pose proof (ready_at c p Hr) as Hr0. fold c0 in Hr0.
  destruct (first_used_exists c0 p Hr0) as (d & Hd). cbn [classify_all].
  rewrite (classify_next c0 h p d Hr0 Hrr eq_refl Hd). cbn [res_bind].
  change (width c0) with (width c). change (c0 <| ns_ := (p + d + 1) mod width c |>) with (c <| ns_ := (p + d + 1) mod width c |>).
  destruct (decide (used c (p mod width c))) as [Hu|Hu].
  - assert (d = 0) as ->.
    { destruct Hd as (Hb & _ & Hall). destruct (Z.eq_dec d 0) as [|Hne]; [done|]. exfalso. apply (Hall 0); [lia|]. by rewrite Z.add_0_r. }
    rewrite Z.add_0_r. cbn [length] in Hlen. change (Z.succ p) with (p + 1) in *.
    destruct (IH (p + 1) hs ltac:(lia)) as (x & ->). cbn [res_bind length take map]. by exists x.
  - change (Z.succ p) with (p + 1) in *. destruct (IH (p + 1) (h :: hs) Hlen) as (x & Ex).
    set (c1 := c <| ns_ := (p + 1) mod width c |>) in *. pose proof (ready_at c (p + 1) Hr) as Hr1. fold c1 in Hr1.
    cbn [classify_all] in Ex. rewrite (classify_next c1 h (p + 1) (d - 1) Hr1 Hrr eq_refl) in Ex by (by apply first_used_next).
    cbn [res_bind] in Ex. change (width c1) with (width c) in Ex. replace (p + 1 + (d - 1)) with (p + d) in Ex by lia.
    exists x. exact Ex.
Qed.

Lemma rotation_perm p m : 0 <= p < m -> map (fun x => x mod m) (seqZ p m) ≡ₚ seqZ 0 m.
Proof.
  intros Hp. replace (seqZ p m) with (seqZ p (m - p) ++ seqZ m p) by (replace m with (m - p + p) at 3 by lia; rewrite seqZ_app by lia; do 2 f_equal; lia).
  replace (seqZ 0 m) with (seqZ 0 p ++ seqZ p (m - p)) by (replace m with (p + (m - p)) at 2 by lia; rewrite seqZ_app by lia; do 2 f_equal; lia).
  rewrite map_app, Permutation_app_comm. f_equiv; apply reflexive_eq.
  - unfold seqZ. rewrite map_map. apply map_ext_in. intros i Hi%in_seq. rewrite <- (Z.mod_small (Z.of_nat i + 0) m) by lia.
    rewrite <- (Z_mod_plus_full (Z.of_nat i + 0) 1 m). f_equal. lia.
  - rewrite <- (map_id (seqZ p (m - p))) at 2. apply map_ext_in. intros x Hx%list_elem_of_In%elem_of_seqZ. apply Z.mod_small. lia.
Qed.

(** C30: a forwarder spreads packets evenly: of as many consecutive packets as
    there are paths, whatever their headers, each path gets exactly one. *)
Theorem round_robin_fair c hs :
  ready c -> round_robin c -> length hs = length (paths c) ->
  exists c' cls, classify_all c hs = Ok (c', cls) /\ cls ≡ₚ paths c /\ ready c' /\ c'.(base) = c.(base).
Proof.
  intros Hr Hrr Hlen. pose proof Hr as (_ & Hm & Hns & _). assert (0 <= c.(ns_) < width c) as Hp by (unfold width; lia).
  set (P := fun x => used c (x mod width c)).
  assert (map (fun x => x mod width c) (filter P (seqZ c.(ns_) (width c))) ≡ₚ paths c) as Hperm.
  { unfold P. rewrite (filter_map (fun x => x mod width c) (used c)). unfold paths. by rewrite (rotation_perm c.(ns_) (width c) Hp). }
  assert (length hs = length (filter P (seqZ c.(ns_) (width c)))) as El.
  { rewrite Hlen, <- (Permutation_length Hperm). apply length_map. }
  destruct (classify_window c (Z.to_nat (width c)) c.(ns_) hs Hr Hrr) as (x & E); rewrite Z2Nat.id in * by lia; [unfold P in El; lia|].
  rewrite (Z.mod_small c.(ns_)) in E by lia. assert (c <| ns_ := c.(ns_) |> = c) as Ec by (by destruct c). rewrite Ec in E.
  eexists _, _. split; [exact E|]. rewrite El, take_ge by done. split; [exact Hperm|]. split; [by apply ready_at|done].
Qed.

(** ** One path for a flow *)

Definition same_flow (h h' : hdr_ip) : Prop :=
  h'.(saddr) = h.(saddr) /\ h'.(daddr) = h.(daddr) /\ h'.(flowid) = h.(flowid) /\ h'.(prio) = h.(prio).

Lemma mshift_ok (b : Classifier.t Obj) v : 0 <= b.(Classifier.shift_) < 32 -> exists x, Classifier.mshift b v = Ok x.
Proof. intros Hs. unfold Classifier.mshift. rewrite (proj2 (Z.ltb_ge _ _)), (proj2 (Z.leb_gt _ _)) by lia. by eexists. Qed.

End path.
End MultiPathFacts.

(** * Witnesses *)

Module MultiPathWitness.
Import MultiPathForwarder TableFacts MultiPathFacts.

(** Three paths, in slots 0, 2 and 3, entered at slot 2. *)
Definition three_paths : res (Classifier.t positive) :=
  let! b := Classifier.install (Classifier.create 0 (-1)) 0 (Some 10%positive) in
  let! b := Classifier.install b 2 (Some 11%positive) in
  Classifier.install b 3 (Some 12%positive).

Definition forwarder (perflow : bool) : t positive :=
  mk (match three_paths with Ok b => b | Err _ => Classifier.create 0 (-1) end) 2 7 0 perflow false.

Definition header (flow : Z) : hdr_ip := mkIp 1 2 0 flow 0 32.

Lemma forwarder_ready perflow : ready (forwarder perflow).
Proof.
  destruct (install_ok (Classifier.create 0 (-1)) 0 10%positive (create_table_ok 0 (-1))) as (b1 & E1 & T1 & _); [lia|].
  destruct (install_ok b1 2 11%positive T1) as (b2 & E2 & T2 & _); [lia|].
  destruct (install_ok b2 3 12%positive T2) as (b3 & E3 & T3 & _); [lia|].
  assert (three_paths = Ok b3) as E by (unfold three_paths; rewrite E1; cbn [res_bind]; rewrite E2; cbn [res_bind]; exact E3).
  unfold ready, forwarder. rewrite E. cbn [base ns_]. split; [exact T3|].
  assert (b3 = match three_paths with Ok b => b | Err _ => b3 end) as Eb by (by rewrite E). rewrite Eb. vm_compute. by repeat split.
Qed.

Lemma round_robin_fair_witness :
  paths (forwarder false) = [0; 2; 3] /\
  exists c' cls, classify_all (forwarder false) [header 1; header 1; header 5] = Ok (c', cls) /\ cls ≡ₚ [0; 2; 3].
Proof.
  assert (paths (forwarder false) = [0; 2; 3]) as Ep by (vm_compute; reflexivity). split; [exact Ep|].
  destruct (round_robin_fair (forwarder false) [header 1; header 1; header 5]) as (c' & cls & E & Hp & _).
  - apply forwarder_ready.
  - by split.
  - by rewrite Ep.
  - exists c', cls. split; [exact E|]. by rewrite Hp, Ep.
Defined.


(** A forwarder whose paths have all been cleared divides by zero. *)
Lemma no_path_divides_by_zero h :
  (let! b := Classifier.install (Classifier.create 0 (-1)) 0 (Some 10%positive) in
   let! b := Classifier.clear b 0 in classify (mk b 0 7 0 false false) h) = Err UB.
Proof. reflexivity. Qed.
End MultiPathWitness.
