(* ===== verification/Forward.v ===== *)
(** * Nodes and forwarding

    [Node] (src/ns2/common/node.cc) with its chain of [RoutingModule]s
    (routing/rtmodule.cc), and [Simulator] (common/simulator.cc), which fills
    the classifiers of all nodes with the routes of [RouteLogic].

    [link_head] stands for the Tcl procedure get-link-head. *)

From Stdlib Require Import ZArith Lia Bool.
From stdpp Require Import base list.
From S2P Require Import Prelude Route Classifier.

(** * Routing modules *)

Module RoutingModule.
Section module.
Context {H Obj : Type} `{TclHash H} `{EqDecision Obj}.

(** A chain of modules, linked by [next_rtm_]: their classifiers. *)
Definition chain := list (option (HashClassifier.t H Obj)).

Definition route_notify (ms : chain) (rtm : option (HashClassifier.t H Obj)) : chain := ms ++ [rtm].

Fixpoint add_route (ms : chain) (dst : Z) (target : option Obj) : res chain :=
  match ms with
  | [] => Ok []
  | classifier_ :: next_rtm_ =>
      let! classifier_ := match classifier_ with
                          | Some c => let! c := HashClassifier.do_install c dst target in Ok (Some c)
                          | None => Ok None
                          end in
      let! next_rtm_ := add_route next_rtm_ dst target in
      Ok (classifier_ :: next_rtm_)
  end.

(** The next modules are told to add the route to [nullagent]. *)
Definition delete_route (ms : chain) (dst : Z) (nullagent : option Obj) : res chain :=
  match ms with
  | [] => Ok []
  | classifier_ :: next_rtm_ =>
      let! classifier_ := match classifier_ with
                          | Some c => let! c := HashClassifier.do_install c dst nullagent in Ok (Some c)
                          | None => Ok None
                          end in
      let! next_rtm_ := add_route next_rtm_ dst nullagent in
      Ok (classifier_ :: next_rtm_)
  end.

(** [Classifier::set_table_size], which the hash classifiers do not override:
    it is not virtual. *)
Definition set_table_size (ms : chain) (nn : Z) : chain :=
  map (option_map (fun c => c <| HashClassifier.base := Classifier.set_table_size c.(HashClassifier.base) nn |>)) ms.
End module.
Arguments chain H Obj : clear implicits.
End RoutingModule.

(** * Nodes *)

Module Node.
Record t (H Obj : Type) := mk { nodeid_ : Z; rtnotif_ : RoutingModule.chain H Obj }.
Arguments mk {H Obj}. Arguments nodeid_ {H Obj}. Arguments rtnotif_ {H Obj}.

#[global] Instance eta_t {H Obj} : Eta (t H Obj) := fun n => mk (nodeid_ n) (rtnotif_ n).

Section node.
Context {H Obj : Type} `{TclHash H} `{EqDecision Obj}.

Definition route_notify (n : t H Obj) (rtm : option (HashClassifier.t H Obj)) : t H Obj :=
  n <| rtnotif_ := RoutingModule.route_notify n.(rtnotif_) rtm |>.

Definition add_route (n : t H Obj) (dst : Z) (target : option Obj) : res (t H Obj) :=
  let! ms := RoutingModule.add_route n.(rtnotif_) dst target in Ok (n <| rtnotif_ := ms |>).

Definition delete_route (n : t H Obj) (dst : Z) (nullagent : option Obj) : res (t H Obj) :=
  let! ms := RoutingModule.delete_route n.(rtnotif_) dst nullagent in Ok (n <| rtnotif_ := ms |>).

Definition set_table_size (n : t H Obj) (nn : Z) : t H Obj :=
  n <| rtnotif_ := RoutingModule.set_table_size n.(rtnotif_) nn |>.
End node.
End Node.

(** * The simulator *)

Module Simulator.
Record t (H Obj : Type) := mk {
  nodelist_ : option (list (option (Node.t H Obj)));
  rtobject_ : option RouteLogic.t;
  nn_ : Z;
  size_ : Z
}.
Arguments mk {H Obj}. Arguments nodelist_ {H Obj}. Arguments rtobject_ {H Obj}. Arguments nn_ {H Obj}. Arguments size_ {H Obj}.

#[global] Instance eta_t {H Obj} : Eta (t H Obj) := fun s => mk (nodelist_ s) (rtobject_ s) (nn_ s) (size_ s).

Definition SMALL_LEN : Z := 32.

Section simulator.
Context {H Obj : Type} `{TclHash H} `{EqDecision Obj}.

Context (link_head : Z -> Z -> option Obj).

Definition create : t H Obj := mk None None 0 0.

(** [alloc] and the copy of the old list. *)
Definition check (s : t H Obj) (n : Z) : res (t H Obj) :=
  if n <? s.(size_) then Ok s
  else
    let osize := s.(size_) in
    let! m := doubled 32 (if osize =? 0 then SMALL_LEN else osize) n in
    let new := replicate (Z.to_nat m) None in
    let! new := for_range 0 osize (fun i new =>
                  let! old := deref s.(nodelist_) in
                  let! o := aget old i in aset new i o) new in
    Ok (s <| nodelist_ := Some new |> <| size_ := m |>).

Definition set_node (s : t H Obj) (i : Z) (node : Node.t H Obj) : res (t H Obj) :=
  let! l := deref s.(nodelist_) in
  let! l := aset l i (Some node) in
  Ok (s <| nodelist_ := Some l |>).

(** The list of SMALL_LEN entries made for the first node is replaced by
    [check]. *)
Definition add_node (s : t H Obj) (node : Node.t H Obj) (id : Z) : res (t H Obj) :=
  let! s := check s id in set_node s id node.

(** The routes of node [i]. *)
Definition populate_node (s : t H Obj) (i : Z) (node : Node.t H Obj) : res (Node.t H Obj) :=
  for_range 0 s.(nn_) (fun j node =>
    if i =? j then Ok node
    else
      let! rt := deref s.(rtobject_) in
      let! nh := RouteLogic.lookup_flat rt i j in
      if 0 <=? nh then Node.add_route node j (link_head node.(Node.nodeid_) nh) else Ok node)
    (Node.set_table_size node s.(nn_)).

(** The loop over the nodes.  At an empty entry [i] is incremented twice. *)
Fixpoint populate_from (fuel : nat) (s : t H Obj) (i : Z) : res (t H Obj) :=
  if i <? s.(nn_) then
    match fuel with
    | O => Err Fuel
    | S fuel =>
        let! l := deref s.(nodelist_) in
        let! node := aget l i in
        match node with
        | None => populate_from fuel s (i + 1 + 1)
        | Some node =>
            let! node := populate_node s i node in
            let! s := set_node s i node in
            populate_from fuel s (i + 1)
        end
    end
  else Ok s.

Definition populate_flat_classifiers (s : t H Obj) : res (t H Obj) :=
  match s.(nodelist_) with
  | None => Ok s
  | Some _ => let! s := check s s.(nn_) in populate_from (Z.to_nat s.(nn_)) s 0
  end.
End simulator.
End Simulator.
