(* ===== verification/ForwardProps.v ===== *)
(** * Forwarding: properties

    A destination classifier is a map from addresses to objects; the
    simulator fills the classifiers of all nodes with the computed routes; so
    a packet travels over a cheapest path, as far as its time to live goes. *)

From Stdlib Require Import ZArith Lia Bool.
From stdpp Require Import base list gmap.
From S2P Require Import Prelude F64 Route RouteProps Classifier ClassifierFacts Forward.

(** ** The destination classifier *)

Module DestHash.
Import HashClassifier TableFacts.

Section dest.
Context {H Obj : Type} `{TclHashLaws H} `{EqDecision Obj}.
Implicit Types (c : t H Obj) (f : Z -> option Obj).

(** The addresses are node numbers, which the mask keeps as they are. *)
Definition address (d : Z) : Prop := 0 <= d < 32767.

Definition plain (b : Classifier.t Obj) : Prop := forall d, address d -> Classifier.mshift b d = Ok d.

(** [f] is what the classifier sends packets to; it has had [k] routes. *)
Record maps c f (k : Z) : Prop := {
  mp_class : c.(class) = Dest;
  mp_table : table_ok c.(base);
  mp_plain : plain c.(base);
  mp_default : c.(default_) < 0;
  mp_size : c.(base).(Classifier.nsize_) <= 32767;
  mp_count : c.(base).(Classifier.maxslot_) < k;
  mp_room : c.(base).(Classifier.nslot_) <= 65536;
  mp_find : forall d, address d ->
    match f d with
    | Some o => exists s, th_find c.(ht_) [d] = Some s /\ at_ c.(base) s = Some o
    | None => th_find c.(ht_) [d] = None
    end
}.

Lemma plain_header b b' : same_header b b' -> plain b -> plain b'.
Proof. intros (E1 & E2 & _) Hp d Hd. rewrite <- (Hp d Hd). unfold Classifier.mshift. by rewrite E1, E2. Qed.

(** A destination classifier is a map: installing a route changes the
    object of that destination and of no other, although destinations share
    slots and the table grows. *)
Lemma dest_install_ok c f k d o :
  maps c f k -> address d -> k < 32767 ->
  exists c', do_install c d (Some o) = Ok c' /\ maps c' (fun x => if x =? d then Some o else f x) (k + 1).
Proof.
  intros M Hd Hk. pose proof (mp_room _ _ _ M) as Hroom. pose proof (mp_count _ _ _ M) as Hcount.
  unfold do_install. destruct (getnxt_ok c.(base) (Some o) (mp_table _ _ _ M)) as
    (b1 & i & -> & T1 & Hh1 & Hm1 & Hat1 & Hi & Hfree & Hused & Hcase); [lia|]. cbn [res_bind].
  assert (i <= c.(base).(Classifier.maxslot_) + 1) as Himax.
  { destruct (Z.eq_dec i 0) as [->|]; [|]; destruct (mp_table _ _ _ M) as [l A].
    - destruct (ar_max _ _ A); lia.
    - destruct (used_slot _ l (i - 1) A) as (Hle & _); [apply Hused; lia|lia]. }
  destruct (install_ok b1 i o T1 ltac:(lia)) as (b2 & -> & T2 & Hm2 & Hh2 & Hat2 & Hn2). cbn [res_bind].
  assert (same_header (base c) b2) as Hh.
  { destruct Hh1 as (A1 & A2 & A3 & A4), Hh2 as (B1 & B2 & B3 & B4). repeat split; congruence. }
  pose proof (plain_header _ _ Hh (mp_plain _ _ _ M)) as Hplain.
  unfold set_hash, hashkey. cbn [base class field_update]. cbn. rewrite (mp_class _ _ _ M), (Hplain d Hd). cbn [res_bind].
  eexists. split; [done|]. split; cbn.
  - done.
  - done.
  - done.
  - apply (mp_default _ _ _ M).
  - destruct Hh as (_ & _ & _ & ->). apply (mp_size _ _ _ M).
  - lia.
  - rewrite Hn2 by lia. destruct Hcase as [->|(-> & [->|[_ ->]])]; [done|lia|]. pose proof (mp_size _ _ _ M).
    unfold first_size. destruct (Classifier.slot_ (base c)); [lia|]. destruct (_ =? 0); lia.
  - intros x Hx. rewrite th_find_set. destruct (Z.eqb_spec x d) as [->|Hne].
    + rewrite decide_True by done. exists i. split; [done|]. by rewrite Hat2, Z.eqb_refl.
    + rewrite decide_False by congruence. pose proof (mp_find _ _ _ M x Hx) as Hf. destruct (f x) as [o'|]; [|done].
      destruct Hf as (s & Es & Ho). exists s. split; [done|]. rewrite Hat2, Hat1.
      destruct (Z.eqb_spec s i) as [->|]; [|done]. destruct Hfree as [E|E]; congruence.
Qed.

#[global] Instance hash_classify (unknown_flow : t H Obj -> hdr_ip -> res (t H Obj)) : Classify (t H Obj) Obj :=
  { table := base; classify := classify unknown_flow }.

Lemma dest_find_ok unknown no_slot c f k o p :
  maps c f k -> address p.(daddr) -> 0 <= p.(saddr) < 32767 -> f p.(daddr) = Some o ->
  Find.find (H := hash_classify unknown) no_slot c p = Ok (c, Some o).
Proof.
  intros M Hd Hs Ef. pose proof (mp_find _ _ _ M _ Hd) as Hf. rewrite Ef in Hf. destruct Hf as (s & Es & Ho).
  destruct (mp_table _ _ _ M) as [l A]. destruct (used_slot _ l s A) as (Hle & _); [congruence|].
  assert (lookup c p = Ok s) as El.
  { unfold lookup, get_hash, hashkey. rewrite (mp_class _ _ _ M), (mp_plain _ _ _ M _ Hs). cbn [res_bind].
    rewrite (mp_plain _ _ _ M _ Hd). cbn [res_bind]. rewrite (mp_plain _ _ _ M _ Hd). cbn [res_bind]. by rewrite Es. }
  assert (classify unknown c p = Ok (c, s)) as Ec.
  { unfold classify. rewrite El. cbn [res_bind]. by rewrite (proj2 (Z.leb_le 0 s)), (proj2 (Z.leb_le s _)) by lia. }
  unfold Find.find. cbn [Classifier.classify table hash_classify]. rewrite Ec. cbn [res_bind].
  by rewrite (slot_ok _ _ (mp_table _ _ _ M)), Ho.
Qed.
End dest.
End DestHash.

(** ** Filling the classifiers *)

Module ForwardProps.
Import DestHash.

Section forward.
Context {H Obj : Type} `{TclHashLaws H} `{EqDecision Obj}.
Implicit Types (c : HashClassifier.t H Obj) (s : Simulator.t H Obj).

Lemma maps_ext c f f' k k' : maps c f k -> k <= k' -> (forall d, address d -> f' d = f d) -> maps c f' k'.
Proof. intros [M1 M2 M3 M4 M5 M6 M7 M8] Hk Hf. split; try done; [lia|]. intros d Hd. rewrite Hf by done. by apply M8. Qed.

(** A new classifier, as the base routing module has it. *)
Definition fresh c : Prop :=
  exists shift mask, c = HashClassifier.create HashClassifier.Dest shift mask (-1) /\
    forall d, address d -> Classifier.mshift (Classifier.create (Obj := Obj) shift mask) d = Ok d.

Lemma fresh_maps c nn :
  fresh c -> 0 <= nn <= 32767 ->
  maps (c <| HashClassifier.base := Classifier.set_table_size c.(HashClassifier.base) nn |>) (fun _ => None) 0.
Proof.
  intros (shift & mask & -> & Hp) Hnn. split; cbn; try done; try lia.
  - exists []. split; cbn; try done; try lia; [by right|]. intros i _. unfold TableFacts.at_, Classifier.slot. cbn.
    destruct (Z.leb_spec 0 i), (Z.ltb_spec i 0); try done; lia.
  - intros d _. apply th_find_empty.
Qed.

Context (rt : RouteLogic.t) (link_head : Z -> Z -> option Obj) (nn : Z).
Hypothesis Hnn : 0 <= nn <= 32767.

(** The routes: each next hop is the end of a link with a head. *)
Hypothesis Hroutes : forall i j, 0 <= i < nn -> 0 <= j < nn -> i <> j ->
  exists nh, RouteLogic.lookup_flat rt i j = Ok nh /\ (nh < 0 \/ is_Some (link_head i nh)).

Definition route_of (i d : Z) : option Obj :=
  if (i =? d) || (nn <=? d) then None
  else match RouteLogic.lookup_flat rt i d with Ok nh => if 0 <=? nh then link_head i nh else None | Err _ => None end.

(** A node that has a new classifier; and one with all its routes. *)
Definition new_node (i : Z) (n : Node.t H Obj) : Prop := exists c, fresh c /\ n = Node.mk i [Some c].
Definition routed_node (i : Z) (n : Node.t H Obj) : Prop := exists c k, maps c (route_of i) k /\ n = Node.mk i [Some c].

Lemma populate_node_ok s i n :
  s.(Simulator.rtobject_) = Some rt -> s.(Simulator.nn_) = nn -> 0 <= i < nn -> new_node i n ->
  exists n', Simulator.populate_node link_head s i n = Ok n' /\ routed_node i n'.
Proof.
  intros Ert Enn Hi (c & Hc & ->). unfold Simulator.populate_node. rewrite Ert, Enn.
  set (f := fun j d => if d <? j then route_of i d else None).
  match goal with |- context [for_range 0 nn ?body ?init] =>
    destruct (for_range_inv (fun j n => exists c, maps c (f j) j /\ n = Node.mk i [Some c]) 0 nn body init) as (n' & -> & c' & Hc' & ->) end.
  - lia.
  - eexists. split; [|done]. eapply maps_ext; [by apply fresh_maps|done|]. intros d Hd. unfold f, address in *.
    by rewrite (proj2 (Z.ltb_ge d 0)) by lia.
  - intros j n Hj (cj & Hcj & ->).
    assert (forall d, d <> j -> f (j + 1) d = f j d) as Hother.
    { intros d Hne. unfold f. destruct (Z.ltb_spec d (j + 1)), (Z.ltb_spec d j); try done; lia. }
    assert (f j j = None) as Ejj by (unfold f; by rewrite Z.ltb_irrefl).
    assert (f (j + 1) j = route_of i j) as Ej by (unfold f; by rewrite (proj2 (Z.ltb_lt j (j + 1))) by lia).
    assert (route_of i j = None -> exists c, maps c (f (j + 1)) (j + 1) /\ Node.mk i [Some cj] = Node.mk i [Some c]) as Hskip.
    { intros En. exists cj. split; [|done]. eapply maps_ext; [exact Hcj|lia|]. intros d Hd. destruct (Z.eq_dec d j) as [->|]; [congruence|by apply Hother]. }
    unfold route_of in Hskip. rewrite (proj2 (Z.leb_gt nn j)), orb_false_r in Hskip by lia.
    destruct (Z.eqb_spec i j) as [->|Hne]; [exists (Node.mk j [Some cj]); split; [done|by apply Hskip]|].
    destruct (Hroutes i j Hi Hj Hne) as (nh & Enh & Hnh). cbn [deref res_bind].
    rewrite Enh in Hskip |- *. cbn [res_bind].
    destruct (Z.leb_spec 0 nh) as [Hpos|Hneg]; [|exists (Node.mk i [Some cj]); split; [done|by apply Hskip]].
    destruct Hnh as [|[o Eo]]; [lia|]. cbn [Node.nodeid_]. unfold Node.add_route. cbn [Node.rtnotif_ RoutingModule.add_route]. rewrite Eo.
    destruct (dest_install_ok cj (f j) j j o Hcj) as (c1 & -> & Hc1); [unfold address; lia|lia|]. cbn [res_bind].
    eexists. split; [done|]. exists c1. split; [|done]. eapply maps_ext; [exact Hc1|done|]. intros d Hd. cbn.
    destruct (Z.eqb_spec d j) as [->|Hd']; [|by apply Hother]. rewrite Ej. unfold route_of.
    rewrite (proj2 (Z.eqb_neq i j)), (proj2 (Z.leb_gt nn j)) by lia. cbn [orb]. rewrite Enh, (proj2 (Z.leb_le 0 nh)) by lia. done.
  - exists (Node.mk i [Some c']). split; [done|]. exists c', nn. split; [|done]. eapply maps_ext; [exact Hc'|done|]. intros d Hd.
    unfold f. destruct (Z.ltb_spec d nn) as [|Hge]; [done|]. unfold route_of. by rewrite (proj2 (Z.leb_le nn d)), orb_true_r by lia.
Qed.

(** The entry of the list of nodes. *)
Definition node_at s (i : Z) : option (Node.t H Obj) :=
  match s.(Simulator.nodelist_) with Some l => match aget l i with Ok o => o | Err _ => None end | None => None end.

(** The list has the size the simulator says. *)
Definition listed s : Prop :=
  exists l, s.(Simulator.nodelist_) = Some l /\ Z.of_nat (length l) = s.(Simulator.size_) /\ 1 <= s.(Simulator.size_) < 2 ^ 31.

Lemma check_nodes_ok s n :
  listed s -> 0 <= n < 2 ^ 30 ->
  exists s', Simulator.check s n = Ok s' /\ listed s' /\ (forall i, node_at s' i = node_at s i) /\
    s'.(Simulator.rtobject_) = s.(Simulator.rtobject_) /\ s'.(Simulator.nn_) = s.(Simulator.nn_).
Proof.
  intros (l & El & Hlen & Hsz) Hn. unfold Simulator.check. destruct (Z.ltb_spec n s.(Simulator.size_)) as [Hlt|Hge].
  { exists s. split; [done|]. split; [by exists l|done]. }
  rewrite (proj2 (Z.eqb_neq _ 0)) by lia. destruct (doubled_above 32 s.(Simulator.size_) n) as (m & -> & G1 & G2 & G3);
    [lia|lia|change (2 ^ Z.of_nat 32) with (2 ^ 32); lia|unfold in_int; lia|]. cbn [res_bind].
  set (osize := s.(Simulator.size_)) in *. unfold in_int in G3.
  match goal with |- context [for_range 0 osize ?body ?init] =>
    destruct (for_range_inv (fun k new => Z.of_nat (length new) = m /\ forall j, 0 <= j < m ->
      aget new j = Ok (if j <? k then node_at s j else None)) 0 osize body init) as (l' & -> & H4 & H5) end.
  - lia.
  - split; [rewrite length_replicate; lia|]. intros j Hj. rewrite (proj2 (Z.ltb_ge j 0)) by lia. by apply aget_replicate.
  - intros k l1 Hk [H4 H5]. rewrite El. cbn [deref res_bind]. destruct (aget_ok l k) as [o Eo]; [lia|]. rewrite Eo. cbn [res_bind].
    destruct (aset_ok l1 k o) as (l2 & -> & H6 & H7); [lia|]. exists l2. split; [done|]. split; [by rewrite H6|].
    intros j Hj. rewrite H7. destruct (Z.eqb_spec j k) as [->|Hne].
    + rewrite (proj2 (Z.ltb_lt k (k + 1))) by lia. unfold node_at. by rewrite El, Eo.
    + rewrite H5 by done. do 2 f_equal. destruct (Z.ltb_spec j k), (Z.ltb_spec j (k + 1)); try done; lia.
  - cbn [res_bind]. eexists. split; [done|]. split; [exists l'; cbn; split; [done|lia]|]. split; [|done].
    intros i. unfold node_at at 1. cbn. destruct (decide (0 <= i < m)) as [Hi|Hi].
    + rewrite H5 by done. destruct (Z.ltb_spec i osize) as [|Hge']; [done|]. unfold node_at. rewrite El.
      destruct (aget l i) eqn:E; [|done]. apply aget_lt in E. lia.
    + assert (forall (l : list (option (Node.t H Obj))), Z.of_nat (length l) <= m -> match aget l i with Ok o => o | Err _ => None end = None) as Hout.
      { intros l0 Hl0. destruct (aget l0 i) eqn:E; [|done]. apply aget_lt in E. lia. }
      rewrite Hout by lia. unfold node_at. rewrite El. symmetry. apply Hout. lia.
Qed.

Lemma populate_from_ok fuel s k :
  listed s -> s.(Simulator.rtobject_) = Some rt -> s.(Simulator.nn_) = nn -> 0 <= k <= nn -> nn - k <= Z.of_nat fuel ->
  (forall i, k <= i < nn -> exists n, node_at s i = Some n /\ new_node i n) ->
  exists s', Simulator.populate_from link_head fuel s k = Ok s' /\
    (forall i, k <= i < nn -> exists n, node_at s' i = Some n /\ routed_node i n) /\ forall i, i < k -> node_at s' i = node_at s i.
Proof.
  revert s k. induction fuel as [|fuel IH]; intros s k Hl Ert Enn Hk Hf Hnew; cbn [Simulator.populate_from]; rewrite Enn.
  { rewrite (proj2 (Z.ltb_ge k nn)) by lia. exists s. split; [done|]. split; [intros; lia|done]. }
  destruct (Z.ltb_spec k nn) as [Hlt|Hge]; [|exists s; split; [done|]; split; [intros; lia|done]].
  destruct (Hnew k ltac:(lia)) as (n & En & Hn). pose proof Hl as (l & El & Hlen & Hsz). rewrite El. cbn [deref res_bind].
  unfold node_at in En. rewrite El in En. destruct (aget l k) as [o|] eqn:Eo; [|done]. rewrite En. cbn [res_bind].
  destruct (populate_node_ok s k n Ert Enn ltac:(lia) Hn) as (n' & -> & Hn'). cbn [res_bind].
  unfold Simulator.set_node. rewrite El. cbn [deref res_bind]. pose proof (aget_lt _ _ _ Eo) as Hkl.
  destruct (aset_ok l k (Some n') Hkl) as (l' & -> & H4 & H5). cbn [res_bind].
  set (s1 := s <| Simulator.nodelist_ := Some l' |>).
  assert (forall i, node_at s1 i = if i =? k then Some n' else node_at s i) as Hat.
  { intros i. unfold node_at, s1. cbn. rewrite H5, El. by destruct (i =? k). }
  destruct (IH s1 (k + 1)) as (s' & E & H6 & H7).
  - exists l'. split; [done|]. rewrite H4. done.
  - done.
  - done.
  - lia.
  - lia.
  - intros i Hi. rewrite Hat, (proj2 (Z.eqb_neq i k)) by lia. apply Hnew. lia.
  - exists s'. split; [exact E|]. split.
    + intros i Hi. destruct (Z.eq_dec i k) as [->|Hne]; [|apply H6; lia]. exists n'. split; [|done].
      rewrite H7 by lia. by rewrite Hat, Z.eqb_refl.
    + intros i Hi. rewrite H7 by lia. by rewrite Hat, (proj2 (Z.eqb_neq i k)) by lia.
Qed.

Lemma populate_ok s :
  listed s -> s.(Simulator.rtobject_) = Some rt -> s.(Simulator.nn_) = nn ->
  (forall i, 0 <= i < nn -> exists n, node_at s i = Some n /\ new_node i n) ->
  exists s', Simulator.populate_flat_classifiers link_head s = Ok s' /\
    forall i, 0 <= i < nn -> exists n, node_at s' i = Some n /\ routed_node i n.
Proof.
  intros Hl Ert Enn Hnew. unfold Simulator.populate_flat_classifiers. pose proof Hl as (l & El & _). rewrite El, Enn.
  destruct (check_nodes_ok s nn Hl ltac:(lia)) as (s1 & -> & Hl1 & Hat & Er1 & En1). cbn [res_bind].
  destruct (populate_from_ok (Z.to_nat nn) s1 0) as (s' & E & Hr & _); [done|congruence|congruence|lia|lia| |].
  - intros i Hi. rewrite Hat. by apply Hnew.
  - rewrite En1, Enn. by exists s'.
Qed.

(** ** The way of a packet *)

(** The Tcl commands for packets without a slot or of an unknown flow, and
    the node at the end of a link. *)
Context (unknown_flow : HashClassifier.t H Obj -> hdr_ip -> res (HashClassifier.t H Obj)).
Context (no_slot : HashClassifier.t H Obj -> Z -> res (HashClassifier.t H Obj)).
Context (far : Obj -> Z).
Hypothesis Hfar : forall i h o, link_head i h = Some o -> far o = h.

(** The checker of the time to live at the end of a link. *)
Definition link_end (o : Obj) : TTLChecker.t Z := TTLChecker.mk (Connector.mk (Some (far o)) None) 1.

(** The nodes a packet visits after node [i], and the packet that arrives, if
    one does. *)
Fixpoint travel (fuel : nat) s (i : Z) (p : hdr_ip) : res (list Z * option hdr_ip) :=
  if i =? p.(daddr) then Ok ([], Some p)
  else
    match fuel with
    | O => Err Fuel
    | S fuel =>
        let! n := deref (node_at s i) in
        let! m := deref (list.head n.(Node.rtnotif_)) in
        let! c := deref m in
        let! (_, out) := Find.recv (H := hash_classify unknown_flow) no_slot c p in
        match out with
        | Freed _ => Ok ([], None)
        | Sent o p =>
            let! out := TTLChecker.recv (link_end o) p in
            match out with
            | Freed _ => Ok ([], None)
            | Sent h p => let! (hs, r) := travel fuel s h p in Ok (h :: hs, r)
            end
        end
    end.

Lemma travel_step fuel s i p nh o :
  (exists n, node_at s i = Some n /\ routed_node i n) -> 0 <= i < nn -> i <> p.(daddr) -> 0 <= p.(daddr) < nn -> address p.(saddr) ->
  0 <= p.(ttl) < 2 ^ 31 -> RouteLogic.lookup_flat rt i p.(daddr) = Ok nh -> 0 <= nh -> link_head i nh = Some o ->
  travel (S fuel) s i p =
    if p.(ttl) <=? 1 then Ok ([], None)
    else let! (hs, r) := travel fuel s nh (p <| ttl := p.(ttl) - 1 |>) in Ok (nh :: hs, r).
Proof.
  intros (n & En & c & k & Hc & ->) Hi Hne Hd Hs Ht El Hnh Eo. cbn [travel]. rewrite (proj2 (Z.eqb_neq _ _) Hne), En.
  cbn [deref res_bind Node.rtnotif_ list.head]. unfold Find.recv.
  rewrite (dest_find_ok unknown_flow no_slot c (route_of i) k o p Hc); [|unfold address; lia|done|].
  - cbn [res_bind]. unfold TTLChecker.recv, link_end. cbn [TTLChecker.tick_ TTLChecker.base].
    rewrite isub_ok by (unfold in_int; lia). cbn [res_bind]. rewrite (Hfar i nh o Eo).
    destruct (Z.leb_spec (p.(ttl) - 1) 0), (Z.leb_spec p.(ttl) 1); try lia; done.
  - unfold route_of. rewrite (proj2 (Z.eqb_neq i _) Hne), (proj2 (Z.leb_gt nn _)) by lia. cbn [orb].
    by rewrite El, (proj2 (Z.leb_le 0 nh)).
Qed.

(** A packet follows the journey of the routes, one hop for each unit of its
    time to live. *)
Lemma travel_journey fuel s i p hs :
  (forall i, 0 <= i < nn -> exists n, node_at s i = Some n /\ routed_node i n) ->
  (forall i h, is_Some (link_head i h) -> 0 <= h < nn) ->
  0 <= i < nn -> 0 <= p.(daddr) < nn -> address p.(saddr) -> 0 <= p.(ttl) < 2 ^ 31 ->
  RouteProps.journey fuel rt i p.(daddr) = Ok (Some hs) ->
  if Z.of_nat (length hs) <? Z.max 1 p.(ttl)
  then travel fuel s i p = Ok (hs, Some (p <| ttl := p.(ttl) - Z.of_nat (length hs) |>))
  else travel fuel s i p = Ok (take (Z.to_nat (p.(ttl) - 1)) hs, None).
Proof.
  intros Hall Hhead. revert i p hs. induction fuel as [|fuel IH]; intros i p hs Hi Hd Hs Ht; cbn [RouteProps.journey];
    destruct (Z.eqb_spec i p.(daddr)) as [Ei|Hne]; try done.
  1,2: intros [= <-]; cbn [length]; rewrite (proj2 (Z.ltb_lt _ _)) by lia; cbn [travel]; rewrite (proj2 (Z.eqb_eq _ _) Ei);
    do 3 f_equal; rewrite Z.sub_0_r; by destruct p.
  destruct (Hroutes i p.(daddr) Hi Hd Hne) as (nh & El & Hnh). rewrite El. cbn [res_bind].
  destruct (Z.ltb_spec nh 0) as [|Hpos]; [done|]. destruct Hnh as [|[o Eo]]; [lia|].
  destruct (RouteProps.journey fuel rt nh p.(daddr)) as [[hs'|]|] eqn:EJ; cbn [res_bind option_map]; [|done..].
  intros [= <-]. rewrite (travel_step fuel s i p nh o (Hall i Hi) Hi Hne Hd Hs Ht El Hpos Eo). cbn [length].
  destruct (Z.leb_spec p.(ttl) 1) as [Hlast|Hmore].
  - rewrite (proj2 (Z.ltb_ge _ _)) by lia. by replace (Z.to_nat (p.(ttl) - 1)) with 0%nat by lia.
  - set (p' := p <| ttl := p.(ttl) - 1 |>).
    specialize (IH nh p' hs' (Hhead i nh (ex_intro _ o Eo)) Hd Hs ltac:(cbn; lia) EJ). change (ttl p') with (p.(ttl) - 1) in IH.
    destruct (Z.ltb_spec (Z.of_nat (length hs')) (Z.max 1 (p.(ttl) - 1))), (Z.ltb_spec (Z.of_nat (S (length hs'))) (Z.max 1 p.(ttl))); try lia;
      rewrite IH; cbn [res_bind].
    + do 3 f_equal. cbn. f_equal. lia.
    + replace (Z.to_nat (p.(ttl) - 1)) with (S (Z.to_nat (p.(ttl) - 1 - 1))) by lia. done.
Qed.
End forward.

Import RouteProps.

(** C4: packets reach their destinations over cheapest paths: when the links
    of a network are inserted, the routes computed, and the classifiers of the
    nodes filled, a packet that some path of cost below INFINITY could carry
    goes over a path of least cost, and arrives unless that path has as many
    hops as its time to live, which then ends its way. *)
Theorem network_delivers {H Obj : Type} `{TclHashLaws H} `{EqDecision Obj}
    (unknown_flow : HashClassifier.t H Obj -> hdr_ip -> res (HashClassifier.t H Obj))
    (no_slot : HashClassifier.t H Obj -> Z -> res (HashClassifier.t H Obj))
    (link_head : Z -> Z -> option Obj) (far : Obj -> Z) (nn : Z) (tp : topology) (s : Simulator.t H Obj) :
  whole tp -> 0 <= nn <= 32767 ->
  (forall i h c, link tp i h = Some c -> is_Some (link_head i h)) ->
  (forall i h o, link_head i h = Some o -> far o = h /\ 0 <= h < nn) ->
  listed s -> s.(Simulator.nn_) = nn -> (forall i, 0 <= i < nn -> exists n, node_at s i = Some n /\ new_node i n) ->
  exists q rt, build RouteLogic.create tp = Ok q /\ RouteLogic.command_compute q = Ok rt /\
    exists s', Simulator.populate_flat_classifiers link_head (s <| Simulator.rtobject_ := Some rt |>) = Ok s' /\
      forall i p, 0 <= i < nn -> 0 <= p.(daddr) < nn -> i <> p.(daddr) -> 0 <= p.(saddr) < nn -> 0 <= p.(ttl) < 2 ^ 31 ->
        (exists hs c, path tp i hs p.(daddr) c /\ c < 16383) ->
        exists hs d, path tp i hs p.(daddr) d /\ (forall hs' c, path tp i hs' p.(daddr) c -> d <= c) /\
          travel unknown_flow no_slot far (Z.to_nat 16383) s' i p =
            if Z.of_nat (length hs) <? p.(ttl)
            then Ok (hs, Some (p <| ttl := p.(ttl) - Z.of_nat (length hs) |>))
            else Ok (take (Z.to_nat (p.(ttl) - 1)) hs, None).
Proof.
  intros Htp Hnn Hhead Hfar Hl Enn Hnew. destruct (topology_routes tp Htp) as (q & rt & Eq & Ert & Hr).
  exists q, rt. split; [done|]. split; [done|].
  assert (forall i j, 0 <= i < nn -> 0 <= j < nn -> i <> j ->
    exists nh, RouteLogic.lookup_flat rt i j = Ok nh /\ (nh < 0 \/ is_Some (link_head i nh))) as Hroutes.
  { intros i j Hi Hj Hne. destruct (Hr i j ltac:(lia) ltac:(lia) Hne) as [(nh & E & [Hneg|[c Ec]]) _];
      exists nh; (split; [done|]); [by left|right; by apply (Hhead i nh c)]. }
  destruct (populate_ok rt link_head nn Hnn Hroutes (s <| Simulator.rtobject_ := Some rt |>)) as (s' & Es & Hs'); [done|done|done|exact Hnew|].
  exists s'. split; [exact Es|]. intros i p Hi Hd Hne Hsrc Ht (hs0 & c0 & Hp0 & Hc0).
  destruct (Hr i p.(daddr) ltac:(lia) ltac:(lia) Hne) as [_ [(hs & d & EJ & Hp & _ & Hleast)|[_ Hnone]]]; [|pose proof (Hnone _ _ Hp0); lia].
  exists hs, d. split; [exact Hp|]. split; [exact Hleast|].
  pose proof (travel_journey rt link_head nn Hnn Hroutes unknown_flow no_slot far (fun i h o E => proj1 (Hfar i h o E))
    (Z.to_nat 16383) s' i p hs Hs') as HT.
  assert (1 <= Z.of_nat (length hs)) as Hlen by (destruct hs; [inversion Hp; lia|cbn; lia]).
  assert ((Z.of_nat (length hs) <? p.(ttl)) = (Z.of_nat (length hs) <? Z.max 1 p.(ttl))) as -> by (apply eq_true_iff_eq; rewrite !Z.ltb_lt; lia).
  destruct (Z.of_nat (length hs) <? Z.max 1 p.(ttl)); apply HT; try done; try (unfold address; lia); intros i' h [o Eo]; by apply (Hfar i' h o).
Qed.
End ForwardProps.

(** * Witnesses *)

Module ForwardWitness.
Import RouteProps ForwardProps.

Abbreviation hash := (gmap (list Z) Z).

Definition head_of (tp : topology) (i h : Z) : option (Z * Z) := match link tp i h with Some _ => Some (i, h) | None => None end.

(** A node as a script makes it, with the mask of flat addresses. *)
Definition base_node (i : Z) : Node.t hash (Z * Z) :=
  Node.route_notify (Node.mk i []) (Some (HashClassifier.create HashClassifier.Dest 0 (2 ^ 30 - 1) (-1))).

Definition six_nodes : Simulator.t hash (Z * Z) :=
  Eval vm_compute in
  match for_range 0 6 (fun i s => Simulator.add_node s (base_node i) i) Simulator.create with
  | Ok s => s <| Simulator.nn_ := 6 |>
  | Err _ => Simulator.create
  end.

Definition filled : Simulator.t hash (Z * Z) :=
  match Simulator.populate_flat_classifiers (head_of RouteWitness.spine_leaf) (six_nodes <| Simulator.rtobject_ := Some RouteWitness.routed |>) with
  | Ok s => s
  | Err _ => six_nodes
  end.

Definition exits {A B} (a : A) (b : B) : res A := Err Abort.

Definition packet : hdr_ip := mkIp 0 1 0 0 0 32.

Lemma link_spine_leaf i h c : link RouteWitness.spine_leaf i h = Some c -> 0 <= h < 6.
Proof.
  intros E%link_in. unfold RouteWitness.spine_leaf in E.
  repeat (apply elem_of_cons in E as [[= -> -> ->]|E]; [lia|]). by apply elem_of_nil in E.
Qed.

Lemma network_delivers_witness :
  travel exits exits snd (Z.to_nat 16383) filled 0 packet = Ok ([2; 4; 3; 1], Some (packet <| ttl := 28 |>)) /\
  exists hs d, path RouteWitness.spine_leaf 0 hs 1 d /\ (forall hs' c, path RouteWitness.spine_leaf 0 hs' 1 c -> d <= c) /\
    travel exits exits snd (Z.to_nat 16383) filled 0 packet = Ok (hs, Some (packet <| ttl := 32 - Z.of_nat (length hs) |>)).
Proof.
  assert (travel exits exits snd (Z.to_nat 16383) filled 0 packet = Ok ([2; 4; 3; 1], Some (packet <| ttl := 28 |>))) as ET
    by (vm_compute; reflexivity).
  split; [exact ET|].
  destruct (network_delivers (H := hash) exits exits (head_of RouteWitness.spine_leaf) snd 6 RouteWitness.spine_leaf six_nodes)
    as (q & rt & Eq & Ert & s' & Es & Ht).
  - by repeat constructor.
  - lia.
  - intros i h c E. unfold head_of. rewrite E. by eexists.
  - intros i h o. unfold head_of. destruct (link RouteWitness.spine_leaf i h) as [c|] eqn:E; [|done]. intros [= <-].
    split; [done|]. by apply (link_spine_leaf i h c).
  - eexists. split; [reflexivity|]. split; [reflexivity|]. split; [by apply Z.leb_le|by apply Z.ltb_lt].
  - reflexivity.
  - assert (forall d, DestHash.address d ->
      Classifier.mshift (Classifier.create (Obj := Z * Z) 0 (2 ^ 30 - 1)) d = Ok d) as Hplain.
    { intros d Hd. unfold DestHash.address in Hd. unfold Classifier.mshift. cbn [Classifier.create Classifier.shift_ Classifier.mask_ Z.ltb Z.leb Z.compare orb].
      f_equal. rewrite Z.shiftr_0_r. replace (2 ^ 30 - 1) with (Z.ones 30) by reflexivity. rewrite Z.land_ones by lia. apply Z.mod_small. lia. }
    intros i Hi. assert (i = 0 \/ i = 1 \/ i = 2 \/ i = 3 \/ i = 4 \/ i = 5) as Hc by lia.
    destruct Hc as [->|[->|[->|[->|[->| ->]]]]]; (eexists; split; [reflexivity|]; eexists; split; [|reflexivity];
      exists 0, (2 ^ 30 - 1); split; [reflexivity|exact Hplain]).
  - assert (RouteWitness.routed = rt) as Er by (unfold RouteWitness.routed; rewrite Eq; cbn [res_bind]; by rewrite Ert).
    assert (filled = s') as Ef by (unfold filled; by rewrite Er, Es).
    destruct (Ht 0 packet) as (hs & d & Hp & Hleast & E); [cbn; lia..| |].
    { exists [2; 4; 3; 1], 4. split; [|lia]. change 4 with (1 + (1 + (1 + (1 + 0)))).
      repeat (apply path_hop; [reflexivity|]). apply path_here. }
    exists hs, d. split; [exact Hp|]. split; [exact Hleast|]. rewrite <- Ef in E. rewrite ET in E |- *.
    destruct (Z.ltb_spec (Z.of_nat (length hs)) (ttl packet)) as [|Hge]; [exact E|discriminate E].
Defined.

(** The node after an empty entry of the list gets no routes: of nodes 1 and 2
    (there is no node 0) only node 2 knows the way to the other. *)
Lemma gap_skips_node :
  exists q s s', build RouteLogic.create [(1, 2, 1); (2, 1, 1)] = Ok q /\
    (let! rt := RouteLogic.command_compute q in
     let! s := Simulator.add_node (Simulator.create <| Simulator.rtobject_ := Some rt |>) (base_node 1) 1 in
     let! s := Simulator.add_node s (base_node 2) 2 in Ok (s <| Simulator.nn_ := 3 |>)) = Ok s /\
    Simulator.populate_flat_classifiers (fun i h => Some (i, h)) s = Ok s' /\
    travel exits exits snd 9 s' 2 (mkIp 2 1 0 0 0 32) = Ok ([1], Some (mkIp 2 1 0 0 0 31)) /\
    travel exits exits snd 9 s' 1 (mkIp 1 2 0 0 0 32) = Err Abort.
Proof. eexists _, _, _. split; [vm_compute; reflexivity|]. split; [vm_compute; reflexivity|]. split; [vm_compute; reflexivity|]. by split; vm_compute. Qed.

(** A packet's address is shifted and masked once more than that of an
    installed route: with a shift the route is not found. *)
Lemma route_shifted_twice :
  exists c c', c = HashClassifier.create (H := hash) (Obj := Z) HashClassifier.Dest 1 (2 ^ 30 - 1) (-1) /\
    HashClassifier.do_install c 2 (Some 9) = Ok c' /\
    HashClassifier.classify exits c' (mkIp 0 2 0 0 0 32) = Ok (c', -1).
Proof. eexists _, _. split; [reflexivity|]. split; [vm_compute; reflexivity|]. vm_compute. reflexivity. Qed.
End ForwardWitness.
